(* ===== verification/_CoqProject ===== *)
-Q . S2P
Prelude.v
Externals.v
Concrete.v
Domain.v
Policy.v
Crypto.v
Enrollment.v
DomView.v
DomViewProps.v
Gateway.v
GatewayProps.v
GatewayWaits.v
AuditChain.v
Capability.v
Provider.v
Keychain.v
Table.v
Store.v
StoreProps.v
StoreTypes.v
Migrations.v
MigrationsProps.v
OAuth.v
Protocol.v
Framing.v
FramingProps.v
BrokerState.v
Broker.v
Admin.v
Ui.v
Pages.v
Wire.v
Handshake.v
Bridge.v
BridgeProps.v
Server.v
BrokerSteps.v
ServerProps.v
ServerSessions.v
Agreement.v
BrokerProps.v
UiProps.v
UiSecrets.v
PagesProps.v
BrokerMint.v
UiGrants.v
BrokerRuns.v
Daemon.v
DaemonRuns.v
Installation.v
ProcessLogic.v
KeyFacts.v
Startup.v
Cli.v
KeyProps.v
Rotation.v
CommandProps.v
CliErrors.v
AdminClient.v
CliAdmin.v
AdminAgreement.v
HostInstall.v
HostProps.v
Launcher.v
LauncherProps.v
Desktop.v
DesktopProps.v
DesktopWatch.v
DesktopDecisions.v
BrokerExample.v
PagesExample.v
UiExample.v
ServerExample.v
CliExample.v
DesktopExample.v
HostExample.v
LauncherExample.v
