(* ===== verification/Prelude.v ===== *)
(** * secretctl: a verification library

    secretctl lets an AI agent log in to web sites without seeing a secret. A
    broker (the daemon [secretctld]) holds the policy, the audit log, the
    database and the connection to the secret providers; an agent asks it for an
    action on a page; policy and, where it says so, the user decide; the broker
    then mints a signed capability that an executor (the browser extension
    behind the native messaging host) consumes once to be handed the secret. A
    managed Chrome is driven by the broker over a private pipe through a filter
    of commands, so that the agent can browse without reading a protected field.

    ** Parts and files

    Paths are relative to [src/crates/]. Definitions keep the source's names; a
    Rust module is a file or a [Module], an [impl] a group of functions, a
    struct a [Record] whose fields carry a prefix of the struct's name.

    - [Prelude]: results, outcomes (a panic is a third way to end), widths of
      integers, text, the tactics and hints of the library.
    - [Externals]: one class per third-party crate or platform service, with a
      class of laws for the documented behaviour the theorems rely on.
      [Concrete]: small instances, for the witnesses only.
    - [Domain] ([secretctl-domain]): identifiers, origins, actions, the four
      state machines, the entities. [Policy] ([secretctl-policy]): rules, risk
      and the evaluator. [Crypto] ([secretctl-crypto]): digests, redaction, TOTP
      codes, the secure channel, keys.
    - [AuditChain] ([secretctl-audit]): the keyed hash chain and its signed
      checkpoints. [Capability] ([secretctl-capability]): claims, COSE_Sign1
      tokens, minting, verification and consumption.
    - [Table], [Store], [StoreProps], [StoreTypes]
      ([secretctl-store/src/repository.rs]): the meaning of the SQL statements on
      lists of rows, one operation per method of the repository, and what the
      repository guarantees. [Migrations], [MigrationsProps] ([migrations.rs]): the
      statements that bring a database to the current schema.
    - [Provider] ([secretctl-providers]): the interface to where secrets are
      kept and its in-memory implementation. [Keychain]
      ([secretctl-provider-macos], [-linux], [-windows]): the platforms' own, the
      Keychain over an interface to its calls. [OAuth]
      ([secretctld/src/oauth.rs]): the authorization code flow.
    - [Protocol], [Admin], [Framing], [FramingProps] ([secretctl-protocol], and
      [secretctl-native-host/src/framing.rs]): requests and results, error
      codes, length-prefixed frames, the strict JSON reader, envelopes.
      [Enrollment] ([secretctl-native-host/src/enrollment.rs]): the key of the
      extension.
    - [DomView], [DomViewProps] ([secretctld/src/dom_view.rs]): the projection
      of a page an agent is shown. [Gateway], [GatewayProps], [GatewayWaits]
      ([secretctl-browser-gateway]): the filter of commands, the sanitizers of
      answers and the request loop over Chrome's pipe. [Launcher],
      [LauncherProps] ([launcher.rs], [gateway.rs]): how Chrome is started,
      checked and stopped.
    - [BrokerState], [Broker], [Pages] ([secretctld/src/state.rs],
      [presence.rs]): the broker's state, the audit helpers, every handler, and
      the handlers that drive the browser. [Ui] ([secretctld/src/ui.rs]): what
      the desktop interface sees and may do.
    - [BrokerSteps], [BrokerProps], [BrokerMint], [BrokerRuns], [PagesProps],
      [UiProps], [UiSecrets], [UiGrants]: the theorems about handlers, single
      calls and whole runs. [BrokerExample], [PagesExample], [UiExample]: a
      concrete broker on which the theorems are applied, and runs that show
      behaviour the code's comments do not promise.
    - [Wire], [Handshake] ([secretctl-protocol/src/jsonrpc.rs], [agent.rs] and
      the sockets): the JSON forms of envelopes and handshake records, the
      signed key exchange. [Server] ([secretctld/src/server.rs]): the agent's,
      the executor's and the administrator's connection, one turn (a frame in, a
      frame out) at a time, with peer check, method tables, waits and the
      periodic task. [Bridge] ([secretctl-native-host/src/bridge.rs]): the
      handshake's other side, and what is made of each message between
      extension and broker. [Daemon]: every connection over one broker.
    - [ServerProps], [ServerSessions], [BridgeProps], [DaemonRuns], [Agreement]:
      the theorems about one turn, a session, the bridge, whole runs of the
      daemon, and bridge and broker together. [ServerExample]: both sides on the
      broker of [BrokerExample].
    - [Installation] and [ProcessLogic]: what the processes of an installation
      share, the monad of a process that can be killed at any change, and its
      rules. [Startup] ([secretctld/src/main.rs]): the daemon's start and end.
      [Cli] ([secretctl-cli/src/main.rs]): the local commands; [CliAdmin]: those
      that ask the daemon, through the client of [AdminClient] (also
      [desktop/src-tauri/src/admin.rs]). [HostInstall]
      ([secretctl-native-host/src/main.rs], [manifest.rs]): how the native
      messaging host is installed and started.
    - [KeyFacts], [KeyProps], [Rotation], [CommandProps], [CliErrors]: the keys and
      the log of an installation under all of its commands. [AdminAgreement]:
      client and broker on one socket. [HostProps]: an installed host is one the
      broker knows.
    - [Desktop] ([desktop/src-tauri/src]): the desktop application; [DesktopProps],
      [DesktopWatch], [DesktopDecisions]: its windows, its loop, its decisions.
    - [CliExample], [DesktopExample], [HostExample], [LauncherExample]: a concrete
      installation, application, host and Chrome.

    ** How the parts meet

    A handler is a computation in the monad [Broker] over one [World]: the
    broker's shared state with the database in it, the provider's state, and a
    counter for what is drawn from the environment (clock, identifiers, random
    bytes), which [Environment] gives as functions of the counter. The classes
    of [Externals] and [Provider] are the boundary to code outside the
    repository: every definition that calls such code takes the class as an
    argument, and the theorems take its laws. [FrameCodecLaws] is what a codec
    promises a stream; both codecs discharge it and the stream theorems use only
    the class. [BrokerSteps] is the boundary between handlers and whole runs: a
    preorder that reads, quiet writes, repository calls and audited transactions
    respect is respected by every handler, and [BrokerRuns] takes the preorder
    it needs (the log grows and verifies; a consumed row stays consumed). A
    connection is a computation in the monad [Task] over the same [World]; while
    it sleeps the rest of the broker, [OtherTasks], goes on. [Serde] is the
    derived code between records and JSON.

    A command and the daemon's main function are computations in [Process] over
    one [Machine]: key store, database, backups and files. [AdminPeer] is the
    boundary between a client and whatever answers it; the command line and the
    desktop application are written against it, and [AdminAgreement] puts the
    broker's socket behind it. The desktop application is a state with operations
    for the user, the frontend and the loop; the windows are [WindowSystem].
    [ManagedChrome] is the boundary between the broker and its browsers;
    [launched_chrome] of [Launcher] is the instance the program uses.

    ** What the theorems show

    - Secrets: one token releases its secret at most once over any run, with
      crashes and restarts; a release has checked signature, stored claims,
      session proof, window, uses and context; a capability stands on policy,
      a measured page and an approval or a live grant; a repeated request gets
      the same answer.
    - Pages: nothing is observed after a release while the window is open, text
      is only typed into public fields, only screened commands are sent, a wait
      on a Chrome that answers ends; the projection of a page does not depend on what is protected, is
      bounded, and its references name one element.
    - Audit: the log only grows and verifies; two logs that verify with the same
      last hash agree (or an HMAC collision is exhibited); a checkpoint pins
      what is below it; one key version zero event defeats this.
    - Connections: a peer that has not authenticated changes nothing, an agent
      that is served has proved who it is, bridge and broker agree on a channel,
      a signature is good for one session, every answer is sealed and in order
      (but one), waits end, and over whole runs of the daemon a secret is
      delivered at most once and the log verifies.
    - Bridge: the extension cannot choose its identity, and is given a secret in
      its envelope only.
    - Tokens and store: the database stays well typed; round trip of a minted
      token, uses are bounded, rows follow the state machine, audited operations
      are atomic, TOTP steps and grants are unique; the migrations keep the data of
      every released version.
    - Interface: views do not depend on secrets, the approval panel is
      faithful, a grant is as bounded as its approval. In the application the
      icon and the notifications follow the daemon, a decision is one run of the
      broker's method with the presence that was confirmed, or nothing, and the
      approval window opens once.
    - Installation: initialization and rotation keep the keys in order and the
      log verifiable at whichever change they are killed, and so do all local
      commands; which interruptions, restored backups and names of credentials
      break the next rotation; a call of a client is one run of the method it
      names; an installed host is enrolled with the broker; a launched Chrome
      runs the managed extension alone.
    - Streams: frames survive any chunking, buffers are bounded, the strict
      reader accepts exactly the documents without repeated keys and excessive
      depth, a request on the pipe returns its own answer, as soon as it is
      there, and waits for it as long as Chrome neither ends nor errs.
    - Errors: theorems named as runs ([cancelled_request_still_gets_capability],
      [rejected_approval_becomes_grant], [disabled_agent_is_still_served],
      [unkeyed_log_verifies], [element_text_is_never_shown],
      [agent_answers_are_sealed_except_one]) prove what the code does where a
      comment or a state machine of the code says otherwise.

    ** Bounds and fuel

    The request loop over the pipe takes as fuel the number of bytes to come plus
    one, and each turn reads a frame of at least one byte. A [CdpPipe] is thus a
    pipe on which Chrome answers or comes to an end; [waiting] is the loop over a
    Chrome that may do neither, and [GatewayWaits] relates the two. A wait on a page polls
    at most 152 times: its timeout is capped at 30000 ms and polls are 200 ms
    apart; [wait_ends] proves more fuel changes nothing. The waits of the
    sockets poll every 25 ms, with fuel for the whole timeout and two polls more;
    [waiting_calls_end] proves that is enough. Trees (JSON, DOM) are walked by
    structural recursion. Integers are in Z with the width's wrap or check
    written where the code computes ([checked_succ], [wrap_u32], [as_i64]);
    instants are nanoseconds, and an addition chrono refuses is a panic.

    ** Not modelled

    - Interleaving inside a handler: a handler runs without interruption, locks
      are not modelled, nor is the poisoning of a lock by a panic. Runs
      interleave whole handlers.
    - Failures of the disk, except the aborted audit insertion of the program's
      own test hook; the overflow of the 64-bit audit sequence; the order of
      rows whose sort keys are equal, where SQL leaves it open.
    - The journal, the locks and the file format of SQLite. A backup is a copy of
      the database.
    - File modes, directories, and paths outside the directory of the
      installation; the parsers of arguments; how [secretctl start] and [stop]
      find, start and signal processes.
    - Of the daemon's sockets: the permissions of their files, the accept loops'
      errors and logging. A message is the payload of one frame; the turns of a
      connection do not overlap with those of another except where it sleeps.
    - What the windows draw and the pictures of the icon; the ceremony of
      LocalAuthentication, of which only the outcome is seen; the calls of the
      Keychain. The two tools under [macos/Tools] seed a broker for tests and
      print test vectors.
    - Zeroisation of memory, timing, and the derived serde and CBOR codecs. *)

From Stdlib Require Export ZArith Lia.
From Stdlib Require Export Strings.Byte Strings.Ascii.
From stdpp Require Export base gmap strings list fin_maps decidable countable.

#[global] Open Scope Z_scope.

(** ** Results

    [result E A] is Rust's [Result<A, E>]; [outcome E A] adds the third way a
    call can end, a panic that unwinds the task. *)

Inductive result (E A : Type) : Type :=
| Ok (a : A)
| Err (e : E).
Arguments Ok {E A} a.
Arguments Err {E A} e.

Inductive outcome (E A : Type) : Type :=
| Done (a : A)
| Fail (e : E)
| Panicked.
Arguments Done {E A} a.
Arguments Fail {E A} e.
Arguments Panicked {E A}.

#[global] Instance result_ret (E : Type) : MRet (result E) := fun A a => Ok a.
#[global] Instance result_bind (E : Type) : MBind (result E) := fun A B f m =>
  match m with Ok a => f a | Err e => Err e end.

#[global] Instance outcome_ret (E : Type) : MRet (outcome E) := fun A a => Done a.
#[global] Instance outcome_bind (E : Type) : MBind (outcome E) := fun A B f m =>
  match m with Done a => f a | Fail e => Fail e | Panicked => Panicked end.

#[global] Instance result_eq_dec (E A : Type) `{EqDecision E, EqDecision A} :
  EqDecision (result E A).
Proof. solve_decision. Defined.

(** [Option::ok_or]. *)
Definition ok_or {E A : Type} (e : E) (o : option A) : result E A :=
  match o with Some a => Ok a | None => Err e end.

(** A [Result] as the outcome of a call, and a value whose absence is a panic. *)
Definition of_result {E A : Type} (r : result E A) : outcome E A :=
  match r with Ok a => Done a | Err e => Fail e end.
Definition or_panic {E A : Type} (o : option A) : outcome E A :=
  match o with Some a => Done a | None => Panicked end.

(** [Result::map_err]. *)
Definition map_err {E F A : Type} (f : E -> F) (r : result E A) : result F A :=
  match r with Ok a => Ok a | Err e => Err (f e) end.

(** [Result::ok]. *)
Definition result_ok {E A : Type} (r : result E A) : option A :=
  match r with Ok a => Some a | Err _ => None end.

Definition is_ok {E A : Type} (r : result E A) : bool :=
  match r with Ok _ => true | Err _ => false end.

(** [Option<Result<A, E>>::transpose]. *)
Definition transpose {E A : Type} (o : option (result E A)) : result E (option A) :=
  match o with
  | None => Ok None
  | Some (Ok a) => Ok (Some a)
  | Some (Err e) => Err e
  end.

(** [iter.map(f).collect::<Result<Vec<_>, _>>()]: stops at the first error. *)
Fixpoint collect {E A B : Type} (f : A -> result E B) (l : list A) : result E (list B) :=
  match l with
  | [] => Ok []
  | x :: l => y ← f x; ys ← collect f l; Ok (y :: ys)
  end.

(** [Option::is_some_and] and [Option::is_none_or]. *)
Definition is_some_and {A : Type} (p : A -> bool) (o : option A) : bool :=
  match o with Some a => p a | None => false end.
Definition is_none_or {A : Type} (p : A -> bool) (o : option A) : bool :=
  match o with Some a => p a | None => true end.

(** ** Machine integers

    A [u32], [u64] or [i64] is a [Z] in its range; a cast wraps. *)

Definition u32_max : Z := 2 ^ 32 - 1.
Definition u64_max : Z := 2 ^ 64 - 1.
Definition wrap_u32 (z : Z) : Z := z mod 2 ^ 32.
Definition wrap_u64 (z : Z) : Z := z mod 2 ^ 64.
Definition u64_as_i64 (z : Z) : Z := (z + 2 ^ 63) mod 2 ^ 64 - 2 ^ 63.
Definition i64_as_u64 (z : Z) : Z := z mod 2 ^ 64.
Definition u64_range (z : Z) : Prop := 0 <= z < 2 ^ 64.
Definition u32_range (z : Z) : Prop := 0 <= z < 2 ^ 32.

(** ** Bytes *)

#[global] Instance byte_eq_dec : EqDecision byte := Byte.byte_eq_dec.

Definition byte_to_Z (b : byte) : Z := Z.of_N (Byte.to_N b).
Definition byte_of_Z (z : Z) : byte :=
  match Byte.of_N (Z.to_N (z mod 256)) with Some b => b | None => Byte.x00 end.

(** [to_be_bytes] for an integer of [n] bytes. *)
Fixpoint be_bytes (n : nat) (z : Z) : list byte :=
  match n with
  | O => []
  | S n => be_bytes n (z / 256) ++ [byte_of_Z z]
  end.

(** [from_be_bytes]. *)
Definition be_value (l : list byte) : Z :=
  fold_left (fun acc b => acc * 256 + byte_to_Z b) l 0.

Definition as_bytes (s : string) : list byte := String.list_byte_of_string s.
Definition from_bytes (l : list byte) : string := String.string_of_list_byte l.

(** The length of a slice, as the [u64] the code casts it to. *)
Definition blen (l : list byte) : Z := Z.of_nat (length l).

(** A field written with its length in front, eight big-endian bytes. *)
Definition len_prefixed (l : list byte) : list byte := be_bytes 8 (blen l) ++ l.

(** ** Strings (byte strings holding UTF-8) *)

Definition slen (s : string) : Z := Z.of_nat (String.length s).

Definition starts_with (s prefix : string) : bool := String.prefix prefix s.

Fixpoint contains (s needle : string) : bool :=
  String.prefix needle s ||
  match s with
  | EmptyString => false
  | String _ s => contains s needle
  end.

Fixpoint ends_with (s suffix : string) : bool :=
  String.eqb s suffix ||
  match s with
  | EmptyString => false
  | String _ s => ends_with s suffix
  end.

Definition ascii_lower (a : ascii) : ascii :=
  let n := N_of_ascii a in
  if ((65 <=? n) && (n <=? 90))%N then ascii_of_N (n + 32) else a.
Definition ascii_upper (a : ascii) : ascii :=
  let n := N_of_ascii a in
  if ((97 <=? n) && (n <=? 122))%N then ascii_of_N (n - 32) else a.

Fixpoint string_map (f : ascii -> ascii) (s : string) : string :=
  match s with
  | EmptyString => EmptyString
  | String a s => String (f a) (string_map f s)
  end.

Definition to_ascii_lowercase : string -> string := string_map ascii_lower.
Definition to_ascii_uppercase : string -> string := string_map ascii_upper.

(** [chars()]: the code points of a UTF-8 string, read by the leading byte. *)
Fixpoint chars_of (l : list byte) : list Z :=
  match l with
  | [] => []
  | b0 :: l0 =>
      let c0 := byte_to_Z b0 in
      if c0 <? 128 then c0 :: chars_of l0
      else match l0 with
      | [] => [c0]
      | b1 :: l1 =>
          let c1 := Z.land (byte_to_Z b1) 63 in
          if c0 <? 224 then Z.land c0 31 * 64 + c1 :: chars_of l1
          else match l1 with
          | [] => [c0]
          | b2 :: l2 =>
              let c2 := Z.land (byte_to_Z b2) 63 in
              if c0 <? 240 then Z.land c0 15 * 4096 + c1 * 64 + c2 :: chars_of l2
              else match l2 with
              | [] => [c0]
              | b3 :: l3 =>
                  Z.land c0 7 * 262144 + c1 * 4096 + c2 * 64
                  + Z.land (byte_to_Z b3) 63 :: chars_of l3
              end
          end
      end
  end.
Definition chars (s : string) : list Z := chars_of (as_bytes s).

(** [chars().count()]. *)
Definition chars_count (s : string) : Z := Z.of_nat (length (chars s)).

(** [String::from_utf8_lossy]: every maximal ill-formed piece becomes U+FFFD. *)
Definition byte_in (lo hi : Z) (b : byte) : bool :=
  (lo <=? byte_to_Z b) && (byte_to_Z b <=? hi).
Definition is_continuation : byte -> bool := byte_in 128 191.
Definition replacement_character : list byte := [Byte.xef; Byte.xbf; Byte.xbd].

(** The second byte a leading byte of a longer sequence admits. *)
Definition second_byte_ok (b0 b1 : byte) : bool :=
  let c0 := byte_to_Z b0 in
  if c0 =? 224 then byte_in 160 191 b1
  else if c0 =? 237 then byte_in 128 159 b1
  else if c0 =? 240 then byte_in 144 191 b1
  else if c0 =? 244 then byte_in 128 143 b1
  else is_continuation b1.

Fixpoint utf8_lossy (l : list byte) : list byte :=
  match l with
  | [] => []
  | b0 :: l0 =>
      if byte_in 0 127 b0 then b0 :: utf8_lossy l0
      else if negb (byte_in 194 244 b0) then replacement_character ++ utf8_lossy l0
      else match l0 with
      | [] => replacement_character
      | b1 :: l1 =>
          if negb (second_byte_ok b0 b1) then replacement_character ++ utf8_lossy l0
          else if byte_in 194 223 b0 then b0 :: b1 :: utf8_lossy l1
          else match l1 with
          | [] => replacement_character
          | b2 :: l2 =>
              if negb (is_continuation b2) then replacement_character ++ utf8_lossy l1
              else if byte_in 224 239 b0 then b0 :: b1 :: b2 :: utf8_lossy l2
              else match l2 with
              | [] => replacement_character
              | b3 :: l3 =>
                  if is_continuation b3 then b0 :: b1 :: b2 :: b3 :: utf8_lossy l3
                  else replacement_character ++ utf8_lossy l2
              end
          end
      end
  end.
Definition from_utf8_lossy (l : list byte) : string := from_bytes (utf8_lossy l).

(** [char::is_whitespace]: the code points with the White_Space property. *)
Definition is_whitespace (c : Z) : bool :=
  ((9 <=? c) && (c <=? 13)) || (c =? 32) || (c =? 133) || (c =? 160) || (c =? 5760)
  || ((8192 <=? c) && (c <=? 8202)) || (c =? 8232) || (c =? 8233) || (c =? 8239)
  || (c =? 8287) || (c =? 12288).

(** [trim().is_empty()]. *)
Definition is_blank (s : string) : bool := forallb is_whitespace (chars s).

(** [split_ascii_whitespace]: the pieces between runs of white space. *)
Definition is_ascii_whitespace (a : ascii) : bool :=
  let n := N_of_ascii a in
  ((n =? 32) || (n =? 9) || (n =? 10) || (n =? 12) || (n =? 13))%N.

Fixpoint split_words (word : string) (s : string) : list string :=
  match s with
  | EmptyString => if bool_decide (word = EmptyString) then [] else [word]
  | String a s =>
      if is_ascii_whitespace a
      then if bool_decide (word = EmptyString) then split_words EmptyString s
           else word :: split_words EmptyString s
      else split_words (word +:+ String a EmptyString) s
  end.
Definition split_ascii_whitespace : string -> list string := split_words EmptyString.

(** Decimal formatting of an unsigned integer, [{}] and [{:0width$}]. *)
Fixpoint digits_of (fuel : nat) (z : Z) (acc : string) : string :=
  match fuel with
  | O => acc
  | S fuel =>
      let acc := String (ascii_of_N (Z.to_N (48 + z mod 10))) acc in
      if z / 10 =? 0 then acc else digits_of fuel (z / 10) acc
  end.
Definition format_unsigned (z : Z) : string := digits_of 20 z EmptyString.
Definition format_int (z : Z) : string :=
  if z <? 0 then String "-" (format_unsigned (- z)) else format_unsigned z.

Fixpoint repeat_char (n : nat) (a : ascii) : string :=
  match n with O => EmptyString | S n => String a (repeat_char n a) end.
Definition format_padded (width : nat) (z : Z) : string :=
  let s := format_unsigned z in
  repeat_char (width - String.length s) "0" +:+ s.

(** [split(c)] on a character, [split(s)] on a text: the pieces, in order. *)
Fixpoint split_char (c : ascii) (s : string) : string * list string :=
  match s with
  | EmptyString => (EmptyString, [])
  | String a s =>
      let '(piece, pieces) := split_char c s in
      if bool_decide (a = c) then (EmptyString, piece :: pieces) else (String a piece, pieces)
  end.

Definition drop_prefix (n : nat) (s : string) : string := String.substring n (String.length s - n) s.

(** What follows the first occurrence of a text, up to the next one:
    [split(needle).nth(1)]. *)
Fixpoint after_first (needle s : string) : option string :=
  if String.prefix needle s then Some (drop_prefix (String.length needle) s)
  else match s with EmptyString => None | String _ s => after_first needle s end.
Fixpoint before_first (needle s : string) : string :=
  if String.prefix needle s then EmptyString
  else match s with EmptyString => EmptyString | String a s => String a (before_first needle s) end.
Definition split_nth_1 (needle s : string) : option string :=
  before_first needle <$> after_first needle s.

(** [str::parse::<u32>]: an optional plus sign and decimal digits, in range. *)
Fixpoint parse_digits (acc : Z) (s : string) : option Z :=
  match s with
  | EmptyString => Some acc
  | String a s =>
      let n := Z.of_N (N_of_ascii a) in
      if (48 <=? n) && (n <=? 57)
      then let acc := acc * 10 + (n - 48) in
           if u32_max <? acc then None else parse_digits acc s
      else None
  end.
Definition parse_u32 (s : string) : option Z :=
  match s with
  | EmptyString => None
  | String "+" EmptyString => None
  | String "+" s => parse_digits 0 s
  | s => parse_digits 0 s
  end.

(** ** Tactics *)

(** Splits a success of a monadic chain into the successes of its steps. *)
Ltac inv_ok :=
  repeat match goal with
  | H : Ok _ = Ok _ |- _ => injection H as H
  | H : Err _ = Err _ |- _ => injection H as H
  | H : Ok _ = Err _ |- _ => discriminate H
  | H : Err _ = Ok _ |- _ => discriminate H
  | H : Done _ = Done _ |- _ => injection H as H
  | H : Done _ = Fail _ |- _ => discriminate H
  | H : Fail _ = Done _ |- _ => discriminate H
  | H : Panicked = Done _ |- _ => discriminate H
  | H : Some _ = None |- _ => discriminate H
  | H : None = Some _ |- _ => discriminate H
  | H : true = false |- _ => discriminate H
  | H : false = true |- _ => discriminate H
  end.

(** Case analysis on the scrutinee of a match or an if in a hypothesis. *)
Ltac case_in H :=
  match type of H with
  | context [match ?x with _ => _ end] =>
      lazymatch x with
      | context [match _ with _ => _ end] => fail
      | _ => let E := fresh "E" in destruct x eqn:E
      end
  end.

(** Case analysis on the scrutinee of a match or an if in the goal. *)
Ltac case_goal :=
  match goal with
  | |- context [match ?x with _ => _ end] =>
      lazymatch x with
      | context [match _ with _ => _ end] => fail
      | _ => let E := fresh "E" in destruct x eqn:E
      end
  end.

(** Unfolds the successful branch of a [result] computation in [H]. *)
Ltac ok_cases H := repeat (case_in H; inv_ok; try discriminate H).

(** Turns boolean tests in the context into propositions. *)
Ltac bool_to_prop :=
  repeat match goal with
  | H : andb _ _ = true |- _ => apply andb_true_iff in H as [? ?]
  | H : orb _ _ = false |- _ => apply orb_false_iff in H as [? ?]
  | H : negb _ = true |- _ => apply negb_true_iff in H
  | H : negb _ = false |- _ => apply negb_false_iff in H
  | H : bool_decide _ = true |- _ => apply bool_decide_eq_true in H
  | H : bool_decide _ = false |- _ => apply bool_decide_eq_false in H
  | H : (_ <? _) = true |- _ => apply Z.ltb_lt in H
  | H : (_ <? _) = false |- _ => apply Z.ltb_ge in H
  | H : (_ <=? _) = true |- _ => apply Z.leb_le in H
  | H : (_ <=? _) = false |- _ => apply Z.leb_gt in H
  | H : (_ =? _) = true |- _ => apply Z.eqb_eq in H
  | H : (_ =? _) = false |- _ => apply Z.eqb_neq in H
  end.

(** ** Results: shared lemmas *)

Lemma bind_Ok_inv {E A B : Type} (m : result E A) (f : A -> result E B) (b : B) :
  m ≫= f = Ok b -> exists a, m = Ok a /\ f a = Ok b.
Proof. destruct m as [a|e]; intros H; [by exists a | discriminate H]. Qed.

Lemma map_err_Ok {E F A : Type} (f : E -> F) (r : result E A) (a : A) :
  map_err f r = Ok a <-> r = Ok a.
Proof. destruct r; simpl; split; intros H; inv_ok; congruence. Qed.

Lemma ok_or_Ok {E A : Type} (e : E) (o : option A) (a : A) :
  ok_or e o = Ok a <-> o = Some a.
Proof. destruct o; simpl; split; intros H; inv_ok; congruence. Qed.

Lemma collect_Ok {E A B : Type} (f : A -> result E B) (l : list A) (l' : list B) :
  collect f l = Ok l' <-> Forall2 (fun a b => f a = Ok b) l l'.
Proof.
  revert l'; induction l as [|a l IH]; intros l'; simpl; split; intros H.
  - inv_ok; subst; constructor.
  - inversion H; subst; reflexivity.
  - apply bind_Ok_inv in H as (b & Hb & H).
    apply bind_Ok_inv in H as (bs & Hbs & H). inv_ok; subst.
    constructor; [done | by apply IH].
  - inversion H as [|? b ? bs Hb Hbs]; subst. rewrite Hb. simpl.
    apply IH in Hbs. rewrite Hbs. reflexivity.
Qed.

Lemma is_ok_true {E A : Type} (r : result E A) :
  is_ok r = true <-> exists a, r = Ok a.
Proof. destruct r as [a|e]; simpl; split; [by exists a | done | done | by intros [? [=]]]. Qed.

Lemma bool_decide_neq_refl {A : Type} `{EqDecision A} (x : A) {D : Decision (x <> x)} :
  @bool_decide (x <> x) D = false.
Proof. apply bool_decide_eq_false_2. intros Hx. by apply Hx. Qed.

Lemma Forall_snoc_inv {A : Type} (P : A -> Prop) (l : list A) (x : A) :
  Forall P (l ++ [x]) -> Forall P l /\ P x.
Proof. rewrite Forall_app, Forall_singleton. done. Qed.

(** ** Machine integers: shared lemmas *)

Lemma u64_as_i64_small (z : Z) : 0 <= z < 2 ^ 63 -> u64_as_i64 z = z.
Proof. intros H. unfold u64_as_i64. rewrite Z.mod_small; lia. Qed.

Lemma i64_u64_round_trip (z : Z) : u64_range z -> i64_as_u64 (u64_as_i64 z) = z.
Proof.
  unfold u64_range, i64_as_u64, u64_as_i64. intros H.
  rewrite Zminus_mod_idemp_l. replace (z + 2 ^ 63 - 2 ^ 63) with z by lia.
  by apply Z.mod_small.
Qed.

(** ** Bytes: shared lemmas *)

Lemma byte_to_Z_range (b : byte) : 0 <= byte_to_Z b < 256.
Proof.
  unfold byte_to_Z. pose proof (Byte.to_N_bounded b). lia.
Qed.

Lemma byte_to_of_Z (z : Z) : byte_to_Z (byte_of_Z z) = z mod 256.
Proof.
  unfold byte_to_Z, byte_of_Z.
  pose proof (Z.mod_pos_bound z 256 ltac:(lia)) as Hm.
  destruct (Byte.of_N (Z.to_N (z mod 256))) as [b|] eqn:E.
  - apply Byte.to_of_N in E. rewrite E. lia.
  - apply Byte.of_N_None_iff in E. lia.
Qed.

Lemma byte_to_Z_inj (a b : byte) : byte_to_Z a = byte_to_Z b -> a = b.
Proof.
  unfold byte_to_Z. intros H. apply N2Z.inj in H.
  pose proof (Byte.of_to_N a) as Ha. pose proof (Byte.of_to_N b) as Hb.
  rewrite H in Ha. congruence.
Qed.

Lemma length_be_bytes (n : nat) (z : Z) : length (be_bytes n z) = n.
Proof.
  revert z; induction n as [|n IH]; intros z; simpl; [done|].
  rewrite length_app, IH. simpl. lia.
Qed.

Lemma be_value_app (l : list byte) (b : byte) :
  be_value (l ++ [b]) = be_value l * 256 + byte_to_Z b.
Proof. unfold be_value. by rewrite fold_left_app. Qed.

(** [from_be_bytes] undoes [to_be_bytes]. *)
Lemma be_value_be_bytes (n : nat) (z : Z) :
  be_value (be_bytes n z) = z mod 2 ^ (8 * Z.of_nat n).
Proof.
  revert z; induction n as [|n IH]; intros z.
  - change (2 ^ (8 * Z.of_nat 0)) with 1. by rewrite Z.mod_1_r.
  - simpl be_bytes. rewrite be_value_app, IH, byte_to_of_Z.
    replace (2 ^ (8 * Z.of_nat (S n))) with (256 * 2 ^ (8 * Z.of_nat n))
      by (rewrite Nat2Z.inj_succ, Z.mul_succ_r, Z.pow_add_r by lia; lia).
    rewrite Z.rem_mul_r by lia. lia.
Qed.

Lemma be_bytes_inj (n : nat) (a b : Z) :
  0 <= a < 2 ^ (8 * Z.of_nat n) -> 0 <= b < 2 ^ (8 * Z.of_nat n) ->
  be_bytes n a = be_bytes n b -> a = b.
Proof.
  intros Ha Hb H. apply (f_equal be_value) in H.
  rewrite !be_value_be_bytes, !Z.mod_small in H by done. done.
Qed.

Lemma app_inj_len {A : Type} (a b r s : list A) :
  length a = length b -> a ++ r = b ++ s -> a = b /\ r = s.
Proof. intros Hl H. apply app_inj_1 in H; done. Qed.

(** A length-prefixed field is self-delimiting: what follows it is determined. *)
Lemma len_prefixed_inj (a b r s : list byte) :
  u64_range (blen a) -> u64_range (blen b) ->
  len_prefixed a ++ r = len_prefixed b ++ s -> a = b /\ r = s.
Proof.
  unfold len_prefixed, u64_range. intros Ha Hb H.
  rewrite <-!app_assoc in H.
  apply app_inj_len in H as [Hlen H]; [|by rewrite !length_be_bytes].
  apply be_bytes_inj in Hlen; [|done..].
  apply app_inj_len in H as [-> ->]; [done|]. unfold blen in Hlen. lia.
Qed.

Lemma as_bytes_inj (s t : string) : as_bytes s = as_bytes t -> s = t.
Proof.
  intros H. apply (f_equal String.string_of_list_byte) in H.
  unfold as_bytes in H. by rewrite !String.string_of_list_byte_of_string in H.
Qed.

Lemma from_as_bytes (s : string) : from_bytes (as_bytes s) = s.
Proof. apply String.string_of_list_byte_of_string. Qed.

Lemma as_from_bytes (l : list byte) : as_bytes (from_bytes l) = l.
Proof. apply String.list_byte_of_string_of_list_byte. Qed.

#[global] Arguments be_bytes : simpl never.
#[global] Arguments len_prefixed : simpl never.

(** ** Strings: shared lemmas *)

Lemma prefix_spec (p s : string) : String.prefix p s = true <-> exists r, s = p +:+ r.
Proof.
  revert s; induction p as [|a p IH]; intros s; simpl.
  - split; [by exists s | by destruct s].
  - destruct s as [|b s]; [split; [done | intros [? [=]]]|].
    cbn [String.prefix]. destruct (Ascii.ascii_dec a b) as [->|Hne].
    + rewrite IH. split; intros [r Hr]; exists r; [by rewrite Hr | by injection Hr].
    + split; [done|]. intros [r Hr]. injection Hr. congruence.
Qed.

Lemma starts_with_spec (s p : string) : starts_with s p = true <-> exists r, s = p +:+ r.
Proof. apply prefix_spec. Qed.

Lemma starts_with_app (p r : string) : starts_with (p +:+ r) p = true.
Proof. apply starts_with_spec. by exists r. Qed.

Lemma slen_app (s t : string) : slen (s +:+ t) = slen s + slen t.
Proof.
  unfold slen. induction s as [|a s IH]; simpl; [done|].
  change (String.length (s +:+ t)) with (String.length (s +:+ t)) in *. lia.
Qed.

Lemma string_app_inj_l (p s t : string) : p +:+ s = p +:+ t -> s = t.
Proof. induction p as [|a p IH]; simpl; [done|]. intros H. injection H. done. Qed.

Create HintDb secretctl.
Create Rewrite HintDb secretctl.
#[export] Hint Resolve be_bytes_inj as_bytes_inj byte_to_Z_range : secretctl.
#[export] Hint Rewrite @map_err_Ok @ok_or_Ok @collect_Ok length_be_bytes
  be_value_be_bytes from_as_bytes as_from_bytes slen_app : secretctl.
