(* ===== verification/Externals.v ===== *)
(** * Externals: the interfaces of the code that is not in the repository

    One class per third-party crate or platform service, with the operations the
    repository calls; a companion class of laws holds the documented behaviour
    the theorems rely on. Nothing here is a definition of that code: every model
    definition takes the interface as an argument. [Concrete.v] has instances
    that satisfy all the laws. *)

From Stdlib Require Import SpecFloat.
From S2P Require Import Prelude.

(** ** Time: the [chrono] crate

    [DateTime<Utc>] is a number of nanoseconds since the Unix epoch, so that
    comparison and subtraction of instants are those of the integers. *)

Abbreviation Instant := Z.

Definition nanos_per_second : Z := 1000000000.
(** [DateTime::timestamp]: whole seconds, rounded towards minus infinity. *)
Definition timestamp (t : Instant) : Z := t / nanos_per_second.

(** The instants whose year has four digits, 0000 to 9999. *)
Definition four_digit_year (t : Instant) : Prop :=
  -62167219200 * nanos_per_second <= t < 253402300800 * nanos_per_second.

(** [add_seconds t n] is [t + Duration::seconds(n)], [None] where it panics;
    [display_instant] is the [Display] of an instant. *)
Class Chrono := {
  add_seconds : Instant -> Z -> option Instant;
  display_instant : Instant -> string;
  to_rfc3339 : Instant -> string;
  parse_from_rfc3339 : string -> option Instant
}.

Class ChronoLaws `{Chrono} := {
  add_seconds_value t n t' : add_seconds t n = Some t' -> t' = t + n * nanos_per_second;
  add_seconds_in_range t n :
    four_digit_year t -> four_digit_year (t + n * nanos_per_second) ->
    add_seconds t n = Some (t + n * nanos_per_second);
  rfc3339_round_trip t : four_digit_year t -> parse_from_rfc3339 (to_rfc3339 t) = Some t
}.

(** ** Hashes and signatures: [sha2], [sha1], [hmac], [ed25519_dalek] *)

Class Hashes := {
  sha256 : list byte -> list byte;
  hmac_sha256 : list byte -> list byte -> list byte;
  hmac_sha1 : list byte -> list byte -> list byte
}.

Class HashLaws `{Hashes} := {
  length_sha256 m : length (sha256 m) = 32%nat;
  length_hmac_sha256 k m : length (hmac_sha256 k m) = 32%nat;
  length_hmac_sha1 k m : length (hmac_sha1 k m) = 20%nat
}.

(** A signing key is its 32 secret bytes; [ed_valid_public] is the success of
    [VerifyingKey::from_bytes], and [ed_error_text] what its errors print. *)
Class Signatures := {
  ed_public : list byte -> list byte;
  ed_sign : list byte -> list byte -> list byte;
  ed_valid_public : list byte -> bool;
  ed_verify : list byte -> list byte -> list byte -> bool;
  ed_error_text : string
}.

Class SignatureLaws `{Signatures} := {
  length_ed_public sk : length sk = 32%nat -> length (ed_public sk) = 32%nat;
  length_ed_sign sk m : length sk = 32%nat -> length (ed_sign sk m) = 64%nat;
  ed_public_valid sk : length sk = 32%nat -> ed_valid_public (ed_public sk) = true;
  ed_verify_sign sk m : length sk = 32%nat -> ed_verify (ed_public sk) m (ed_sign sk m) = true
}.

(** ** Authenticated encryption and key derivation: [chacha20poly1305], [hkdf] *)

Class Aead := {
  aead_encrypt : list byte -> list byte -> list byte -> option (list byte);
  aead_decrypt : list byte -> list byte -> list byte -> option (list byte);
  aead_error_text : string;
  hkdf_sha256 : list byte -> list byte -> list byte -> nat -> list byte
}.

Class AeadLaws `{Aead} := {
  aead_round_trip key nonce m c :
    aead_encrypt key nonce m = Some c -> aead_decrypt key nonce c = Some m;
  length_hkdf_sha256 secret salt info n : length (hkdf_sha256 secret salt info n) = n
}.

(** ** Key agreement: [x25519_dalek]

    A secret is its 32 bytes; [x_shared] is [diffie_hellman], with the public
    key of the other side. *)

Class X25519 := {
  x_public : list byte -> list byte;
  x_shared : list byte -> list byte -> list byte
}.

Class X25519Laws `{X25519} := {
  length_x_public secret : length secret = 32%nat -> length (x_public secret) = 32%nat;
  x_agree a b : length a = 32%nat -> length b = 32%nat ->
    x_shared a (x_public b) = x_shared b (x_public a)
}.

(** ** Text encodings: [base64]

    Decoding fails with the error text that [Display] prints. *)

Class Base64 := {
  b64_encode : list byte -> string;
  b64_decode : string -> result string (list byte)
}.

Class Base64Laws `{Base64} := {
  b64_round_trip l : b64_decode (b64_encode l) = Ok l
}.

(** ** JSON: [serde_json]

    A value is the tree the crate's [Value] is; an object keeps its entries in
    the crate's iteration order. A number that is not an integer keeps only its
    text. [json_parse] fails with the error text that [Display] prints, and
    [json_print] is [serde_json::to_string]. *)

Inductive Json : Type :=
| JNull
| JBool (b : bool)
| JNumber (z : Z)
| JFloat (text : string)
| JString (s : string)
| JArray (items : list Json)
| JObject (fields : list (string * Json)).

(** Induction on a value and the values inside it. *)
Lemma json_nested_ind (Q : Json -> Prop) :
  Q JNull -> (forall b, Q (JBool b)) -> (forall z, Q (JNumber z)) -> (forall t, Q (JFloat t)) ->
  (forall s, Q (JString s)) -> (forall items, Forall Q items -> Q (JArray items)) ->
  (forall fields, Forall (fun f => Q (snd f)) fields -> Q (JObject fields)) ->
  forall v, Q v.
Proof.
  intros Hn Hb Hz Hf Hs Ha Ho. fix IH 1. intros [|b|z|t|s|items|fields];
    [exact Hn|exact (Hb b)|exact (Hz z)|exact (Hf t)|exact (Hs s)| |].
  - apply Ha. induction items as [|v items IHl]; constructor; [apply IH|exact IHl].
  - apply Ho. induction fields as [|[k v] fields IHl]; constructor; [apply IH|exact IHl].
Qed.

(** [Value::get] with a text key, [as_str] and [as_u64]. *)
Definition json_get (key : string) (v : Json) : option Json :=
  match v with
  | JObject fields => snd <$> List.find (fun '(k, _) => bool_decide (k = key)) fields
  | _ => None
  end.
Definition json_as_str (v : Json) : option string :=
  match v with JString s => Some s | _ => None end.
Definition json_as_u64 (v : Json) : option Z :=
  match v with JNumber z => if (0 <=? z) && (z <=? u64_max) then Some z else None | _ => None end.
Definition json_as_i64 (v : Json) : option Z :=
  match v with
  | JNumber z => if (- 2 ^ 63 <=? z) && (z <? 2 ^ 63) then Some z else None
  | _ => None
  end.

(** [Value::pointer] through objects. *)
Fixpoint json_pointer (path : list string) (v : Json) : option Json :=
  match path with
  | [] => Some v
  | key :: path => json_get key v ≫= json_pointer path
  end.

(** Numbers with a fraction: the value their text stands for, and the text of a
    finite value. *)
Class JsonFloats := {
  float_of_text : string -> spec_float;
  text_of_float : spec_float -> option string
}.

(** [as_f64], and [Value::from] of an [f64]. *)
Definition json_as_f64 `{JsonFloats} (v : Json) : option spec_float :=
  match v with
  | JNumber z => Some (binary_normalize 53 1024 z 0 false)
  | JFloat text => Some (float_of_text text)
  | _ => None
  end.
Definition json_of_f64 `{JsonFloats} (f : spec_float) : Json :=
  match text_of_float f with Some text => JFloat text | None => JNull end.

Class JsonCodec := {
  json_print : Json -> string;
  json_parse : string -> result string Json
}.

Class JsonLaws `{JsonCodec} := {
  json_round_trip v : json_parse (json_print v) = Ok v
}.

(** ** URLs: the [url] crate

    [url_parse] fails with the error text that [Display] prints; [url_text] is
    [String::from], [url_append_pairs] one [append_pair] per pair through
    [query_pairs_mut], and [url_clear_query] and [url_clear_fragment] are
    [set_query(None)] and [set_fragment(None)]. *)
Class UrlParser := {
  Url : Type;
  url_parse : string -> result string Url;
  url_scheme : Url -> string;
  url_host_str : Url -> option string;
  url_port : Url -> option Z;
  url_username : Url -> string;
  url_password : Url -> option string;
  url_query : Url -> option string;
  url_fragment : Url -> option string;
  url_origin_ascii : Url -> string;
  url_path : Url -> string;
  url_port_or_known_default : Url -> option Z;
  url_query_pairs : Url -> list (string * string);
  url_text : Url -> string;
  url_append_pairs : Url -> list (string * string) -> Url;
  url_clear_query : Url -> Url;
  url_clear_fragment : Url -> Url
}.

(** ** CBOR: the [minicbor] crate

    The encoder appends one item at a time; the decoder reads one item and
    returns the bytes after it, or the error text that [Display] prints. An array or map header carries its length,
    [None] when it is of indefinite length. *)

Inductive CborItem : Type :=
| CArray (n : Z)
| CMap (n : Z)
| CUint8 (n : Z)
| CInt8 (n : Z)
| CStr (s : string)
| CBytes (l : list byte).

Class Cbor := {
  cbor_encode : CborItem -> list byte;
  cbor_array : list byte -> result string (option Z * list byte);
  cbor_map : list byte -> result string (option Z * list byte);
  cbor_u8 : list byte -> result string (Z * list byte);
  cbor_i8 : list byte -> result string (Z * list byte);
  cbor_str : list byte -> result string (string * list byte);
  cbor_bytes : list byte -> result string (list byte * list byte)
}.

Class CborLaws `{Cbor} := {
  cbor_array_encode n rest : cbor_array (cbor_encode (CArray n) ++ rest) = Ok (Some n, rest);
  cbor_map_encode n rest : cbor_map (cbor_encode (CMap n) ++ rest) = Ok (Some n, rest);
  cbor_u8_encode n rest : 0 <= n < 256 -> cbor_u8 (cbor_encode (CUint8 n) ++ rest) = Ok (n, rest);
  cbor_i8_encode n rest :
    -128 <= n < 128 -> cbor_i8 (cbor_encode (CInt8 n) ++ rest) = Ok (n, rest);
  cbor_str_encode s rest : cbor_str (cbor_encode (CStr s) ++ rest) = Ok (s, rest);
  cbor_bytes_encode l rest : cbor_bytes (cbor_encode (CBytes l) ++ rest) = Ok (l, rest)
}.

(** ** Hash map iteration

    The order in which a [HashMap] is visited is arbitrary: any enumeration of
    its entries. *)
Class HashIter := {
  hash_iter : forall {K V : Type} `{Countable K}, gmap K V -> list (K * V)
}.

Class HashIterLaws `{HashIter} := {
  hash_iter_perm {K V : Type} `{Countable K} (m : gmap K V) : hash_iter m ≡ₚ map_to_list m
}.

(** ** The environment of a running process

    The clock, the UUID generator and the random generator: what the n-th read
    returns. *)
Class Environment := {
  env_now : nat -> Instant;
  env_uuid : nat -> string;
  env_random : nat -> list byte
}.

Class EnvironmentLaws `{Environment} := {
  env_uuid_inj i j : env_uuid i = env_uuid j -> i = j;
  env_uuid_nonempty i : env_uuid i <> EmptyString;
  env_now_range i : four_digit_year (env_now i)
}.

Lemma hash_iter_elem `{HashIterLaws} {K V : Type} `{Countable K} (m : gmap K V) k v :
  (k, v) ∈ hash_iter m <-> m !! k = Some v.
Proof. by rewrite hash_iter_perm, elem_of_map_to_list. Qed.
