(* ===== verification/Concrete.v ===== *)
(** * Concrete: small instances of the external interfaces

    Executable stand-ins for the third-party code, used by the witnesses only:
    they show that the laws of [Externals.v] can hold together and let the model
    be evaluated on concrete inputs. No theorem about the program uses them. *)

From S2P Require Import Prelude.
From S2P Require Import Externals.

(** ** Text of a positive number *)

Fixpoint pos_print (p : positive) : string :=
  match p with
  | xH => EmptyString
  | xO p => String "0" (pos_print p)
  | xI p => String "1" (pos_print p)
  end.

Fixpoint pos_parse (s : string) : option positive :=
  match s with
  | EmptyString => Some xH
  | String a s =>
      p ← pos_parse s;
      if Ascii.eqb a "0" then Some (xO p) else if Ascii.eqb a "1" then Some (xI p) else None
  end.

Definition print_via {A : Type} `{Countable A} (a : A) : string := pos_print (encode a).
Definition parse_via {A : Type} `{Countable A} (s : string) : option A :=
  p ← pos_parse s; decode p.

(** ** JSON through a generic tree *)

Fixpoint json_to_tree (j : Json) : gen_tree (bool + Z + string) :=
  match j with
  | JNull => GenNode 0 []
  | JBool b => GenLeaf (inl (inl b))
  | JNumber z => GenLeaf (inl (inr z))
  | JFloat t => GenNode 1 [GenLeaf (inr t)]
  | JString s => GenLeaf (inr s)
  | JArray l => GenNode 2 (json_to_tree <$> l)
  | JObject l => GenNode 3 ((fun '(k, v) => GenNode 4 [GenLeaf (inr k); json_to_tree v]) <$> l)
  end.

Fixpoint tree_to_json (t : gen_tree (bool + Z + string)) : Json :=
  match t with
  | GenLeaf (inl (inl b)) => JBool b
  | GenLeaf (inl (inr z)) => JNumber z
  | GenLeaf (inr s) => JString s
  | GenNode 1 [GenLeaf (inr t)] => JFloat t
  | GenNode 2 l => JArray (tree_to_json <$> l)
  | GenNode 3 l =>
      JObject ((fun t => match t with
        | GenNode _ [GenLeaf (inr k); v] => (k, tree_to_json v)
        | _ => ("", JNull)
        end) <$> l)
  | GenNode _ _ => JNull
  end.

#[global] Instance concrete_json : JsonCodec := {
  json_print j := print_via (json_to_tree j);
  json_parse s := ok_or "expected value" (tree_to_json <$> parse_via s)
}.

(** ** Time: sixty-four bits of nanoseconds, with the four-digit years as range *)

#[global] Instance concrete_chrono : Chrono := {
  add_seconds t n :=
    if bool_decide (-62167219200 * nanos_per_second <= t + n * nanos_per_second
                    < 253402300800 * nanos_per_second)
    then Some (t + n * nanos_per_second) else None;
  display_instant t := print_via t;
  to_rfc3339 t := print_via t;
  parse_from_rfc3339 s := parse_via s
}.

(** ** Hashes: a small polynomial checksum, padded to the length
    of the real digest *)

Definition checksum (l : list byte) : Z :=
  fold_left (fun acc b => (acc * 257 + byte_to_Z b + 1) mod 65521) l 7.

#[global] Instance concrete_hashes : Hashes := {
  sha256 m := be_bytes 32 (checksum m);
  hmac_sha256 k m := be_bytes 32 (checksum (len_prefixed k ++ m));
  hmac_sha1 k m := be_bytes 20 (checksum (len_prefixed k ++ m))
}.

(** A signing key that is its own public key. *)
Definition keyed_tag (sk m : list byte) : list byte :=
  be_bytes 64 (checksum (len_prefixed sk ++ m)).

#[global] Instance concrete_signatures : Signatures := {
  ed_public sk := sk;
  ed_sign sk m := keyed_tag sk m;
  ed_valid_public pk := true;
  ed_verify pk m s := bool_decide (s = keyed_tag pk m);
  ed_error_text := "signature error"
}.

(** Encryption that appends a checksum of the key, the nonce and the text. *)
#[global] Instance concrete_aead : Aead := {
  aead_encrypt k n m := Some (m ++ be_bytes 32 (checksum (len_prefixed k ++ n ++ m)));
  aead_decrypt k n c :=
    let m := take (length c - 32) c in
    if bool_decide (c = m ++ be_bytes 32 (checksum (len_prefixed k ++ n ++ m)))
    then Some m else None;
  aead_error_text := "aead::Error";
  hkdf_sha256 secret salt info n := be_bytes n (checksum (secret ++ salt ++ info))
}.

(** A key agreement that adds the two public keys, which are the secrets. *)
#[global] Instance concrete_x25519 : X25519 := {
  x_public secret := secret;
  x_shared secret peer := be_bytes 32 (be_value secret + be_value peer)
}.

#[global] Instance concrete_base64 : Base64 := {
  b64_encode l := from_bytes l;
  b64_decode s := Ok (as_bytes s)
}.

(** ** CBOR: a tag byte, then the content with every byte escaped and a zero *)

Fixpoint escape (l : list byte) : list byte :=
  match l with [] => [Byte.x00] | b :: l => Byte.x01 :: b :: escape l end.

Fixpoint unescape (l : list byte) : option (list byte * list byte) :=
  match l with
  | [] => None
  | m :: l =>
      if Byte.eqb m Byte.x00 then Some ([], l)
      else match l with
           | [] => None
           | b :: l => '(x, r) ← unescape l; Some (b :: x, r)
           end
  end.

Definition framed (tag : byte) (l : list byte) : list byte := tag :: escape l.

Definition unframed (tag : byte) (l : list byte) : result string (list byte * list byte) :=
  match l with
  | [] => Err "end of input bytes"
  | b :: l => if Byte.eqb b tag then ok_or "end of input bytes" (unescape l)
              else Err "unexpected type"
  end.

Definition number_bytes (z : Z) : list byte := as_bytes (print_via z).
Definition unframed_number (tag : byte) (l : list byte) : result string (Z * list byte) :=
  '(x, r) ← unframed tag l; n ← ok_or "overflow" (parse_via (from_bytes x)); Ok (n, r).

#[global] Instance concrete_cbor : Cbor := {
  cbor_encode i :=
    match i with
    | CArray n => framed Byte.x01 (number_bytes n)
    | CMap n => framed Byte.x02 (number_bytes n)
    | CUint8 n => framed Byte.x03 (number_bytes n)
    | CInt8 n => framed Byte.x04 (number_bytes n)
    | CStr s => framed Byte.x05 (as_bytes s)
    | CBytes l => framed Byte.x06 l
    end;
  cbor_array l := '(n, r) ← unframed_number Byte.x01 l; Ok (Some n, r);
  cbor_map l := '(n, r) ← unframed_number Byte.x02 l; Ok (Some n, r);
  cbor_u8 l := unframed_number Byte.x03 l;
  cbor_i8 l := unframed_number Byte.x04 l;
  cbor_str l := '(x, r) ← unframed Byte.x05 l; Ok (from_bytes x, r);
  cbor_bytes l := unframed Byte.x06 l
}.

#[global] Instance concrete_hash_iter : HashIter := {
  hash_iter K V _ _ m := map_to_list m
}.

(** ** A clock that ticks once a second and numbered identifiers *)

#[global] Instance concrete_environment : Environment := {
  env_now n := (1700000000 + Z.of_nat n `mod` 1000000) * nanos_per_second;
  env_uuid n := "u" +:+ print_via n;
  env_random n := be_bytes 32 (Z.of_nat n)
}.

(** ** URLs: the handful of addresses the examples use *)

Record ConcreteUrl : Type := {
  cu_scheme : string; cu_host : option string; cu_port : option Z;
  cu_query : option string; cu_path : string; cu_pairs : list (string * string)
}.

Definition url_table : list (string * ConcreteUrl) := [
  ("https://github.com", Build_ConcreteUrl "https" (Some "github.com") None None "/" []);
  ("https://github.com:443", Build_ConcreteUrl "https" (Some "github.com") None None "/" []);
  ("https://github.com/login",
    Build_ConcreteUrl "https" (Some "github.com") None None "/login" []);
  ("https://github.com/login?x=1",
    Build_ConcreteUrl "https" (Some "github.com") None (Some "x=1") "/login" [("x", "1")]);
  ("https://github.com/login?code=c0de&state=s1",
    Build_ConcreteUrl "https" (Some "github.com") None (Some "code=c0de&state=s1") "/login"
      [("code", "c0de"); ("state", "s1")]);
  ("https://evil.example:443",
    Build_ConcreteUrl "https" (Some "evil.example") None None "/" []);
  ("http://localhost:8080",
    Build_ConcreteUrl "http" (Some "localhost") (Some 8080) None "/" [])].

#[global] Instance concrete_url : UrlParser := {
  Url := ConcreteUrl;
  url_parse s :=
    match list_find (fun e => fst e = s) url_table with
    | Some (_, (_, u)) => Ok u
    | None => Err "relative URL without a base"
    end;
  url_scheme := cu_scheme;
  url_host_str := cu_host;
  url_port := cu_port;
  url_username _ := "";
  url_password _ := None;
  url_query := cu_query;
  url_fragment _ := None;
  url_origin_ascii u := cu_scheme u +:+ "://" +:+ default "" (cu_host u);
  url_path := cu_path;
  url_port_or_known_default u :=
    Some (default (if bool_decide (cu_scheme u = "https") then 443 else 80) (cu_port u));
  url_query_pairs := cu_pairs;
  url_text u := cu_scheme u +:+ "://" +:+ default "" (cu_host u) +:+ cu_path u +:+ "?"
    +:+ String.concat "&" (map (fun '(k, v) => k +:+ "=" +:+ v) (cu_pairs u));
  url_append_pairs u pairs :=
    Build_ConcreteUrl (cu_scheme u) (cu_host u) (cu_port u) (Some "") (cu_path u)
      (cu_pairs u ++ pairs);
  url_clear_query u := Build_ConcreteUrl (cu_scheme u) (cu_host u) (cu_port u) None (cu_path u) [];
  url_clear_fragment u := u
}.

(** ** The laws hold *)

Lemma pos_print_parse (p : positive) : pos_parse (pos_print p) = Some p.
Proof. induction p as [p IH|p IH|]; simpl; [by rewrite IH..|done]. Qed.

Lemma parse_print_via {A : Type} `{Countable A} (a : A) : parse_via (print_via a) = Some a.
Proof. unfold parse_via, print_via. rewrite pos_print_parse. apply decode_encode. Qed.

Lemma json_tree_round_trip (j : Json) : tree_to_json (json_to_tree j) = j.
Proof.
  revert j. fix IH 1. intros [|b|z|t|s|l|l]; simpl; [reflexivity..| |]; f_equal.
  - induction l as [|j l IHl]; simpl; [done|]. rewrite IH. f_equal. exact IHl.
  - induction l as [|[k v] l IHl]; simpl; [done|]. rewrite IH. f_equal. exact IHl.
Qed.

#[global] Instance concrete_json_laws : JsonLaws.
Proof.
  constructor. intros v. simpl. rewrite parse_print_via. simpl. by rewrite json_tree_round_trip.
Qed.

#[global] Instance concrete_chrono_laws : ChronoLaws.
Proof.
  constructor; simpl.
  - intros t n t'. case_bool_decide; [congruence|done].
  - intros t n _ H. by rewrite bool_decide_eq_true_2.
  - intros t _. apply parse_print_via.
Qed.

#[global] Instance concrete_hash_laws : HashLaws.
Proof. constructor; intros; apply length_be_bytes. Qed.

#[global] Instance concrete_signature_laws : SignatureLaws.
Proof.
  constructor.
  - intros sk H. exact H.
  - intros sk m _. apply length_be_bytes.
  - intros sk _. reflexivity.
  - intros sk m _. apply bool_decide_eq_true_2. reflexivity.
Qed.

#[global] Instance concrete_aead_laws : AeadLaws.
Proof.
  constructor.
  - intros k n m c Hc. cbn [aead_encrypt aead_decrypt concrete_aead] in *.
    apply (inj Some) in Hc. subst c.
    rewrite length_app, length_be_bytes, Nat.add_sub, take_app_length.
    rewrite bool_decide_eq_true_2 by reflexivity. reflexivity.
  - intros. apply length_be_bytes.
Qed.

#[global] Instance concrete_x25519_laws : X25519Laws.
Proof.
  constructor; [done|]. intros a b _ _. cbn [x_shared x_public concrete_x25519].
  by rewrite Z.add_comm.
Qed.

#[global] Instance concrete_base64_laws : Base64Laws.
Proof. constructor. intros l. simpl. by rewrite as_from_bytes. Qed.

Lemma unescape_escape (l rest : list byte) : unescape (escape l ++ rest) = Some (l, rest).
Proof. induction l as [|b l IH]; simpl; [done|]. by rewrite IH. Qed.

Lemma unframed_framed (tag : byte) (l rest : list byte) :
  unframed tag (framed tag l ++ rest) = Ok (l, rest).
Proof.
  unfold unframed, framed. simpl. rewrite (Byte.byte_dec_lb (eq_refl tag)).
  by rewrite unescape_escape.
Qed.

Lemma unframed_number_framed (tag : byte) (z : Z) (rest : list byte) :
  unframed_number tag (framed tag (number_bytes z) ++ rest) = Ok (z, rest).
Proof.
  unfold unframed_number, number_bytes. rewrite unframed_framed. simpl.
  by rewrite from_as_bytes, parse_print_via.
Qed.

#[global] Instance concrete_cbor_laws : CborLaws.
Proof.
  constructor; intros;
    cbn [cbor_encode cbor_array cbor_map cbor_u8 cbor_i8 cbor_str cbor_bytes concrete_cbor];
    rewrite ?unframed_number_framed, ?unframed_framed; try reflexivity.
  cbn. by rewrite from_as_bytes.
Qed.

#[global] Instance concrete_hash_iter_laws : HashIterLaws.
Proof. by constructor. Qed.

#[global] Instance concrete_environment_laws : EnvironmentLaws.
Proof.
  constructor; cbn [env_uuid env_now concrete_environment].
  - intros i j H. apply string_app_inj_l in H.
    apply (f_equal (@parse_via nat _ _)) in H. rewrite !parse_print_via in H.
    by apply (inj Some) in H.
  - done.
  - intros i. unfold four_digit_year, nanos_per_second.
    pose proof (Z.mod_pos_bound (Z.of_nat i) 1000000 ltac:(lia)). lia.
Qed.
