(* ===== verification/Domain.v ===== *)
(** * Domain: identifiers, origins, actions, state machines and entities

    Models the crate [secretctl-domain]: the identifier newtypes of [id.rs],
    the canonical origins of [origin.rs], the action kinds of [actions.rs], the
    four state machines of [states.rs] and the entities of [entities.rs] with
    their methods. URL parsing is the [url] crate's, an interface here.
    Instants are nanoseconds since the Unix epoch. *)

From S2P Require Import Prelude.
From S2P Require Import Externals.
From S2P Require Import Concrete.

(** ** Errors ([error.rs]) *)

Inductive DomainError : Type :=
| InvalidId (message : string)
| InvalidOrigin (message : string)
| InvalidStateTransition (from to : string)
| InvalidAction (action : string)
| ExpiredError (message : string)
| ExceededMaxUses (max : Z)
| EpochMismatchError (expected actual : Z)
| OriginMismatchError (expected actual : string)
| SessionMismatchError (expected actual : string)
| SecurityInvariantViolation (message : string).

#[global] Instance DomainError_eq_dec : EqDecision DomainError.
Proof. solve_decision. Defined.

(** The text [Display] prints. *)
Definition domain_error_text (e : DomainError) : string :=
  match e with
  | InvalidId m => "Invalid ID format: " +:+ m
  | InvalidOrigin m => "Invalid origin: " +:+ m
  | InvalidStateTransition from to =>
      "Invalid state transition from " +:+ from +:+ " to " +:+ to
  | InvalidAction a => "Invalid action: " +:+ a
  | ExpiredError m => "Expired: " +:+ m
  | ExceededMaxUses max => "Exceeded maximum uses: " +:+ format_unsigned max
  | EpochMismatchError expected actual =>
      "Epoch mismatch: expected " +:+ format_unsigned expected
      +:+ ", got " +:+ format_unsigned actual
  | OriginMismatchError expected actual =>
      "Origin mismatch: expected " +:+ expected +:+ ", got " +:+ actual
  | SessionMismatchError expected actual =>
      "Session mismatch: expected " +:+ expected +:+ ", got " +:+ actual
  | SecurityInvariantViolation m => "Security invariant violation: " +:+ m
  end.

(** ** Identifiers ([id.rs])

    The macro [define_id!] makes one newtype of [String] per prefix; [IdKind]
    names the instances and [Id k] is the newtype. *)

Inductive IdKind : Type :=
| KAgent | KCredential | KRecipe | KBrowserInstance | KBrowserSession | KCapability
| KRequest | KApproval | KExecution | KGrant | KEvent | KRule | KFlow | KFlowStep.

Definition id_prefix (k : IdKind) : string :=
  match k with
  | KAgent => "agent" | KCredential => "cred" | KRecipe => "rcp"
  | KBrowserInstance => "bi" | KBrowserSession => "bs" | KCapability => "cap"
  | KRequest => "req" | KApproval => "app" | KExecution => "exec" | KGrant => "grant"
  | KEvent => "evt" | KRule => "rule" | KFlow => "flw" | KFlowStep => "stp"
  end.

Record Id (k : IdKind) : Type := MkId { id_str : string }.
Arguments MkId {k} id_str.
Arguments id_str {k} i.

#[global] Instance Id_eq_dec (k : IdKind) : EqDecision (Id k).
Proof. solve_decision. Defined.
#[global] Instance Id_countable (k : IdKind) : Countable (Id k).
Proof. apply (inj_countable' id_str MkId). by intros []. Defined.

(** [$name::new], given the UUID text that [Uuid::now_v7] prints. *)
Definition id_new (k : IdKind) (uuid : string) : Id k :=
  MkId (id_prefix k +:+ "_" +:+ uuid).

(** [$name::parse]. *)
Definition id_parse (k : IdKind) (s : string) : result DomainError (Id k) :=
  if negb (starts_with s (id_prefix k +:+ "_")) || (slen s <=? slen (id_prefix k) + 1)
  then Err (InvalidId ("Expected prefix '" +:+ id_prefix k +:+ "', got '" +:+ s +:+ "'"))
  else Ok (MkId s).

Abbreviation AgentId := (Id KAgent).
Abbreviation CredentialId := (Id KCredential).
Abbreviation RecipeId := (Id KRecipe).
Abbreviation BrowserInstanceId := (Id KBrowserInstance).
Abbreviation BrowserSessionId := (Id KBrowserSession).
Abbreviation CapabilityId := (Id KCapability).
Abbreviation RequestId := (Id KRequest).
Abbreviation ApprovalId := (Id KApproval).
Abbreviation ExecutionId := (Id KExecution).
Abbreviation GrantId := (Id KGrant).
Abbreviation EventId := (Id KEvent).
Abbreviation RuleId := (Id KRule).
Abbreviation FlowId := (Id KFlow).
Abbreviation FlowStepId := (Id KFlowStep).

(** ** Canonical origins ([origin.rs]) *)

Record CanonicalOrigin : Type := MkOrigin {
  origin_scheme : string;
  origin_host : string;
  origin_port : Z
}.

#[global] Instance CanonicalOrigin_eq_dec : EqDecision CanonicalOrigin.
Proof. solve_decision. Defined.

Definition default_port (scheme : string) : Z :=
  if bool_decide (scheme = "https") then 443 else 80.

Definition origin_as_str (o : CanonicalOrigin) : string :=
  origin_scheme o +:+ "://" +:+ origin_host o +:+ ":" +:+ format_unsigned (origin_port o).

Definition origin_matches (a b : CanonicalOrigin) : bool :=
  bool_decide (origin_scheme a = origin_scheme b)
  && bool_decide (origin_host a = origin_host b)
  && (origin_port a =? origin_port b).

Section OriginParse.
Context `{UP : UrlParser}.

Definition origin_parse (s : string) : result DomainError CanonicalOrigin :=
  url ← map_err (fun e => InvalidOrigin (s +:+ ": " +:+ e)) (url_parse s);
  let scheme := to_ascii_lowercase (url_scheme url) in
  if bool_decide (scheme ≠ "https") && bool_decide (scheme ≠ "http")
  then Err (InvalidOrigin ("Unsupported scheme: " +:+ scheme))
  else
    host ← ok_or (InvalidOrigin "Missing host") (url_host_str url);
    let host := to_ascii_lowercase host in
    if contains host "*"
    then Err (InvalidOrigin "Wildcard host is not permitted in canonical origin")
    else
      let port := default (default_port scheme) (url_port url) in
      Ok (MkOrigin scheme host port).
End OriginParse.

(** Documented behaviour of the [url] crate that reading an origin back relies
    on: writing scheme, host and port of a parsed URL gives a URL with that
    scheme and host, whose port reads as absent when it is the default one. *)
Class UrlLaws `{UrlParser} := {
  url_reparse (s : string) (u : Url) (h : string) :
    url_parse s = Ok u -> url_host_str u = Some h ->
    let scheme := to_ascii_lowercase (url_scheme u) in
    let host := to_ascii_lowercase h in
    let port := default (default_port scheme) (url_port u) in
    exists u',
      url_parse (origin_as_str (MkOrigin scheme host port)) = Ok u' /\
      url_scheme u' = scheme /\ url_host_str u' = Some host /\
      url_port u' = (if port =? default_port scheme then None else Some port)
}.

(** ** Action kinds ([actions.rs]) *)

Inductive ActionKind : Type :=
| AuthenticatePassword | AuthenticateTotp | FormSensitiveFill | OAuthAuthorize.

#[global] Instance ActionKind_eq_dec : EqDecision ActionKind.
Proof. solve_decision. Defined.

Definition action_as_str (a : ActionKind) : string :=
  match a with
  | AuthenticatePassword => "authenticate.password"
  | AuthenticateTotp => "authenticate.totp"
  | FormSensitiveFill => "form.sensitive_fill"
  | OAuthAuthorize => "oauth.authorize"
  end.

Definition action_from_str (s : string) : result DomainError ActionKind :=
  if bool_decide (s = "authenticate.password") then Ok AuthenticatePassword
  else if bool_decide (s = "authenticate.totp") then Ok AuthenticateTotp
  else if bool_decide (s = "form.sensitive_fill") then Ok FormSensitiveFill
  else if bool_decide (s = "oauth.authorize") then Ok OAuthAuthorize
  else Err (InvalidAction s).

(** ** State machines ([states.rs]) *)

Module ActionRequestState.
Inductive t : Type :=
| Requested | PolicyEvaluating | AwaitingApproval | Approved | CapabilityIssued
| Executing | Completed | Denied | Expired | Cancelled | Indeterminate
| CompletedEvidenceLost | Revoked | Failed.

#[global] Instance t_eq_dec : EqDecision t.
Proof. solve_decision. Defined.

Definition is_terminal (s : t) : bool :=
  match s with
  | Completed | Denied | Expired | Cancelled | Indeterminate
  | CompletedEvidenceLost | Revoked | Failed => true
  | _ => false
  end.

Definition as_str (s : t) : string :=
  match s with
  | Requested => "requested"
  | PolicyEvaluating => "policy_evaluating"
  | AwaitingApproval => "awaiting_approval"
  | Approved => "approved"
  | CapabilityIssued => "capability_issued"
  | Executing => "executing"
  | Completed => "completed"
  | Denied => "denied"
  | Expired => "expired"
  | Cancelled => "cancelled"
  | Indeterminate => "indeterminate"
  | CompletedEvidenceLost => "completed_evidence_lost"
  | Revoked => "revoked"
  | Failed => "failed"
  end.

Definition transition_to (self next : t) : result DomainError t :=
  if is_terminal self then Err (InvalidStateTransition (as_str self) (as_str next))
  else
    let valid :=
      match self, next with
      | Requested, PolicyEvaluating => true
      | PolicyEvaluating, AwaitingApproval => true
      | PolicyEvaluating, Approved => true
      | PolicyEvaluating, Denied => true
      | AwaitingApproval, Approved => true
      | AwaitingApproval, Denied => true
      | Approved, CapabilityIssued => true
      | CapabilityIssued, Executing => true
      | Executing, Completed => true
      | Executing, Failed => true
      | _, Expired | _, Cancelled | _, Indeterminate
      | _, CompletedEvidenceLost | _, Revoked | _, Failed => true
      | _, _ => false
      end in
    if valid then Ok next
    else Err (InvalidStateTransition (as_str self) (as_str next)).
End ActionRequestState.

Module CapabilityState.
Inductive t : Type := Issued | Active | Consumed | Expired | Revoked.

#[global] Instance t_eq_dec : EqDecision t.
Proof. solve_decision. Defined.

Definition is_terminal (s : t) : bool :=
  match s with Consumed | Expired | Revoked => true | _ => false end.

Definition as_str (s : t) : string :=
  match s with
  | Issued => "issued"
  | Active => "active"
  | Consumed => "consumed"
  | Expired => "expired"
  | Revoked => "revoked"
  end.

Definition transition_to (self next : t) : result DomainError t :=
  if is_terminal self then Err (InvalidStateTransition (as_str self) (as_str next))
  else
    let valid :=
      match self, next with
      | Issued, Active | Issued, Consumed | Active, Consumed => true
      | _, Expired | _, Revoked => true
      | _, _ => false
      end in
    if valid then Ok next
    else Err (InvalidStateTransition (as_str self) (as_str next)).
End CapabilityState.

Module BrowserSessionState.
Inductive t : Type := Starting | Active | Stale | Terminated.

#[global] Instance t_eq_dec : EqDecision t.
Proof. solve_decision. Defined.

Definition is_terminal (s : t) : bool :=
  match s with Terminated => true | _ => false end.

Definition as_str (s : t) : string :=
  match s with
  | Starting => "starting"
  | Active => "active"
  | Stale => "stale"
  | Terminated => "terminated"
  end.

Definition transition_to (self next : t) : result DomainError t :=
  if is_terminal self then Err (InvalidStateTransition (as_str self) (as_str next))
  else
    let valid :=
      match self, next with
      | Starting, Active | Active, Stale | Stale, Active => true
      | _, Terminated => true
      | _, _ => false
      end in
    if valid then Ok next
    else Err (InvalidStateTransition (as_str self) (as_str next)).
End BrowserSessionState.

Module ExecutionState.
Inductive t : Type :=
| Prepared | Consuming | Completed | Failed | Indeterminate | CompletedEvidenceLost.

#[global] Instance t_eq_dec : EqDecision t.
Proof. solve_decision. Defined.

Definition is_terminal (s : t) : bool :=
  match s with
  | Completed | Failed | Indeterminate | CompletedEvidenceLost => true
  | _ => false
  end.

Definition as_str (s : t) : string :=
  match s with
  | Prepared => "prepared"
  | Consuming => "consuming"
  | Completed => "completed"
  | Failed => "failed"
  | Indeterminate => "indeterminate"
  | CompletedEvidenceLost => "completed_evidence_lost"
  end.

Definition transition_to (self next : t) : result DomainError t :=
  if is_terminal self then Err (InvalidStateTransition (as_str self) (as_str next))
  else
    let valid :=
      match self, next with
      | Prepared, Consuming
      | Consuming, Completed | Consuming, Failed | Consuming, Indeterminate
      | Consuming, CompletedEvidenceLost
      | Prepared, Failed => true
      | _, _ => false
      end in
    if valid then Ok next
    else Err (InvalidStateTransition (as_str self) (as_str next)).
End ExecutionState.

(** ** Entities ([entities.rs]) *)

(** [chrono::Duration::seconds] and [::days], as nanoseconds. *)
Definition seconds (n : Z) : Z := n * nanos_per_second.
Definition days (n : Z) : Z := seconds (n * 86400).

Record AgentPrincipal : Type := {
  ag_agent_id : AgentId;
  ag_role : string;
  ag_public_key : list byte;
  ag_display_name : string;
  ag_peer_uid : option Z;
  ag_executable_path : option string;
  ag_executable_hash : option (list byte);
  ag_state : string;
  ag_created_at : Instant
}.

Record CredentialDescriptor : Type := {
  cred_credential_id : CredentialId;
  cred_name : string;
  cred_kind : string;
  cred_provider : string;
  cred_provider_locator : string;
  cred_allowed_actions : list ActionKind;
  cred_metadata_json : string;
  cred_disabled_at : option Instant
}.

Record RecipeField : Type := {
  rf_role : string;
  rf_selector : string;
  rf_optional : bool;
  rf_clear_first : bool
}.

Record RecipeSubmit : Type := {
  rs_selector : option string;
  rs_auto_submit : bool;
  rs_delay_ms : option Z
}.

Record RecipeSuccessIndicators : Type := {
  ri_navigation_origin : option string;
  ri_selector_present : option string;
  ri_selector_absent : option string;
  ri_timeout_ms : option Z
}.

Record RecipeMatch : Type := {
  rm_top_origin : CanonicalOrigin;
  rm_path_prefix : option string;
  rm_frame_origin : option CanonicalOrigin
}.

Record OAuthRecipe : Type := {
  or_issuer : CanonicalOrigin;
  or_authorization_endpoint : string;
  or_token_endpoint : string;
  or_client_id : string;
  or_redirect_uri : string;
  or_allowed_scopes : list string
}.

Record SiteRecipe : Type := {
  rcp_recipe_id : RecipeId;
  rcp_version : Z;
  rcp_name : string;
  rcp_action : ActionKind;
  rcp_match_rule : RecipeMatch;
  rcp_fields : list RecipeField;
  rcp_submit : option RecipeSubmit;
  rcp_success_indicators : option RecipeSuccessIndicators;
  rcp_oauth : option OAuthRecipe;
  rcp_content_hash : list byte;
  rcp_enabled : bool
}.

Record BrowserSession : Type := {
  bs_session_id : BrowserSessionId;
  bs_instance_id : BrowserInstanceId;
  bs_extension_key_id : string;
  bs_profile_id : string;
  bs_assurance : string;
  bs_state : BrowserSessionState.t;
  bs_last_heartbeat_at : Instant
}.

Record PageContext : Type := {
  pc_tab_id : Z;
  pc_frame_id : Z;
  pc_top_origin : CanonicalOrigin;
  pc_frame_origin : CanonicalOrigin;
  pc_navigation_epoch : Z;
  pc_document_id : string;
  pc_path : string;
  pc_path_sha256 : string;
  pc_tls : bool;
  pc_incognito : bool;
  pc_observed_at : Instant
}.

Inductive PolicyEffect : Type := Allow | Deny.
#[global] Instance PolicyEffect_eq_dec : EqDecision PolicyEffect.
Proof. solve_decision. Defined.

Inductive RiskLevel : Type := Low | Medium | High | Critical.
#[global] Instance RiskLevel_eq_dec : EqDecision RiskLevel.
Proof. solve_decision. Defined.

Record PolicyDecision : Type := {
  pd_effect : PolicyEffect;
  pd_risk_level : RiskLevel;
  pd_rule_id : option RuleId;
  pd_policy_hash : list byte;
  pd_require_user_presence : bool;
  pd_max_uses : Z;
  pd_consume_ttl_seconds : Z;
  pd_execution_ttl_seconds : Z
}.

Record CapabilityDeadlines : Type := {
  dl_consume_ttl_seconds : Z;
  dl_execution_ttl_seconds : Z;
  dl_step_ttl_seconds : option Z
}.

Definition from_policy (decision : PolicyDecision) : CapabilityDeadlines := {|
  dl_consume_ttl_seconds := pd_consume_ttl_seconds decision;
  dl_execution_ttl_seconds := pd_execution_ttl_seconds decision;
  dl_step_ttl_seconds := None
|}.

Definition with_step (d : CapabilityDeadlines) (step : option Z) : CapabilityDeadlines := {|
  dl_consume_ttl_seconds := dl_consume_ttl_seconds d;
  dl_execution_ttl_seconds := dl_execution_ttl_seconds d;
  dl_step_ttl_seconds := step
|}.

Record FlowBinding : Type := { fb_flow_id : FlowId; fb_step_id : FlowStepId }.

Definition DEFAULT_EXECUTION_TTL_SECONDS : Z := 120.

Record Approval : Type := {
  apr_approval_id : ApprovalId;
  apr_request_id : RequestId;
  apr_decision : string;
  apr_actor : option string;
  apr_presence : option string;
  apr_context_digest : list byte;
  apr_decided_at : option Instant;
  apr_expires_at : Instant
}.

Record Capability : Type := {
  cap_capability_id : CapabilityId;
  cap_request_id : RequestId;
  cap_agent_id : AgentId;
  cap_credential_id : CredentialId;
  cap_action : ActionKind;
  cap_top_origin : CanonicalOrigin;
  cap_frame_origin : CanonicalOrigin;
  cap_browser_session_id : BrowserSessionId;
  cap_extension_key_id : string;
  cap_tab_id : Z;
  cap_frame_id : Z;
  cap_document_id : string;
  cap_navigation_epoch : Z;
  cap_recipe_id : RecipeId;
  cap_recipe_hash : list byte;
  cap_policy_hash : list byte;
  cap_token_hash : list byte;
  cap_state : CapabilityState.t;
  cap_max_uses : Z;
  cap_used_count : Z;
  cap_issued_at : Instant;
  cap_consume_deadline : Instant;
  cap_execution_deadline : Instant;
  cap_step_deadline : option Instant;
  cap_flow_id : option FlowId;
  cap_step_id : option FlowStepId;
  cap_revoked_reason : option string
}.

(** The three fields of a capability that change after it is minted. *)
Definition set_capability_status (c : Capability) (state : CapabilityState.t)
    (used_count : Z) (revoked_reason : option string) : Capability := {|
  cap_capability_id := cap_capability_id c;
  cap_request_id := cap_request_id c;
  cap_agent_id := cap_agent_id c;
  cap_credential_id := cap_credential_id c;
  cap_action := cap_action c;
  cap_top_origin := cap_top_origin c;
  cap_frame_origin := cap_frame_origin c;
  cap_browser_session_id := cap_browser_session_id c;
  cap_extension_key_id := cap_extension_key_id c;
  cap_tab_id := cap_tab_id c;
  cap_frame_id := cap_frame_id c;
  cap_document_id := cap_document_id c;
  cap_navigation_epoch := cap_navigation_epoch c;
  cap_recipe_id := cap_recipe_id c;
  cap_recipe_hash := cap_recipe_hash c;
  cap_policy_hash := cap_policy_hash c;
  cap_token_hash := cap_token_hash c;
  cap_state := state;
  cap_max_uses := cap_max_uses c;
  cap_used_count := used_count;
  cap_issued_at := cap_issued_at c;
  cap_consume_deadline := cap_consume_deadline c;
  cap_execution_deadline := cap_execution_deadline c;
  cap_step_deadline := cap_step_deadline c;
  cap_flow_id := cap_flow_id c;
  cap_step_id := cap_step_id c;
  cap_revoked_reason := revoked_reason
|}.

Definition is_valid_at (c : Capability) (now : Instant) : bool :=
  (bool_decide (cap_state c = CapabilityState.Issued)
   || bool_decide (cap_state c = CapabilityState.Active))
  && (now <=? cap_consume_deadline c)
  && (cap_used_count c <? cap_max_uses c).

Definition execution_window_elapsed (c : Capability) (now : Instant) : bool :=
  cap_execution_deadline c <? now.

Definition step_window_elapsed (c : Capability) (now : Instant) : bool :=
  is_some_and (fun deadline => deadline <? now) (cap_step_deadline c).

Record CapabilitySummary : Type := {
  cs_capability_id : CapabilityId;
  cs_request_id : RequestId;
  cs_state : string;
  cs_max_uses : Z;
  cs_used_count : Z;
  cs_issued_at : Instant;
  cs_expires_at : Instant;
  cs_revoked_reason : option string;
  cs_signing_key_id : string
}.

Record Execution : Type := {
  ex_execution_id : ExecutionId;
  ex_capability_id : CapabilityId;
  ex_state : ExecutionState.t;
  ex_prepared_context_digest : option (list byte);
  ex_started_at : option Instant;
  ex_completed_at : option Instant;
  ex_result_code : option string
}.

Record OAuthGrant : Type := {
  og_grant_id : GrantId;
  og_credential_id : CredentialId;
  og_provider_locator : string;
  og_scopes : list string;
  og_subject_hint : option string;
  og_created_at : Instant;
  og_expires_at : option Instant
}.

Record AuditEvent : Type := {
  ev_sequence : Z;
  ev_event_id : EventId;
  ev_event_type : string;
  ev_actor_type : string;
  ev_actor_id : option string;
  ev_event_json : string;
  ev_audit_key_version : Z;
  ev_previous_hash : list byte;
  ev_event_hash : list byte;
  ev_created_at : Instant
}.

Record AuditCheckpoint : Type := {
  cp_sequence : Z;
  cp_event_hash : list byte;
  cp_audit_key_version : Z;
  cp_signing_key_id : string;
  cp_signature : list byte;
  cp_created_at : Instant
}.

Record StandingGrant : Type := {
  sg_grant_id : GrantId;
  sg_agent_id : AgentId;
  sg_agent_name : string;
  sg_credential_id : CredentialId;
  sg_credential_name : string;
  sg_origin : CanonicalOrigin;
  sg_action : ActionKind;
  sg_risk_ceiling : RiskLevel;
  sg_require_presence : bool;
  sg_created_at : Instant;
  sg_expires_at : Instant;
  sg_revoked_at : option Instant;
  sg_revoked_reason : option string;
  sg_last_used_at : option Instant;
  sg_use_count : Z
}.

Definition risk_as_str (r : RiskLevel) : string :=
  match r with
  | Low => "low" | Medium => "medium" | High => "high" | Critical => "critical"
  end.

Definition risk_rank (r : RiskLevel) : Z :=
  match r with Low => 0 | Medium => 1 | High => 2 | Critical => 3 end.

Definition risk_from_str (value : string) : result DomainError RiskLevel :=
  if bool_decide (value = "low") then Ok Low
  else if bool_decide (value = "medium") then Ok Medium
  else if bool_decide (value = "high") then Ok High
  else if bool_decide (value = "critical") then Ok Critical
  else Err (InvalidId ("unknown risk level '" +:+ value +:+ "'")).

Definition MAX_GRANTABLE_RISK : RiskLevel := Medium.
Definition MAX_GRANT_TTL_DAYS : Z := 90.

Definition is_active_at (g : StandingGrant) (now : Instant) : bool :=
  bool_decide (sg_revoked_at g = None) && (now <? sg_expires_at g).

Definition covers (g : StandingGrant) (agent_id : AgentId) (credential_name : string)
    (action : ActionKind) (origin : CanonicalOrigin) (risk : RiskLevel)
    (now : Instant) : bool :=
  is_active_at g now
  && negb (sg_require_presence g)
  && bool_decide (sg_agent_id g = agent_id)
  && bool_decide (sg_credential_name g = credential_name)
  && bool_decide (sg_action g = action)
  && bool_decide (sg_origin g = origin)
  && (risk_rank risk <=? risk_rank (sg_risk_ceiling g))
  && (risk_rank risk <=? risk_rank MAX_GRANTABLE_RISK).

(** [OAuthRecipe::validate]. [seen.insert] inside [any] makes the scan stop at
    the first empty, blank-containing or repeated scope. *)
Fixpoint bad_scope (seen : list string) (scopes : list string) : bool :=
  match scopes with
  | [] => false
  | scope :: scopes =>
      bool_decide (scope = "") || existsb is_whitespace (chars scope)
      || bool_decide (scope ∈ seen) || bad_scope (scope :: seen) scopes
  end.

Section OAuthValidate.
Context `{UP : UrlParser}.

Definition parse_endpoint (value : string) : result DomainError Url :=
  url ← map_err (fun _ => SecurityInvariantViolation "OAuth URL is invalid")
          (url_parse value);
  if bool_decide (url_scheme url ≠ "https") || bool_decide (url_username url ≠ "")
     || bool_decide (url_password url ≠ None) || bool_decide (url_query url ≠ None)
     || bool_decide (url_fragment url ≠ None)
  then Err (SecurityInvariantViolation
         "OAuth endpoints must be HTTPS URLs without credentials, query, or fragment")
  else Ok url.

Definition endpoint_origin (url : Url) : result DomainError CanonicalOrigin :=
  map_err (fun _ => SecurityInvariantViolation "OAuth issuer is invalid")
    (origin_parse (url_origin_ascii url)).

Definition validate (r : OAuthRecipe) : result DomainError unit :=
  authorization ← parse_endpoint (or_authorization_endpoint r);
  token ← parse_endpoint (or_token_endpoint r);
  authorization_origin ← endpoint_origin authorization;
  token_origin ← endpoint_origin token;
  if negb (origin_matches authorization_origin (or_issuer r))
     || negb (origin_matches token_origin (or_issuer r))
  then Err (SecurityInvariantViolation
              "OAuth endpoints must match the configured issuer")
  else
    redirect ← map_err (fun _ => SecurityInvariantViolation "OAuth redirect URI is invalid")
                 (url_parse (or_redirect_uri r));
    if bool_decide (url_scheme redirect ≠ "https")
       || bool_decide (url_username redirect ≠ "")
       || bool_decide (url_password redirect ≠ None)
       || bool_decide (url_query redirect ≠ None)
       || bool_decide (url_fragment redirect ≠ None)
    then Err (SecurityInvariantViolation
                "OAuth redirect must be an exact HTTPS origin/path")
    else if is_blank (or_client_id r) || bool_decide (or_allowed_scopes r = [])
    then Err (SecurityInvariantViolation "OAuth client ID and scopes are required")
    else if bad_scope [] (or_allowed_scopes r)
    then Err (SecurityInvariantViolation "OAuth scopes must be unique non-empty names")
    else Ok tt.
End OAuthValidate.

(** ** Properties of the identifiers *)

Lemma id_parse_Ok (k : IdKind) (s : string) (i : Id k) :
  id_parse k s = Ok i <->
  i = MkId s /\ exists r, r <> EmptyString /\ s = id_prefix k +:+ "_" +:+ r.
Proof.
  unfold id_parse.
  assert (Hlen : forall r, slen ((id_prefix k +:+ "_") +:+ r) = slen (id_prefix k) + 1 + slen r)
    by (intros r; rewrite !slen_app; done).
  assert (Hassoc : forall r, (id_prefix k +:+ "_") +:+ r = id_prefix k +:+ "_" +:+ r)
    by (intros r; by destruct k).
  destruct (starts_with s (id_prefix k +:+ "_")) eqn:Hs; simpl.
  - apply starts_with_spec in Hs as [r ->]. rewrite Hlen.
    destruct (Z.leb_spec (slen (id_prefix k) + 1 + slen r) (slen (id_prefix k) + 1)) as [Hl|Hl].
    + split; [done|]. intros (_ & r' & Hr' & Heq). rewrite <-Hassoc in Heq.
      apply string_app_inj_l in Heq as ->. destruct r'; [done|]. unfold slen in Hl. simpl in Hl. lia.
    + split.
      * intros [= <-]. split; [done|]. exists r. split; [|apply Hassoc].
        intros ->. unfold slen in Hl. simpl in Hl. lia.
      * intros (-> & _). done.
  - split; [done|]. intros (_ & r & _ & ->). rewrite <-Hassoc, starts_with_app in Hs. done.
Qed.

Lemma id_parse_new (k : IdKind) (uuid : string) :
  uuid <> EmptyString -> id_parse k (id_str (id_new k uuid)) = Ok (id_new k uuid).
Proof. intros H. apply id_parse_Ok. split; [done|]. by exists uuid. Qed.

Lemma id_parse_str (k : IdKind) (s : string) (i : Id k) :
  id_parse k s = Ok i -> id_parse k (id_str i) = Ok i /\ id_str i = s.
Proof. intros H. pose proof H as H'. apply id_parse_Ok in H as [-> _]. done. Qed.

(** ** Properties of the closed enumerations *)

Lemma action_round_trip (a : ActionKind) : action_from_str (action_as_str a) = Ok a.
Proof. by destruct a. Qed.

Lemma action_from_str_Ok (s : string) (a : ActionKind) :
  action_from_str s = Ok a <-> s = action_as_str a.
Proof.
  split; [|intros ->; apply action_round_trip].
  unfold action_from_str. repeat case_bool_decide; intros H'; inv_ok; subst; done.
Qed.

Lemma action_as_str_inj (a b : ActionKind) : action_as_str a = action_as_str b -> a = b.
Proof. destruct a, b; done. Qed.

Lemma risk_round_trip (r : RiskLevel) : risk_from_str (risk_as_str r) = Ok r.
Proof. by destruct r. Qed.

Lemma CapabilityState_as_str_inj (a b : CapabilityState.t) :
  CapabilityState.as_str a = CapabilityState.as_str b -> a = b.
Proof. destruct a, b; done. Qed.

Lemma ExecutionState_as_str_inj (a b : ExecutionState.t) :
  ExecutionState.as_str a = ExecutionState.as_str b -> a = b.
Proof. destruct a, b; done. Qed.

(** ** Properties of the state machines *)

(** Successful transitions, as a relation, and the paths they make: [path s l t]
    when the machine goes from [s] through the states [l] to [t], the last of
    [l] when [l] is not empty. *)
Definition action_step (s t : ActionRequestState.t) : Prop :=
  ActionRequestState.transition_to s t = Ok t.

Inductive action_path : ActionRequestState.t -> list ActionRequestState.t ->
    ActionRequestState.t -> Prop :=
| path_nil s : action_path s [] s
| path_snoc s l t u : action_path s l t -> action_step t u -> action_path s (l ++ [u]) u.

Lemma action_step_from_terminal s t :
  ActionRequestState.is_terminal s = true -> ~ action_step s t.
Proof. intros Hs H. destruct s; simpl in Hs; try done. Qed.

Lemma action_step_pred t u :
  action_step t u ->
  (u = ActionRequestState.Completed -> t = ActionRequestState.Executing) /\
  (u = ActionRequestState.Executing -> t = ActionRequestState.CapabilityIssued) /\
  (u = ActionRequestState.CapabilityIssued -> t = ActionRequestState.Approved) /\
  (u = ActionRequestState.Approved ->
     t = ActionRequestState.PolicyEvaluating \/ t = ActionRequestState.AwaitingApproval).
Proof. unfold action_step. destruct t, u; simpl; intros H; try discriminate H; naive_solver. Qed.

Lemma action_path_last s l t :
  action_path s l t -> s <> t -> t ∈ l.
Proof. destruct 1; intros Hne; [done|]. set_solver. Qed.

Lemma action_path_inv s l u :
  action_path s l u -> s <> u ->
  exists l' t, l = l' ++ [u] /\ action_path s l' t /\ action_step t u.
Proof. destruct 1 as [|? l t ? H S]; intros Hne; [done|]. by exists l, t. Qed.

(** A request that reaches [Completed] has been approved, has had a
    capability issued and has been executing: no sequence of transitions that
    [transition_to] accepts gets from [Requested] to [Completed] around one of
    the three. *)
Theorem completed_only_after_approval_and_execution l :
  action_path ActionRequestState.Requested l ActionRequestState.Completed ->
  ActionRequestState.Approved ∈ l /\ ActionRequestState.CapabilityIssued ∈ l /\
  ActionRequestState.Executing ∈ l.
Proof.
  intros H. apply action_path_inv in H as (l1 & t1 & -> & H1 & S1); [|done].
  apply action_step_pred in S1 as [S1 _]. rewrite S1 in H1 by done.
  apply action_path_inv in H1 as (l2 & t2 & -> & H2 & S2); [|done].
  apply action_step_pred in S2 as (_ & S2 & _). rewrite S2 in H2 by done.
  apply action_path_inv in H2 as (l3 & t3 & -> & H3 & S3); [|done].
  apply action_step_pred in S3 as (_ & _ & S3 & _). rewrite S3 in H3 by done.
  apply action_path_last in H3; [|done]. set_solver.
Qed.

Lemma completed_only_after_approval_and_execution_witness :
  let l := [ActionRequestState.PolicyEvaluating; ActionRequestState.Approved;
            ActionRequestState.CapabilityIssued; ActionRequestState.Executing;
            ActionRequestState.Completed] in
  action_path ActionRequestState.Requested l ActionRequestState.Completed /\
  ActionRequestState.Approved ∈ l.
Proof.
  intros l.
  assert (H : action_path ActionRequestState.Requested l ActionRequestState.Completed).
  { unfold l.
    apply (path_snoc _ [_; _; _; _] ActionRequestState.Executing); [|reflexivity].
    apply (path_snoc _ [_; _; _] ActionRequestState.CapabilityIssued); [|reflexivity].
    apply (path_snoc _ [_; _] ActionRequestState.Approved); [|reflexivity].
    apply (path_snoc _ [_] ActionRequestState.PolicyEvaluating); [|reflexivity].
    apply (path_snoc _ [] ActionRequestState.Requested); [constructor|reflexivity]. }
  split; [exact H|].
  exact (proj1 (completed_only_after_approval_and_execution l H)).
Defined.

(** The four machines share one shape: a terminal state accepts no transition,
    and every transition accepted lands on the state asked for. *)
Lemma transitions_sound_action s t u :
  ActionRequestState.transition_to s t = Ok u ->
  u = t /\ ActionRequestState.is_terminal s = false.
Proof. destruct s, t; intros H; first [discriminate H | by injection H as <-]. Qed.
Lemma transitions_sound_capability s t u :
  CapabilityState.transition_to s t = Ok u -> u = t /\ CapabilityState.is_terminal s = false.
Proof. destruct s, t; intros H; first [discriminate H | by injection H as <-]. Qed.
Lemma transitions_sound_session s t u :
  BrowserSessionState.transition_to s t = Ok u ->
  u = t /\ BrowserSessionState.is_terminal s = false.
Proof. destruct s, t; intros H; first [discriminate H | by injection H as <-]. Qed.
Lemma transitions_sound_execution s t u :
  ExecutionState.transition_to s t = Ok u -> u = t /\ ExecutionState.is_terminal s = false.
Proof. destruct s, t; intros H; first [discriminate H | by injection H as <-]. Qed.

(** ** Properties of the origins *)

Lemma origin_matches_eq (a b : CanonicalOrigin) : origin_matches a b = true <-> a = b.
Proof.
  destruct a as [s h p], b as [s' h' p']. unfold origin_matches. simpl.
  rewrite !andb_true_iff, !bool_decide_eq_true, Z.eqb_eq. naive_solver.
Qed.

Lemma origin_matches_refl (a : CanonicalOrigin) : origin_matches a a = true.
Proof. by apply origin_matches_eq. Qed.

Lemma ascii_lower_idem (a : ascii) : ascii_lower (ascii_lower a) = ascii_lower a.
Proof. destruct a as [[] [] [] [] [] [] [] []]; vm_compute; reflexivity. Qed.

Lemma to_ascii_lowercase_idem (s : string) :
  to_ascii_lowercase (to_ascii_lowercase s) = to_ascii_lowercase s.
Proof.
  unfold to_ascii_lowercase. induction s as [|a s IH]; simpl; [done|].
  by rewrite ascii_lower_idem, IH.
Qed.

Section OriginProperties.
Context `{UP : UrlParser}.

Lemma origin_parse_Ok (s : string) (o : CanonicalOrigin) :
  origin_parse s = Ok o ->
  exists u h, url_parse s = Ok u /\ url_host_str u = Some h /\
    (origin_scheme o = "https" \/ origin_scheme o = "http") /\
    contains (origin_host o) "*" = false /\
    o = MkOrigin (to_ascii_lowercase (url_scheme u)) (to_ascii_lowercase h)
          (default (default_port (to_ascii_lowercase (url_scheme u))) (url_port u)).
Proof.
  unfold origin_parse. intros H0. apply bind_Ok_inv in H0 as (u & Hu & H0).
  apply map_err_Ok in Hu.
  destruct (bool_decide (to_ascii_lowercase (url_scheme u) ≠ "https") &&
            bool_decide (to_ascii_lowercase (url_scheme u) ≠ "http")) eqn:Hs; [discriminate|].
  apply bind_Ok_inv in H0 as (h & Hh & H0). apply ok_or_Ok in Hh.
  destruct (contains (to_ascii_lowercase h) "*") eqn:Hc; [discriminate|].
  injection H0 as <-. exists u, h. simpl. split_and!; try done.
  apply andb_false_iff in Hs. rewrite !bool_decide_eq_false in Hs.
  destruct Hs as [Hs|Hs]; [left|right]; by apply dec_stable.
Qed.

(** The text an origin prints parses back to that origin, so the origins
    stored as text in the database and carried in a token are read back
    exactly; the documented behaviour of the URL parser is a hypothesis. *)
Theorem origin_round_trip `{!UrlLaws} (s : string) (o : CanonicalOrigin) :
  origin_parse s = Ok o -> origin_parse (origin_as_str o) = Ok o.
Proof.
  intros Ho. apply origin_parse_Ok in Ho as (u & h & Hu & Hh & Hs & Hc & ->).
  destruct (url_reparse s u h Hu Hh) as (u' & Hu' & Hs' & Hh' & Hp').
  unfold origin_parse. rewrite Hu'. cbn [map_err mbind result_bind].
  rewrite Hs', Hh', to_ascii_lowercase_idem. cbn [origin_scheme origin_host] in *.
  replace (bool_decide (to_ascii_lowercase (url_scheme u) ≠ "https") &&
           bool_decide (to_ascii_lowercase (url_scheme u) ≠ "http")) with false
    by (destruct Hs as [-> | ->]; reflexivity).
  cbn. rewrite to_ascii_lowercase_idem, Hc, Hp'.
  destruct (Z.eqb_spec (default (default_port (to_ascii_lowercase (url_scheme u))) (url_port u))
    (default_port (to_ascii_lowercase (url_scheme u)))) as [Heq|Hne]; [|done].
  simpl. by rewrite Heq.
Qed.
End OriginProperties.

(** ** Properties of the standing grants *)

Lemma covers_spec g agent name action origin risk now :
  covers g agent name action origin risk now = true <->
  sg_revoked_at g = None /\ now < sg_expires_at g /\ sg_require_presence g = false /\
  sg_agent_id g = agent /\ sg_credential_name g = name /\ sg_action g = action /\
  sg_origin g = origin /\ risk_rank risk <= risk_rank (sg_risk_ceiling g) /\
  risk_rank risk <= risk_rank MAX_GRANTABLE_RISK.
Proof.
  unfold covers, is_active_at.
  rewrite !andb_true_iff, !bool_decide_eq_true, negb_true_iff, !Z.leb_le, Z.ltb_lt.
  naive_solver.
Qed.

(** A standing grant authorizes exactly the tuple it names, only while it
    is live, never when it records a presence requirement, and never above
    medium risk whatever ceiling it carries. *)
Theorem grant_covers_exact_tuple g agent name action origin risk now :
  covers g agent name action origin risk now = true ->
  (agent, name, action, origin)
    = (sg_agent_id g, sg_credential_name g, sg_action g, sg_origin g) /\
  is_active_at g now = true /\ sg_require_presence g = false /\
  (risk = Low \/ risk = Medium) /\
  (forall later, sg_expires_at g <= later ->
     covers g agent name action origin risk later = false).
Proof.
  intros Hc. pose proof Hc as (Hr & He & Hp & <- & <- & <- & <- & _ & Hm)%covers_spec.
  split_and!; [done | | done | |].
  - unfold is_active_at. rewrite Hr, bool_decide_eq_true_2 by done. by apply Z.ltb_lt.
  - destruct risk; simpl in Hm; auto; lia.
  - intros later Hl. apply not_true_iff_false. intros H.
    apply covers_spec in H as (_ & H & _). lia.
Qed.

Definition example_grant : StandingGrant := {|
  sg_grant_id := MkId "grant_1"; sg_agent_id := MkId "agent_fixed";
  sg_agent_name := "claude"; sg_credential_id := MkId "cred_fixed";
  sg_credential_name := "github-work"; sg_origin := MkOrigin "https" "github.com" 443;
  sg_action := AuthenticatePassword; sg_risk_ceiling := Critical;
  sg_require_presence := false; sg_created_at := 0; sg_expires_at := days 30;
  sg_revoked_at := None; sg_revoked_reason := None; sg_last_used_at := None;
  sg_use_count := 0 |}.

Lemma grant_covers_exact_tuple_witness :
  covers example_grant (MkId "agent_fixed") "github-work" AuthenticatePassword
    (MkOrigin "https" "github.com" 443) Medium 5 = true /\
  covers example_grant (MkId "agent_fixed") "github-work" AuthenticatePassword
    (MkOrigin "https" "github.com" 443) Medium (days 31) = false.
Proof.
  split; [vm_compute; reflexivity|].
  destruct (grant_covers_exact_tuple example_grant (MkId "agent_fixed") "github-work"
    AuthenticatePassword (MkOrigin "https" "github.com" 443) Medium 5) as (_ & _ & _ & _ & H);
    [vm_compute; reflexivity|].
  apply H. vm_compute. discriminate.
Defined.

(** ** Properties of the OAuth recipe validation *)

Lemma bad_scope_false (seen scopes : list string) :
  bad_scope seen scopes = false ->
  NoDup scopes /\ (forall s, s ∈ scopes -> s <> EmptyString /\ s ∉ seen) /\
  Forall (fun s => existsb is_whitespace (chars s) = false) scopes.
Proof.
  revert seen; induction scopes as [|s scopes IH]; intros seen; simpl.
  - intros _. split_and!; [constructor | set_solver | constructor].
  - intros H. bool_to_prop.
    match goal with H : bad_scope _ _ = false |- _ => apply IH in H as (Hd & Hs & Hw) end.
    split_and!.
    + constructor; [|done]. intros Hin. apply Hs in Hin as [_ Hin]. set_solver.
    + intros t [->|Ht]%elem_of_cons; [done|].
      apply Hs in Ht as [Ht1 Ht2]. split; [done|]. set_solver.
    + constructor; done.
Qed.

Section OAuthProperties.
Context `{UP : UrlParser}.

Lemma parse_endpoint_Ok (s : string) (u : Url) :
  parse_endpoint s = Ok u ->
  url_parse s = Ok u /\ url_scheme u = "https" /\ url_username u = EmptyString /\
  url_password u = None /\ url_query u = None /\ url_fragment u = None.
Proof.
  unfold parse_endpoint. intros H. apply bind_Ok_inv in H as (u' & Hu & H).
  apply map_err_Ok in Hu.
  match type of H with (if ?b then _ else _) = _ => destruct b eqn:Hb; [discriminate|] end.
  injection H as <-. bool_to_prop. split_and!; try done; by apply dec_stable.
Qed.

(** An OAuth recipe that passes [validate] sends the authorization request
    and the code exchange to the configured issuer's origin over https,
    redirects to an https URL without credentials, query or fragment, and
    names a client and a non-empty duplicate-free list of scopes. *)
Theorem oauth_recipe_validate_sound (r : OAuthRecipe) :
  validate r = Ok tt ->
  (forall e, e = or_authorization_endpoint r \/ e = or_token_endpoint r ->
     exists u, url_parse e = Ok u /\ url_scheme u = "https" /\
       url_username u = EmptyString /\ url_password u = None /\
       url_query u = None /\ url_fragment u = None /\
       origin_parse (url_origin_ascii u) = Ok (or_issuer r)) /\
  (exists u, url_parse (or_redirect_uri r) = Ok u /\ url_scheme u = "https" /\
     url_query u = None /\ url_fragment u = None) /\
  is_blank (or_client_id r) = false /\
  or_allowed_scopes r <> [] /\ NoDup (or_allowed_scopes r).
Proof.
  unfold validate. intros H.
  apply bind_Ok_inv in H as (a & Ha & H). apply bind_Ok_inv in H as (t & Ht & H).
  apply bind_Ok_inv in H as (ao & Hao & H). apply bind_Ok_inv in H as (to & Hto & H).
  apply map_err_Ok in Hao, Hto.
  match type of H with (if ?b then _ else _) = _ => destruct b eqn:Hm; [discriminate|] end.
  apply bind_Ok_inv in H as (u & Hu & H). apply map_err_Ok in Hu.
  match type of H with (if ?b then _ else _) = _ => destruct b eqn:Hr; [discriminate|] end.
  match type of H with (if ?b then _ else _) = _ => destruct b eqn:Hc; [discriminate|] end.
  match type of H with (if ?b then _ else _) = _ => destruct b eqn:Hs; [discriminate|] end.
  apply bad_scope_false in Hs as (Hs & _).
  apply parse_endpoint_Ok in Ha as (Ha & Ha' & Ha1 & Ha2 & Ha3 & Ha4).
  apply parse_endpoint_Ok in Ht as (Ht & Ht' & Ht1 & Ht2 & Ht3 & Ht4).
  bool_to_prop.
  repeat match goal with H : origin_matches _ _ = true |- _ => apply origin_matches_eq in H end.
  subst. split_and!; try done.
  - intros e [-> | ->]; [exists a | exists t]; split_and!; congruence.
  - exists u. split_and!; try done; by apply dec_stable.
Qed.
End OAuthProperties.

(** ** Witnesses with the concrete URL table *)

#[global] Instance concrete_url_laws : @UrlLaws concrete_url.
Proof.
  constructor. intros s u h. cbn [url_parse url_host_str url_scheme url_port concrete_url Url].
  destruct (list_find (fun e => fst e = s) url_table) as [[i [t v]]|] eqn:Hf; [|done].
  intros [= <-] Hh. apply list_find_Some in Hf as (Hi & _ & _).
  do 7 (destruct i as [|i]; [injection Hi as <- <-; injection Hh as <-;
    eexists; split_and!; vm_compute; reflexivity|]).
  discriminate Hi.
Qed.

Lemma origin_round_trip_witness :
  @origin_parse concrete_url "https://github.com/login?x=1" = Ok (MkOrigin "https" "github.com" 443) /\
  @origin_parse concrete_url "https://github.com:443" = Ok (MkOrigin "https" "github.com" 443).
Proof.
  split; [vm_compute; reflexivity|].
  apply (origin_round_trip "https://github.com/login?x=1" (MkOrigin "https" "github.com" 443)).
  vm_compute. reflexivity.
Defined.

Definition example_oauth : OAuthRecipe := {|
  or_issuer := MkOrigin "https" "github.com" 443;
  or_authorization_endpoint := "https://github.com/login";
  or_token_endpoint := "https://github.com"; or_client_id := "client";
  or_redirect_uri := "https://github.com/login"; or_allowed_scopes := ["read"; "write"] |}.

Lemma oauth_recipe_validate_sound_witness : NoDup (or_allowed_scopes example_oauth).
Proof.
  refine (proj2 (proj2 (proj2 (proj2 (@oauth_recipe_validate_sound concrete_url example_oauth _))))).
  vm_compute. reflexivity.
Defined.
