(* ===== verification/Policy.v ===== *)
(** * Policy: rules, risk and the evaluator

    Models the crate [secretctl-policy]: the document of [model.rs], the risk
    table of [risk.rs], the document hash of [hash.rs] and the evaluator of
    [evaluator.rs]. *)

From S2P Require Import Prelude.
From S2P Require Import Externals.
From S2P Require Import Concrete.
From S2P Require Import Domain.

(** ** The document ([model.rs]) *)

Record DestinationRule : Type := {
  dr_origin : CanonicalOrigin;
  dr_path_prefix : option string
}.

Record RuleConditions : Type := {
  rc_browser_assurance : option string;
  rc_require_user_presence : bool;
  rc_max_uses : Z;
  rc_max_consume_ttl_seconds : Z;
  rc_max_execution_ttl_seconds : Z
}.

Definition default_max_uses : Z := 1.
Definition default_max_consume_ttl : Z := 30.
Definition default_max_execution_ttl : Z := DEFAULT_EXECUTION_TTL_SECONDS.

Record PolicyRule : Type := {
  pr_id : RuleId;
  pr_description : option string;
  pr_effect : PolicyEffect;
  pr_principals : list string;
  pr_credentials : list string;
  pr_actions : list ActionKind;
  pr_destinations : list DestinationRule;
  pr_conditions : RuleConditions
}.

Record PolicyDocument : Type := {
  doc_version : string;
  doc_rules : list PolicyRule
}.

Inductive PolicyError : Type :=
| PolicyParse (message : string)
| InvalidVersion (message : string)
| Evaluation (message : string)
| DefaultDeny
| PolicyOriginMismatch (message : string)
| AssuranceInsufficient (required actual : string).

(** The [Display] text of an error, which reaches the caller as the message. *)
Definition policy_error_text (e : PolicyError) : string :=
  match e with
  | PolicyParse m => "Policy parse error: " +:+ m
  | InvalidVersion m => "Invalid policy version: " +:+ m
  | Evaluation m => "Rule evaluation error: " +:+ m
  | DefaultDeny => "No matching policy rule found (default deny)"
  | PolicyOriginMismatch m => "Origin does not match allowed destination: " +:+ m
  | AssuranceInsufficient r a =>
      "Browser assurance level insufficient: required " +:+ r +:+ ", got " +:+ a
  end.

(** ** Risk ([risk.rs]) *)

Definition calculate_risk_level (action : ActionKind) (require_user_presence : bool)
    (browser_assurance : string) : RiskLevel :=
  if bool_decide (browser_assurance ≠ "managed") then Critical
  else if require_user_presence then High
  else match action with
  | AuthenticatePassword => Medium
  | AuthenticateTotp => Medium
  | FormSensitiveFill => High
  | OAuthAuthorize => Low
  end.

(** ** The evaluator ([evaluator.rs], [hash.rs]) *)

Record PolicyEvaluator : Type := {
  pe_document : PolicyDocument;
  pe_policy_hash : list byte
}.

(** [serde_json::to_vec] of a document, whose bytes [hash.rs] hashes. *)
Class PolicySerializer := { policy_to_vec : PolicyDocument -> list byte }.

Definition compute_policy_hash `{PolicySerializer, Hashes} (doc : PolicyDocument) : list byte :=
  sha256 (policy_to_vec doc).

Definition evaluator_new `{PolicySerializer, Hashes} (document : PolicyDocument) :
    PolicyEvaluator := {|
  pe_document := document;
  pe_policy_hash := compute_policy_hash document
|}.

Definition destination_matches (target_origin : CanonicalOrigin)
    (path_prefix : option string) (dest : DestinationRule) : bool :=
  if negb (origin_matches (dr_origin dest) target_origin) then false
  else match path_prefix, dr_path_prefix dest with
  | Some req_path, Some rule_path => starts_with req_path rule_path
  | None, Some _ => false
  | _, None => true
  end.

(** The tests of the loop body: a rule that fails one is skipped. *)
Definition rule_matches (agent_id : AgentId) (credential_name : string)
    (action : ActionKind) (target_origin : CanonicalOrigin) (path_prefix : option string)
    (browser_assurance : string) (rule : PolicyRule) : bool :=
  existsb (fun p => bool_decide (p = "*") || bool_decide (p = id_str agent_id))
    (pr_principals rule)
  && existsb (fun c => bool_decide (c = "*") || bool_decide (c = credential_name))
       (pr_credentials rule)
  && bool_decide (action ∈ pr_actions rule)
  && existsb (destination_matches target_origin path_prefix) (pr_destinations rule)
  && is_none_or (fun required => bool_decide (required = browser_assurance))
       (rc_browser_assurance (pr_conditions rule)).

Section Evaluate.
Variables (policy_hash : list byte) (agent_id : AgentId) (credential_name : string)
  (action : ActionKind) (target_origin : CanonicalOrigin) (path_prefix : option string)
  (browser_assurance : string).

Definition deny_decision (rule : PolicyRule) : PolicyDecision := {|
  pd_effect := Deny;
  pd_risk_level := calculate_risk_level action
    (rc_require_user_presence (pr_conditions rule)) browser_assurance;
  pd_rule_id := Some (pr_id rule);
  pd_policy_hash := policy_hash;
  pd_require_user_presence := true;
  pd_max_uses := 0;
  pd_consume_ttl_seconds := 0;
  pd_execution_ttl_seconds := 0
|}.

Definition allow_decision (rule : PolicyRule) : PolicyDecision := {|
  pd_effect := Allow;
  pd_risk_level := calculate_risk_level action
    (rc_require_user_presence (pr_conditions rule)) browser_assurance;
  pd_rule_id := Some (pr_id rule);
  pd_policy_hash := policy_hash;
  pd_require_user_presence := rc_require_user_presence (pr_conditions rule);
  pd_max_uses := rc_max_uses (pr_conditions rule);
  pd_consume_ttl_seconds := rc_max_consume_ttl_seconds (pr_conditions rule);
  pd_execution_ttl_seconds := rc_max_execution_ttl_seconds (pr_conditions rule)
|}.

(** The loop over the rules, with [matched_allow_rule] as its accumulator. *)
Fixpoint evaluate_rules (matched_allow_rule : option PolicyRule)
    (rules : list PolicyRule) : result PolicyError PolicyDecision :=
  match rules with
  | [] =>
      match matched_allow_rule with
      | Some rule => Ok (allow_decision rule)
      | None => Err DefaultDeny
      end
  | rule :: rules =>
      if negb (rule_matches agent_id credential_name action target_origin path_prefix
                 browser_assurance rule)
      then evaluate_rules matched_allow_rule rules
      else if bool_decide (pr_effect rule = Deny) then Ok (deny_decision rule)
      else if bool_decide (pr_effect rule = Allow) && bool_decide (matched_allow_rule = None)
      then evaluate_rules (Some rule) rules
      else evaluate_rules matched_allow_rule rules
  end.
End Evaluate.

Definition evaluate (self : PolicyEvaluator) (agent_id : AgentId) (credential_name : string)
    (action : ActionKind) (target_origin : CanonicalOrigin) (path_prefix : option string)
    (browser_assurance : string) : result PolicyError PolicyDecision :=
  evaluate_rules (pe_policy_hash self) agent_id credential_name action target_origin
    path_prefix browser_assurance None (doc_rules (pe_document self)).

(** ** Specification

    What the loop promises, without its accumulator: the first matching deny
    rule decides, else the first matching allow rule, else nothing does. *)

Section Specification.
Variables (policy_hash : list byte) (agent_id : AgentId) (credential_name : string)
  (action : ActionKind) (target_origin : CanonicalOrigin) (path_prefix : option string)
  (browser_assurance : string).

Let matches : PolicyRule -> bool :=
  rule_matches agent_id credential_name action target_origin path_prefix browser_assurance.

Definition first_with (effect : PolicyEffect) (rules : list PolicyRule) :
    option PolicyRule :=
  List.find (fun r => matches r && bool_decide (pr_effect r = effect)) rules.

Definition reference_decision (rules : list PolicyRule) :
    result PolicyError PolicyDecision :=
  match first_with Deny rules with
  | Some rule => Ok (deny_decision policy_hash action browser_assurance rule)
  | None =>
      match first_with Allow rules with
      | Some rule => Ok (allow_decision policy_hash action browser_assurance rule)
      | None => Err DefaultDeny
      end
  end.

Lemma evaluate_rules_reference acc rules :
  evaluate_rules policy_hash agent_id credential_name action target_origin path_prefix
    browser_assurance acc rules
  = match first_with Deny rules with
    | Some rule => Ok (deny_decision policy_hash action browser_assurance rule)
    | None =>
        match (match acc with Some r => Some r | None => first_with Allow rules end) with
        | Some rule => Ok (allow_decision policy_hash action browser_assurance rule)
        | None => Err DefaultDeny
        end
    end.
Proof.
  revert acc; induction rules as [|rule rules IH]; intros acc; [by destruct acc|].
  cbn [evaluate_rules]. unfold first_with. cbn [List.find]. fold matches.
  destruct (matches rule) eqn:Hm; cbn [negb andb]; [|by rewrite IH; destruct acc].
  destruct (pr_effect rule) eqn:He.
  - rewrite (bool_decide_eq_false_2 (Allow = Deny)) by done.
    rewrite (bool_decide_eq_true_2 (Allow = Allow)) by done. cbn [andb].
    rewrite IH. destruct acc; [case_bool_decide; [done|] |]; cbn; by destruct acc || done.
  - rewrite (bool_decide_eq_true_2 (Deny = Deny)) by done. reflexivity.
Qed.

Lemma first_with_Some effect rules rule :
  first_with effect rules = Some rule ->
  rule ∈ rules /\ matches rule = true /\ pr_effect rule = effect.
Proof.
  intros H. apply List.find_some in H as [Hin H]. bool_to_prop.
  split_and!; [by apply list_elem_of_In | done | done].
Qed.

Lemma first_with_None effect rules :
  first_with effect rules = None <->
  forall rule, rule ∈ rules -> matches rule = true -> pr_effect rule <> effect.
Proof.
  unfold first_with. split.
  - intros H rule Hin Hm He. apply list_elem_of_In in Hin.
    pose proof (List.find_none _ _ H rule Hin) as Hn. cbn in Hn.
    rewrite Hm, He, bool_decide_eq_true_2 in Hn; done.
  - intros H. destruct (List.find _ _) eqn:Hf; [|done].
    apply List.find_some in Hf as [Hin Hf]. apply list_elem_of_In in Hin.
    bool_to_prop. by destruct (H p).
Qed.
End Specification.

Lemma first_with_Some_perm agent name action origin path assurance effect rules rules' :
  rules ≡ₚ rules' ->
  is_Some (first_with agent name action origin path assurance effect rules) ->
  is_Some (first_with agent name action origin path assurance effect rules').
Proof.
  intros Hp [r Hr]. apply first_with_Some in Hr as (Hin & Hm & He).
  destruct (first_with _ _ _ _ _ _ effect rules') eqn:Hf; [by eexists|].
  rewrite first_with_None in Hf. exfalso. apply (Hf r); [by rewrite <-Hp | done | done].
Qed.

(** ** Properties *)

(** C37: the evaluator's single pass computes the specification: the first
    matching deny rule wins over every allow rule, wherever it stands; else the
    first matching allow rule decides; else the request is denied by default. *)
Theorem evaluate_meets_reference self agent name action origin path assurance :
  evaluate self agent name action origin path assurance
  = reference_decision (pe_policy_hash self) agent name action origin path assurance
      (doc_rules (pe_document self)).
Proof. unfold evaluate, reference_decision. by rewrite evaluate_rules_reference. Qed.

Lemma evaluate_reference self agent name action origin path assurance :
  evaluate self agent name action origin path assurance
  = reference_decision (pe_policy_hash self) agent name action origin path assurance
      (doc_rules (pe_document self)).
Proof. unfold evaluate, reference_decision. by rewrite evaluate_rules_reference. Qed.

(** The effect of an evaluation: [None] for the default denial. *)
Definition decision_effect (r : result PolicyError PolicyDecision) : option PolicyEffect :=
  match r with Ok d => Some (pd_effect d) | Err _ => None end.

(** Reordering the rules of a document never changes whether a request is
    allowed, denied by a rule or denied by default. *)
Theorem evaluation_effect_order_independent self self' agent name action origin path assurance :
  doc_rules (pe_document self) ≡ₚ doc_rules (pe_document self') ->
  decision_effect (evaluate self agent name action origin path assurance)
  = decision_effect (evaluate self' agent name action origin path assurance).
Proof.
  intros Hp. rewrite !evaluate_reference. unfold reference_decision.
  assert (Heff : forall effect,
    is_Some (first_with agent name action origin path assurance effect
               (doc_rules (pe_document self))) <->
    is_Some (first_with agent name action origin path assurance effect
               (doc_rules (pe_document self')))).
  { intros effect. split; apply first_with_Some_perm; by rewrite Hp. }
  pose proof (Heff Deny) as Hd. pose proof (Heff Allow) as Ha.
  destruct (first_with _ _ _ _ _ _ Deny (doc_rules (pe_document self))),
    (first_with _ _ _ _ _ _ Deny (doc_rules (pe_document self'))); try done;
    try (by destruct Hd as [[? ?] _]; eauto); try (by destruct Hd as [_ [? ?]]; eauto).
  destruct (first_with _ _ _ _ _ _ Allow (doc_rules (pe_document self))),
    (first_with _ _ _ _ _ _ Allow (doc_rules (pe_document self'))); try done;
    try (by destruct Ha as [[? ?] _]; eauto); try (by destruct Ha as [_ [? ?]]; eauto).
Qed.

(** An allow decision comes from an allow rule of the document that names
    the agent, the credential, the action, the exact origin and a path prefix of
    the measured path under the assurance it requires, carries that rule's
    limits, and exists only if no deny rule matches the request. *)
Theorem allow_decision_justified self agent name action origin path assurance d :
  evaluate self agent name action origin path assurance = Ok d -> pd_effect d = Allow ->
  exists rule, rule ∈ doc_rules (pe_document self) /\ pr_effect rule = Allow /\
    rule_matches agent name action origin path assurance rule = true /\
    (exists dest, dest ∈ pr_destinations rule /\ dr_origin dest = origin /\
       (forall p, dr_path_prefix dest = Some p ->
          exists q, path = Some q /\ starts_with q p = true)) /\
    pd_require_user_presence d = rc_require_user_presence (pr_conditions rule) /\
    pd_consume_ttl_seconds d = rc_max_consume_ttl_seconds (pr_conditions rule) /\
    pd_policy_hash d = pe_policy_hash self /\
    (forall deny, deny ∈ doc_rules (pe_document self) ->
       rule_matches agent name action origin path assurance deny = true ->
       pr_effect deny <> Deny).
Proof.
  rewrite evaluate_reference. unfold reference_decision.
  destruct (first_with _ _ _ _ _ _ Deny _) as [r|] eqn:Hd; [by intros [= <-]|].
  destruct (first_with _ _ _ _ _ _ Allow _) as [r|] eqn:Ha; [|done].
  intros [= <-] _. apply first_with_Some in Ha as (Hin & Hm & He).
  rewrite first_with_None in Hd. exists r. split_and!; try done.
  unfold rule_matches in Hm. bool_to_prop.
  match goal with H : existsb (destination_matches _ _) _ = true |- _ =>
    apply existsb_exists in H as (dest & Hdest & Hx) end.
  exists dest. unfold destination_matches in Hx.
  destruct (origin_matches (dr_origin dest) origin) eqn:Ho; [|done]. cbn in Hx.
  split_and!; [by apply list_elem_of_In | by apply origin_matches_eq |].
  intros p Hp. rewrite Hp in Hx. destruct path as [q|]; [by exists q | done].
Qed.

(** ** Witnesses *)

Module PolicyExample.
Definition github : CanonicalOrigin := MkOrigin "https" "github.com" 443.
Definition conditions : RuleConditions := {|
  rc_browser_assurance := Some "managed"; rc_require_user_presence := false;
  rc_max_uses := 1; rc_max_consume_ttl_seconds := 30;
  rc_max_execution_ttl_seconds := 120 |}.
Definition rule (id : string) (effect : PolicyEffect) (cred : string) : PolicyRule := {|
  pr_id := MkId id; pr_description := None; pr_effect := effect;
  pr_principals := ["*"]; pr_credentials := [cred];
  pr_actions := [AuthenticatePassword];
  pr_destinations := [{| dr_origin := github; dr_path_prefix := Some "/login" |}];
  pr_conditions := conditions |}.
Definition evaluator (rules : list PolicyRule) : PolicyEvaluator := {|
  pe_document := {| doc_version := "1.0"; doc_rules := rules |};
  pe_policy_hash := [Byte.x01] |}.
Definition ask (rules : list PolicyRule) (name : string) :=
  evaluate (evaluator rules) (MkId "agent_1") name AuthenticatePassword github
    (Some "/login") "managed".
End PolicyExample.

Lemma evaluation_effect_order_independent_witness :
  decision_effect (PolicyExample.ask
    [PolicyExample.rule "rule_a" Allow "*"; PolicyExample.rule "rule_d" Deny "x"] "x")
  = decision_effect (PolicyExample.ask
    [PolicyExample.rule "rule_d" Deny "x"; PolicyExample.rule "rule_a" Allow "*"] "x").
Proof.
  unfold PolicyExample.ask. apply evaluation_effect_order_independent. simpl.
  apply Permutation_swap.
Defined.

Lemma allow_decision_justified_witness :
  exists d, PolicyExample.ask [PolicyExample.rule "rule_a" Allow "*"] "x" = Ok d /\
    exists rule, rule ∈ [PolicyExample.rule "rule_a" Allow "*"] /\ pr_effect rule = Allow.
Proof.
  eexists. split; [vm_compute; reflexivity|].
  edestruct (allow_decision_justified
    (PolicyExample.evaluator [PolicyExample.rule "rule_a" Allow "*"]) (MkId "agent_1") "x"
    AuthenticatePassword PolicyExample.github (Some "/login") "managed")
    as (r & Hin & He & _); [vm_compute; reflexivity | reflexivity |].
  exists r. split; assumption.
Defined.
