(* ===== verification/Crypto.v ===== *)
(** * Crypto: digests, redaction, TOTP codes, the secure channel and keys

    Models the crate [secretctl-crypto]: [hash.rs], [redact.rs], [secret.rs],
    [totp.rs], [channel.rs] and [keys.rs]. Random bytes are arguments; the primitives
    are the interfaces [Hashes], [Signatures] and [Aead]. *)

From S2P Require Import Prelude.
From S2P Require Import Externals.
From S2P Require Import Concrete.

Inductive CryptoError : Type :=
| KeyGeneration (message : string)
| SignatureError (message : string)
| DecryptionFailed
| EncryptionFailed (message : string)
| InvalidKeyLength (expected actual : Z)
| InvalidNonce (message : string)
| SessionExpired.

(** ** Digests ([hash.rs]) *)

Definition sha256_digest `{Hashes} (data : list byte) : list byte := sha256 data.

(** What [compute_context_digest] feeds the hash. *)
Definition context_encoding (components : list (list byte)) : list byte :=
  concat (len_prefixed <$> components).

Definition compute_context_digest `{Hashes} (components : list (list byte)) : list byte :=
  sha256 (context_encoding components).

(** ** Redaction ([redact.rs]) *)

Definition PROHIBITED_KEYS : list string :=
  ["password"; "secret"; "token"; "cookie"; "authorization"; "totp_code"; "seed"; "value"].

Definition exempt_suffix (lower : string) : bool :=
  ends_with lower "_id" || ends_with lower "_hash" || ends_with lower "_digest"
  || ends_with lower "_at" || ends_with lower "_count" || ends_with lower "_ms"
  || ends_with lower "_seconds".

Fixpoint prohibited_in (lower : string) (keys : list string) : bool :=
  match keys with
  | [] => false
  | prohibited :: keys =>
      if bool_decide (lower = prohibited) || contains lower prohibited then
        if exempt_suffix lower then prohibited_in lower keys else true
      else prohibited_in lower keys
  end.

Definition contains_prohibited_key_name (key : string) : bool :=
  prohibited_in (to_ascii_lowercase key) PROHIBITED_KEYS.

(** The loop replaces the whole message at the first prohibited word. *)
Fixpoint sanitize_with (keys : list string) (sanitized : string) : string :=
  match keys with
  | [] => sanitized
  | prohibited :: keys =>
      if contains (to_ascii_lowercase sanitized) prohibited
      then "[REDACTED_SECURITY_ERROR]" else sanitize_with keys sanitized
  end.

Definition sanitize_error_message (message : string) : string :=
  sanitize_with PROHIBITED_KEYS message.

(** ** Secret buffers ([secret.rs])

    Zeroing memory on drop is not observable here; the text that [Debug] prints
    is. *)

Record SecretBytes : Type := { secret_data : list byte }.
Definition secret_as_bytes (s : SecretBytes) : list byte := secret_data s.
Definition secret_len (s : SecretBytes) : Z := blen (secret_data s).
Definition secret_is_empty (s : SecretBytes) : bool := bool_decide (secret_data s = []).
Definition secret_debug (s : SecretBytes) : string := "SecretBytes([REDACTED])".

Record SecretString : Type := { secret_text : string }.
Definition secret_as_str (s : SecretString) : string := secret_text s.
Definition secret_str_len (s : SecretString) : Z := Z.of_nat (String.length (secret_text s)).
Definition secret_str_is_empty (s : SecretString) : bool := bool_decide (secret_text s = "").
Definition secret_str_debug (s : SecretString) : string := "SecretString([REDACTED])".

(** ** TOTP ([totp.rs]) *)

Record TotpGenerator : Type := { totp_period_seconds : Z; totp_digits : Z }.

Definition totp_new : TotpGenerator := {| totp_period_seconds := 30; totp_digits := 6 |}.
Definition with_digits (digits : Z) : TotpGenerator :=
  {| totp_period_seconds := 30; totp_digits := digits |}.
Definition with_period_seconds (g : TotpGenerator) (period_seconds : Z) : TotpGenerator :=
  {| totp_period_seconds := period_seconds; totp_digits := totp_digits g |}.

(** [None] is the panic of a division by a zero period. *)
Definition compute_time_step (g : TotpGenerator) (unix_time_seconds : Z) : option (Z * Z) :=
  let p := totp_period_seconds g in
  if p =? 0 then None
  else Some (unix_time_seconds / p, p - unix_time_seconds mod p).

Definition byte_at (l : list byte) (i : Z) : Z :=
  match l !! Z.to_nat i with Some b => byte_to_Z b | None => 0 end.

(** The dynamic truncation of RFC 4226: four bytes at an offset, 31 bits. *)
Definition truncate_mac (mac : list byte) : Z :=
  let offset := Z.land (byte_at mac 19) 15 in
  Z.lor (Z.lor (Z.lor
    (Z.shiftl (Z.land (byte_at mac offset) 127) 24)
    (Z.shiftl (Z.land (byte_at mac (offset + 1)) 255) 16))
    (Z.shiftl (Z.land (byte_at mac (offset + 2)) 255) 8))
    (Z.land (byte_at mac (offset + 3)) 255).

(** [10u32.pow(digits)] out of the [u32] range is taken as the panic of a build
    with overflow checks; a build without them wraps. *)
Definition generate `{Hashes} (g : TotpGenerator) (seed : list byte)
    (unix_time_seconds : Z) : outcome CryptoError (string * Z) :=
  match compute_time_step g unix_time_seconds with
  | None => Panicked
  | Some (time_step, seconds_remaining) =>
      if seconds_remaining <? 2 then Fail SessionExpired
      else
        let mac := hmac_sha1 seed (be_bytes 8 time_step) in
        let binary := truncate_mac mac in
        let modulus := 10 ^ totp_digits g in
        if u32_max <? modulus then Panicked
        else
          let otp := binary mod modulus in
          Done (format_padded (Z.to_nat (totp_digits g)) otp, time_step)
  end.

(** ** The secure channel ([channel.rs]) *)

Record SecureChannel : Type := {
  ch_tx_key : list byte;
  ch_rx_key : list byte;
  ch_tx_nonce : Z;
  ch_rx_nonce : Z
}.

Definition derive_directional_keys `{Aead} (shared_secret salt info : list byte) :
    list byte * list byte :=
  let okm := hkdf_sha256 shared_secret salt info 64 in
  (take 32 okm, take 32 (drop 32 okm)).

Definition new_client `{Aead} (shared_secret salt info : list byte) : SecureChannel :=
  let '(tx_key, rx_key) := derive_directional_keys shared_secret salt info in
  {| ch_tx_key := tx_key; ch_rx_key := rx_key; ch_tx_nonce := 0; ch_rx_nonce := 0 |}.

Definition new_server `{Aead} (shared_secret salt info : list byte) : SecureChannel :=
  let '(client_tx, client_rx) := derive_directional_keys shared_secret salt info in
  {| ch_tx_key := client_rx; ch_rx_key := client_tx; ch_tx_nonce := 0; ch_rx_nonce := 0 |}.

(** Twelve bytes: four zeroes and the counter, big endian. *)
Definition format_nonce (counter : Z) : list byte :=
  [Byte.x00; Byte.x00; Byte.x00; Byte.x00] ++ be_bytes 8 counter.

(** [u64::checked_add(1)]. *)
Definition checked_succ (n : Z) : option Z := if n =? u64_max then None else Some (n + 1).

Definition set_tx_nonce (c : SecureChannel) (n : Z) : SecureChannel :=
  {| ch_tx_key := ch_tx_key c; ch_rx_key := ch_rx_key c;
     ch_tx_nonce := n; ch_rx_nonce := ch_rx_nonce c |}.
Definition set_rx_nonce (c : SecureChannel) (n : Z) : SecureChannel :=
  {| ch_tx_key := ch_tx_key c; ch_rx_key := ch_rx_key c;
     ch_tx_nonce := ch_tx_nonce c; ch_rx_nonce := n |}.

(** The counter is advanced before the cipher runs, and stays advanced when the
    cipher fails. *)
Definition encrypt `{Aead} (c : SecureChannel) (plaintext : list byte) :
    result CryptoError (list byte) * SecureChannel :=
  let nonce := format_nonce (ch_tx_nonce c) in
  match checked_succ (ch_tx_nonce c) with
  | None => (Err SessionExpired, c)
  | Some n =>
      (ok_or (EncryptionFailed aead_error_text) (aead_encrypt (ch_tx_key c) nonce plaintext),
       set_tx_nonce c n)
  end.

(** The counter is advanced only after the text has been authenticated. *)
Definition decrypt `{Aead} (c : SecureChannel) (ciphertext : list byte) :
    result CryptoError (list byte) * SecureChannel :=
  let nonce := format_nonce (ch_rx_nonce c) in
  match aead_decrypt (ch_rx_key c) nonce ciphertext with
  | None => (Err DecryptionFailed, c)
  | Some plaintext =>
      match checked_succ (ch_rx_nonce c) with
      | None => (Err SessionExpired, c)
      | Some n => (Ok plaintext, set_rx_nonce c n)
      end
  end.

(** ** Keys ([keys.rs]) *)

Record KeyPair : Type := { signing_key : list byte }.

Definition keypair_from_bytes (bytes : list byte) : result CryptoError KeyPair :=
  if negb (blen bytes =? 32) then Err (InvalidKeyLength 32 (blen bytes))
  else Ok {| signing_key := bytes |}.

(** [KeyPair::generate], from the 32 bytes the random number generator gave. *)
Definition keypair_generate (random : list byte) : KeyPair := {| signing_key := random |}.

Definition public_key_bytes `{Signatures} (k : KeyPair) : list byte := ed_public (signing_key k).
Definition sign `{Signatures} (k : KeyPair) (message : list byte) : list byte :=
  ed_sign (signing_key k) message.
Definition keypair_to_bytes (k : KeyPair) : list byte := signing_key k.

Definition verify_signature `{Signatures} (public_key_bytes message signature_bytes : list byte) :
    result CryptoError unit :=
  if negb (blen public_key_bytes =? 32) then Err (InvalidKeyLength 32 (blen public_key_bytes))
  else if negb (blen signature_bytes =? 64) then Err (InvalidKeyLength 64 (blen signature_bytes))
  else if negb (ed_valid_public public_key_bytes) then Err (SignatureError ed_error_text)
  else if ed_verify public_key_bytes message signature_bytes then Ok tt
  else Err (SignatureError ed_error_text).

(** The ephemeral keys of a handshake, from 32 random bytes. *)
Record StaticX25519 : Type := { x_secret : list byte }.

Definition static_generate (random : list byte) : StaticX25519 := {| x_secret := random |}.
Definition ephemeral_public `{X25519} (k : StaticX25519) : list byte := x_public (x_secret k).
Definition diffie_hellman `{X25519} (k : StaticX25519) (peer_public_bytes : list byte) :
    list byte := x_shared (x_secret k) peer_public_bytes.

(** The half of a key agreement that is used once: [diffie_hellman] consumes it. *)
Record EphemeralX25519 : Type := { e_secret : list byte; e_public : list byte }.

Definition ephemeral_new `{X25519} (random : list byte) : EphemeralX25519 :=
  {| e_secret := random; e_public := x_public random |}.
Definition ephemeral_public_bytes (k : EphemeralX25519) : list byte := e_public k.
Definition ephemeral_diffie_hellman `{X25519} (k : EphemeralX25519)
    (peer_public_bytes : list byte) : list byte := x_shared (e_secret k) peer_public_bytes.

(** ** Properties of the digests *)

(** Slices are shorter than [2^63] bytes, the limit of an allocation. *)
Definition slice_ok (l : list byte) : Prop := blen l < 2 ^ 63.

Lemma slice_ok_u64 (l : list byte) : slice_ok l -> u64_range (blen l).
Proof. unfold slice_ok, u64_range, blen. lia. Qed.
#[export] Hint Resolve slice_ok_u64 : secretctl.

Lemma len_prefixed_not_nil (l r : list byte) : len_prefixed l ++ r <> [].
Proof.
  unfold len_prefixed. intros H. apply (f_equal length) in H.
  rewrite !length_app, length_be_bytes in H. simpl in H. lia.
Qed.

Lemma context_encoding_inj (a b : list (list byte)) :
  Forall slice_ok a -> Forall slice_ok b ->
  context_encoding a = context_encoding b -> a = b.
Proof.
  unfold context_encoding. revert b.
  induction a as [|x a IH]; intros [|y b] Ha Hb H; cbn [fmap list_fmap concat] in H.
  - done.
  - exfalso. by eapply len_prefixed_not_nil.
  - exfalso. by eapply len_prefixed_not_nil.
  - apply Forall_cons_1 in Ha as [Hx Ha], Hb as [Hy Hb].
    apply len_prefixed_inj in H as [-> H]; [|eauto with secretctl..].
    by rewrite (IH b Ha Hb H).
Qed.

(** A context digest binds every component and their number: two lists of
    components with one digest are the same list, unless SHA-256 collides on
    their encodings. *)
Theorem context_digest_binds_components `{Hashes} (a b : list (list byte)) :
  Forall slice_ok a -> Forall slice_ok b ->
  compute_context_digest a = compute_context_digest b ->
  a = b \/
  (context_encoding a <> context_encoding b /\
   sha256 (context_encoding a) = sha256 (context_encoding b)).
Proof.
  intros Ha Hb Hd. destruct (decide (context_encoding a = context_encoding b)) as [He|He].
  - left. by apply context_encoding_inj.
  - right. done.
Qed.

Lemma context_digest_binds_components_witness :
  let a := [as_bytes "ab"; as_bytes "c"] in
  a = a \/
  (context_encoding a <> context_encoding a /\
   sha256 (context_encoding a) = sha256 (context_encoding a)).
Proof. apply context_digest_binds_components; [repeat constructor..|reflexivity]. Defined.

(** ** Properties of the redaction *)

Lemma prohibited_in_spec (lower : string) (keys : list string) :
  prohibited_in lower keys = true <->
  exempt_suffix lower = false /\
  exists p, p ∈ keys /\ (lower = p \/ contains lower p = true).
Proof.
  induction keys as [|p keys IH]; simpl; [set_solver|].
  destruct (bool_decide (lower = p) || contains lower p) eqn:E.
  - assert (lower = p \/ contains lower p = true) as Hp.
    { apply orb_true_iff in E. by rewrite bool_decide_eq_true in E. }
    destruct (exempt_suffix lower); [rewrite IH; naive_solver|].
    split; [|done]. intros _. split; [done|]. exists p. set_solver.
  - bool_to_prop. rewrite IH. split; intros [Hx (q & Hq & Ho)]; (split; [done|]); exists q.
    + split; [by constructor|done].
    + apply elem_of_cons in Hq as [->|Hq]; [|done]. destruct Ho; congruence.
Qed.

Lemma sanitize_with_clean (keys : list string) (m : string) (p : string) :
  p ∈ keys ->
  contains (to_ascii_lowercase "[REDACTED_SECURITY_ERROR]") p = false ->
  contains (to_ascii_lowercase (sanitize_with keys m)) p = false.
Proof.
  induction keys as [|q keys IH]; [set_solver|]. intros Hin Hred. simpl.
  destruct (contains (to_ascii_lowercase m) q) eqn:Hq; [done|].
  apply elem_of_cons in Hin as [->|Hin]; [|by apply IH].
  clear IH. induction keys as [|r keys IHk]; simpl; [done|].
  by destruct (contains (to_ascii_lowercase m) r).
Qed.

(** A sanitized error message contains none of the prohibited words, in any
    case. *)
Theorem sanitized_message_is_clean (message word : string) :
  word ∈ PROHIBITED_KEYS ->
  contains (to_ascii_lowercase (sanitize_error_message message)) word = false.
Proof.
  intros Hw. apply sanitize_with_clean; [done|].
  unfold PROHIBITED_KEYS in Hw.
  repeat (apply elem_of_cons in Hw as [->|Hw]; [vm_compute; reflexivity|]).
  by apply not_elem_of_nil in Hw.
Qed.

Lemma sanitized_message_is_clean_witness :
  contains (to_ascii_lowercase (sanitize_error_message "bad PassWord: hunter2")) "password"
  = false.
Proof. apply sanitized_message_is_clean. unfold PROHIBITED_KEYS. constructor. Defined.

(** ** Properties of TOTP *)

Lemma digits_of_length fuel z acc n :
  0 <= z < 10 ^ Z.of_nat (S n) ->
  (String.length (digits_of fuel z acc) <= S n + String.length acc)%nat.
Proof.
  revert z acc n; induction fuel as [|fuel IH]; intros z acc n Hz; simpl; [lia|].
  destruct (z / 10 =? 0) eqn:E; simpl; [lia|]. bool_to_prop.
  destruct n as [|n].
  - rewrite Z.div_small in E by lia. done.
  - etransitivity; [apply (IH _ _ n)|simpl; lia].
    split; [apply Z.div_pos; lia|]. apply Z.div_lt_upper_bound; [lia|].
    replace (10 * 10 ^ Z.of_nat (S n)) with (10 ^ Z.of_nat (S (S n))); [lia|].
    rewrite (Nat2Z.inj_succ (S n)), Z.pow_succ_r; lia.
Qed.

Lemma length_string_app (s t : string) :
  String.length (s +:+ t) = (String.length s + String.length t)%nat.
Proof. pose proof (slen_app s t) as H. unfold slen in H. lia. Qed.

Lemma length_repeat_char n a : String.length (repeat_char n a) = n.
Proof. induction n as [|n IH]; simpl; [done|]. by rewrite IH. Qed.

Lemma format_padded_length (width : nat) (z : Z) :
  (0 < width)%nat -> 0 <= z < 10 ^ Z.of_nat width ->
  String.length (format_padded width z) = width.
Proof.
  intros Hw Hz. destruct width as [|n]; [lia|]. unfold format_padded, format_unsigned.
  rewrite length_string_app, length_repeat_char.
  pose proof (digits_of_length 20 z EmptyString n Hz) as H. change (String.length EmptyString) with 0%nat in H. lia.
Qed.

Lemma land_15_range z : 0 <= Z.land z 15 <= 15.
Proof. change 15 with (Z.ones 4) at 1 2. rewrite Z.land_ones by lia.
  pose proof (Z.mod_pos_bound z (2 ^ 4) ltac:(lia)). lia. Qed.

(** With the digits and periods the broker accepts, [generate] never panics:
    the truncation offset stays inside the twenty bytes of the MAC, it fails
    exactly when under two seconds of the time step are left, and otherwise
    returns a code of exactly the configured number of characters for the
    current time step. *)
Theorem totp_generate_total `{HashLaws} (digits period t : Z) (seed : list byte) :
  (digits = 6 \/ digits = 8) -> 5 <= period <= 300 -> 0 <= t ->
  let g := with_period_seconds (with_digits digits) period in
  (is_Some (hmac_sha1 seed (be_bytes 8 (t / period))
              !! Z.to_nat (Z.land (byte_at (hmac_sha1 seed (be_bytes 8 (t / period))) 19) 15 + 3))) /\
  if period - t mod period <? 2
  then generate g seed t = Fail SessionExpired
  else exists code, generate g seed t = Done (code, t / period) /\
         slen code = digits.
Proof.
  intros Hd Hp Ht g. split.
  - apply lookup_lt_is_Some. rewrite length_hmac_sha1.
    pose proof (land_15_range (byte_at (hmac_sha1 seed (be_bytes 8 (t / period))) 19)). lia.
  - unfold generate, compute_time_step, g. cbn [totp_period_seconds totp_digits with_period_seconds with_digits].
    destruct (Z.eqb_spec period 0); [lia|].
    destruct (period - t mod period <? 2); [done|].
    destruct (Z.ltb_spec u32_max (10 ^ digits)) as [Hlt|_].
    { exfalso. destruct Hd as [-> | ->]; vm_compute in Hlt; discriminate Hlt. }
    eexists. split; [reflexivity|]. unfold slen.
    rewrite format_padded_length; [rewrite Z2Nat.id; lia | lia |].
    rewrite Z2Nat.id by lia. apply Z.mod_pos_bound, Z.pow_pos_nonneg; lia.
Qed.

Lemma totp_generate_total_witness :
  exists code, generate totp_new (as_bytes "12345678901234567890") 30 = Done (code, 1) /\
    slen code = 6.
Proof.
  exact (proj2 (totp_generate_total 6 30 30 (as_bytes "12345678901234567890")
    (or_introl eq_refl) ltac:(lia) ltac:(lia))).
Defined.

(** ** Properties of the secure channel *)

Fixpoint send_all `{Aead} (c : SecureChannel) (ms : list (list byte)) :
    result CryptoError (list (list byte)) * SecureChannel :=
  match ms with
  | [] => (Ok [], c)
  | m :: ms =>
      match encrypt c m with
      | (Err e, c) => (Err e, c)
      | (Ok x, c) =>
          match send_all c ms with
          | (Err e, c) => (Err e, c)
          | (Ok xs, c) => (Ok (x :: xs), c)
          end
      end
  end.

Fixpoint receive_all `{Aead} (c : SecureChannel) (xs : list (list byte)) :
    result CryptoError (list (list byte)) * SecureChannel :=
  match xs with
  | [] => (Ok [], c)
  | x :: xs =>
      match decrypt c x with
      | (Err e, c) => (Err e, c)
      | (Ok m, c) =>
          match receive_all c xs with
          | (Err e, c) => (Err e, c)
          | (Ok ms, c) => (Ok (m :: ms), c)
          end
      end
  end.

(** The nonces the transmitting cipher is run with over a sequence of messages. *)
Fixpoint nonces_used `{Aead} (c : SecureChannel) (ms : list (list byte)) : list (list byte) :=
  match ms with
  | [] => []
  | m :: ms =>
      match checked_succ (ch_tx_nonce c) with
      | None => nonces_used (snd (encrypt c m)) ms
      | Some _ => format_nonce (ch_tx_nonce c) :: nonces_used (snd (encrypt c m)) ms
      end
  end.

Lemma send_receive `{AeadLaws} ms : forall c s xs c',
  ch_tx_key c = ch_rx_key s -> ch_tx_nonce c = ch_rx_nonce s ->
  send_all c ms = (Ok xs, c') ->
  exists s', receive_all s xs = (Ok ms, s') /\ ch_tx_nonce c' = ch_rx_nonce s'.
Proof.
  induction ms as [|m ms IH]; intros c s xs c' Hk Hn Hs; simpl in Hs.
  - injection Hs as <- <-. by exists s.
  - unfold encrypt in Hs. destruct (checked_succ (ch_tx_nonce c)) as [n|] eqn:Hc; [|done].
    destruct (aead_encrypt _ _ _) as [x|] eqn:He; [|done]. cbn [ok_or] in Hs.
    destruct (send_all _ ms) as [[xs'|] c''] eqn:Hr; [|done]. injection Hs as <- <-.
    apply aead_round_trip in He. simpl. unfold decrypt.
    rewrite <-Hn, <-Hk, He, Hc.
    destruct (IH (set_tx_nonce c n) (set_rx_nonce s n) xs' c'') as (s' & Hs' & Hn'); [done..|].
    exists s'. by rewrite Hs'.
Qed.

(** What one end of the channel encrypts, the other end decrypts: messages
    received in the order they were sent come out as they went in, in both
    directions, whatever secret, salt and info the keys are derived from. *)
Theorem channel_delivers_in_order `{AeadLaws} (secret salt info : list byte) ms xs c' :
  (send_all (new_client secret salt info) ms = (Ok xs, c') ->
     exists s', receive_all (new_server secret salt info) xs = (Ok ms, s')) /\
  (send_all (new_server secret salt info) ms = (Ok xs, c') ->
     exists s', receive_all (new_client secret salt info) xs = (Ok ms, s')).
Proof.
  split; intros Hs.
  - destruct (send_receive ms (new_client secret salt info) (new_server secret salt info)
      xs c' eq_refl eq_refl Hs) as (s' & Hs' & _). eauto.
  - destruct (send_receive ms (new_server secret salt info) (new_client secret salt info)
      xs c' eq_refl eq_refl Hs) as (s' & Hs' & _). eauto.
Qed.

Definition example_sent : list (list byte) * SecureChannel :=
  match send_all (new_client [Byte.x01] [] []) [as_bytes "hi"] with
  | (Ok xs, c) => (xs, c)
  | (Err _, c) => ([], c)
  end.

Lemma channel_delivers_in_order_witness :
  exists s', receive_all (new_server [Byte.x01] [] []) (fst example_sent)
             = (Ok [as_bytes "hi"], s').
Proof.
  apply (proj1 (channel_delivers_in_order [Byte.x01] [] [] [as_bytes "hi"]
    (fst example_sent) (snd example_sent))).
  vm_compute. reflexivity.
Defined.

Lemma nonces_used_range `{Aead} ms : forall c x,
  0 <= ch_tx_nonce c <= u64_max -> x ∈ nonces_used c ms ->
  exists i, ch_tx_nonce c <= i <= u64_max /\ x = format_nonce i.
Proof.
  induction ms as [|m ms IH]; intros c x Hc Hx; simpl in Hx; [set_solver|].
  unfold encrypt, checked_succ in Hx.
  destruct (Z.eqb_spec (ch_tx_nonce c) u64_max) as [E|E]; cbn [snd] in Hx.
  - by apply IH.
  - apply elem_of_cons in Hx as [->|Hx]; [exists (ch_tx_nonce c); split; [lia|done]|].
    apply IH in Hx as (i & Hi & ->); cbn [set_tx_nonce ch_tx_nonce] in *; [|lia].
    exists i. split; [lia|done].
Qed.

Lemma format_nonce_inj i j :
  0 <= i <= u64_max -> 0 <= j <= u64_max -> format_nonce i = format_nonce j -> i = j.
Proof.
  unfold format_nonce, u64_max. intros Hi Hj H. apply app_inv_head in H.
  apply be_bytes_inj in H; [done|..]; change (2 ^ (8 * Z.of_nat 8)) with (2 ^ 64); lia.
Qed.

(** Over the whole life of a channel the transmitting cipher never runs
    twice with one nonce: the counter stops at its maximum instead of wrapping. *)
Theorem channel_never_reuses_a_nonce `{Aead} (c : SecureChannel) (ms : list (list byte)) :
  u64_range (ch_tx_nonce c) -> NoDup (nonces_used c ms).
Proof.
  unfold u64_range. revert c; induction ms as [|m ms IH]; intros c Hc; simpl; [constructor|].
  unfold encrypt, checked_succ.
  destruct (Z.eqb_spec (ch_tx_nonce c) u64_max) as [E|E]; cbn [snd]; [by apply IH|].
  unfold u64_max in E. constructor.
  - intros Hin. apply nonces_used_range in Hin as (i & Hi & Heq);
      cbn [set_tx_nonce ch_tx_nonce] in *; unfold u64_max in *; [|lia].
    apply format_nonce_inj in Heq; unfold u64_max; lia.
  - apply IH. cbn. lia.
Qed.

Lemma channel_never_reuses_a_nonce_witness :
  NoDup (nonces_used (new_client [Byte.x01] [] []) [as_bytes "a"; as_bytes "b"]).
Proof. apply channel_never_reuses_a_nonce. vm_compute. split; congruence. Defined.

(** ** Properties of the keys *)

Lemma verify_signature_Ok `{Signatures} pk m s :
  verify_signature pk m s = Ok tt <->
  blen pk = 32 /\ blen s = 64 /\ ed_valid_public pk = true /\ ed_verify pk m s = true.
Proof.
  unfold verify_signature.
  destruct (Z.eqb_spec (blen pk) 32), (Z.eqb_spec (blen s) 64); cbn [negb];
    try (split; [discriminate | by intros (? & ? & _)]).
  destruct (ed_valid_public pk), (ed_verify pk m s); cbn; naive_solver.
Qed.

Lemma keypair_from_bytes_Ok (b : list byte) (k : KeyPair) :
  keypair_from_bytes b = Ok k <-> length b = 32%nat /\ k = {| signing_key := b |}.
Proof.
  unfold keypair_from_bytes, blen.
  destruct (Z.eqb_spec (Z.of_nat (length b)) 32) as [E|E]; cbn [negb]; split.
  - intros [= <-]. split; [lia|done].
  - by intros [_ ->].
  - discriminate.
  - intros [Hl _]. lia.
Qed.

Lemma verify_own_signature `{SignatureLaws} (k : KeyPair) (m : list byte) :
  length (signing_key k) = 32%nat ->
  verify_signature (public_key_bytes k) m (sign k m) = Ok tt.
Proof.
  intros Hk. apply verify_signature_Ok. unfold public_key_bytes, sign, blen.
  rewrite length_ed_public, length_ed_sign by done.
  split_and!; try done; [by apply ed_public_valid | by apply ed_verify_sign].
Qed.
