(* ===== verification/Enrollment.v ===== *)
(** * Enrollment: the extension's key at the native messaging host

    Models [secretctl-native-host/src/enrollment.rs]: the enrollment file of the
    host, the challenge it gives the extension, and the check of the proof that
    binds one key to the extension. *)

From S2P Require Import Prelude.
From S2P Require Import Externals.
From S2P Require Import Concrete.
From S2P Require Import Crypto.

Definition TRANSCRIPT_LABEL : string := "secretctl-extension-session-v1".

Record ExtensionEnrollment : Type := {
  extension_id : string;
  enrolled_key : option (list byte);
  pending_pairing_code : option string
}.

Record ExtensionChallenge : Type := {
  challenge_nonce : string;
  challenge_pairing_code : option string;
  challenge_paired : bool
}.

Record ExtensionProof : Type := {
  proof_public_key : string;
  proof_challenge_nonce : string;
  proof_signature : string;
  proof_pairing_code : option string
}.

(** The first reason a proof is refused for; a failed decoding keeps the text of
    its error. *)
Inductive EnrollmentError : Type :=
| ChallengeReplay
| BadEncoding (message : string)
| BadPublicKey
| EnrollmentKeyChanged
| PairingCodeRejected
| SignatureRejected.

Definition enrollment_error_text (e : EnrollmentError) : string :=
  match e with
  | ChallengeReplay => "extension challenge replay rejected"
  | BadEncoding message => message
  | BadPublicKey => "extension public key rejected"
  | EnrollmentKeyChanged => "extension enrollment key changed"
  | PairingCodeRejected => "extension pairing code rejected"
  | SignatureRejected => "extension challenge signature rejected"
  end.

Section Enrollment.
Context `{Hashes, Signatures, Base64}.

(** The random bytes are those the generator filled the array with. *)
Definition enrollment_new (id : string) (random : list byte) : ExtensionEnrollment := {|
  extension_id := id; enrolled_key := None;
  pending_pairing_code := Some (format_padded 6 (be_value random mod 1000000)) |}.

Definition challenge (e : ExtensionEnrollment) (nonce : list byte) : ExtensionChallenge := {|
  challenge_nonce := b64_encode nonce; challenge_pairing_code := pending_pairing_code e;
  challenge_paired := bool_decide (enrolled_key e <> None) |}.

Definition extension_transcript (nonce id public_key : string) : list byte :=
  compute_context_digest [as_bytes TRANSCRIPT_LABEL; as_bytes nonce; as_bytes id; as_bytes public_key].

Definition extension_key_id (public_key : list byte) : string :=
  "extkey_" +:+ b64_encode (take 18 (sha256_digest public_key)).

Definition verify_and_enroll (expected_nonce : string) (proof : ExtensionProof)
    (e : ExtensionEnrollment) : result EnrollmentError string * ExtensionEnrollment :=
  let checked : result EnrollmentError (list byte) :=
    _ ← (if bool_decide (proof_challenge_nonce proof = expected_nonce) then Ok tt
         else Err ChallengeReplay);
    public_key ← map_err BadEncoding (b64_decode (proof_public_key proof));
    _ ← (if bool_decide (length public_key = 32%nat) then Ok tt else Err BadPublicKey);
    _ ← match enrolled_key e with
        | Some enrolled =>
            if bool_decide (enrolled = public_key) then Ok tt else Err EnrollmentKeyChanged
        | None =>
            if bool_decide (pending_pairing_code e = proof_pairing_code proof) then Ok tt
            else Err PairingCodeRejected
        end;
    let transcript := extension_transcript expected_nonce (extension_id e) (proof_public_key proof) in
    signature ← map_err BadEncoding (b64_decode (proof_signature proof));
    _ ← map_err (fun _ => SignatureRejected) (verify_signature public_key transcript signature);
    Ok public_key in
  match checked with
  | Err error => (Err error, e)
  | Ok public_key =>
      (Ok (extension_key_id public_key),
       if bool_decide (enrolled_key e = None)
       then {| extension_id := extension_id e; enrolled_key := Some public_key;
               pending_pairing_code := None |}
       else e)
  end.

(** ** A host over its life: proofs, each with the nonce that was given out *)

Fixpoint proofs (attempts : list (string * ExtensionProof)) (e : ExtensionEnrollment) :
    list (result EnrollmentError string) * ExtensionEnrollment :=
  match attempts with
  | [] => ([], e)
  | (nonce, proof) :: attempts =>
      let '(r, e) := verify_and_enroll nonce proof e in
      let '(rs, e) := proofs attempts e in (r :: rs, e)
  end.

(** A proof that is accepted for a key. *)
Record proves (id nonce : string) (proof : ExtensionProof) (key : list byte) : Prop := {
  pr_nonce : proof_challenge_nonce proof = nonce;
  pr_key : b64_decode (proof_public_key proof) = Ok key;
  pr_length : length key = 32%nat;
  pr_signed : exists signature, b64_decode (proof_signature proof) = Ok signature /\
    verify_signature key (extension_transcript nonce id (proof_public_key proof)) signature = Ok tt
}.

Lemma verify_and_enroll_Ok nonce proof e key_id e' :
  verify_and_enroll nonce proof e = (Ok key_id, e') ->
  exists key, key_id = extension_key_id key /\ proves (extension_id e) nonce proof key /\
    extension_id e' = extension_id e /\ enrolled_key e' = Some key /\
    match enrolled_key e with
    | Some enrolled => enrolled = key /\ e' = e
    | None => pending_pairing_code e = proof_pairing_code proof /\ pending_pairing_code e' = None
    end.
Proof.
  unfold verify_and_enroll. cbv zeta.
  destruct (_ ≫= _) as [key|er] eqn:Hchk; [|discriminate]. intros [= <- <-]. exists key.
  apply bind_Ok_inv in Hchk as ([] & Hn & Hchk).
  destruct (bool_decide (proof_challenge_nonce proof = nonce)) eqn:Hnonce; [|discriminate].
  apply bool_decide_eq_true in Hnonce.
  apply bind_Ok_inv in Hchk as (k & Hk & Hchk). apply map_err_Ok in Hk.
  apply bind_Ok_inv in Hchk as ([] & Hl & Hchk).
  destruct (bool_decide (length k = 32%nat)) eqn:Hlen; [|discriminate].
  apply bool_decide_eq_true in Hlen.
  apply bind_Ok_inv in Hchk as ([] & He & Hchk).
  apply bind_Ok_inv in Hchk as (sg & Hs & Hchk). apply map_err_Ok in Hs.
  apply bind_Ok_inv in Hchk as ([] & Hv & Hchk). apply map_err_Ok in Hv. injection Hchk as ->.
  split; [done|]. split; [by split; [| | |exists sg]|].
  destruct (enrolled_key e) as [enrolled|] eqn:Hek.
  - rewrite bool_decide_false by done. destruct (bool_decide (enrolled = key)) eqn:Hc; [|discriminate].
    apply bool_decide_eq_true in Hc. by rewrite Hek, Hc.
  - rewrite bool_decide_true by done. cbn. destruct (bool_decide _) eqn:Hc; [|discriminate].
    by apply bool_decide_eq_true in Hc.
Qed.

Lemma verify_and_enroll_Err nonce proof e er e' :
  verify_and_enroll nonce proof e = (Err er, e') -> e' = e.
Proof.
  unfold verify_and_enroll. cbv zeta. destruct (_ ≫= _) as [k|er']; [discriminate|]. by intros [= _ <-].
Qed.

(** What the accepted proofs of a list have in common. *)
Definition all_for (id : string) (key : list byte) (attempts : list (string * ExtensionProof))
    (rs : list (result EnrollmentError string)) : Prop :=
  forall i nonce proof key_id, attempts !! i = Some (nonce, proof) -> rs !! i = Some (Ok key_id) ->
    key_id = extension_key_id key /\ proves id nonce proof key.

Lemma proofs_enrolled key attempts : forall e, enrolled_key e = Some key ->
  snd (proofs attempts e) = e /\ all_for (extension_id e) key attempts (fst (proofs attempts e)).
Proof.
  induction attempts as [|[nonce proof] attempts IH]; intros e He; [by split|]. cbn [proofs].
  destruct (verify_and_enroll nonce proof e) as [r e1] eqn:Hv.
  assert (He1 : e1 = e /\ forall key_id, r = Ok key_id ->
    key_id = extension_key_id key /\ proves (extension_id e) nonce proof key).
  { destruct r as [key_id|er]; [|by apply verify_and_enroll_Err in Hv].
    apply verify_and_enroll_Ok in Hv as (k & -> & Hp & _ & _ & Hk). rewrite He in Hk.
    destruct Hk as [<- ->]. split; [done|]. by intros key_id [= <-]. }
  destruct He1 as [-> Hr]. destruct (IH e He) as [Hs Ha].
  destruct (proofs attempts e) as [rs e2]. cbn in *. split; [done|].
  intros [|i] n p key_id; cbn; [|by apply Ha]. intros [= <- <-] [= ->]. by apply Hr.
Qed.

(** The first accepted proof, and the code it carried. *)
Definition first_with_code (code : option string) (attempts : list (string * ExtensionProof))
    (rs : list (result EnrollmentError string)) : Prop :=
  exists i nonce proof r, attempts !! i = Some (nonce, proof) /\ rs !! i = Some (Ok r) /\
    proof_pairing_code proof = code /\
    forall j r', (j < i)%nat -> rs !! j = Some r' -> is_ok r' = false.

(** C33: the host binds the extension to one key. Whatever proofs it is shown,
    each with the challenge that was given out for it: until one is accepted the
    enrollment stays open, under its pairing code; the first one accepted carried
    that code, and closes the enrollment for good; and every one accepted, the
    first and all later ones, answers its own challenge and carries a signature
    over that challenge and the extension by one and the same key, whose
    identifier the host then reports. *)
Theorem enrollment_binds_one_key id random attempts :
  let e0 := enrollment_new id random in
  let rs := fst (proofs attempts e0) in
  let e := snd (proofs attempts e0) in
  extension_id e = id /\
  match enrolled_key e with
  | None => e = e0 /\ Forall (fun r => is_ok r = false) rs
  | Some key => pending_pairing_code e = None /\ all_for id key attempts rs /\
      first_with_code (pending_pairing_code e0) attempts rs
  end.
Proof.
  intros e0. assert (He0 : enrolled_key e0 = None) by done. change id with (extension_id e0).
  clearbody e0. revert e0 He0.
  induction attempts as [|[nonce proof] attempts IH]; intros e0 He0; cbn [proofs].
  { cbn. by rewrite He0. }
  destruct (verify_and_enroll nonce proof e0) as [[key_id|er] e1] eqn:Hv.
  - apply verify_and_enroll_Ok in Hv as (key & -> & Hp & Hid & Hk1 & Hk). rewrite He0 in Hk.
    destruct Hk as [Hcode Hclosed]. destruct (proofs_enrolled key attempts e1 Hk1) as [Hs Ha].
    destruct (proofs attempts e1) as [rs e2]. cbn in *. subst e2. rewrite Hk1, Hid in *.
    split_and!; [done|done| |].
    + intros [|i] n p kid; cbn; [|by apply Ha]. by intros [= <- <-] [= <-].
    + exists O, nonce, proof, (extension_key_id key). split_and!; try done. intros j r' Hj. lia.
  - apply verify_and_enroll_Err in Hv as ->. specialize (IH e0 He0).
    destruct (proofs attempts e0) as [rs e2]. cbn in *. destruct IH as [Hid IH]. split; [done|].
    destruct (enrolled_key e2) as [key|].
    + destruct IH as (Hclosed & Ha & i & n & p & r & Hi & Hr & Hcode & Hfirst). split_and!; [done| |].
      * intros [|j] n' p' kid; cbn; [by intros _ [=]|by apply Ha].
      * exists (S i), n, p, r. split_and!; try done. intros [|j] r' Hj; cbn; [by intros [= <-]|].
        apply Hfirst. lia.
    + destruct IH as [-> Hall]. split; [done|]. by constructor.
Qed.
End Enrollment.

(** ** A pairing *)

Definition example_key : list byte := repeat Byte.x07 32.
Definition example_host : ExtensionEnrollment :=
  enrollment_new "extension" [Byte.x00; Byte.x00; Byte.x00; Byte.x2a].
Definition example_proof (nonce : string) (key : list byte) (code : option string) : ExtensionProof := {|
  proof_public_key := b64_encode key; proof_challenge_nonce := nonce;
  proof_signature := b64_encode (ed_sign key (extension_transcript nonce "extension" (b64_encode key)));
  proof_pairing_code := code |}.
Definition example_attempts : list (string * ExtensionProof) :=
  [("n0", example_proof "n0" example_key (Some "000000"));
   ("n1", example_proof "n1" example_key (Some "000042"));
   ("n2", example_proof "n2" (repeat Byte.x08 32) None);
   ("n3", example_proof "n3" example_key None)].

Example pairing_runs : map is_ok (fst (proofs example_attempts example_host)) = [false; true; false; true].
Proof. vm_compute. reflexivity. Qed.

Lemma enrollment_binds_one_key_witness :
  match enrolled_key (snd (proofs example_attempts example_host)) with
  | Some key => all_for "extension" key example_attempts (fst (proofs example_attempts example_host))
  | None => False
  end.
Proof.
  pose proof (enrollment_binds_one_key "extension" [Byte.x00; Byte.x00; Byte.x00; Byte.x2a] example_attempts) as H.
  cbv zeta in H. fold example_host in H. destruct H as [_ H].
  assert (He : enrolled_key (snd (proofs example_attempts example_host)) = Some example_key)
    by (vm_compute; reflexivity).
  rewrite He in H |- *. exact (proj1 (proj2 H)).
Defined.
