(* ===== verification/DomView.v ===== *)
(** * DomView: the bounded projection of a page

    Models [secretctld/src/dom_view.rs]: what an agent is shown of a page, the
    protection of credential fields, and the locators it may answer with. A text
    of the page is a list of code points, as the code walks it by [chars]. *)

From S2P Require Import Prelude.
From S2P Require Import Externals.
From S2P Require Import Concrete.
From S2P Require Import Crypto.

(** ** Text *)

Definition Text : Type := list Z.

(** [str::to_lowercase]: below U+0080 the ASCII mapping; the rest of Unicode's
    case tables is data of the standard library. *)
Class UnicodeCase := { to_lowercase : Text -> Text }.

Definition is_control (c : Z) : bool :=
  ((0 <=? c) && (c <=? 31)) || ((127 <=? c) && (c <=? 159)).

(** The format characters [collapse_whitespace] drops. *)
Definition is_format_character (c : Z) : bool :=
  ((8203 <=? c) && (c <=? 8207)) || ((8232 <=? c) && (c <=? 8238))
  || ((8294 <=? c) && (c <=? 8297)).

Fixpoint collapse_from (pending_space : bool) (out : Text) (raw : Text) : Text :=
  match raw with
  | [] => out
  | c :: raw =>
      if is_whitespace c then collapse_from (negb (bool_decide (out = []))) out raw
      else if is_control c || is_format_character c then collapse_from pending_space out raw
      else collapse_from false (out ++ (if pending_space then [32] else []) ++ [c]) raw
  end.
Definition collapse_whitespace (raw : Text) : Text := collapse_from false [] raw.

Fixpoint trim_start (t : Text) : Text :=
  match t with
  | [] => []
  | c :: t' => if is_whitespace c then trim_start t' else t
  end.
Definition trim (t : Text) : Text := rev (trim_start (rev (trim_start t))).

Definition ends_with_space (t : Text) : bool :=
  match rev t with c :: _ => c =? 32 | [] => false end.

Definition truncate_chars (value : Text) (max : Z) : Text := take (Z.to_nat max) value.

(** [String::push] of a code point: its UTF-8 bytes. *)
Definition encode_char (c : Z) : list byte :=
  map byte_of_Z (
    if c <? 128 then [c]
    else if c <? 2048 then [Z.lor 192 (Z.shiftr c 6); Z.lor 128 (Z.land c 63)]
    else if c <? 65536 then
      [Z.lor 224 (Z.shiftr c 12); Z.lor 128 (Z.land (Z.shiftr c 6) 63); Z.lor 128 (Z.land c 63)]
    else [Z.lor 240 (Z.shiftr c 18); Z.lor 128 (Z.land (Z.shiftr c 12) 63);
          Z.lor 128 (Z.land (Z.shiftr c 6) 63); Z.lor 128 (Z.land c 63)]).
Definition encode_text (t : Text) : list byte := flat_map encode_char t.

Definition hex_digit (n : Z) : ascii :=
  ascii_of_N (Z.to_N (if n <? 10 then 48 + n else 87 + n)).
(** [{:02x}] *)
Definition hex_byte (b : byte) : string :=
  String (hex_digit (byte_to_Z b / 16)) (String (hex_digit (byte_to_Z b mod 16)) EmptyString).

(** [replace(' ', "")] *)
Fixpoint remove_spaces (s : string) : string :=
  match s with
  | EmptyString => EmptyString
  | String a s => if bool_decide (a = " "%char) then remove_spaces s else String a (remove_spaces s)
  end.

(** ** Constants and data *)

Definition INTERACTABLE_ROLES : list string :=
  ["link"; "button"; "textbox"; "checkbox"; "radio"; "combobox"].
Definition PROTECTED_NAME_FRAGMENTS : list string :=
  ["password"; "passwd"; "otp"; "totp"; "secret"; "token"; "cvv"; "cvc"].
Definition PROTECTED_AUTOCOMPLETE : list string :=
  ["current-password"; "new-password"; "one-time-code"].
Definition NON_CONTENT_TAGS : list string :=
  ["script"; "style"; "noscript"; "template"; "head"; "svg"].

Record ViewLimits : Type := { max_nodes : Z; max_chars : Z; max_name_chars : Z }.

Definition default_limits : ViewLimits :=
  {| max_nodes := 100; max_chars := 4000; max_name_chars := 120 |}.

Definition clamp (lo hi z : Z) : Z := Z.max lo (Z.min hi z).

(** [ViewLimits::clamped] *)
Definition clamped (nodes characters : option Z) : ViewLimits := {|
  max_nodes := clamp 1 250 (default (max_nodes default_limits) nodes);
  max_chars := clamp 1 20000 (default (max_chars default_limits) characters);
  max_name_chars := max_name_chars default_limits |}.

Record ProjectedNode : Type := {
  nd_reference : string;
  nd_tag : string;
  nd_role : string;
  nd_name : Text;
  nd_input_type : option string;
  nd_protected : bool;
  nd_disabled : bool;
  nd_visible : option bool;
  nd_node_id : Z;
  nd_structurally_hidden : bool
}.

Record PageProjection : Type := {
  pp_nodes : list ProjectedNode;
  pp_text : Text;
  pp_text_truncated : bool;
  pp_nodes_truncated : bool
}.

Inductive ResolveError : Type := RNotFound | RAmbiguous | RStale | RProtected.

Record Walker : Type := {
  wk_nodes : list ProjectedNode;
  wk_text : Text;
  wk_text_truncated : bool;
  wk_nodes_truncated : bool;
  wk_interactable_index : Z
}.

(** ** Attributes: [name, value, name, value, ...] *)

Definition Attributes : Type := list (string * string).

(** [chunks(2)], where both parts are strings. *)
Fixpoint attribute_pairs (items : list Json) : Attributes :=
  match items with
  | JString name :: JString value :: items => (to_ascii_lowercase name, value) :: attribute_pairs items
  | _ :: _ :: items => attribute_pairs items
  | _ => []
  end.

Definition attributes_of (node : Json) : Attributes :=
  match json_get "attributes" node with
  | Some (JArray items) => attribute_pairs items
  | _ => []
  end.

Definition attr_get (a : Attributes) (name : string) : option string :=
  snd <$> List.find (fun '(key, _) => bool_decide (key = name)) a.
Definition attr_has (a : Attributes) (name : string) : bool :=
  existsb (fun '(key, _) => bool_decide (key = name)) a.
Definition attr_value_is (a : Attributes) (name expected : string) : bool :=
  is_some_and (fun value => bool_decide (to_ascii_lowercase value = to_ascii_lowercase expected))
    (attr_get a name).

Definition is_protected (a : Attributes) : bool :=
  attr_value_is a "type" "password"
  || is_some_and (fun autocomplete =>
       existsb (contains (to_ascii_lowercase autocomplete)) PROTECTED_AUTOCOMPLETE)
       (attr_get a "autocomplete")
  || existsb (fun key => is_some_and (fun value =>
       existsb (contains (to_ascii_lowercase value)) PROTECTED_NAME_FRAGMENTS) (attr_get a key))
       ["name"; "id"; "data-testid"].

Definition is_structurally_hidden (a : Attributes) (tag : string) : bool :=
  attr_has a "hidden" || attr_value_is a "aria-hidden" "true"
  || (bool_decide (tag = "input") && attr_value_is a "type" "hidden")
  || is_some_and (fun style =>
       let style := remove_spaces (to_ascii_lowercase style) in
       contains style "display:none" || contains style "visibility:hidden") (attr_get a "style").

(** [str::trim] of a role, which only ASCII can name. *)
Definition trim_string (s : string) : string := from_bytes (encode_text (trim (chars s))).

Definition implicit_role (tag : string) (a : Attributes) : string :=
  if bool_decide (tag = "a") && attr_has a "href" then "link"
  else if bool_decide (tag = "button") then "button"
  else if bool_decide (tag = "select") then "combobox"
  else if bool_decide (tag = "textarea") then "textbox"
  else if bool_decide (tag = "input") then
    let kind := to_ascii_lowercase (default "text" (attr_get a "type")) in
    if bool_decide (kind ∈ ["button"; "submit"; "reset"; "image"]) then "button"
    else if bool_decide (kind = "checkbox") then "checkbox"
    else if bool_decide (kind = "radio") then "radio"
    else if bool_decide (kind = "hidden") then "generic"
    else "textbox"
  else "generic".

Definition derive_role (tag : string) (a : Attributes) : string :=
  match (fun role => to_ascii_lowercase (trim_string role)) <$> attr_get a "role" with
  | Some explicit =>
      if bool_decide (explicit ∈ INTERACTABLE_ROLES) then explicit else implicit_role tag a
  | None => implicit_role tag a
  end.

(** ** Nodes *)

Definition node_type (node : Json) : Z := default 0 (json_get "nodeType" node ≫= json_as_u64).
Definition node_tag (node : Json) : string :=
  to_ascii_lowercase (default "" (json_get "nodeName" node ≫= json_as_str)).
Definition node_value (node : Json) : option Text :=
  chars <$> (json_get "nodeValue" node ≫= json_as_str).

(** What a loop over the array under a key of an object comes to; [d] when there
    is no such array. *)
Definition array_field {A : Type} (key : string) (f : list Json -> A) (d : A) :
    list (string * Json) -> A :=
  fix go fields :=
    match fields with
    | [] => d
    | (k, v) :: fields =>
        if bool_decide (k = key) then match v with JArray items => f items | _ => d end
        else go fields
    end.

Fixpoint descendant_text (depth : Z) (node : Json) : Text :=
  if 4 <? depth then [] else
  match node with
  | JObject fields =>
      array_field "children" (fun children =>
        (fix go (children : list Json) (collected : Text) : Text :=
           match children with
           | [] => collected
           | child :: children =>
               let kind := node_type child in
               let collected :=
                 if kind =? 3
                 then match node_value child with
                      | Some value => collected ++ value ++ [32]
                      | None => collected
                      end
                 else if kind =? 1
                 then if bool_decide (node_tag child ∈ NON_CONTENT_TAGS)
                         || is_protected (attributes_of child)
                      then collected
                      else collected ++ descendant_text (depth + 1) child
                 else collected in
               if 512 <? blen (encode_text collected) then collected else go children collected
           end) children []) [] fields
  | _ => []
  end.

(** The first of some attributes that is not blank. *)
Definition first_label (a : Attributes) (keys : list string) : option string :=
  List.find (fun value => negb (is_blank value)) (omap (attr_get a) keys).

Definition accessible_name (node : Json) (tag : string) (a : Attributes) : Text :=
  match first_label a ["aria-label"; "placeholder"; "title"; "alt"] with
  | Some label => chars label
  | None =>
      if bool_decide (tag = "input")
      then
        let kind := to_ascii_lowercase (default "text" (attr_get a "type")) in
        match (if bool_decide (kind ∈ ["button"; "submit"; "reset"])
               then first_label a ["value"] else None) with
        | Some label => chars label
        | None => chars (default "" (attr_get a "name"))
        end
      else descendant_text 0 node
  end.

Definition node_is_protected (described : Json) : bool :=
  is_protected (attributes_of (default described (json_get "node" described))).

(** ** The walk *)

Section Projection.
Context `{Hashes, UnicodeCase}.

Definition normalize_for_match (value : Text) : Text :=
  to_lowercase (trim (collapse_whitespace value)).

Definition make_reference (index : Z) (tag role : string) (name : Text) : string :=
  let material := as_bytes tag ++ [Byte.x1f] ++ as_bytes role ++ [Byte.x1f]
                  ++ encode_text (normalize_for_match name) in
  let digest := sha256_digest material in
  "e" +:+ format_unsigned index +:+ "." +:+ String.concat "" (map hex_byte (take 3 digest)).

Definition push_text (limits : ViewLimits) (raw : Text) (w : Walker) : Walker :=
  if wk_text_truncated w then w else
  let collapsed := collapse_whitespace raw in
  if bool_decide (collapsed = []) then w else
  let text := wk_text w ++
    (if negb (bool_decide (wk_text w = [])) && negb (ends_with_space (wk_text w))
     then [32] else []) in
  let room := (Z.to_nat (max_chars limits) - length text)%nat in {|
  wk_nodes := wk_nodes w; wk_text := text ++ take room collapsed;
  wk_text_truncated := (room <? length collapsed)%nat;
  wk_nodes_truncated := wk_nodes_truncated w;
  wk_interactable_index := wk_interactable_index w |}.

Definition record_element (limits : ViewLimits) (node : Json) (tag : string) (a : Attributes)
    (protected : bool) (w : Walker) : Walker :=
  let role := derive_role tag a in
  if negb (bool_decide (role ∈ INTERACTABLE_ROLES)) then w
  else if max_nodes limits <=? Z.of_nat (length (wk_nodes w)) then {|
    wk_nodes := wk_nodes w; wk_text := wk_text w; wk_text_truncated := wk_text_truncated w;
    wk_nodes_truncated := true; wk_interactable_index := wk_interactable_index w |}
  else
    let name := if protected then []
                else truncate_chars (collapse_whitespace (accessible_name node tag a))
                       (max_name_chars limits) in {|
    wk_nodes := wk_nodes w ++ [{|
      nd_reference := make_reference (wk_interactable_index w) tag role name; nd_tag := tag;
      nd_role := role; nd_name := name; nd_input_type := attr_get a "type";
      nd_protected := protected;
      nd_disabled := attr_has a "disabled" || attr_value_is a "aria-disabled" "true";
      nd_visible := None;
      nd_node_id := default 0 (json_get "nodeId" node ≫= json_as_u64);
      nd_structurally_hidden := is_structurally_hidden a tag |}];
    wk_text := wk_text w; wk_text_truncated := wk_text_truncated w;
    wk_nodes_truncated := wk_nodes_truncated w;
    wk_interactable_index := wk_interactable_index w + 1 |}.

Fixpoint visit (limits : ViewLimits) (node : Json) (inherited_protection : bool) (w : Walker) :
    Walker :=
  let kind := node_type node in
  if kind =? 3 then
    if inherited_protection then w
    else match node_value node with Some value => push_text limits value w | None => w end
  else if negb ((kind =? 1) || (kind =? 9) || (kind =? 11)) then w
  else
    let tag := node_tag node in
    if bool_decide (tag ∈ NON_CONTENT_TAGS) then w else
    let a := attributes_of node in
    let protected := inherited_protection || is_protected a in
    let w := if kind =? 1 then record_element limits node tag a protected w else w in
    match node with
    | JObject fields =>
        array_field "children"
          (fold_left (fun w child => visit limits child protected w)) (fun w => w) fields w
    | _ => w
    end.

Definition new_walker : Walker := {|
  wk_nodes := []; wk_text := []; wk_text_truncated := false; wk_nodes_truncated := false;
  wk_interactable_index := 0 |}.

(** [while text.ends_with(' ') { text.pop(); }] *)
Fixpoint drop_spaces (t : Text) : Text :=
  match t with
  | c :: t' => if c =? 32 then drop_spaces t' else t
  | [] => []
  end.

Definition from_node (node : Json) (limits : ViewLimits) : PageProjection :=
  let w := visit limits node false new_walker in {|
  pp_nodes := wk_nodes w; pp_text := rev (drop_spaces (rev (wk_text w)));
  pp_text_truncated := wk_text_truncated w; pp_nodes_truncated := wk_nodes_truncated w |}.

(** ** Locators *)

Definition resolve_reference (p : PageProjection) (reference : string) :
    result ResolveError ProjectedNode :=
  ok_or RStale (List.find (fun node => bool_decide (nd_reference node = reference)) (pp_nodes p)).

(** Exactly one match is required. *)
Definition only_match (matches : list ProjectedNode) : result ResolveError ProjectedNode :=
  match matches with
  | [] => Err RNotFound
  | [node] => Ok node
  | _ => Err RAmbiguous
  end.

Definition resolve_role (p : PageProjection) (role : string) (name : Text) :
    result ResolveError ProjectedNode :=
  let wanted_role := to_ascii_lowercase (trim_string role) in
  let wanted_name := normalize_for_match name in
  only_match (List.filter (fun node => bool_decide (nd_role node = wanted_role)
    && bool_decide (normalize_for_match (nd_name node) = wanted_name)) (pp_nodes p)).

Definition resolve_text (p : PageProjection) (name : Text) : result ResolveError ProjectedNode :=
  let wanted := normalize_for_match name in
  only_match (List.filter (fun node =>
    bool_decide (normalize_for_match (nd_name node) = wanted)) (pp_nodes p)).
End Projection.

(** ** Concrete pages *)

Module DomExample.
#[export] Instance ascii_case : UnicodeCase := {
  to_lowercase t := map (fun c => if (65 <=? c) && (c <=? 90) then c + 32 else c) t }.
Definition text (s : string) : Json := JObject [("nodeType", JNumber 3); ("nodeValue", JString s)].
Definition element (tag : string) (id : Z) (attributes : list string) (children : list Json) : Json :=
  JObject [("nodeId", JNumber id); ("nodeType", JNumber 1); ("nodeName", JString tag);
    ("attributes", JArray (map JString attributes)); ("children", JArray children)].
Definition login_page : Json := element "BODY" 1 [] [
  element "H1" 2 [] [text "Sign in to Example"];
  element "FORM" 3 [] [
    element "INPUT" 4 ["type"; "text"; "name"; "username"; "placeholder"; "Username"] [];
    element "INPUT" 5 ["type"; "password"; "name"; "password"; "value"; "hunter2"] [];
    element "BUTTON" 6 ["type"; "submit"] [text "Sign  in"]];
  element "DIV" 8 ["data-testid"; "totp-debug"] [text "CANARY"];
  element "A" 7 ["href"; "/reset"] [text "Forgot password?"]].
Definition view : PageProjection := from_node login_page default_limits.

Example roles_and_names :
  map (fun n => (nd_role n, nd_name n)) (pp_nodes view)
  = [("textbox", chars "Username"); ("textbox", []); ("button", chars "Sign in");
     ("link", chars "Forgot password?")].
Proof. vm_compute. reflexivity. Qed.

Example page_text : pp_text view = chars "Sign in to Example Sign in Forgot password?".
Proof. vm_compute. reflexivity. Qed.

Example button_found :
  nd_node_id <$> result_ok (resolve_role view " BUTTON" (chars "  sign IN ")) = Some 6.
Proof. vm_compute. reflexivity. Qed.

Example capped : pp_text (from_node login_page (clamped (Some 2) (Some 12))) = chars "Sign in to E".
Proof. vm_compute. reflexivity. Qed.
End DomExample.

