(* ===== verification/DomViewProps.v ===== *)
(** * DomViewProps: what an agent can learn from a page

    The projection of [DomView.v] never depends on what is inside a protected
    element, stays within its limits, and its references name the element they
    were made for. *)

From S2P Require Import Prelude.
From S2P Require Import Externals.
From S2P Require Import Concrete.
From S2P Require Import Crypto.
From S2P Require Import DomView.

(** Induction on the nodes of a document. *)
Lemma dom_ind (Q : Json -> Prop) :
  (forall v, (forall fields, v <> JObject fields) -> Q v) ->
  (forall fields, (forall items, json_get "children" (JObject fields) = Some (JArray items) ->
     Forall Q items) -> Q (JObject fields)) ->
  forall v, Q v.
Proof.
  intros Hleaf Hnode v.
  enough (Q v /\ forall items, v = JArray items -> Forall Q items) as [? _] by done.
  induction v as [|b|z|t|s|items IH|fields IH] using json_nested_ind;
    try (split; [apply Hleaf; discriminate|discriminate]).
  - split; [apply Hleaf; discriminate|]. intros items' [= <-]. eapply List.Forall_impl; [|exact IH].
    by intros x [? _].
  - split; [|discriminate]. apply Hnode. intros items Hi. unfold json_get in Hi.
    apply fmap_Some in Hi as ([k v] & Hf & Hv). cbn in Hv. subst v.
    apply find_some in Hf as [Hf _]. rewrite List.Forall_forall in IH.
    destruct (IH _ Hf) as [_ Hi]. by apply Hi.
Qed.

(** ** What the projection reads of a page

    A copy of the page with only the parts the projection may use: of a text its
    value, unless it is inside a protected element; of an element its tag, its
    number, its attributes, which lose every label and value when the element is
    protected, and its children; nothing of other nodes, nor of the frames and
    shadow trees that hang off other fields. *)

Definition LABELS : list string := ["aria-label"; "placeholder"; "title"; "alt"; "value"].

Fixpoint blank_labels (items : list Json) : list Json :=
  match items with
  | JString name :: JString value :: items =>
      JString name :: JString (if bool_decide (to_ascii_lowercase name ∈ LABELS) then "" else value)
        :: blank_labels items
  | a :: b :: items => a :: b :: blank_labels items
  | items => items
  end.

Definition kept (key : string) (node : Json) : list (string * Json) :=
  match json_get key node with Some v => [(key, v)] | None => [] end.

Definition kept_attributes (protected : bool) (node : Json) : list (string * Json) :=
  match json_get "attributes" node with
  | Some (JArray items) => [("attributes", JArray (if protected then blank_labels items else items))]
  | _ => []
  end.

Fixpoint redacted (inherited_protection : bool) (node : Json) : Json :=
  match node with
  | JObject fields =>
      let kind := node_type node in
      if kind =? 3 then
        JObject (("nodeType", JNumber 3) :: if inherited_protection then [] else kept "nodeValue" node)
      else if negb ((kind =? 1) || (kind =? 9) || (kind =? 11)) then JNull
      else
        let shell := [("nodeType", JNumber kind)] ++ kept "nodeName" node in
        if bool_decide (node_tag node ∈ NON_CONTENT_TAGS) then JObject shell else
        let protected := inherited_protection || is_protected (attributes_of node) in
        JObject (shell ++ kept "nodeId" node ++ kept_attributes protected node
          ++ array_field "children" (fun items => [("children", JArray (map (redacted protected) items))])
               [] fields)
  | _ => JNull
  end.

(** ** Reading the copy *)

Lemma json_get_cons k v fields key :
  json_get key (JObject ((k, v) :: fields)) =
  if bool_decide (k = key) then Some v else json_get key (JObject fields).
Proof. unfold json_get. cbn. by case_bool_decide. Qed.

Lemma json_get_kept key node rest key' :
  json_get key' (JObject (kept key node ++ rest)) =
  if bool_decide (key = key') then
    match json_get key node with Some v => Some v | None => json_get key' (JObject rest) end
  else json_get key' (JObject rest).
Proof.
  unfold kept. destruct (json_get key node) as [v|]; [|by case_bool_decide].
  cbn [app]. by rewrite json_get_cons.
Qed.

Lemma json_get_children_field (f : list Json -> list Json) key fields :
  key <> "children" ->
  json_get key (JObject (array_field "children" (fun items => [("children", JArray (f items))]) [] fields))
  = None.
Proof.
  intros Hk. induction fields as [|[k v] fields IH]; [done|]. cbn [array_field].
  case_bool_decide; [|done]. destruct v; try done. rewrite json_get_cons.
  by rewrite bool_decide_false.
Qed.

Lemma attr_get_cons k v a key :
  attr_get ((k, v) :: a) key = if bool_decide (k = key) then Some v else attr_get a key.
Proof. unfold attr_get. cbn. by case_bool_decide. Qed.

Lemma blank_labels_get key : key ∉ LABELS ->
  forall items, attr_get (attribute_pairs (blank_labels items)) key = attr_get (attribute_pairs items) key.
Proof.
  intros Hk. fix IH 1. intros [|x [|y items]]; [done|by destruct x|].
  destruct x; destruct y; cbn [blank_labels attribute_pairs]; try apply IH.
  rewrite !attr_get_cons. case_bool_decide as He; [|apply IH].
  rewrite bool_decide_false; [done|]. by rewrite He.
Qed.

Lemma attr_has_cons k v a key :
  attr_has ((k, v) :: a) key = bool_decide (k = key) || attr_has a key.
Proof. done. Qed.

Lemma blank_labels_has key items :
  attr_has (attribute_pairs (blank_labels items)) key = attr_has (attribute_pairs items) key.
Proof.
  revert items. fix IH 1. intros [|x [|y items]]; [done|by destruct x|].
  destruct x; destruct y; cbn [blank_labels attribute_pairs]; try apply IH.
  by rewrite !attr_has_cons, IH.
Qed.

Lemma array_field_get {A : Type} key (f : list Json -> A) d fields :
  array_field key f d fields =
  match json_get key (JObject fields) with Some (JArray items) => f items | _ => d end.
Proof.
  induction fields as [|[k v] fields IH]; [done|]. rewrite json_get_cons. cbn [array_field].
  by case_bool_decide.
Qed.

(** The copy of an element. *)
Definition shown_children (children : list Json -> list Json) (fields : list (string * Json)) :
    list (string * Json) :=
  array_field "children" (fun items => [("children", JArray (children items))]) [] fields.
Definition shown_element (kind : Z) (protected : bool) (node : Json)
    (children : list (string * Json)) : Json :=
  JObject ((("nodeType", JNumber kind) :: kept "nodeName" node)
    ++ kept "nodeId" node ++ kept_attributes protected node ++ children).

Section Shown.
Context (kind : Z) (protected : bool) (fields : list (string * Json)) (children : list Json -> list Json).
Hypothesis Hkind : kind = 1 \/ kind = 9 \/ kind = 11.
Let node := JObject fields.
Let shown := shown_element kind protected node (shown_children children fields).

Lemma kept_attributes_get key rest :
  json_get key (JObject (kept_attributes protected node ++ rest)) =
  if bool_decide ("attributes" = key) then
    match json_get "attributes" node with
    | Some (JArray items) => Some (JArray (if protected then blank_labels items else items))
    | _ => json_get key (JObject rest)
    end
  else json_get key (JObject rest).
Proof.
  unfold kept_attributes. destruct (json_get "attributes" node) as [[]|];
    try (cbn [app]; by case_bool_decide). cbn [app]. by rewrite json_get_cons.
Qed.

Lemma shown_children_get :
  json_get "children" (JObject (shown_children children fields)) =
  match json_get "children" node with
  | Some (JArray items) => Some (JArray (children items))
  | _ => None
  end.
Proof.
  unfold shown_children. rewrite array_field_get. fold node.
  by destruct (json_get "children" node) as [[]|].
Qed.

Ltac look :=
  unfold shown, shown_element; rewrite <-!app_comm_cons, json_get_cons, !json_get_kept,
    kept_attributes_get;
  repeat match goal with |- context [bool_decide (?x = ?y)] =>
    first [rewrite (bool_decide_true (x = y)) by reflexivity
      | rewrite (bool_decide_false (x = y)) by discriminate] end;
  unfold shown_children; rewrite ?json_get_children_field by discriminate; fold (shown_children children fields).

Lemma shown_type : node_type shown = kind.
Proof. unfold node_type. look. destruct Hkind as [->|[->| ->]]; done. Qed.
Lemma shown_tag : node_tag shown = node_tag node.
Proof. unfold node_tag. look. by destruct (json_get "nodeName" node). Qed.
Lemma shown_id : json_get "nodeId" shown = json_get "nodeId" node.
Proof. look. by destruct (json_get "nodeId" node). Qed.
Lemma shown_attributes : attributes_of shown =
  match json_get "attributes" node with
  | Some (JArray items) => attribute_pairs (if protected then blank_labels items else items)
  | _ => []
  end.
Proof. unfold attributes_of. look. by destruct (json_get "attributes" node) as [[]|]. Qed.

Lemma shown_get_children : json_get "children" shown =
  match json_get "children" node with
  | Some (JArray items) => Some (JArray (children items))
  | _ => None
  end.
Proof. look. apply shown_children_get. Qed.

Lemma shown_array {A : Type} (f : list Json -> A) d :
  match shown with JObject fs => array_field "children" f d fs | _ => d end =
  match json_get "children" node with Some (JArray items) => f (children items) | _ => d end.
Proof.
  unfold shown at 1, shown_element. cbn [app]. rewrite array_field_get.
  transitivity (match json_get "children" shown with Some (JArray items) => f items | _ => d end);
    [done|]. look. rewrite shown_children_get. by destruct (json_get "children" node) as [[]|].
Qed.

Lemma shown_attr_get key : key ∉ LABELS -> attr_get (attributes_of shown) key = attr_get (attributes_of node) key.
Proof.
  intros Hk. rewrite shown_attributes. unfold attributes_of.
  destruct (json_get "attributes" node) as [[]|]; try done.
  destruct protected; [by apply blank_labels_get|done].
Qed.
Lemma shown_attr_has key : attr_has (attributes_of shown) key = attr_has (attributes_of node) key.
Proof.
  rewrite shown_attributes. unfold attributes_of.
  destruct (json_get "attributes" node) as [[]|]; try done.
  destruct protected; [apply blank_labels_has|done].
Qed.
End Shown.

(** What is decided about an element without its labels. *)
Section SameAttributes.
Context (a a' : Attributes).
Hypothesis Hget : forall key, key ∉ LABELS -> attr_get a' key = attr_get a key.
Hypothesis Hhas : forall key, attr_has a' key = attr_has a key.

Lemma same_protected : is_protected a' = is_protected a.
Proof. unfold is_protected, attr_value_is. cbn [existsb]. by rewrite !Hget by (cbv; set_solver). Qed.
Lemma same_role tag : derive_role tag a' = derive_role tag a.
Proof. unfold derive_role, implicit_role. by rewrite Hhas, !Hget by (cbv; set_solver). Qed.
Lemma same_hidden tag : is_structurally_hidden a' tag = is_structurally_hidden a tag.
Proof.
  unfold is_structurally_hidden, attr_value_is. by rewrite Hhas, !Hget by (cbv; set_solver).
Qed.
End SameAttributes.

(** ** The projection of the copy is the projection *)

Lemma redacted_eq inherited fields :
  let node := JObject fields in
  redacted inherited node =
  if node_type node =? 3 then
    JObject (("nodeType", JNumber 3) :: if inherited then [] else kept "nodeValue" node)
  else if negb ((node_type node =? 1) || (node_type node =? 9) || (node_type node =? 11)) then JNull
  else if bool_decide (node_tag node ∈ NON_CONTENT_TAGS)
  then JObject (("nodeType", JNumber (node_type node)) :: kept "nodeName" node)
  else
    let protected := inherited || is_protected (attributes_of node) in
    shown_element (node_type node) protected node (shown_children (map (redacted protected)) fields).
Proof. done. Qed.

Lemma redacted_element inherited fields :
  let node := JObject fields in
  let kind := node_type node in
  kind = 1 \/ kind = 9 \/ kind = 11 -> node_tag node ∉ NON_CONTENT_TAGS ->
  redacted inherited node =
    let protected := inherited || is_protected (attributes_of node) in
    shown_element kind protected node (shown_children (map (redacted protected)) fields).
Proof.
  intros node kind Hkind Htag. subst node kind. rewrite redacted_eq.
  destruct (Z.eqb_spec (node_type (JObject fields)) 3); [lia|].
  rewrite bool_decide_false by done.
  by destruct (Z.eqb_spec (node_type (JObject fields)) 1), (Z.eqb_spec (node_type (JObject fields)) 9),
    (Z.eqb_spec (node_type (JObject fields)) 11); try lia.
Qed.

Lemma node_type_head kind rest :
  0 <= kind < 256 -> node_type (JObject (("nodeType", JNumber kind) :: rest)) = kind.
Proof.
  intros Hk. unfold node_type. rewrite json_get_cons, bool_decide_true by done.
  cbn [mbind option_bind json_as_u64]. unfold u64_max.
  destruct (Z.leb_spec 0 kind); [|lia]. destruct (Z.leb_spec kind (2 ^ 64 - 1)); [done|lia].
Qed.

(** An element that is not content keeps its tag, and so is skipped again. *)
Lemma redacted_skipped inherited fields :
  let node := JObject fields in
  node_type node = 1 \/ node_type node = 9 \/ node_type node = 11 ->
  node_tag node ∈ NON_CONTENT_TAGS ->
  node_type (redacted inherited node) = node_type node /\
  node_tag (redacted inherited node) = node_tag node.
Proof.
  intros node Hkind Htag. subst node. rewrite redacted_eq. set (node := JObject fields) in *.
  destruct (Z.eqb_spec (node_type node) 3); [lia|]. rewrite bool_decide_true by done.
  replace (negb _) with false
    by (destruct (Z.eqb_spec (node_type node) 1), (Z.eqb_spec (node_type node) 9),
      (Z.eqb_spec (node_type node) 11); lia || done).
  cbn [app]. split.
  - apply node_type_head. lia.
  - unfold node_tag, kept. destruct (json_get "nodeName" node) as [v|] eqn:Hn; cbn [app];
      rewrite json_get_cons, bool_decide_false by discriminate; [|done].
    by rewrite json_get_cons, bool_decide_true by done.
Qed.

Lemma element_kinds kind :
  negb ((kind =? 1) || (kind =? 9) || (kind =? 11)) = false -> kind = 1 \/ kind = 9 \/ kind = 11.
Proof. rewrite negb_false_iff, !orb_true_iff, !Z.eqb_eq. tauto. Qed.

(** A child as [descendant_text] sees it, under an unprotected element. *)
Lemma redacted_child child :
  node_type (redacted false child) = node_type child \/
  (node_type (redacted false child) = 0 /\
   node_type child <> 3 /\ node_type child <> 1).
Proof.
  destruct child as [| | | | | |fields]; try by left.
  set (node := JObject fields). destruct (Z.eqb_spec (node_type node) 3) as [H3|H3].
  { left. unfold node. rewrite redacted_eq. fold node. by rewrite H3. }
  destruct (negb ((node_type node =? 1) || (node_type node =? 9) || (node_type node =? 11))) eqn:He.
  { right. unfold node. rewrite redacted_eq. fold node. destruct (Z.eqb_spec (node_type node) 3); [done|]. rewrite He.
    split_and!; try done. intros H1. by rewrite H1 in He. }
  apply element_kinds in He. left.
  destruct (decide (node_tag node ∈ NON_CONTENT_TAGS)) as [Ht|Ht].
  - by apply redacted_skipped.
  - unfold node. rewrite redacted_element by done. by apply shown_type.
Qed.

Lemma redacted_text inherited node :
  node_type node = 3 -> node_value (redacted inherited node) = if inherited then None else node_value node.
Proof.
  intros H3. destruct node as [| | | | | |fields]; try discriminate H3.
  rewrite redacted_eq. set (node := JObject fields) in *. rewrite H3. cbn [Z.eqb Pos.eqb].
  unfold node_value. destruct inherited; [done|]. unfold kept.
  destruct (json_get "nodeValue" node) as [v|] eqn:Hn; rewrite json_get_cons; cbn; rewrite ?Hn; done.
Qed.

(** The loop of [descendant_text] over the children. *)
Definition child_text (text : Json -> Text) (child : Json) (collected : Text) : Text :=
  if node_type child =? 3 then
    match node_value child with Some value => collected ++ value ++ [32] | None => collected end
  else if node_type child =? 1 then
    if bool_decide (node_tag child ∈ NON_CONTENT_TAGS) || is_protected (attributes_of child)
    then collected else collected ++ text child
  else collected.
Fixpoint text_of_children (text : Json -> Text) (children : list Json) (collected : Text) : Text :=
  match children with
  | [] => collected
  | child :: children =>
      let collected := child_text text child collected in
      if 512 <? blen (encode_text collected) then collected
      else text_of_children text children collected
  end.

Lemma descendant_text_eq depth fields :
  descendant_text depth (JObject fields) =
  if 4 <? depth then [] else
  match json_get "children" (JObject fields) with
  | Some (JArray children) => text_of_children (descendant_text (depth + 1)) children []
  | _ => []
  end.
Proof.
  cbn [descendant_text]. rewrite array_field_get. destruct (4 <? depth); [done|].
  destruct (json_get "children" (JObject fields)) as [[| | | | |children|]|]; try done.
  match goal with |- ?go children [] = _ =>
    enough (forall collected, go children collected
      = text_of_children (descendant_text (depth + 1)) children collected) by done end.
  induction children as [|c children IH]; intros collected; [done|].
  cbn [text_of_children]. by rewrite <-IH.
Qed.

Lemma redacted_attributes inherited fields :
  let node := JObject fields in
  node_type node = 1 \/ node_type node = 9 \/ node_type node = 11 ->
  node_tag node ∉ NON_CONTENT_TAGS ->
  (forall key, key ∉ LABELS ->
     attr_get (attributes_of (redacted inherited node)) key = attr_get (attributes_of node) key) /\
  (forall key, attr_has (attributes_of (redacted inherited node)) key = attr_has (attributes_of node) key).
Proof.
  intros node Hk Ht. subst node. rewrite redacted_element by done. cbn zeta.
  split; intros key; [apply shown_attr_get|apply shown_attr_has]; done.
Qed.

Lemma child_text_redacted depth child collected :
  (forall depth, node_type child = 1 -> node_tag child ∉ NON_CONTENT_TAGS ->
     is_protected (attributes_of child) = false ->
     descendant_text depth (redacted false child) = descendant_text depth child) ->
  child_text (descendant_text depth) (redacted false child) collected =
  child_text (descendant_text depth) child collected.
Proof.
  intros IH. unfold child_text. destruct (redacted_child child) as [->|(-> & H3 & H1)].
  2: { by destruct (Z.eqb_spec (node_type child) 3), (Z.eqb_spec (node_type child) 1). }
  destruct (Z.eqb_spec (node_type child) 3) as [H3|H3]; [by rewrite redacted_text|].
  destruct (Z.eqb_spec (node_type child) 1) as [H1|H1]; [|done].
  destruct child as [| | | | | |fields]; try done.
  destruct (decide (node_tag (JObject fields) ∈ NON_CONTENT_TAGS)) as [Ht|Ht].
  { destruct (redacted_skipped false fields) as [_ ->]; [by left|done|].
    by rewrite bool_decide_true. }
  destruct (redacted_attributes false fields) as [Hg Hh]; [by left|done|].
  rewrite (same_protected _ _ Hg Hh).
  replace (node_tag (redacted false (JObject fields))) with (node_tag (JObject fields))
    by (rewrite redacted_element by auto; symmetry; apply shown_tag).
  destruct (is_protected (attributes_of (JObject fields))) eqn:Hp; [by rewrite !orb_true_r|].
  by rewrite IH.
Qed.

Lemma descendant_text_redacted node : forall depth,
  node_type node = 1 -> node_tag node ∉ NON_CONTENT_TAGS ->
  is_protected (attributes_of node) = false ->
  descendant_text depth (redacted false node) = descendant_text depth node.
Proof.
  induction node as [v Hv|fields IH] using dom_ind.
  { destruct v; try done. by destruct (Hv fields). }
  intros depth Hk Ht Hp. rewrite redacted_element by auto. rewrite Hp, Hk. cbn [orb].
  unfold shown_element at 1. cbn [app]. rewrite !descendant_text_eq. destruct (4 <? depth); [done|].
  match goal with |- context [json_get "children" (JObject ?l)] =>
    change (JObject l) with (shown_element 1 false (JObject fields)
      (shown_children (map (redacted false)) fields)) end.
  rewrite shown_get_children.
  destruct (json_get "children" (JObject fields)) as [[| | | | |items|]|]; try done.
  specialize (IH items eq_refl). generalize (@nil Z) as collected.
  induction IH as [|child items Hc _ IHi]; intros collected; [done|].
  cbn [map text_of_children].
  rewrite child_text_redacted by done. by destruct (512 <? _).
Qed.

Section View.
Context `{Hashes, UnicodeCase}.

(** An element is recorded alike from its copy. *)
Lemma record_redacted limits inherited fields w :
  let node := JObject fields in
  node_type node = 1 -> node_tag node ∉ NON_CONTENT_TAGS ->
  record_element limits (redacted inherited node) (node_tag node)
    (attributes_of (redacted inherited node)) (inherited || is_protected (attributes_of node)) w =
  record_element limits node (node_tag node) (attributes_of node)
    (inherited || is_protected (attributes_of node)) w.
Proof.
  intros node Hk Ht. destruct (redacted_attributes inherited fields) as [Hg Hh]; [by left|done|].
  fold node in Hg, Hh. unfold record_element. rewrite (same_role _ _ Hg Hh), (same_hidden _ _ Hg Hh).
  unfold attr_value_is. rewrite Hh, !Hg by (cbv; set_solver).
  replace (json_get "nodeId" (redacted inherited node)) with (json_get "nodeId" node)
    by (unfold node; rewrite redacted_element by auto; symmetry; apply shown_id).
  destruct (inherited || is_protected (attributes_of node)) eqn:Hp; [done|].
  apply orb_false_iff in Hp as [-> Hp].
  assert (Hn : accessible_name (redacted false node) (node_tag node) (attributes_of (redacted false node))
    = accessible_name node (node_tag node) (attributes_of node)).
  { unfold accessible_name. rewrite (descendant_text_redacted node) by done.
    assert (attributes_of (redacted false node) = attributes_of node) as ->; [|done].
    unfold node. rewrite redacted_element by auto. fold node. rewrite Hp.
    unfold node. cbv zeta. by rewrite shown_attributes. }
  by rewrite Hn.
Qed.

Lemma visit_eq limits node inherited w :
  visit limits node inherited w =
  if node_type node =? 3 then
    if inherited then w
    else match node_value node with Some value => push_text limits value w | None => w end
  else if negb ((node_type node =? 1) || (node_type node =? 9) || (node_type node =? 11)) then w
  else if bool_decide (node_tag node ∈ NON_CONTENT_TAGS) then w
  else
    let protected := inherited || is_protected (attributes_of node) in
    let w := if node_type node =? 1
             then record_element limits node (node_tag node) (attributes_of node) protected w else w in
    match json_get "children" node with
    | Some (JArray items) => fold_left (fun w child => visit limits child protected w) items w
    | _ => w
    end.
Proof.
  destruct node as [| | | | | |fields]; try reflexivity. cbn [visit]. rewrite array_field_get.
  destruct (_ =? 3); [done|]. destruct (negb _); [done|]. case_bool_decide; [done|].
  by destruct (json_get "children" (JObject fields)) as [[]|].
Qed.

Lemma visit_redacted limits node : forall inherited w,
  visit limits (redacted inherited node) inherited w = visit limits node inherited w.
Proof.
  induction node as [v Hv|fields IH] using dom_ind; intros inherited w.
  { destruct v; try done. by destruct (Hv fields). }
  rewrite !visit_eq. destruct (Z.eqb_spec (node_type (JObject fields)) 3) as [H3|H3].
  { rewrite redacted_text by done. rewrite redacted_eq, H3. cbn [Z.eqb Pos.eqb].
    rewrite node_type_head by lia. by destruct inherited. }
  destruct (negb ((node_type (JObject fields) =? 1) || _ || _)) eqn:He.
  { rewrite redacted_eq, He. by destruct (Z.eqb_spec (node_type (JObject fields)) 3). }
  apply element_kinds in He.
  destruct (decide (node_tag (JObject fields) ∈ NON_CONTENT_TAGS)) as [Ht|Ht].
  { destruct (redacted_skipped inherited fields He Ht) as [-> ->].
    rewrite !(bool_decide_true _ Ht). destruct (Z.eqb_spec (node_type (JObject fields)) 3); [done|].
    by destruct (negb _). }
  rewrite (bool_decide_false _ Ht). cbv zeta.
  destruct (redacted_attributes inherited fields He Ht) as [Hg Hh].
  rewrite (same_protected _ _ Hg Hh).
  assert (Hk : node_type (redacted inherited (JObject fields)) = node_type (JObject fields))
    by (rewrite redacted_element by done; by apply shown_type).
  assert (Htag : node_tag (redacted inherited (JObject fields)) = node_tag (JObject fields))
    by (rewrite redacted_element by done; apply shown_tag).
  rewrite Hk, Htag, (bool_decide_false _ Ht).
  destruct (Z.eqb_spec (node_type (JObject fields)) 3); [done|].
  replace (negb _) with false
    by (destruct He as [->|[->| ->]]; done).
  set (p := inherited || is_protected (attributes_of (JObject fields))).
  set (w1 := if node_type (JObject fields) =? 1 then record_element limits (JObject fields) _ _ _ w else w).
  replace (if node_type (JObject fields) =? 1 then _ else w) with w1
    by (unfold w1; destruct (Z.eqb_spec (node_type (JObject fields)) 1); [|done];
        by rewrite record_redacted).
  assert (Hc : json_get "children" (redacted inherited (JObject fields)) =
    match json_get "children" (JObject fields) with
    | Some (JArray items) => Some (JArray (map (redacted p) items)) | _ => None end)
    by (rewrite redacted_element by done; apply shown_get_children).
  rewrite Hc. destruct (json_get "children" (JObject fields)) as [[| | | | |items|]|]; try done.
  clear Hc. specialize (IH items eq_refl). generalize w1 as w'.
  induction IH as [|c items Hq _ IHi]; intros w'; [done|]. cbn [map fold_left]. by rewrite Hq.
Qed.

(** C25: an agent cannot see into a protected element. The projection of a page
    is the projection of the copy in which every credential field has lost the
    text inside it, whatever its depth, and every label and value it carries
    itself, and in which scripts, styles, comments and the documents of frames
    are empty: two pages that differ only in what such elements hold look the
    same to the agent, in text, names, roles and references. *)
Theorem projection_hides_protected node node' limits :
  from_node (redacted false node) limits = from_node node limits /\
  (redacted false node = redacted false node' -> from_node node limits = from_node node' limits).
Proof.
  assert (Hr : forall n, from_node (redacted false n) limits = from_node n limits)
    by (intros n; unfold from_node; by rewrite visit_redacted).
  split; [apply Hr|]. intros He. by rewrite <-Hr, He, Hr.
Qed.

(** ** Bounds *)

Definition shown_char (c : Z) : Prop :=
  c = 32 \/ (is_whitespace c = false /\ is_control c = false /\ is_format_character c = false).

Lemma collapse_from_shown raw : forall pending out,
  Forall shown_char out -> Forall shown_char (collapse_from pending out raw).
Proof.
  induction raw as [|c raw IH]; intros pending out Ho; cbn [collapse_from]; [done|].
  destruct (is_whitespace c) eqn:Hw; [by apply IH|].
  destruct (is_control c || is_format_character c) eqn:Hc; [by apply IH|].
  apply IH. apply orb_false_iff in Hc as [Hc Hf].
  apply Forall_app; split; [done|]. apply Forall_app; split.
  - destruct pending; repeat constructor.
  - constructor; [by right|constructor].
Qed.

Lemma collapse_shown raw : Forall shown_char (collapse_whitespace raw).
Proof. apply collapse_from_shown. constructor. Qed.

(** The text so far: within the limit, or one separator past it and cut off. *)
Definition text_ok (limits : ViewLimits) (w : Walker) : Prop :=
  (length (wk_text w) <= Z.to_nat (max_chars limits))%nat \/
  (wk_text_truncated w = true /\ exists t, wk_text w = t ++ [32] /\
     (length t <= Z.to_nat (max_chars limits))%nat).

Record node_ok (limits : ViewLimits) (index : nat) (n : ProjectedNode) : Prop := {
  no_reference : nd_reference n = make_reference (Z.of_nat index) (nd_tag n) (nd_role n) (nd_name n);
  no_role : nd_role n ∈ INTERACTABLE_ROLES;
  no_length : Z.of_nat (length (nd_name n)) <= Z.max 0 (max_name_chars limits);
  no_chars : Forall shown_char (nd_name n);
  no_protected : nd_protected n = true -> nd_name n = []
}.

Record walker_ok (limits : ViewLimits) (w : Walker) : Prop := {
  wo_count : Z.of_nat (length (wk_nodes w)) <= Z.max 0 (max_nodes limits);
  wo_index : wk_interactable_index w = Z.of_nat (length (wk_nodes w));
  wo_nodes : forall k n, wk_nodes w !! k = Some n -> node_ok limits k n;
  wo_text : text_ok limits w;
  wo_chars : Forall shown_char (wk_text w)
}.

Lemma push_text_ok limits raw w : walker_ok limits w -> walker_ok limits (push_text limits raw w).
Proof.
  intros [Hc Hi Hn Ht Hch]. unfold push_text.
  destruct (wk_text_truncated w) eqn:Htr; [by split|].
  case_bool_decide as Hempty; [by split|].
  assert (Hlen : (length (wk_text w) <= Z.to_nat (max_chars limits))%nat)
    by (destruct Ht as [?|[? _]]; [done|congruence]).
  assert (Hsep : exists sep, (if negb (bool_decide (wk_text w = []))
      && negb (ends_with_space (wk_text w)) then [32] else []) = sep /\ (sep = [] \/ sep = [32]))
    by (eexists; split; [reflexivity|]; destruct (_ && _); auto).
  destruct Hsep as (sep & -> & Hsep). split; cbn; try done.
  - unfold text_ok. cbn [wk_text wk_text_truncated]. rewrite !length_app, length_take.
    destruct Hsep as [->| ->]; [left; cbn; lia|].
    destruct (decide (length (wk_text w) < Z.to_nat (max_chars limits))%nat) as [Hl|Hl];
      [left; cbn; lia|].
    right. rewrite (proj2 (Nat.sub_0_le _ _)); [|cbn; lia].
    rewrite take_0, app_nil_r. split; [|by exists (wk_text w)].
    apply Nat.ltb_lt. by destruct (collapse_whitespace raw); [|cbn; lia].
  - apply Forall_app; split; [apply Forall_app; split; [done|]|].
    + destruct Hsep as [->| ->]; repeat constructor.
    + apply Forall_take, collapse_shown.
Qed.

Lemma record_element_ok limits node tag a protected w :
  walker_ok limits w -> walker_ok limits (record_element limits node tag a protected w).
Proof.
  intros [Hc Hi Hn Ht Hch]. unfold record_element.
  case_bool_decide as Hr; cbn [negb]; [|by split].
  destruct (Z.leb_spec (max_nodes limits) (Z.of_nat (length (wk_nodes w)))); [by split|].
  split; cbn; try done.
  - rewrite length_app. cbn. lia.
  - rewrite length_app. cbn. lia.
  - intros k n [Hk|[Hk Hk']]%lookup_app_Some; [by apply Hn|].
    apply list_lookup_singleton_Some in Hk' as [Hk0 <-].
    replace k with (length (wk_nodes w)) by lia. split; cbn; try done.
    + by rewrite Hi.
    + destruct protected; [cbn; lia|]. unfold truncate_chars. rewrite length_take. lia.
    + destruct protected; [constructor|]. apply Forall_take, collapse_shown.
    + by intros ->.
Qed.

Lemma visit_ok limits node : forall inherited w,
  walker_ok limits w -> walker_ok limits (visit limits node inherited w).
Proof.
  induction node as [v Hv|fields IH] using dom_ind; intros inherited w Hw.
  { rewrite visit_eq. assert (node_type v = 0) as -> by (destruct v; try done; by destruct (Hv fields)).
    done. }
  rewrite visit_eq. destruct (_ =? 3).
  { destruct inherited; [done|]. destruct (node_value _); [by apply push_text_ok|done]. }
  destruct (negb _); [done|]. case_bool_decide; [done|]. cbv zeta.
  set (w1 := if _ =? 1 then _ else _).
  assert (Hw1 : walker_ok limits w1) by (unfold w1; destruct (_ =? 1); [by apply record_element_ok|done]).
  generalize dependent w1. intros w1 Hw1.
  destruct (json_get "children" _) as [[| | | | |items|]|]; try done.
  specialize (IH items eq_refl). revert w1 Hw1.
  induction IH as [|c items Hq _ IHi]; intros w1 Hw1; [done|]. cbn [fold_left]. by apply IHi, Hq.
Qed.

Lemma from_node_ok limits node : walker_ok limits (visit limits node false new_walker).
Proof.
  apply visit_ok. split; cbn; try done; [lia|left; cbn; lia].
Qed.

Lemma drop_spaces_suffix t : exists p, t = p ++ drop_spaces t.
Proof.
  induction t as [|c t [p IH]]; [by exists []|]. cbn. destruct (c =? 32); [|by exists []].
  exists (c :: p). cbn. by rewrite <-IH.
Qed.

Lemma trimmed_prefix t : exists p, t = rev (drop_spaces (rev t)) ++ p.
Proof.
  destruct (drop_spaces_suffix (rev t)) as [p Hp]. exists (rev p).
  by rewrite <-rev_app_distr, <-Hp, rev_involutive.
Qed.

(** C27: the view is bounded whatever the page and whatever the agent asks for:
    its limits are brought within the broker's own, so that the projection names
    at most 250 elements, all of them interactable, with names of at most
    120 characters, and at most 20000 characters of text; no control character,
    no bidirectional override and no white space but a plain space is in a name
    or in the text; and a protected element has no name at all. *)
Theorem view_is_bounded node nodes characters :
  let limits := clamped nodes characters in
  let p := from_node node limits in
  Z.of_nat (length (pp_nodes p)) <= max_nodes limits <= 250 /\
  Z.of_nat (length (pp_text p)) <= max_chars limits <= 20000 /\
  Forall shown_char (pp_text p) /\
  forall n, n ∈ pp_nodes p -> nd_role n ∈ INTERACTABLE_ROLES /\
    Z.of_nat (length (nd_name n)) <= 120 /\ Forall shown_char (nd_name n) /\
    (nd_protected n = true -> nd_name n = []).
Proof.
  intros limits p. destruct (from_node_ok limits node) as [Hc _ Hn Ht Hch].
  set (w := visit limits node false new_walker) in *.
  assert (Hl : 1 <= max_nodes limits <= 250 /\ 1 <= max_chars limits <= 20000)
    by (unfold limits, clamped, clamp; cbn; lia).
  destruct (trimmed_prefix (wk_text w)) as [q Hq].
  change (pp_nodes p) with (wk_nodes w).
  change (pp_text p) with (rev (drop_spaces (rev (wk_text w)))).
  split_and!; [lia|lia| |lia| |].
  - destruct Ht as [Ht|(_ & t & Htext & Ht)].
    + apply (f_equal length) in Hq. rewrite length_app in Hq. lia.
    + rewrite Htext, rev_app_distr. cbn [rev app drop_spaces]. change (32 =? 32) with true.
      cbv iota. clear Hq.
      destruct (trimmed_prefix t) as [q' Hq']. apply (f_equal length) in Hq'.
      rewrite length_app in Hq'. lia.
  - rewrite Hq in Hch. by apply Forall_app in Hch as [? _].
  - intros n [k Hk]%list_elem_of_lookup. destruct (Hn k n Hk) as [_ ? Hlen ? ?].
    split_and!; done.
Qed.
(** ** References *)

(** The number a text starts with. *)
Fixpoint leading_number (acc : Z) (s : string) : Z :=
  match s with
  | EmptyString => acc
  | String a s =>
      let n := Z.of_N (N_of_ascii a) in
      if (48 <=? n) && (n <=? 57) then leading_number (acc * 10 + (n - 48)) s else acc
  end.

Lemma leading_number_digit acc d s : 0 <= d < 10 ->
  leading_number acc (String (ascii_of_N (Z.to_N (48 + d))) s) = leading_number (acc * 10 + d) s.
Proof.
  intros Hd. cbn [leading_number]. rewrite N_ascii_embedding by lia. rewrite Z2N.id by lia.
  replace ((48 <=? 48 + d) && (48 + d <=? 57)) with true by (symmetry; apply andb_true_iff; lia).
  f_equal. lia.
Qed.

Lemma leading_number_digits fuel : forall z acc, 0 <= z < 10 ^ Z.of_nat (S fuel) ->
  leading_number 0 (digits_of (S fuel) z acc) = leading_number z acc.
Proof.
  induction fuel as [|fuel IH]; intros z acc Hz.
  - cbn [digits_of]. change (10 ^ Z.of_nat 1) with 10 in Hz. rewrite Z.div_small by lia. cbn [Z.eqb].
    rewrite leading_number_digit by (apply Z.mod_pos_bound; lia). rewrite Z.mod_small by lia. done.
  - pose proof (Z.div_mod z 10). remember (S fuel) as k. cbn [digits_of]. subst k. destruct (Z.eqb_spec (z / 10) 0) as [Hq|Hq].
    + rewrite leading_number_digit by (apply Z.mod_pos_bound; lia). f_equal. lia.
    + rewrite IH.
      * rewrite leading_number_digit by (apply Z.mod_pos_bound; lia). f_equal. lia.
      * rewrite Nat2Z.inj_succ, Z.pow_succ_r in Hz by lia. split;
          [apply Z.div_pos|apply Z.div_lt_upper_bound]; lia.
Qed.

Lemma hex_byte_inj a b s t : hex_byte a +:+ s = hex_byte b +:+ t -> a = b /\ s = t.
Proof.
  assert (Hd : forall m n, 0 <= m < 16 -> 0 <= n < 16 -> hex_digit m = hex_digit n -> m = n).
  { intros m n Hm Hn E. apply (f_equal N_of_ascii) in E. unfold hex_digit in E.
    destruct (Z.ltb_spec m 10), (Z.ltb_spec n 10);
      rewrite N_ascii_embedding, N_ascii_embedding in E by lia; lia. }
  pose proof (byte_to_Z_range a). pose proof (byte_to_Z_range b).
  pose proof (Z.div_mod (byte_to_Z a) 16). pose proof (Z.div_mod (byte_to_Z b) 16).
  pose proof (Z.mod_pos_bound (byte_to_Z a) 16). pose proof (Z.mod_pos_bound (byte_to_Z b) 16).
  intros [= Hh Hl Hst]. split; [|exact Hst]. apply byte_to_Z_inj.
  apply Hd in Hh; [|split; [apply Z.div_pos|apply Z.div_lt_upper_bound]; lia..].
  apply Hd in Hl; [|lia..]. lia.
Qed.

Lemma hex_text_inj l : forall l',
  String.concat "" (map hex_byte l) = String.concat "" (map hex_byte l') -> l = l'.
Proof.
  assert (Hc : forall b l, String.concat "" (map hex_byte (b :: l))
    = hex_byte b +:+ String.concat "" (map hex_byte l)) by (intros b [|c k]; reflexivity).
  induction l as [|b l IH]; intros [|b' l']; rewrite ?Hc; try done.
  intros [-> ?]%hex_byte_inj. f_equal. by apply IH.
Qed.

(** What the digest of a reference covers. *)
Definition identity (n : ProjectedNode) : list byte :=
  as_bytes (nd_tag n) ++ [Byte.x1f] ++ as_bytes (nd_role n) ++ [Byte.x1f]
  ++ encode_text (normalize_for_match (nd_name n)).

Lemma make_reference_inj i j n m : 0 <= i < 10 ^ 20 -> 0 <= j < 10 ^ 20 ->
  make_reference i (nd_tag n) (nd_role n) (nd_name n)
  = make_reference j (nd_tag m) (nd_role m) (nd_name m) ->
  i = j /\ take 3 (sha256_digest (identity n)) = take 3 (sha256_digest (identity m)).
Proof.
  intros Hi Hj. unfold make_reference. cbv zeta. fold (identity n) (identity m). intros [= E].
  apply (string_app_inj_l "") in E.
  assert (Hlead : forall z acc, 0 <= z < 10 ^ 20 ->
    leading_number 0 (format_unsigned z +:+ "." +:+ acc) = z).
  { intros z acc Hz. unfold format_unsigned.
    assert (Ha : forall fuel z a b, digits_of fuel z a +:+ b = digits_of fuel z (a +:+ b)).
    { induction fuel as [|fuel IH]; intros; cbn [digits_of]; [done|].
      destruct (_ =? 0); [done|]. apply IH. }
    rewrite Ha. rewrite leading_number_digits by (cbn; lia). reflexivity. }
  pose proof (f_equal (leading_number 0) E) as Hn. rewrite !Hlead in Hn by done. subst j.
  split; [done|]. apply string_app_inj_l in E. injection E as E. by apply hex_text_inj.
Qed.

Lemma clamped_nodes nodes characters : 1 <= max_nodes (clamped nodes characters) <= 250.
Proof. cbn. unfold clamp. lia. Qed.

(** A node of a projection is found at the place its reference names. *)
Lemma node_reference node nodes characters k n :
  pp_nodes (from_node node (clamped nodes characters)) !! k = Some n ->
  0 <= Z.of_nat k < 10 ^ 20 /\
  nd_reference n = make_reference (Z.of_nat k) (nd_tag n) (nd_role n) (nd_name n).
Proof.
  intros Hk. destruct (from_node_ok (clamped nodes characters) node) as [Hc _ Hn _ _].
  pose proof (clamped_nodes nodes characters). pose proof (lookup_lt_Some _ _ _ Hk) as Hlt.
  change (pp_nodes _) with (wk_nodes (visit (clamped nodes characters) node false new_walker)) in *.
  split; [lia|]. apply (Hn k n Hk).
Qed.

(** C26: a reference names one element. Within a projection references are
    distinct and each resolves to its own element; and a reference that was given
    out with one projection and resolves in another one, of the same page later
    or of another page, resolves to the element at the same place whose tag, role
    and normalised name have the same 24-bit fingerprint, and is refused as stale
    when there is none. A locator by role and name is only answered when exactly
    one element matches it. *)
Theorem references_name_one_element node nodes characters :
  let p := from_node node (clamped nodes characters) in
  NoDup (map nd_reference (pp_nodes p)) /\
  (forall n, n ∈ pp_nodes p -> resolve_reference p (nd_reference n) = Ok n) /\
  (forall node' nodes' characters' k n',
     pp_nodes (from_node node' (clamped nodes' characters')) !! k = Some n' ->
     match resolve_reference p (nd_reference n') with
     | Ok n => pp_nodes p !! k = Some n /\
               take 3 (sha256_digest (identity n)) = take 3 (sha256_digest (identity n'))
     | Err e => e = RStale
     end) /\
  (forall role name n, resolve_role p role name = Ok n ->
     forall n', n' ∈ pp_nodes p -> nd_role n' = to_ascii_lowercase (trim_string role) ->
       normalize_for_match (nd_name n') = normalize_for_match name -> n' = n).
Proof.
  intros p. assert (Hres : forall node' nodes' characters' k n' n,
    pp_nodes (from_node node' (clamped nodes' characters')) !! k = Some n' ->
    resolve_reference p (nd_reference n') = Ok n ->
    pp_nodes p !! k = Some n /\
    take 3 (sha256_digest (identity n)) = take 3 (sha256_digest (identity n'))).
  { intros node' nodes' characters' k n' n Hk' (Hin & He)%ok_or_Ok%find_some.
    apply bool_decide_eq_true in He. apply list_elem_of_In, list_elem_of_lookup in Hin as [i Hi].
    destruct (node_reference _ _ _ _ _ Hi) as [Hir Hin].
    destruct (node_reference _ _ _ _ _ Hk') as [Hkr Hkn].
    rewrite Hin, Hkn in He. apply make_reference_inj in He as [Hik Hd]; [|done..].
    by replace k with i by lia. }
  split_and!.
  - apply NoDup_alt. intros i j r Hi Hj.
    rewrite list_lookup_fmap in Hi, Hj.
    apply fmap_Some in Hi as (n & Hn & ->). apply fmap_Some in Hj as (m & Hm & E).
    destruct (node_reference _ _ _ _ _ Hn) as [Hir Hin].
    destruct (node_reference _ _ _ _ _ Hm) as [Hkr Hkn].
    rewrite Hin, Hkn in E. apply make_reference_inj in E as [E _]; [lia|done..].
  - intros n [k Hk]%list_elem_of_lookup. destruct (resolve_reference p (nd_reference n)) as [m|e] eqn:Hr.
    + destruct (Hres _ _ _ _ _ _ Hk Hr) as [Hm _]. congruence.
    + exfalso. unfold resolve_reference in Hr.
      destruct (List.find _ _) eqn:Hf; [done|]. 
      pose proof (find_none _ _ Hf n) as Hnone. cbv beta in Hnone. rewrite bool_decide_eq_true_2 in Hnone by done.
      discriminate Hnone. apply list_elem_of_In. by apply list_elem_of_lookup; exists k.
  - intros node' nodes' characters' k n' Hk'.
    destruct (resolve_reference p (nd_reference n')) as [m|e] eqn:Hr; [by apply (Hres _ _ _ _ _ _ Hk' Hr)|].
    unfold resolve_reference in Hr. by destruct (List.find _ _); [|injection Hr].
  - intros role name n Hr n' Hin Hrole Hname. unfold resolve_role in Hr.
    assert (Hf : n' ∈ List.filter (fun node => bool_decide (nd_role node = to_ascii_lowercase (trim_string role))
      && bool_decide (normalize_for_match (nd_name node) = normalize_for_match name)) (pp_nodes p)).
    { apply list_elem_of_In, filter_In. split; [by apply list_elem_of_In|].
      rewrite !bool_decide_eq_true_2 by done. done. }
    destruct (List.filter _ _) as [|a [|? ?]]; try discriminate.
    injection Hr as ->. by apply list_elem_of_singleton in Hf.
Qed.
End View.

(** ** Witnesses *)

Import DomExample.
Definition page_with (password : string) : Json := element "BODY" 1 [] [
  element "INPUT" 5 ["type"; "password"; "name"; "password"; "value"; password] [];
  element "DIV" 8 ["data-testid"; "totp-debug"] [element "A" 9 ["href"; "/"] [text password]]].

Lemma projection_hides_protected_witness :
  redacted false (page_with "hunter2") = redacted false (page_with "CANARY") /\
  from_node (page_with "hunter2") default_limits = from_node (page_with "CANARY") default_limits.
Proof.
  assert (He : redacted false (page_with "hunter2") = redacted false (page_with "CANARY"))
    by (vm_compute; reflexivity).
  split; [exact He|].
  exact (proj2 (projection_hides_protected (page_with "hunter2") (page_with "CANARY") default_limits) He).
Defined.

Lemma view_is_bounded_witness :
  Z.of_nat (length (pp_text (from_node login_page (clamped (Some 1000) (Some 0))))) <= 20000.
Proof.
  pose proof (view_is_bounded login_page (Some 1000) (Some 0)) as H. cbv zeta in H.
  destruct H as (_ & [H1 H2] & _). etransitivity; [exact H1|exact H2].
Defined.

Lemma references_name_one_element_witness :
  nd_reference <$> result_ok (resolve_role view "button" (chars "SIGN in")) = Some "e2.000000" /\
  NoDup (map nd_reference (pp_nodes (from_node login_page (clamped None None)))).
Proof.
  split; [vm_compute; reflexivity|].
  pose proof (references_name_one_element login_page None None) as H. cbv zeta in H.
  exact (proj1 H).
Defined.
