(* ===== verification/Gateway.v ===== *)
(** * Gateway: the screen between the broker and Chrome

    Models [secretctl-browser-gateway]: the command filter and the response
    sanitizers of [cdp_filter.rs], the errors of [error.rs] and the request loop
    over the private pipe of [cdp_pipe.rs]. The locks are not modelled: a filter
    and a pipe are plain values. *)

From S2P Require Import Prelude.
From S2P Require Import Externals.
From S2P Require Import Crypto.

(** ** Errors *)

Inductive GatewayError : Type :=
| CommandDenied (message : string)
| SensitiveWindowBlocked (message : string)
| LaunchFailed (message : string)
| ProcessTerminated
| Transport (message : string)
| GatewayIo (message : string)
| GatewayJson (message : string).

Definition gateway_error_text (e : GatewayError) : string :=
  match e with
  | CommandDenied m => "CDP command denied: " +:+ m
  | SensitiveWindowBlocked m => "CDP command blocked during sensitive window: " +:+ m
  | LaunchFailed m => "Browser launch error: " +:+ m
  | ProcessTerminated => "Browser process terminated unexpectedly"
  | Transport m => "Private CDP transport error: " +:+ m
  | GatewayIo m => "I/O error: " +:+ m
  | GatewayJson m => "JSON error: " +:+ m
  end.

(** ** The filter: the tabs in a sensitive window *)

Definition CdpFilter : Type := gset Z.

Definition enter_tab (tab_id : Z) (tabs : CdpFilter) : CdpFilter := {[tab_id]} ∪ tabs.
Definition exit_tab (tab_id : Z) (tabs : CdpFilter) : CdpFilter := tabs ∖ {[tab_id]}.
Definition is_tab_in_sensitive_window (tab_id : Z) (tabs : CdpFilter) : bool :=
  bool_decide (tab_id ∈ tabs).
Definition any_sensitive_window (tabs : CdpFilter) : bool := negb (bool_decide (tabs = ∅)).

Definition PROHIBITED_CDP_METHODS : list string :=
  ["Runtime.evaluate"; "Runtime.callFunctionOn"; "Network.getAllCookies"; "Network.getCookies";
   "Network.setCookie"; "Network.deleteCookies"; "Storage.getCookies"; "Storage.setCookies";
   "Storage.clearDataForOrigin"; "DOMStorage.getDOMStorageItems"; "IndexedDB.requestData";
   "IndexedDB.requestDatabaseNames"; "Network.getResponseBody"; "Network.getRequestPostData";
   "DOM.getOuterHTML"; "Browser.getBrowserCommandLine"; "Browser.setDownloadBehavior";
   "Page.setDownloadBehavior"; "DOMSnapshot.captureSnapshot"; "DOMSnapshot.getSnapshot";
   "Accessibility.getFullAXTree"; "Accessibility.getRootAXNode"; "DOM.getFlattenedDocument";
   "Page.getResourceContent"; "Page.getResourceTree"].

Definition PROHIBITED_DOMAINS : list string :=
  ["Storage."; "DOMStorage."; "IndexedDB."; "DOMSnapshot."].

Definition ALLOWED_CDP_METHODS : list string :=
  ["Browser.getVersion"; "Extensions.getExtensions"; "Extensions.loadUnpacked";
   "DOM.describeNode"; "DOM.getBoxModel"; "DOM.getDocument"; "DOM.querySelector";
   "DOM.querySelectorAll"; "DOM.focus"; "Input.dispatchKeyEvent"; "Input.dispatchMouseEvent";
   "Input.insertText"; "Page.getNavigationHistory"; "Page.navigate";
   "Page.navigateToHistoryEntry"; "Page.reload"; "Page.stopLoading"; "Target.activateTarget";
   "Target.closeTarget"; "Target.createTarget"; "Target.getTargets"; "Target.attachToTarget"].

Definition SENSITIVE_WINDOW_BLOCKED_METHODS : list string :=
  ["Page.captureScreenshot"; "Page.startScreencast"; "Page.printToPDF"; "Tracing.start"].

Definition validate_cdp_command (tabs : CdpFilter) (method : string) (tab_id : option Z) :
    result GatewayError unit :=
  if existsb (starts_with method) PROHIBITED_DOMAINS
     || bool_decide (method ∈ PROHIBITED_CDP_METHODS)
  then Err (CommandDenied ("CDP method '" +:+ method
              +:+ "' is prohibited by secretctl security policy")) else
  if negb (bool_decide (method ∈ ALLOWED_CDP_METHODS))
     && negb (bool_decide (method ∈ SENSITIVE_WINDOW_BLOCKED_METHODS))
  then Err (CommandDenied ("Unknown CDP method '" +:+ method +:+ "' is denied by default")) else
  if (match tab_id with
      | Some tid => is_tab_in_sensitive_window tid tabs
      | None => any_sensitive_window tabs
      end) && bool_decide (method ∈ SENSITIVE_WINDOW_BLOCKED_METHODS)
  then Err (SensitiveWindowBlocked ("CDP method '" +:+ method
              +:+ "' is blocked during an active authentication window"))
  else Ok tt.

(** ** The sanitizers of responses *)

Definition REDACTED_HEADERS : list string :=
  ["authorization"; "cookie"; "set-cookie"; "proxy-authorization"; "x-api-key"].

Definition redact_headers (v : Json) : Json :=
  match v with
  | JObject fields => JObject (map (fun '(k, v) =>
      (k, if bool_decide (to_ascii_lowercase k ∈ REDACTED_HEADERS)
          then JString "[REDACTED_BY_SECRETCTL]" else v)) fields)
  | v => v
  end.

(** [pointer_mut] through objects: the value at the end of a path replaced. *)
Fixpoint update_at (path : list string) (f : Json -> Json) (v : Json) : Json :=
  match path with
  | [] => f v
  | key :: path =>
      match v with
      | JObject fields => JObject (map (fun '(k, v) =>
          (k, if bool_decide (k = key) then update_at path f v else v)) fields)
      | v => v
      end
  end.

Definition sanitize_network_headers (payload : Json) : Json :=
  update_at ["params"; "response"; "headers"] redact_headers
    (update_at ["params"; "request"; "headers"] redact_headers payload).

(** Whether the pairs of an attribute array have a [type] of [password]. *)
Fixpoint password_attributes (attrs : list Json) : bool :=
  match attrs with
  | name :: value :: attrs =>
      (bool_decide (json_as_str name = Some "type")
       && bool_decide (json_as_str value = Some "password"))
      || password_attributes attrs
  | _ => false
  end.

Definition is_password_input (node : Json) : bool :=
  is_some_and (fun node_name => bool_decide (to_ascii_lowercase node_name = "input"))
    (json_get "nodeName" node ≫= json_as_str)
  && match json_get "attributes" node with
     | Some (JArray attrs) => password_attributes attrs
     | _ => false
     end.

Fixpoint sanitize_dom_nodes (payload : Json) : Json :=
  match payload with
  | JObject fields =>
      let is_password := is_password_input (JObject fields) in
      JObject (map (fun '(k, v) =>
        (k, if is_password && bool_decide (k = "nodeValue") then JString "[REDACTED]"
            else sanitize_dom_nodes v)) fields)
  | JArray items => JArray (map sanitize_dom_nodes items)
  | v => v
  end.

Fixpoint sanitize_generic_json (payload : Json) : Json :=
  match payload with
  | JObject fields => JObject (map (fun '(k, v) =>
      (k, if contains_prohibited_key_name (to_ascii_lowercase k) then JString "[REDACTED]"
          else sanitize_generic_json v)) fields)
  | JArray items => JArray (map sanitize_generic_json items)
  | v => v
  end.

Definition sanitize_cdp_response (method : string) (payload : Json) : Json :=
  if bool_decide (method ∈ ["Network.requestWillBeSent"; "Network.responseReceived"])
  then sanitize_network_headers payload
  else if bool_decide (method ∈ ["DOM.getOuterHTML"; "DOM.getDocument"; "DOMSnapshot.captureSnapshot"])
  then sanitize_dom_nodes payload
  else sanitize_generic_json payload.

(** ** The pipe

    The two ends of a [CdpPipe] are files of the operating system. It holds what a
    run of the broker gets from Chrome: the bytes Chrome writes until it closes its
    end, or the read fails; the bytes Chrome has been given, how many more it takes
    before a write fails, and the texts of the two errors. The loop below has no
    deadline, so a Chrome that keeps silent, or writes of other things for ever,
    keeps a request waiting for ever: such a request is not one of a [CdpPipe].
    [Chrome] and [waiting], at the end of this file, are the loop over a Chrome
    that may do so, and [request_waits_for_its_answer] in [GatewayWaits.v] says
    when a request returns, and that it returns then what it does over a
    [CdpPipe]. *)

Record CdpPipe : Type := {
  pipe_incoming : list byte;
  pipe_read_error : option string;
  pipe_written : list byte;
  pipe_room : option nat;
  pipe_write_error : string;
  pipe_next_id : Z
}.

Definition MAX_CDP_MESSAGE_BYTES : Z := 16 * 1024 * 1024.

Definition set_incoming (p : CdpPipe) (bytes : list byte) : CdpPipe := {|
  pipe_incoming := bytes; pipe_read_error := pipe_read_error p; pipe_written := pipe_written p;
  pipe_room := pipe_room p; pipe_write_error := pipe_write_error p;
  pipe_next_id := pipe_next_id p |}.

(** [write_all] *)
Definition write_all (bytes : list byte) (p : CdpPipe) : result GatewayError unit * CdpPipe :=
  let accepted := match pipe_room p with Some room => take room bytes | None => bytes end in
  (if bool_decide (length accepted = length bytes) then Ok tt else Err (GatewayIo (pipe_write_error p)),
   {| pipe_incoming := pipe_incoming p; pipe_read_error := pipe_read_error p;
      pipe_written := pipe_written p ++ accepted;
      pipe_room := (fun room => (room - length accepted)%nat) <$> pipe_room p;
      pipe_write_error := pipe_write_error p; pipe_next_id := pipe_next_id p |}).

(** The bytes up to and including the first NUL, and those after it. *)
Fixpoint until_nul (bytes : list byte) : option (list byte * list byte) :=
  match bytes with
  | [] => None
  | b :: bytes =>
      if bool_decide (b = Byte.x00) then Some ([b], bytes)
      else '(frame, rest) ← until_nul bytes; Some (b :: frame, rest)
  end.

(** [read_until(0, ..)] *)
Definition read_frame (p : CdpPipe) : result GatewayError (list byte) * CdpPipe :=
  match until_nul (pipe_incoming p) with
  | Some (frame, rest) => (Ok frame, set_incoming p rest)
  | None =>
      (match pipe_read_error p with
       | Some e => Err (GatewayIo e)
       | None => Ok (pipe_incoming p)
       end, set_incoming p [])
  end.

Definition pop_nul (frame : list byte) : list byte :=
  match rev frame with
  | Byte.x00 :: body => rev body
  | _ => frame
  end.

Section Pipe.
Context `{JsonCodec}.

(** The response in a frame, redacted; [None] when it is not the one awaited. *)
Definition read_response (method : string) (id : Z) (frame : list byte) :
    result GatewayError (option (result GatewayError Json)) :=
  if MAX_CDP_MESSAGE_BYTES + 1 <? blen frame
  then Err (Transport "CDP response exceeds limit") else
  response ← map_err GatewayJson (json_parse (from_bytes (pop_nul frame)));
  let response_method := default method (json_get "method" response ≫= json_as_str) in
  let response := sanitize_cdp_response response_method response in
  Ok (if bool_decide ((json_get "id" response ≫= json_as_u64) = Some id)
      then Some (match json_get "error" response with
                 | Some error => Err (Transport ("Chrome rejected " +:+ method +:+ ": "
                     +:+ default "unknown CDP error" (json_get "message" error ≫= json_as_str)))
                 | None => Ok (default JNull (json_get "result" response))
                 end)
      else None).

(** The loop over the frames; [None] when the fuel is used up. *)
Fixpoint await_response (fuel : nat) (method : string) (id : Z) (p : CdpPipe) :
    option (result GatewayError Json * CdpPipe) :=
  match fuel with
  | O => None
  | S fuel =>
      match read_frame p with
      | (Err e, p) => Some (Err e, p)
      | (Ok frame, p) =>
          if bool_decide (frame = []) then Some (Err ProcessTerminated, p) else
          match read_response method id frame with
          | Err e => Some (Err e, p)
          | Ok (Some r) => Some (r, p)
          | Ok None => await_response fuel method id p
          end
      end
  end.

Definition command_json (id : Z) (method : string) (params : Json) (session_id : option string) :
    Json :=
  JObject ([("id", JNumber id); ("method", JString method); ("params", params)]
    ++ match session_id with Some s => [("sessionId", JString s)] | None => [] end).

(** Every frame takes at least one byte, so one step more than there are bytes
    is enough fuel. *)
Definition request_with_session (tabs : CdpFilter) (method : string) (tab_id : option Z)
    (session_id : option string) (params : Json) (p : CdpPipe) :
    result GatewayError Json * CdpPipe :=
  match validate_cdp_command tabs method tab_id with
  | Err e => (Err e, p)
  | Ok _ =>
      let id := pipe_next_id p in
      let p := {| pipe_incoming := pipe_incoming p; pipe_read_error := pipe_read_error p;
                  pipe_written := pipe_written p; pipe_room := pipe_room p;
                  pipe_write_error := pipe_write_error p; pipe_next_id := wrap_u64 (id + 1) |} in
      let message := as_bytes (json_print (command_json id method params session_id)) in
      if MAX_CDP_MESSAGE_BYTES <? blen message
      then (Err (Transport "CDP command exceeds limit"), p) else
      match write_all message p with
      | (Err e, p) => (Err e, p)
      | (Ok _, p) =>
          match write_all [Byte.x00] p with
          | (Err e, p) => (Err e, p)
          | (Ok _, p) =>
              default (Err ProcessTerminated, p)
                (await_response (S (length (pipe_incoming p))) method id p)
          end
      end
  end.

Definition request (tabs : CdpFilter) (method : string) (tab_id : option Z) (params : Json)
    (p : CdpPipe) : result GatewayError Json * CdpPipe :=
  request_with_session tabs method tab_id None params p.

(** The loop over a Chrome of which nothing is assumed: at each instant it writes
    a byte, or closes its end, or the read fails, or nothing happens. *)
Inductive ChromeEvent : Type :=
| Writes (b : byte)
| Closes
| Breaks (message : string).
Definition Chrome : Type := nat -> option ChromeEvent.

(** The loop between two events: in [read_until], with the bytes of the frame so
    far, or over. *)
Inductive Waiting : Type :=
| Reading (frame : list byte)
| Returned (r : result GatewayError Json).

(** A frame that does not settle the request leaves it in the next [read_until];
    at the end of the file that one finds the end again. *)
Definition settles (method : string) (id : Z) (frame : list byte) (otherwise : Waiting) : Waiting :=
  match read_response method id frame with
  | Err e => Returned (Err e)
  | Ok (Some r) => Returned r
  | Ok None => otherwise
  end.

Definition hears (method : string) (id : Z) (event : ChromeEvent) (frame : list byte) : Waiting :=
  match event with
  | Writes b =>
      if bool_decide (b = Byte.x00) then settles method id (frame ++ [b]) (Reading [])
      else Reading (frame ++ [b])
  | Closes =>
      if bool_decide (frame = []) then Returned (Err ProcessTerminated)
      else settles method id frame (Returned (Err ProcessTerminated))
  | Breaks message => Returned (Err (GatewayIo message))
  end.

(** The loop after so many instants. *)
Fixpoint waiting (method : string) (id : Z) (chrome : Chrome) (n : nat) : Waiting :=
  match n with
  | O => Reading []
  | S n =>
      match waiting method id chrome n, chrome n with
      | Reading frame, Some event => hears method id event frame
      | w, _ => w
      end
  end.
End Pipe.
