(* ===== verification/GatewayProps.v ===== *)
(** * GatewayProps: what the gateway lets through

    Which commands reach Chrome, what the sanitizers leave of a response, and
    what the request loop answers. *)

From S2P Require Import Prelude.
From S2P Require Import Externals.
From S2P Require Import Concrete.
From S2P Require Import Crypto.
From S2P Require Import Gateway.

(** ** The filter *)

Inductive WindowOp : Type := EnterWindow (tab_id : Z) | ExitWindow (tab_id : Z).

#[global] Instance window_op_eq_dec : EqDecision WindowOp.
Proof. solve_decision. Defined.

Definition window_op (tabs : CdpFilter) (op : WindowOp) : CdpFilter :=
  match op with
  | EnterWindow t => enter_tab t tabs
  | ExitWindow t => exit_tab t tabs
  end.
Definition window_ops (ops : list WindowOp) : CdpFilter := fold_left window_op ops ∅.

(** The window of a tab is open: it was entered, and not left after that. *)
Definition window_open (ops : list WindowOp) (t : Z) : Prop :=
  exists before after, ops = before ++ EnterWindow t :: after /\ ExitWindow t ∉ after.

Lemma window_open_snoc ops op t : window_open (ops ++ [op]) t <->
  op = EnterWindow t \/ (op <> ExitWindow t /\ window_open ops t).
Proof.
  split.
  - intros (before & after & He & Ha). destruct after as [|x after _] using rev_ind.
    + apply app_inj_tail in He as [_ ->]. by left.
    + rewrite app_comm_cons, app_assoc in He. apply app_inj_tail in He as [-> ->].
      right. split; [set_solver|]. exists before, after. split; [done|set_solver].
  - intros [->|(Hop & before & after & -> & Ha)].
    + exists ops, []. split; [done|set_solver].
    + exists before, (after ++ [op]). split; [by rewrite <-app_assoc|set_solver].
Qed.

Lemma in_window_ops ops t : t ∈ window_ops ops <-> window_open ops t.
Proof.
  induction ops as [|op ops IH] using rev_ind.
  - split; [set_solver|]. by intros ([|? ?] & after & He & _).
  - unfold window_ops. rewrite fold_left_app. fold (window_ops ops). rewrite window_open_snoc, <-IH.
    destruct op as [u|u]; cbn; unfold enter_tab, exit_tab; split.
    + intros [->%elem_of_singleton|]%elem_of_union; [by left|by right].
    + intros [[= ->]|[_ ?]]; set_solver.
    + intros Ht. right. set_solver.
    + intros [?|[Hne ?]]; [done|]. apply elem_of_difference. split; [done|]. set_solver.
Qed.

Definition screened (tabs : CdpFilter) (method : string) (tab_id : option Z) : Prop :=
  method ∈ ALLOWED_CDP_METHODS \/
  (method ∈ SENSITIVE_WINDOW_BLOCKED_METHODS /\
   match tab_id with Some t => t ∉ tabs | None => tabs = ∅ end).

(** No method is on two lists, nor in a prohibited domain and on a list that
    lets it through. *)
Lemma lists_disjoint :
  Forall (fun m => existsb (starts_with m) PROHIBITED_DOMAINS = false /\
                   m ∉ PROHIBITED_CDP_METHODS)
    (ALLOWED_CDP_METHODS ++ SENSITIVE_WINDOW_BLOCKED_METHODS) /\
  Forall (fun m => m ∉ SENSITIVE_WINDOW_BLOCKED_METHODS) ALLOWED_CDP_METHODS.
Proof.
  split; apply (bool_decide_unpack _); vm_compute; exact I.
Qed.

Lemma validate_Ok tabs method tab_id :
  validate_cdp_command tabs method tab_id = Ok tt <-> screened tabs method tab_id.
Proof.
  destruct lists_disjoint as [Hd Hs]. rewrite Forall_app in Hd. destruct Hd as [Ha Hb].
  rewrite List.Forall_forall in Ha, Hb, Hs. setoid_rewrite <-list_elem_of_In in Ha.
  setoid_rewrite <-list_elem_of_In in Hb. setoid_rewrite <-list_elem_of_In in Hs. unfold validate_cdp_command, screened.
  assert (Hw : (match tab_id with Some t => is_tab_in_sensitive_window t tabs
                | None => any_sensitive_window tabs end) = false <->
               match tab_id with Some t => t ∉ tabs | None => tabs = ∅ end).
  { destruct tab_id; unfold is_tab_in_sensitive_window, any_sensitive_window.
    - by rewrite bool_decide_eq_false. - by rewrite negb_false_iff, bool_decide_eq_true. }
  destruct (decide (method ∈ ALLOWED_CDP_METHODS)) as [Hin|Hin].
  - destruct (Ha _ Hin) as [-> Hp]. rewrite (bool_decide_false _ Hp), (bool_decide_true _ Hin).
    rewrite (bool_decide_false (method ∈ SENSITIVE_WINDOW_BLOCKED_METHODS)) by (by apply Hs).
    rewrite andb_false_r. cbn. by split; [left|].
  - destruct (decide (method ∈ SENSITIVE_WINDOW_BLOCKED_METHODS)) as [Hc|Hc].
    + destruct (Hb _ Hc) as [-> Hp]. rewrite (bool_decide_false _ Hp), (bool_decide_false _ Hin).
      rewrite (bool_decide_true _ Hc), andb_true_r. cbn.
      destruct (match tab_id with Some _ => _ | None => _ end); split; try done.
      * intros [?|[_ ?]]; [done|]. by apply Hw in H.
      * intros _. right. split; [done|]. by apply Hw.
    + rewrite (bool_decide_false _ Hin), (bool_decide_false _ Hc). cbn.
      destruct (_ || _); split; try done; by intros [?|[? _]].
Qed.

(** What reaches Chrome. After any sequence of entering and leaving windows
    a command passes exactly when it is one of the 22 methods the broker drives
    Chrome with, or it is one of the four capture methods and the window of the
    tab it names is closed, or, when it names none, every window is. A window is
    open when it was entered and not left since. Every other method is refused,
    the ones that read scripts, cookies, storage or whole documents included. *)
Theorem command_accepted_iff_screened ops method tab_id :
  (validate_cdp_command (window_ops ops) method tab_id = Ok tt <->
   method ∈ ALLOWED_CDP_METHODS \/
   (method ∈ SENSITIVE_WINDOW_BLOCKED_METHODS /\
    match tab_id with
    | Some t => ~ window_open ops t
    | None => forall t, ~ window_open ops t
    end)) /\
  (method ∈ PROHIBITED_CDP_METHODS \/
     (exists domain, domain ∈ PROHIBITED_DOMAINS /\ starts_with method domain = true) ->
   exists m, validate_cdp_command (window_ops ops) method tab_id = Err (CommandDenied m)).
Proof.
  split.
  - rewrite validate_Ok. unfold screened.
    assert (Hw : match tab_id with Some t => t ∉ window_ops ops | None => window_ops ops = ∅ end <->
                 match tab_id with Some t => ~ window_open ops t | None => forall t, ~ window_open ops t end).
    { destruct tab_id as [t|]; [by rewrite in_window_ops|].
      rewrite elem_of_equiv_empty_L. by setoid_rewrite in_window_ops. }
    by rewrite Hw.
  - intros Hp. unfold validate_cdp_command.
    replace (existsb (starts_with method) PROHIBITED_DOMAINS
      || bool_decide (method ∈ PROHIBITED_CDP_METHODS)) with true; [by eexists|].
    symmetry. apply orb_true_iff. destruct Hp as [Hp|(d & Hd & Hs)].
    + right. by apply bool_decide_eq_true.
    + left. apply existsb_exists. exists d. by rewrite <-list_elem_of_In.
Qed.

(** ** The generic sanitizer *)

#[local] Arguments contains_prohibited_key_name : simpl never.
#[local] Arguments to_ascii_lowercase : simpl never.

(** Every value under a prohibited key is the placeholder. *)
Fixpoint keys_redacted (v : Json) : bool :=
  match v with
  | JObject fields => forallb (fun '(k, v) =>
      if contains_prohibited_key_name (to_ascii_lowercase k)
      then match v with JString s => bool_decide (s = "[REDACTED]") | _ => false end
      else keys_redacted v) fields
  | JArray items => forallb keys_redacted items
  | _ => true
  end.

(** A response in which the values under prohibited keys are others. *)
Fixpoint with_secrets (f : Json -> Json) (v : Json) : Json :=
  match v with
  | JObject fields => JObject (map (fun '(k, v) =>
      (k, if contains_prohibited_key_name (to_ascii_lowercase k) then f v
          else with_secrets f v)) fields)
  | JArray items => JArray (map (with_secrets f) items)
  | v => v
  end.

Lemma sanitized_keys_redacted v : keys_redacted (sanitize_generic_json v) = true.
Proof.
  induction v as [| | | | |items IH|fields IH] using json_nested_ind; try done; cbn.
  - induction IH as [|v items Hv _ IHi]; [done|]. cbn. by rewrite Hv.
  - induction IH as [|[k v] fields Hv _ IHf]; [done|]. cbn in *.
    destruct (contains_prohibited_key_name _); [done|]. by rewrite Hv.
Qed.

Lemma sanitize_redacted v : keys_redacted v = true -> sanitize_generic_json v = v.
Proof.
  induction v as [| | | | |items IH|fields IH] using json_nested_ind; try done; cbn; intros Hk; f_equal.
  - induction IH as [|v items Hv _ IHi]; [done|]. cbn in *.
    apply andb_true_iff in Hk as [Hk1 Hk2]. by rewrite Hv, IHi.
  - induction IH as [|[k v] fields Hv _ IHf]; [done|]. cbn in *.
    apply andb_true_iff in Hk as [Hk1 Hk2]. rewrite (IHf Hk2). repeat f_equal.
    destruct (contains_prohibited_key_name _); [|by apply Hv].
    destruct v; try done. by apply bool_decide_eq_true in Hk1 as ->.
Qed.

Lemma sanitize_with_secrets f v :
  sanitize_generic_json (with_secrets f v) = sanitize_generic_json v.
Proof.
  induction v as [| | | | |items IH|fields IH] using json_nested_ind; try done; cbn; f_equal.
  - induction IH as [|v items Hv _ IHi]; [done|]. cbn. by rewrite Hv, IHi.
  - induction IH as [|[k v] fields Hv _ IHf]; [done|]. cbn in *. rewrite IHf. repeat f_equal.
    destruct (contains_prohibited_key_name _); [done|]. by apply Hv.
Qed.

(** What the broker keeps of a response. Outside the two families of
    messages with a sanitizer of their own, every value under a key with a
    prohibited word in it, at any depth, is replaced by a placeholder; the
    result does not depend on what such values were; a response without such
    keys is kept as it is, so that sanitizing twice is sanitizing once. *)
Theorem generic_response_redacted method v f :
  method ∉ ["Network.requestWillBeSent"; "Network.responseReceived"; "DOM.getOuterHTML";
            "DOM.getDocument"; "DOMSnapshot.captureSnapshot"] ->
  keys_redacted (sanitize_cdp_response method v) = true /\
  sanitize_cdp_response method (with_secrets f v) = sanitize_cdp_response method v /\
  (sanitize_cdp_response method v = v <-> keys_redacted v = true) /\
  sanitize_cdp_response method (sanitize_cdp_response method v) = sanitize_cdp_response method v.
Proof.
  intros Hm. unfold sanitize_cdp_response. rewrite !bool_decide_false by set_solver.
  split_and!; [apply sanitized_keys_redacted|apply sanitize_with_secrets| |].
  - split; [intros <-; apply sanitized_keys_redacted|apply sanitize_redacted].
  - apply sanitize_redacted, sanitized_keys_redacted.
Qed.

(** ** The request loop *)

Section Pipe.
Context `{JsonCodec}.

(** One frame of the pipe, with its terminator. *)
Definition nul_frame (f : list byte) : Prop := exists body, f = body ++ [Byte.x00] /\ Byte.x00 ∉ body.

Lemma until_nul_spec bytes :
  match until_nul bytes with
  | Some (f, rest) => bytes = f ++ rest /\ nul_frame f
  | None => Byte.x00 ∉ bytes
  end.
Proof.
  induction bytes as [|b bytes IH]; [set_solver|]. cbn [until_nul]. case_bool_decide as Hb.
  - subst b. split; [done|]. exists []. split; [done|set_solver].
  - destruct (until_nul bytes) as [[f rest]|]; cbn; [|set_solver].
    destruct IH as [-> (body & -> & Hn)]. split; [done|]. exists (b :: body). split; [done|set_solver].
Qed.

Lemma until_nul_frame f rest : nul_frame f -> until_nul (f ++ rest) = Some (f, rest).
Proof.
  intros (body & -> & Hn). induction body as [|b body IH]; [done|]. cbn [until_nul app].
  rewrite bool_decide_false by set_solver. rewrite IH by set_solver. done.
Qed.

Lemma nul_frame_nonempty f : nul_frame f -> f <> [].
Proof. by intros ([|? ?] & -> & _). Qed.

(** A frame that was read: a complete one, or the last bytes before the end. *)
Definition last_frame (f rest : list byte) : Prop := nul_frame f \/ (Byte.x00 ∉ f /\ f <> [] /\ rest = []).

Lemma read_frame_Ok p f p1 : read_frame p = (Ok f, p1) ->
  p1 = set_incoming p (pipe_incoming p1) /\ pipe_incoming p = f ++ pipe_incoming p1 /\
  (nul_frame f \/ (Byte.x00 ∉ f /\ pipe_incoming p1 = [])).
Proof.
  unfold read_frame. pose proof (until_nul_spec (pipe_incoming p)) as Hu.
  destruct (until_nul _) as [[g rest]|].
  - intros [= -> <-]. cbn. destruct Hu. auto.
  - destruct (pipe_read_error p); [done|]. intros [= <- <-]. cbn. rewrite app_nil_r. auto.
Qed.

(** One step of fuel for every byte that may still come, and one for the end. *)
Lemma await_enough method id : forall fuel p, (length (pipe_incoming p) < fuel)%nat ->
  is_Some (await_response fuel method id p) /\
  forall more, (length (pipe_incoming p) < more)%nat ->
    await_response more method id p = await_response fuel method id p.
Proof.
  induction fuel as [|fuel IH]; intros p Hl; [lia|]. cbn [await_response].
  destruct (read_frame p) as [[f|e] p1] eqn:Hr.
  - destruct (read_frame_Ok _ _ _ Hr) as (_ & Hi & _).
    assert (Hp1 : f <> [] -> (length (pipe_incoming p1) < length (pipe_incoming p))%nat)
      by (rewrite Hi, length_app; destruct f; cbn; [done|lia]).
    assert (Hmore : forall more, (length (pipe_incoming p) < more)%nat -> exists k, more = S k /\
      (length (pipe_incoming p) <= k)%nat) by (intros [|k] ?; [lia|exists k; split; [done|lia]]).
    case_bool_decide as Hf.
    { split; [done|]. intros more (k & -> & Hk)%Hmore. cbn [await_response].
      by rewrite Hr, bool_decide_true. }
    destruct (read_response method id f) as [[r|]|e] eqn:Hresp.
    + split; [done|]. intros more (k & -> & Hk)%Hmore. cbn [await_response].
      by rewrite Hr, bool_decide_false, Hresp.
    + destruct (IH p1) as [Hs Hm]; [specialize (Hp1 Hf); lia|]. split; [done|].
      intros more (k & -> & Hk)%Hmore. cbn [await_response].
      rewrite Hr, bool_decide_false, Hresp by done. apply Hm. specialize (Hp1 Hf). lia.
    + split; [done|]. intros more (k & -> & Hk)%Hmore. cbn [await_response].
      by rewrite Hr, bool_decide_false, Hresp.
  - split; [done|]. intros [|k] Hk; [lia|]. cbn [await_response]. by rewrite Hr.
Qed.

(** What an answer was taken from. *)
Record answer_in (method : string) (id : Z) (bytes : list byte) (v : Json) (rest : list byte) : Prop := {
  ai_frames : exists skipped f, bytes = concat skipped ++ f ++ rest /\ last_frame f rest /\
    Forall (fun g => nul_frame g /\ read_response method id g = Ok None) skipped /\
    read_response method id f = Ok (Some (Ok v))
}.

Lemma await_Ok method id fuel : forall p v p',
  await_response fuel method id p = Some (Ok v, p') ->
  p' = set_incoming p (pipe_incoming p') /\
  answer_in method id (pipe_incoming p) v (pipe_incoming p').
Proof.
  induction fuel as [|fuel IH]; intros p v p' Ha; [done|]. cbn [await_response] in Ha.
  destruct (read_frame p) as [[f|e] p1] eqn:Hr; [|done].
  destruct (read_frame_Ok _ _ _ Hr) as (Hp1 & Hi & Hf). case_bool_decide as Hne; [done|].
  destruct (read_response method id f) as [[r|]|e] eqn:Hresp; [| |done].
  - injection Ha as -> ->. split; [done|]. split. exists [], f. split_and!; [done| |constructor|done].
    destruct Hf as [?|[? ?]]; [by left|by right].
  - destruct (IH _ _ _ Ha) as [Hp' [(skipped & g & Hb & Hg & Hs & Hv)]].
    assert (Hnf : nul_frame f).
    { destruct Hf as [?|[_ Hempty]]; [done|]. exfalso. rewrite Hempty in Hb.
      symmetry in Hb. apply app_eq_nil in Hb as [_ [Hg0 _]%app_eq_nil].
      destruct Hg as [Hg|(_ & ? & _)]; [by apply nul_frame_nonempty in Hg|done]. }
    split; [by rewrite Hp', Hp1|]. split. exists (f :: skipped), g. rewrite Hi, Hb. cbn.
    rewrite app_assoc. split_and!; [done..| |done]. by constructor.
Qed.

Lemma await_answer method id v rest skipped : forall fuel p f,
  pipe_incoming p = concat skipped ++ f ++ rest -> (length (pipe_incoming p) < fuel)%nat ->
  nul_frame f ->
  Forall (fun g => nul_frame g /\ read_response method id g = Ok None) skipped ->
  read_response method id f = Ok (Some v) ->
  await_response fuel method id p = Some (v, set_incoming p rest).
Proof.
  induction skipped as [|g skipped IH]; intros [|fuel] p f Hi Hl Hf Hs Hv; try lia; cbn [await_response].
  - cbn in Hi. unfold read_frame. rewrite Hi, until_nul_frame by done.
    by rewrite bool_decide_false, Hv by by apply nul_frame_nonempty.
  - inversion Hs as [|? ? [Hg Hgr] Hs']; subst. cbn in Hi. rewrite <-app_assoc in Hi.
    unfold read_frame. rewrite Hi, until_nul_frame by done.
    rewrite bool_decide_false, Hgr by by apply nul_frame_nonempty.
    rewrite (IH _ (set_incoming p (concat skipped ++ f ++ rest)) f); try done.
    cbn. rewrite Hi, length_app in Hl. destruct g; [by apply nul_frame_nonempty in Hg|]. cbn in Hl. lia.
Qed.

Definition message_of (method : string) (session_id : option string) (params : Json) (p : CdpPipe) :
    list byte := as_bytes (json_print (command_json (pipe_next_id p) method params session_id)).

(** The pipe after a command was written, with what is left to read. *)
Definition after_command (message rest : list byte) (p : CdpPipe) : CdpPipe := {|
  pipe_incoming := rest; pipe_read_error := pipe_read_error p;
  pipe_written := pipe_written p ++ message ++ [Byte.x00];
  pipe_room := (fun room => (room - length message - 1)%nat) <$> pipe_room p;
  pipe_write_error := pipe_write_error p; pipe_next_id := wrap_u64 (pipe_next_id p + 1) |}.

(** There is room for a command and its terminator. *)
Definition room_for (message : list byte) (p : CdpPipe) : Prop :=
  match pipe_room p with Some room => (length message < room)%nat | None => True end.

Lemma length_take_all {A : Type} n (l : list A) : length (take n l) = length l <-> (length l <= n)%nat.
Proof. rewrite length_take. lia. Qed.

Definition fits (bytes : list byte) (q : CdpPipe) : Prop :=
  match pipe_room q with Some room => (length bytes <= room)%nat | None => True end.

#[local] Instance fits_dec bytes q : Decision (fits bytes q).
Proof. unfold fits. destruct (pipe_room q); apply _. Defined.

(** A write succeeds exactly when there is room. *)
Lemma write_all_spec bytes q :
  (fits bytes q -> write_all bytes q = (Ok tt, {|
     pipe_incoming := pipe_incoming q; pipe_read_error := pipe_read_error q;
     pipe_written := pipe_written q ++ bytes;
     pipe_room := (fun room => (room - length bytes)%nat) <$> pipe_room q;
     pipe_write_error := pipe_write_error q; pipe_next_id := pipe_next_id q |})) /\
  (~ fits bytes q -> exists q', write_all bytes q = (Err (GatewayIo (pipe_write_error q)), q') /\
     pipe_incoming q' = pipe_incoming q).
Proof.
  unfold fits, write_all. destruct (pipe_room q) as [room|]; split; intros Hq; try done.
  - rewrite take_ge by done. by rewrite bool_decide_true.
  - rewrite bool_decide_false by by rewrite length_take_all. by eexists.
  - by rewrite bool_decide_true.
Qed.

(** A call that passes the filter and fits the pipe comes down to the loop. *)
Lemma request_accepted tabs method tab_id session_id params p :
  let message := message_of method session_id params p in
  screened tabs method tab_id -> blen message <= MAX_CDP_MESSAGE_BYTES -> room_for message p ->
  let p1 := after_command message (pipe_incoming p) p in
  Some (request_with_session tabs method tab_id session_id params p)
  = await_response (S (length (pipe_incoming p))) method (pipe_next_id p) p1.
Proof.
  intros message Hs Hm Hr p1. unfold request_with_session.
  change (as_bytes (json_print (command_json (pipe_next_id p) method params session_id)))
    with message.
  rewrite (proj2 (validate_Ok _ _ _) Hs).
  destruct (Z.ltb_spec MAX_CDP_MESSAGE_BYTES (blen message)); [lia|].
  unfold room_for in Hr.
  rewrite (proj1 (write_all_spec message _)) by (unfold fits; cbn; destruct (pipe_room p); [lia|done]).
  rewrite (proj1 (write_all_spec [Byte.x00] _)) by (unfold fits; cbn; destruct (pipe_room p); cbn; [lia|done]).
  cbn [pipe_incoming pipe_read_error pipe_written pipe_room pipe_write_error pipe_next_id].
  replace ((pipe_written p ++ message) ++ [Byte.x00]) with (pipe_written p ++ message ++ [Byte.x00])
    by by rewrite app_assoc.
  rewrite <-option_fmap_compose. unfold compose. cbn [length].
  change (Build_CdpPipe _ _ _ _ _ _) with p1.
  destruct (await_enough method (pipe_next_id p) (S (length (pipe_incoming p))) p1) as [[r Hr'] _].
  { cbn. lia. }
  by rewrite Hr'.
Qed.

(** The other calls end before the loop. *)
Lemma request_refused tabs method tab_id session_id params p :
  let message := message_of method session_id params p in
  ~ (screened tabs method tab_id /\ blen message <= MAX_CDP_MESSAGE_BYTES /\ room_for message p) ->
  exists e p', request_with_session tabs method tab_id session_id params p = (Err e, p') /\
    (~ screened tabs method tab_id -> p' = p) /\ pipe_incoming p' = pipe_incoming p.
Proof.
  intros message Hn. unfold request_with_session.
  change (as_bytes (json_print (command_json (pipe_next_id p) method params session_id)))
    with message.
  destruct (validate_cdp_command tabs method tab_id) as [[]|e] eqn:Hv;
    [|by eexists _, _; split].
  apply validate_Ok in Hv.
  destruct (Z.ltb_spec MAX_CDP_MESSAGE_BYTES (blen message)); [by eexists _, _; split|].
  set (p1 := {| pipe_incoming := _ |}).
  destruct (decide (fits message p1)) as [Hf1|Hf1]; [|destruct (proj2 (write_all_spec message p1) Hf1)
    as (q & -> & Hq); by exists (GatewayIo (pipe_write_error p1)), q].
  rewrite (proj1 (write_all_spec message p1) Hf1). set (p2 := {| pipe_incoming := _ |}).
  destruct (decide (fits [Byte.x00] p2)) as [Hf2|Hf2].
  - exfalso. apply Hn. split_and!; [done|lia|]. unfold fits, room_for in *. cbn in Hf1, Hf2.
    destruct (pipe_room p); [cbn in Hf2; lia|done].
  - destruct (proj2 (write_all_spec [Byte.x00] p2) Hf2) as (q & -> & Hq).
    by exists (GatewayIo (pipe_write_error p2)), q.
Qed.

(** An answer belongs to its command. When a request returns a value, its
    method passed the filter; the command with its fresh identifier, NUL
    terminated and within the limit, is exactly what was written to Chrome; and
    the value is the result in the first frame that carries that identifier,
    after its redaction, the frames before it being well formed, within the limit
    and about other identifiers. Nothing after that frame is consumed. And a
    command that does not pass the filter touches the pipe not at all. *)
Theorem request_returns_own_answer tabs method tab_id session_id params p :
  (forall v p', request_with_session tabs method tab_id session_id params p = (Ok v, p') ->
     let message := message_of method session_id params p in
     screened tabs method tab_id /\ blen message <= MAX_CDP_MESSAGE_BYTES /\
     p' = after_command message (pipe_incoming p') p /\
     answer_in method (pipe_next_id p) (pipe_incoming p) v (pipe_incoming p')) /\
  (~ screened tabs method tab_id -> exists e,
     request_with_session tabs method tab_id session_id params p = (Err e, p)).
Proof.
  set (message := message_of method session_id params p).
  assert (Hcase : {screened tabs method tab_id /\ blen message <= MAX_CDP_MESSAGE_BYTES /\ room_for message p}
    + {~ (screened tabs method tab_id /\ blen message <= MAX_CDP_MESSAGE_BYTES /\ room_for message p)}).
  { unfold screened, room_for. apply decide. destruct tab_id; destruct (pipe_room p); apply _. }
  split.
  - intros v p' Hreq. destruct Hcase as [(Hs & Hm & Hr)|Hn].
    + pose proof (request_accepted tabs method tab_id session_id params p Hs Hm Hr) as Ha.
      rewrite Hreq in Ha. symmetry in Ha. apply await_Ok in Ha as [Hp' Ha]. cbn in Ha.
      by split_and!.
    + destruct (request_refused tabs method tab_id session_id params p Hn) as (e & q & He & _).
      congruence.
  - intros Hns. destruct (request_refused tabs method tab_id session_id params p) as (e & q & He & Hq & _).
    + by intros [? _].
    + exists e. by rewrite He, (Hq Hns).
Qed.

End Pipe.

(** ** Witnesses *)

Definition frame_of (v : Json) : list byte := as_bytes (json_print v) ++ [Byte.x00].
Definition event_frame : list byte :=
  frame_of (JObject [("method", JString "Target.targetCreated"); ("params", JObject [])]).
Definition answer_frame : list byte :=
  frame_of (JObject [("id", JNumber 7);
    ("result", JObject [("sessionId", JString "s1"); ("authToken", JString "canary")])]).
Definition redacted_answer : Json :=
  JObject [("sessionId", JString "s1"); ("authToken", JString "[REDACTED]")].
Definition example_pipe : CdpPipe := {|
  pipe_incoming := event_frame ++ answer_frame ++ event_frame; pipe_read_error := None;
  pipe_written := []; pipe_room := None; pipe_write_error := "broken pipe"; pipe_next_id := 7 |}.

Lemma generic_response_redacted_witness :
  "Browser.getVersion" ∉ ["Network.requestWillBeSent"; "Network.responseReceived";
    "DOM.getOuterHTML"; "DOM.getDocument"; "DOMSnapshot.captureSnapshot"] /\
  keys_redacted (sanitize_cdp_response "Browser.getVersion" (JObject [("token", JNull)])) = true.
Proof.
  assert (Hm : "Browser.getVersion" ∉ ["Network.requestWillBeSent"; "Network.responseReceived";
    "DOM.getOuterHTML"; "DOM.getDocument"; "DOMSnapshot.captureSnapshot"])
    by (apply (bool_decide_unpack _); vm_compute; exact I).
  split; [exact Hm|].
  exact (proj1 (generic_response_redacted _ (JObject [("token", JNull)]) id Hm)).
Defined.

Lemma command_accepted_iff_screened_witness :
  validate_cdp_command (window_ops [EnterWindow 1; ExitWindow 1]) "Page.captureScreenshot" (Some 1) = Ok tt /\
  exists m, validate_cdp_command (window_ops [EnterWindow 1]) "Runtime.evaluate" (Some 1)
    = Err (CommandDenied m).
Proof.
  split; [vm_compute; reflexivity|].
  apply (proj2 (command_accepted_iff_screened [EnterWindow 1] "Runtime.evaluate" (Some 1))).
  left. apply (bool_decide_unpack _). vm_compute. exact I.
Defined.

Lemma request_returns_own_answer_witness :
  request_with_session ∅ "Target.attachToTarget" None None JNull example_pipe
  = (Ok redacted_answer, after_command (message_of "Target.attachToTarget" None JNull example_pipe)
       event_frame example_pipe) /\
  screened ∅ "Target.attachToTarget" None.
Proof.
  assert (Hr : request_with_session ∅ "Target.attachToTarget" None None JNull example_pipe
    = (Ok redacted_answer, after_command (message_of "Target.attachToTarget" None JNull example_pipe)
         event_frame example_pipe)) by (vm_compute; reflexivity).
  split; [exact Hr|].
  exact (proj1 (proj1 (request_returns_own_answer ∅ "Target.attachToTarget" None None JNull example_pipe) _ _ Hr)).
Defined.
