(* ===== verification/GatewayWaits.v ===== *)
(** * GatewayWaits: what a request to Chrome waits for

    The loop of a request has no deadline. Here it runs over a Chrome of which
    nothing is assumed, which may write for ever or fall silent: the request
    returns exactly when Chrome answers it, writes something that is no message,
    or comes to an end; and it returns what it does over the pipe of such a run. *)

From S2P Require Import Prelude.
From S2P Require Import Externals.
From S2P Require Import Concrete.
From S2P Require Import Crypto.
From S2P Require Import Gateway.
From S2P Require Import GatewayProps.

(** ** What Chrome does *)

(** What it has written after so many instants, and how it has come to an end:
    closed, or with an error of the read. *)
Fixpoint heard (chrome : Chrome) (n : nat) : list byte * option (option string) :=
  match n with
  | O => ([], None)
  | S n =>
      let '(bytes, e) := heard chrome n in
      match e, chrome n with
      | None, Some (Writes b) => (bytes ++ [b], None)
      | None, Some Closes => (bytes, Some None)
      | None, Some (Breaks message) => (bytes, Some (Some message))
      | _, _ => (bytes, e)
      end
  end.

(** The pipe gives what Chrome has done so far, and then anything. *)
Definition offers (chrome : Chrome) (n : nat) (p : CdpPipe) : Prop :=
  match heard chrome n with
  | (bytes, None) => exists more, pipe_incoming p = bytes ++ more
  | (bytes, Some e) => pipe_incoming p = bytes /\ pipe_read_error p = e
  end.

Lemma offers_earlier chrome n p : offers chrome (S n) p -> offers chrome n p.
Proof.
  unfold offers. cbn [heard]. destruct (heard chrome n) as [bytes [e|]]; [done|].
  destruct (chrome n) as [[b| |message]|]; [|intros [-> _]; exists []; by rewrite app_nil_r..|done].
  intros [more ->]. exists ([b] ++ more). by rewrite app_assoc.
Qed.

Section Waits.
Context `{JsonCodec}.

(** ** Messages

    A frame and its message; the identifier a message carries. *)

Definition too_long (f : list byte) : Prop := MAX_CDP_MESSAGE_BYTES + 1 < blen f.
Definition carries (v : Json) (f : list byte) : Prop := exists body,
  f = body ++ [Byte.x00] /\ ~ too_long f /\ json_parse (from_bytes body) = Ok v.
Definition broken_frame (f : list byte) : Prop := exists body,
  f = body ++ [Byte.x00] /\ (too_long f \/ exists e, json_parse (from_bytes body) = Err e).
Definition message_id (v : Json) : option Z := json_get "id" v ≫= json_as_u64.
Definition other_frame (id : Z) (f : list byte) : Prop :=
  exists v, carries v f /\ message_id v <> Some id.

(** The answer in a message: its error, or its result, after the redaction. *)
Definition answer_of (method : string) (v : Json) : result GatewayError Json :=
  let v := sanitize_cdp_response (default method (json_get "method" v ≫= json_as_str)) v in
  match json_get "error" v with
  | Some error => Err (Transport ("Chrome rejected " +:+ method +:+ ": "
      +:+ default "unknown CDP error" (json_get "message" error ≫= json_as_str)))
  | None => Ok (default JNull (json_get "result" v))
  end.

Lemma json_get_map key (g : string -> Json -> Json) fields :
  json_get key (JObject (map (fun '(k, v) => (k, g k v)) fields))
  = g key <$> json_get key (JObject fields).
Proof.
  cbn. induction fields as [|[k v] fields IH]; [done|]. cbn. case_bool_decide as Hk; [|exact IH].
  by subst.
Qed.

(** The redaction leaves the identifier of a message as it is. *)
Lemma sanitized_id method v : message_id (sanitize_cdp_response method v) = message_id v.
Proof.
  unfold sanitize_cdp_response, message_id. destruct (bool_decide _); [|destruct (bool_decide _)].
  - unfold sanitize_network_headers. destruct v as [| | | | | |fields]; try done.
    cbn [update_at]. rewrite !json_get_map, <-option_fmap_compose. unfold compose.
    rewrite !bool_decide_false by done. by destruct (json_get "id" _).
  - destruct v as [| | | | | |fields]; try done. cbn [sanitize_dom_nodes].
    rewrite (json_get_map "id" (fun k v => if is_password_input (JObject fields)
      && bool_decide (k = "nodeValue") then JString "[REDACTED]" else sanitize_dom_nodes v)).
    rewrite bool_decide_false, andb_false_r by done. by destruct (json_get "id" _) as [[]|].
  - destruct v as [| | | | | |fields]; try done. cbn [sanitize_generic_json].
    rewrite (json_get_map "id" (fun k v => if contains_prohibited_key_name (to_ascii_lowercase k)
      then JString "[REDACTED]" else sanitize_generic_json v)).
    change (contains_prohibited_key_name (to_ascii_lowercase "id")) with false. cbv iota.
    by destruct (json_get "id" _) as [[]|].
Qed.

Lemma pop_nul_frame body : pop_nul (body ++ [Byte.x00]) = body.
Proof. unfold pop_nul. rewrite rev_app_distr. cbn. apply rev_involutive. Qed.

(** What the loop makes of a frame. *)
Lemma read_message method id v f : carries v f ->
  read_response method id f
  = Ok (if bool_decide (message_id v = Some id) then Some (answer_of method v) else None).
Proof.
  intros (body & -> & Hl & Hp). unfold read_response. rewrite pop_nul_frame, Hp.
  unfold too_long in Hl. destruct (Z.ltb_spec (MAX_CDP_MESSAGE_BYTES + 1) (blen (body ++ [Byte.x00])));
    [done|]. cbn [map_err mbind result_bind].
  fold (message_id (sanitize_cdp_response (default method (json_get "method" v ≫= json_as_str)) v)).
  by rewrite sanitized_id.
Qed.

Lemma read_broken method id f : broken_frame f -> exists e, read_response method id f = Err e.
Proof.
  intros (body & -> & Hl). unfold read_response. rewrite pop_nul_frame. unfold too_long in Hl.
  destruct (Z.ltb_spec (MAX_CDP_MESSAGE_BYTES + 1) (blen (body ++ [Byte.x00]))); [by eexists|].
  destruct Hl as [Hl|[e ->]]; [lia|]. by eexists.
Qed.

(** A frame is one of the three. *)
Lemma frame_cases f : nul_frame f -> broken_frame f \/ exists v, carries v f.
Proof.
  intros (body & -> & _). destruct (decide (too_long (body ++ [Byte.x00]))) as [Hl|Hl].
  { left. exists body. auto. }
  destruct (json_parse (from_bytes body)) as [v|e] eqn:Hp.
  - right. exists v, body. auto.
  - left. exists body. eauto.
Qed.

(** ** The first frame that settles a request *)

Definition passed_over (method : string) (id : Z) (g : list byte) : Prop :=
  nul_frame g /\ read_response method id g = Ok None.
Definition settled_as (method : string) (id : Z) (f : list byte) (r : result GatewayError Json) : Prop :=
  settles method id f (Reading []) = Returned r.

Lemma other_passed_over method id g : nul_frame g -> other_frame id g -> passed_over method id g.
Proof.
  intros Hg (v & Hv & Hi). split; [done|]. rewrite (read_message _ _ _ _ Hv).
  by rewrite bool_decide_false.
Qed.

Lemma passed_over_other method id g : passed_over method id g -> other_frame id g.
Proof.
  intros [Hg Hr]. destruct (frame_cases _ Hg) as [Hb|[v Hv]].
  - apply (read_broken method id) in Hb as [e Hb]. congruence.
  - exists v. split; [done|]. rewrite (read_message _ _ _ _ Hv) in Hr. by case_bool_decide.
Qed.

Lemma settled_by_cases method id f r : nul_frame f -> settled_as method id f r ->
  broken_frame f \/ exists v, carries v f /\ message_id v = Some id /\ r = answer_of method v.
Proof.
  intros Hf Hr. destruct (frame_cases _ Hf) as [Hb|[v Hv]]; [by left|]. right. exists v.
  unfold settled_as, settles in *. rewrite (read_message _ _ _ _ Hv) in *.
  case_bool_decide as Hi; [|done]. by injection Hr as <-.
Qed.

Lemma answered method id v f : carries v f -> message_id v = Some id ->
  settled_as method id f (answer_of method v).
Proof.
  intros Hv Hi. unfold settled_as, settles. by rewrite (read_message _ _ _ _ Hv), bool_decide_true.
Qed.

Lemma broken_settles method id f : broken_frame f -> exists e, settled_as method id f (Err e).
Proof. intros [e He]%(read_broken method id). exists e. unfold settled_as, settles. by rewrite He. Qed.

Lemma nul_frames_meet f rest g rest' : nul_frame f -> nul_frame g ->
  f ++ rest = g ++ rest' -> f = g /\ rest = rest'.
Proof.
  intros Hf Hg E. pose proof (until_nul_frame f rest Hf) as Hu.
  rewrite E, until_nul_frame in Hu by done. by injection Hu as -> ->.
Qed.

(** Two ways to cut the same bytes agree up to there. *)
Lemma first_settled method id skipped skipped' f f' rest rest' r r' :
  Forall (passed_over method id) skipped -> Forall (passed_over method id) skipped' ->
  nul_frame f -> nul_frame f' -> settled_as method id f r -> settled_as method id f' r' ->
  concat skipped ++ f ++ rest = concat skipped' ++ f' ++ rest' -> r = r'.
Proof.
  intros Hs. revert skipped'. unfold settled_as, settles.
  induction Hs as [|g skipped [Hg Hgr] _ IH]; intros [|g' skipped'] Hs' Hf Hf' Hr Hr' E;
    cbn [concat] in E; rewrite <-?app_assoc in E; cbn [app] in E.
  - apply nul_frames_meet in E as [-> _]; [|done..]. congruence.
  - apply Forall_cons_1 in Hs' as [[Hg' Hgr'] _].
    apply nul_frames_meet in E as [-> _]; [|done..]. by rewrite Hgr' in Hr.
  - apply nul_frames_meet in E as [-> _]; [|done..]. by rewrite Hgr in Hr'.
  - apply Forall_cons_1 in Hs' as [[Hg' _] Hs'].
    apply nul_frames_meet in E as [_ E]; [|done..]. by eapply IH.
Qed.

Lemma none_settled method id skipped skipped' f rest r frame :
  Forall (passed_over method id) skipped -> Forall (passed_over method id) skipped' ->
  nul_frame f -> settled_as method id f r -> Byte.x00 ∉ frame ->
  concat skipped ++ f ++ rest <> concat skipped' ++ frame.
Proof.
  intros Hs. revert skipped'. unfold settled_as, settles.
  induction Hs as [|g skipped [Hg Hgr] _ IH]; intros [|g' skipped'] Hs' Hf Hr Hn E;
    cbn [concat] in E; rewrite <-?app_assoc in E; cbn [app] in E.
  - destruct Hf as (body & -> & _). subst frame. set_solver.
  - apply Forall_cons_1 in Hs' as [[Hg' Hgr'] _].
    apply nul_frames_meet in E as [-> _]; [|done..]. by rewrite Hgr' in Hr.
  - destruct Hg as (body & -> & _). subst frame. set_solver.
  - apply Forall_cons_1 in Hs' as [[Hg' _] Hs'].
    apply nul_frames_meet in E as [_ E]; [|done..]. by eapply IH.
Qed.

(** ** The loop over a pipe *)

Lemma await_skip method id skipped tail : forall fuel p,
  pipe_incoming p = concat skipped ++ tail -> Forall (passed_over method id) skipped ->
  await_response (length skipped + fuel) method id p
  = await_response fuel method id (set_incoming p tail).
Proof.
  induction skipped as [|g skipped IH]; intros fuel p Hi Hs.
  - cbn in *. subst tail. by destruct p.
  - apply Forall_cons_1 in Hs as [[Hg Hr] Hs]. cbn [concat] in Hi. rewrite <-app_assoc in Hi.
    cbn [length Nat.add await_response]. unfold read_frame. rewrite Hi, until_nul_frame by done.
    rewrite bool_decide_false, Hr by by apply nul_frame_nonempty. by rewrite (IH fuel (set_incoming p _)).
Qed.

Lemma await_fuel method id fuel p r :
  await_response fuel method id p = Some r ->
  await_response (S (length (pipe_incoming p))) method id p = Some r.
Proof.
  intros Hr. destruct (await_enough method id (S (length (pipe_incoming p))) p) as [_ Hm]; [lia|].
  rewrite <-Hr. clear Hm.
  destruct (Nat.lt_ge_cases (length (pipe_incoming p)) fuel) as [Hl|Hl].
  { symmetry. by apply (proj2 (await_enough method id (S (length (pipe_incoming p))) p ltac:(lia))). }
  rewrite Hr. remember (S (length (pipe_incoming p)) - fuel)%nat as extra eqn:He.
  replace (S (length (pipe_incoming p))) with (fuel + extra)%nat by lia. clear He Hl. revert p Hr.
  induction fuel as [|fuel IH]; intros p Hr; [done|]. cbn [Nat.add await_response] in *.
  destruct (read_frame p) as [[f|e] p1]; [|done]. case_bool_decide; [done|].
  destruct (read_response method id f) as [[r'|]|e]; [done| |done]. by apply IH.
Qed.

Lemma await_settled method id skipped f rest r p :
  pipe_incoming p = concat skipped ++ f ++ rest -> Forall (passed_over method id) skipped ->
  nul_frame f -> settled_as method id f r ->
  exists p', await_response (S (length (pipe_incoming p))) method id p = Some (r, p').
Proof.
  intros Hi Hs Hf Hr. exists (set_incoming p rest). apply (await_fuel _ _ (length skipped + 1)).
  rewrite (await_skip _ _ _ _ _ _ Hi Hs). cbn [await_response]. unfold read_frame. cbn [pipe_incoming set_incoming].
  rewrite until_nul_frame, bool_decide_false by (done || by apply nul_frame_nonempty).
  unfold settled_as, settles in Hr. by destruct (read_response method id f) as [[r'|]|e]; simplify_eq.
Qed.

(** The end of a Chrome: what is left is no whole frame. *)
Lemma await_ended method id skipped frame e p r :
  pipe_incoming p = concat skipped ++ frame -> Forall (passed_over method id) skipped ->
  Byte.x00 ∉ frame -> pipe_read_error p = e ->
  hears method id (match e with Some message => Breaks message | None => Closes end) frame = Returned r ->
  exists p', await_response (S (length (pipe_incoming p))) method id p = Some (r, p').
Proof.
  intros Hi Hs Hn He Hr.
  enough (exists p', await_response 2 method id (set_incoming p frame) = Some (r, p')) as [p' Hp'].
  { exists p'. apply (await_fuel _ _ (length skipped + 2)). by rewrite (await_skip _ _ _ _ _ _ Hi Hs). }
  assert (Hu : forall l, Byte.x00 ∉ l -> until_nul l = None).
  { intros l Hl. pose proof (until_nul_spec l) as Hs'. destruct (until_nul l) as [[f rest]|]; [|done].
    destruct Hs' as [-> (body & -> & _)]. set_solver. }
  cbn [await_response]. unfold read_frame. cbn [pipe_incoming set_incoming pipe_read_error].
  rewrite (Hu _ Hn), He. destruct e as [message|]; cbn [hears] in Hr; [injection Hr as <-; by eexists|].
  case_bool_decide; [injection Hr as <-; by eexists|]. unfold settles in Hr.
  destruct (read_response method id frame) as [[r'|]|e]; injection Hr as <-; cbn;
    rewrite ?He; by eexists.
Qed.

(** ** The loop over a Chrome *)

Definition has_settled (method : string) (id : Z) (bytes : list byte) (r : result GatewayError Json) :
    Prop := exists skipped f rest, bytes = concat skipped ++ f ++ rest /\
  Forall (passed_over method id) skipped /\ nul_frame f /\ settled_as method id f r.

Lemma has_settled_more method id bytes r more :
  has_settled method id bytes r -> has_settled method id (bytes ++ more) r.
Proof.
  intros (sk & f & rest & -> & Hs & Hf & Hr). exists sk, f, (rest ++ more).
  by rewrite !app_assoc.
Qed.

(** What the loop has come to. *)
Definition came_to (method : string) (id : Z) (chrome : Chrome) (n : nat) (w : Waiting) : Prop :=
  match w with
  | Reading frame => snd (heard chrome n) = None /\ exists skipped,
      fst (heard chrome n) = concat skipped ++ frame /\
      Forall (passed_over method id) skipped /\ Byte.x00 ∉ frame
  | Returned r =>
      (snd (heard chrome n) <> None \/ has_settled method id (fst (heard chrome n)) r) /\
      forall p, offers chrome n p -> exists p',
        await_response (S (length (pipe_incoming p))) method id p = Some (r, p')
  end.

Lemma came_to_returned method id chrome n r :
  came_to method id chrome n (Returned r) -> came_to method id chrome (S n) (Returned r).
Proof.
  intros [Hd Ho]. split; [|intros p Hp; by apply Ho, offers_earlier].
  cbn [heard]. destruct (heard chrome n) as [bytes [e|]]; [by left|]. cbn [fst snd] in *.
  destruct Hd as [?|Hd]; [done|].
  destruct (chrome n) as [[b| |message]|]; [right; by apply has_settled_more|by left..|by right].
Qed.

(** The loop meets a frame that settles it or not. *)
Lemma came_to_frame method id chrome n skipped frame :
  heard chrome (S n) = (concat skipped ++ frame ++ [Byte.x00], None) ->
  Forall (passed_over method id) skipped -> Byte.x00 ∉ frame ->
  came_to method id chrome (S n) (settles method id (frame ++ [Byte.x00]) (Reading [])).
Proof.
  intros Hh Hs Hn. assert (Hf : nul_frame (frame ++ [Byte.x00])) by by exists frame.
  destruct (settles method id (frame ++ [Byte.x00]) (Reading [])) as [frame'|r] eqn:Hr.
  - unfold settles in Hr. destruct (read_response method id _) as [[r|]|e] eqn:Hg; try done.
    injection Hr as <-. unfold came_to. rewrite Hh. split; [done|].
    exists (skipped ++ [frame ++ [Byte.x00]]). cbn [fst].
    rewrite concat_app. cbn [concat]. rewrite !app_nil_r. split_and!; [done| |set_solver].
    apply Forall_app. by repeat constructor.
  - unfold came_to. rewrite Hh. split; cbn [fst snd].
    + right. exists skipped, (frame ++ [Byte.x00]), []. by rewrite app_nil_r.
    + intros p Hp. unfold offers in Hp. rewrite Hh in Hp. destruct Hp as [more Hp].
      rewrite <-app_assoc in Hp. by eapply await_settled.
Qed.

Lemma waiting_comes_to method id chrome n :
  came_to method id chrome n (waiting method id chrome n).
Proof.
  induction n as [|n IH]; cbn [waiting].
  { split; [done|]. exists []. split_and!; [done|constructor|set_solver]. }
  destruct (waiting method id chrome n) as [frame|r]; [|by apply came_to_returned].
  destruct IH as (He & skipped & Hb & Hs & Hn).
  assert (Hh : heard chrome n = (concat skipped ++ frame, None)).
  { rewrite <-Hb, <-He. by destruct (heard chrome n). }
  assert (Hend : forall e r, heard chrome (S n) = (concat skipped ++ frame, Some e) ->
    hears method id (match e with Some message => Breaks message | None => Closes end) frame = Returned r ->
    came_to method id chrome (S n) (Returned r)).
  { intros e r Hh' Hr. unfold came_to, offers. rewrite Hh'. split; [by left|].
    intros p [Hp Hpe]. by eapply await_ended. }
  assert (Hnext : heard chrome (S n) = match chrome n with
    | Some (Writes b) => (concat skipped ++ frame ++ [b], None)
    | Some Closes => (concat skipped ++ frame, Some None)
    | Some (Breaks message) => (concat skipped ++ frame, Some (Some message))
    | None => (concat skipped ++ frame, None) end).
  { cbn [heard]. rewrite Hh. destruct (chrome n) as [[]|]; by rewrite ?app_assoc. }
  destruct (chrome n) as [[b| |message]|].
  - cbn [hears]. case_bool_decide as Hz; [subst b; by eapply came_to_frame|].
    unfold came_to. rewrite Hnext. split; [done|]. exists skipped. split_and!; [done|done|set_solver].
  - destruct (hears method id Closes frame) as [frame'|r] eqn:Hr; [|by eapply (Hend None)].
    exfalso. cbn [hears] in Hr. case_bool_decide; [done|]. unfold settles in Hr.
    by destruct (read_response method id frame) as [[]|].
  - by eapply (Hend (Some message)).
  - unfold came_to. rewrite Hnext. split; [done|]. by exists skipped.
Qed.

(** C31: a request waits for its answer, for ever if need be. Whatever Chrome does
    in time, writing for ever and falling silent included, the loop returns exactly
    when Chrome has come to an end, or has written, behind frames that carry other
    identifiers only, one with the identifier of the request or one that is no
    message; as soon as the frame with that identifier is there, it returns the
    answer in it, its error or its redacted result; and whenever it returns, the
    request over a pipe that offers what Chrome did so far returns the same. *)
Theorem request_waits_for_its_answer method id (chrome : Chrome) :
  ((exists n r, waiting method id chrome n = Returned r) <->
   exists n, snd (heard chrome n) <> None \/
     exists skipped f rest, fst (heard chrome n) = concat skipped ++ f ++ rest /\
       Forall (fun g => nul_frame g /\ other_frame id g) skipped /\ nul_frame f /\
       (broken_frame f \/ exists v, carries v f /\ message_id v = Some id)) /\
  (forall n skipped f rest v, heard chrome n = (concat skipped ++ f ++ rest, None) ->
     Forall (fun g => nul_frame g /\ other_frame id g) skipped -> nul_frame f ->
     carries v f -> message_id v = Some id ->
     waiting method id chrome n = Returned (answer_of method v)) /\
  (forall n r tabs tab_id session_id params p, waiting method id chrome n = Returned r ->
     let message := message_of method session_id params p in
     pipe_next_id p = id -> screened tabs method tab_id ->
     blen message <= MAX_CDP_MESSAGE_BYTES -> room_for message p -> offers chrome n p ->
     fst (request_with_session tabs method tab_id session_id params p) = r).
Proof.
  assert (Hskip : forall skipped, Forall (fun g => nul_frame g /\ other_frame id g) skipped ->
    Forall (passed_over method id) skipped).
  { intros skipped Hs. eapply list.Forall_impl; [exact Hs|].
    intros g [? ?]. by apply other_passed_over. }
  split_and!.
  - split.
    + intros (n & r & Hr). exists n. pose proof (waiting_comes_to method id chrome n) as Hc.
      rewrite Hr in Hc. destruct Hc as [[He|(sk & f & rest & Hb & Hs & Hf & Hset)] _]; [by left|right].
      exists sk, f, rest. split_and!; [done| |done|].
      * eapply list.Forall_impl; [exact Hs|]. intros g Hg. split; [apply Hg|].
        by eapply passed_over_other.
      * apply settled_by_cases in Hset as [?|(v & ? & ? & _)]; [by left|right; by exists v|done].
    + intros (n & Hn). exists n. pose proof (waiting_comes_to method id chrome n) as Hc.
      destruct (waiting method id chrome n) as [frame|r]; [exfalso|by exists r].
      destruct Hc as (He & sk' & Hb' & Hs' & Hn').
      destruct Hn as [?|(sk & f & rest & Hb & Hs & Hf & Hset)]; [done|]. rewrite Hb in Hb'.
      assert (exists r, settled_as method id f r) as [r Hr].
      { destruct Hset as [Hbr|(v & Hv & Hi)].
        - apply (broken_settles method id) in Hbr as [e He']. by exists (Err e).
        - eexists. by apply answered. }
      eapply none_settled; [by apply Hskip|exact Hs'|exact Hf|exact Hr|exact Hn'|exact Hb'].
  - intros n sk f rest v Hh Hs%Hskip Hf Hv Hi. pose proof (waiting_comes_to method id chrome n) as Hc.
    destruct (waiting method id chrome n) as [frame|r].
    + destruct Hc as (_ & sk' & Hb' & Hs' & Hn'). rewrite Hh in Hb'. cbn [fst] in Hb'. exfalso.
      eapply none_settled; [exact Hs|exact Hs'|exact Hf|by apply answered|exact Hn'|exact Hb'].
    + destruct Hc as [[He|(sk' & f' & rest' & Hb' & Hs' & Hf' & Hset')] _].
      { by rewrite Hh in He. }
      rewrite Hh in Hb'. cbn [fst] in Hb'. f_equal. symmetry.
      eapply (first_settled method id sk sk' f f'); [exact Hs|exact Hs'|done|done| |exact Hset'|exact Hb'].
      by apply answered.
  - intros n r tabs tab_id session_id params p Hr message <- Hscr Hm Hroom Ho.
    pose proof (waiting_comes_to method (pipe_next_id p) chrome n) as Hc. rewrite Hr in Hc.
    destruct Hc as [_ Hp]. destruct (Hp (after_command message (pipe_incoming p) p)) as [p' Hp'].
    { unfold offers in *. by destruct (heard chrome n) as [bytes [e|]]. }
    pose proof (request_accepted tabs method tab_id session_id params p Hscr Hm Hroom) as Ha.
    cbv zeta in Ha. fold message in Ha. cbn [pipe_incoming after_command] in Hp'.
    rewrite Hp' in Ha. by injection Ha as ->.
Qed.

(** A Chrome that writes nothing keeps a request waiting. *)
Lemma silent_chrome_is_awaited method id n : exists frame,
  waiting method id (fun _ => None) n = Reading frame.
Proof.
  exists []. induction n as [|n IH]; [done|]. cbn [waiting]. by rewrite IH.
Qed.
End Waits.

(** ** Witness *)

(** Chrome writes those bytes, one at every second instant, and then nothing. *)
Definition slow_chrome (bytes : list byte) : Chrome := fun n =>
  if Nat.even n then Writes <$> bytes !! Nat.div2 n else None.
Definition answered_at : nat := 2 * length (event_frame ++ answer_frame).

Lemma request_waits_for_its_answer_witness :
  waiting "Target.attachToTarget" 7 (slow_chrome (pipe_incoming example_pipe)) answered_at
  = Returned (Ok redacted_answer) /\
  fst (request_with_session ∅ "Target.attachToTarget" None None JNull example_pipe)
  = Ok redacted_answer.
Proof.
  assert (Hw : waiting "Target.attachToTarget" 7 (slow_chrome (pipe_incoming example_pipe)) answered_at
    = Returned (Ok redacted_answer)) by (vm_compute; reflexivity).
  split; [exact Hw|].
  apply (proj2 (proj2 (request_waits_for_its_answer "Target.attachToTarget" 7
    (slow_chrome (pipe_incoming example_pipe)))) answered_at).
  - exact Hw.
  - reflexivity.
  - left. apply (bool_decide_unpack _). vm_compute. exact I.
  - apply (bool_decide_unpack _). vm_compute. exact I.
  - exact I.
  - assert (Hh : heard (slow_chrome (pipe_incoming example_pipe)) answered_at
      = (event_frame ++ answer_frame, None)) by (vm_compute; reflexivity).
    unfold offers. rewrite Hh. exists event_frame. reflexivity.
Defined.
