(* ===== verification/AuditChain.v ===== *)
(** * AuditChain: the keyed hash chain and its checkpoints

    Models the crate [secretctl-audit]: the event context of [events.rs] and
    the chain of [chain.rs], with its creation and verification. *)

From S2P Require Import Prelude.
From S2P Require Import Externals.
From S2P Require Import Concrete.
From S2P Require Import Domain.
From S2P Require Import Crypto.

Inductive AuditError : Type :=
| ChainBroken (sequence : Z)
| AuditSerialization (message : string)
| ProhibitedPayload (key : string).

#[global] Instance AuditError_eq_dec : EqDecision AuditError.
Proof. solve_decision. Defined.

(** ** Event payloads ([events.rs]) *)

Record AuditContext : Type := {
  ac_request_id : option string;
  ac_credential_id : option string;
  ac_capability_id : option string;
  ac_browser_session_id : option string;
  ac_target_origin : option string;
  ac_action : option string;
  ac_decision : option string;
  ac_risk_level : option string;
  ac_error_code : option string
}.

Definition context_field (name : string) (value : option string) : list (string * Json) :=
  match value with Some v => [(name, JString v)] | None => [] end.

(** The derived [Serialize]: the present fields, in declaration order. *)
Definition context_to_json (c : AuditContext) : Json :=
  JObject (context_field "request_id" (ac_request_id c)
    ++ context_field "credential_id" (ac_credential_id c)
    ++ context_field "capability_id" (ac_capability_id c)
    ++ context_field "browser_session_id" (ac_browser_session_id c)
    ++ context_field "target_origin" (ac_target_origin c)
    ++ context_field "action" (ac_action c)
    ++ context_field "decision" (ac_decision c)
    ++ context_field "risk_level" (ac_risk_level c)
    ++ context_field "error_code" (ac_error_code c)).

Fixpoint check_keys (fields : list (string * Json)) : result AuditError unit :=
  match fields with
  | [] => Ok tt
  | (k, _) :: fields =>
      if contains_prohibited_key_name k then Err (ProhibitedPayload k) else check_keys fields
  end.

Definition validate_audit_payload `{JsonCodec} (json_str : string) : result AuditError unit :=
  value ← map_err AuditSerialization (json_parse json_str);
  match value with
  | JObject map => check_keys map
  | _ => Ok tt
  end.

(** ** The chain ([chain.rs]) *)

Definition GENESIS_PREVIOUS_HASH : list byte := replicate 32 Byte.x00.
Definition EVENT_DOMAIN : list byte := as_bytes "secretctl.audit.event.v1".
Definition CHECKPOINT_DOMAIN : list byte := as_bytes "secretctl.audit.checkpoint.v1".

(** The bytes the HMAC is computed over. *)
Definition event_message `{Chrono} (audit_key_version : Z) (previous_hash : list byte)
    (sequence : Z) (event_id : EventId) (event_type actor_type : string)
    (actor_id : option string) (event_json : string) (created_at : Instant) : list byte :=
  EVENT_DOMAIN ++ be_bytes 4 audit_key_version
  ++ len_prefixed previous_hash
  ++ be_bytes 8 sequence
  ++ len_prefixed (as_bytes (id_str event_id))
  ++ len_prefixed (as_bytes event_type)
  ++ len_prefixed (as_bytes actor_type)
  ++ len_prefixed (as_bytes (default "" actor_id))
  ++ len_prefixed (as_bytes event_json)
  ++ len_prefixed (as_bytes (to_rfc3339 created_at)).

Definition compute_event_hash `{Hashes, Chrono} (audit_key_version : Z)
    (audit_key previous_hash : list byte) (sequence : Z) (event_id : EventId)
    (event_type actor_type : string) (actor_id : option string) (event_json : string)
    (created_at : Instant) : result AuditError (list byte) :=
  if (audit_key_version =? 0) || (blen audit_key <? 32)
  then Err (AuditSerialization "invalid audit key version or length")
  else Ok (hmac_sha256 audit_key
         (event_message audit_key_version previous_hash sequence event_id event_type
            actor_type actor_id event_json created_at)).

(** [event_uuid] is the text [EventId::new] draws. *)
Definition create_audit_event `{Hashes, Chrono, JsonCodec} (event_uuid : string) (sequence : Z)
    (previous_hash : list byte) (audit_key_version : Z) (audit_key : list byte)
    (event_type actor_type : string) (actor_id : option string) (context : AuditContext)
    (created_at : Instant) : result AuditError AuditEvent :=
  let event_id := id_new KEvent event_uuid in
  let event_json := json_print (context_to_json context) in
  _ ← validate_audit_payload event_json;
  event_hash ← compute_event_hash audit_key_version audit_key previous_hash sequence event_id
    event_type actor_type actor_id event_json created_at;
  Ok {| ev_sequence := sequence; ev_event_id := event_id; ev_event_type := event_type;
        ev_actor_type := actor_type; ev_actor_id := actor_id; ev_event_json := event_json;
        ev_audit_key_version := audit_key_version; ev_previous_hash := previous_hash;
        ev_event_hash := event_hash; ev_created_at := created_at |}.

(** The unkeyed digest of records with key version zero: fields concatenated
    without lengths. *)
Definition legacy_message `{Chrono} (event : AuditEvent) : list byte :=
  ev_previous_hash event
  ++ be_bytes 8 (ev_sequence event)
  ++ as_bytes (id_str (ev_event_id event))
  ++ as_bytes (ev_event_type event)
  ++ as_bytes (ev_actor_type event)
  ++ match ev_actor_id event with Some a => as_bytes a | None => [] end
  ++ as_bytes (ev_event_json event)
  ++ as_bytes (to_rfc3339 (ev_created_at event)).

Definition recompute_hash `{Hashes, Chrono} (audit_keys : gmap Z (list byte))
    (event : AuditEvent) : result AuditError (list byte) :=
  if ev_audit_key_version event =? 0 then Ok (sha256 (legacy_message event))
  else
    audit_key ← ok_or (AuditSerialization
        ("unknown audit key version " +:+ format_unsigned (ev_audit_key_version event)))
      (audit_keys !! ev_audit_key_version event);
    compute_event_hash (ev_audit_key_version event) audit_key (ev_previous_hash event)
      (ev_sequence event) (ev_event_id event) (ev_event_type event) (ev_actor_type event)
      (ev_actor_id event) (ev_event_json event) (ev_created_at event).

(** The loop of [verify_audit_chain] from an index on. *)
Fixpoint verify_from `{Hashes, Chrono} (audit_keys : gmap Z (list byte)) (idx : Z)
    (expected_prev_hash : list byte) (events : list AuditEvent) : result AuditError unit :=
  match events with
  | [] => Ok tt
  | event :: events =>
      if negb (ev_sequence event =? idx + 1)
         || bool_decide (ev_previous_hash event ≠ expected_prev_hash)
      then Err (ChainBroken (ev_sequence event))
      else
        computed_hash ← recompute_hash audit_keys event;
        if bool_decide (computed_hash ≠ ev_event_hash event)
        then Err (ChainBroken (ev_sequence event))
        else verify_from audit_keys (idx + 1) (ev_event_hash event) events
  end.

Definition verify_audit_chain `{Hashes, Chrono} (events : list AuditEvent)
    (audit_keys : gmap Z (list byte)) : result AuditError unit :=
  verify_from audit_keys 0 GENESIS_PREVIOUS_HASH events.

(** ** Checkpoints ([chain.rs]) *)

Definition checkpoint_preimage `{Chrono} (checkpoint : AuditCheckpoint) : list byte :=
  CHECKPOINT_DOMAIN ++ be_bytes 8 (cp_sequence checkpoint)
  ++ len_prefixed (cp_event_hash checkpoint)
  ++ be_bytes 4 (cp_audit_key_version checkpoint)
  ++ len_prefixed (as_bytes (cp_signing_key_id checkpoint))
  ++ as_bytes (to_rfc3339 (cp_created_at checkpoint)).

Definition checkpoint_message `{Hashes, Chrono} (checkpoint : AuditCheckpoint) : list byte :=
  sha256 (checkpoint_preimage checkpoint).

Definition create_audit_checkpoint `{Hashes, Chrono, Signatures} (sequence : Z)
    (event_hash : list byte) (audit_key_version : Z) (signing_key_id : string)
    (signing_key : KeyPair) (created_at : Instant) : AuditCheckpoint :=
  let checkpoint := {|
    cp_sequence := sequence; cp_event_hash := event_hash;
    cp_audit_key_version := audit_key_version; cp_signing_key_id := signing_key_id;
    cp_signature := []; cp_created_at := created_at |} in
  {| cp_sequence := sequence; cp_event_hash := event_hash;
     cp_audit_key_version := audit_key_version; cp_signing_key_id := signing_key_id;
     cp_signature := sign signing_key (checkpoint_message checkpoint);
     cp_created_at := created_at |}.

Fixpoint verify_audit_checkpoints `{Hashes, Chrono, Signatures} (events : list AuditEvent)
    (checkpoints : list AuditCheckpoint) (signing_keys : gmap string (list byte)) :
    result AuditError unit :=
  match checkpoints with
  | [] => Ok tt
  | checkpoint :: checkpoints =>
      event ← ok_or (ChainBroken (cp_sequence checkpoint))
        (List.find (fun e => ev_sequence e =? cp_sequence checkpoint) events);
      if bool_decide (ev_event_hash event ≠ cp_event_hash checkpoint)
         || negb (ev_audit_key_version event =? cp_audit_key_version checkpoint)
      then Err (ChainBroken (cp_sequence checkpoint))
      else
        public_key ← ok_or (AuditSerialization
            ("unknown checkpoint signing key " +:+ cp_signing_key_id checkpoint))
          (signing_keys !! cp_signing_key_id checkpoint);
        _ ← map_err (fun _ => ChainBroken (cp_sequence checkpoint))
              (verify_signature public_key (checkpoint_message checkpoint)
                 (cp_signature checkpoint));
        verify_audit_checkpoints events checkpoints signing_keys
  end.

(** ** Lemmas on the chain *)

(** The hash the next event has to name, after the events of a chain. *)
Fixpoint last_hash (start : list byte) (events : list AuditEvent) : list byte :=
  match events with
  | [] => start
  | event :: events => last_hash (ev_event_hash event) events
  end.

(** What one step of the verification asks of an event. *)
Definition links `{Hashes, Chrono} (audit_keys : gmap Z (list byte)) (idx : Z)
    (prev : list byte) (event : AuditEvent) : Prop :=
  ev_sequence event = idx + 1 /\ ev_previous_hash event = prev /\
  recompute_hash audit_keys event = Ok (ev_event_hash event).

(** What the audited bytes of an event determine: the event, except that an
    absent actor reads as the empty one. *)
Definition as_hashed (event : AuditEvent) : AuditEvent := {|
  ev_sequence := ev_sequence event; ev_event_id := ev_event_id event;
  ev_event_type := ev_event_type event; ev_actor_type := ev_actor_type event;
  ev_actor_id := Some (default "" (ev_actor_id event));
  ev_event_json := ev_event_json event;
  ev_audit_key_version := ev_audit_key_version event;
  ev_previous_hash := ev_previous_hash event; ev_event_hash := ev_event_hash event;
  ev_created_at := ev_created_at event |}.

(** The fields of an event fit the integer types and buffers that hold them. *)
Record event_in_range `{Chrono} (event : AuditEvent) : Prop := {
  er_sequence : u64_range (ev_sequence event);
  er_version : u32_range (ev_audit_key_version event);
  er_previous : u64_range (blen (ev_previous_hash event));
  er_id : u64_range (blen (as_bytes (id_str (ev_event_id event))));
  er_type : u64_range (blen (as_bytes (ev_event_type event)));
  er_actor_type : u64_range (blen (as_bytes (ev_actor_type event)));
  er_actor_id : u64_range (blen (as_bytes (default "" (ev_actor_id event))));
  er_json : u64_range (blen (as_bytes (ev_event_json event)));
  er_created_text : u64_range (blen (as_bytes (to_rfc3339 (ev_created_at event))));
  er_created_at : four_digit_year (ev_created_at event)
}.

Definition message_of `{Chrono} (event : AuditEvent) : list byte :=
  event_message (ev_audit_key_version event) (ev_previous_hash event) (ev_sequence event)
    (ev_event_id event) (ev_event_type event) (ev_actor_type event) (ev_actor_id event)
    (ev_event_json event) (ev_created_at event).

Section ChainLemmas.
Context `{Hashes, ChronoLaws}.

Lemma verify_from_cons ks idx prev e es :
  verify_from ks idx prev (e :: es) = Ok tt <->
  links ks idx prev e /\ verify_from ks (idx + 1) (ev_event_hash e) es = Ok tt.
Proof.
  unfold links. cbn [verify_from].
  destruct (Z.eqb_spec (ev_sequence e) (idx + 1)); cbn [negb orb]; [|intuition discriminate].
  case_bool_decide; [intuition discriminate|].
  destruct (recompute_hash ks e) as [h|] eqn:Hh; cbn [mbind result_bind];
    [|intuition discriminate].
  case_bool_decide as Hd; [intuition congruence|]. intuition congruence.
Qed.

Lemma last_hash_cons prev e es : last_hash prev (e :: es) = last_hash (ev_event_hash e) es.
Proof. done. Qed.

Lemma last_hash_snoc prev e es : last_hash prev (es ++ [e]) = ev_event_hash e.
Proof. revert prev; induction es as [|e' es IH]; intros prev; [done|]. apply IH. Qed.

(** Verification of an extended chain: the chain before, and the new link. *)
Lemma verify_from_snoc ks idx prev es e :
  verify_from ks idx prev (es ++ [e]) = Ok tt <->
  verify_from ks idx prev es = Ok tt /\
  links ks (idx + Z.of_nat (length es)) (last_hash prev es) e.
Proof.
  revert idx prev; induction es as [|e' es IH]; intros idx prev.
  - cbn [app length]. rewrite verify_from_cons, Z.add_0_r. cbn [verify_from last_hash]. tauto.
  - cbn [app length]. rewrite !verify_from_cons, IH, last_hash_cons, Nat2Z.inj_succ.
    replace (idx + 1 + Z.of_nat (length es)) with (idx + Z.succ (Z.of_nat (length es))) by lia.
    tauto.
Qed.

Lemma verify_from_app ks idx prev es es' :
  verify_from ks idx prev (es ++ es') = Ok tt -> verify_from ks idx prev es = Ok tt.
Proof.
  revert idx prev; induction es as [|e es IH]; intros idx prev; [done|].
  cbn [app]. rewrite !verify_from_cons. intros [? ?]. eauto.
Qed.

(** The event at position [i] of a verified chain carries sequence [i + 1]. *)
Lemma verified_sequence ks idx prev es i e :
  verify_from ks idx prev es = Ok tt -> es !! i = Some e ->
  ev_sequence e = idx + Z.of_nat i + 1.
Proof.
  revert idx prev i; induction es as [|e' es IH]; intros idx prev i; [done|].
  rewrite verify_from_cons. intros [(Hs & _) Hv].
  destruct i as [|i]; cbn [lookup list_lookup]; [intros [= <-]; lia|].
  intros Hi. apply (IH _ _ _ Hv) in Hi. lia.
Qed.

Lemma recompute_keyed ks e h :
  ev_audit_key_version e <> 0 ->
  recompute_hash ks e = Ok h ->
  exists k, ks !! ev_audit_key_version e = Some k /\ 32 <= blen k /\
    h = hmac_sha256 k (message_of e).
Proof.
  unfold recompute_hash, compute_event_hash, message_of. intros Hv.
  destruct (Z.eqb_spec (ev_audit_key_version e) 0) as [|_]; [done|].
  intros (k & Hk & Hr)%bind_Ok_inv. apply ok_or_Ok in Hk.
  destruct (Z.ltb_spec (blen k) 32); [done|]. cbn in Hr.
  injection Hr as <-. by exists k.
Qed.

Lemma recompute_keyed_Ok ks e k :
  ev_audit_key_version e <> 0 -> 32 <= blen k -> ks !! ev_audit_key_version e = Some k ->
  recompute_hash ks e = Ok (hmac_sha256 k (message_of e)).
Proof.
  unfold recompute_hash, compute_event_hash, message_of. intros Hv Hl Hk.
  destruct (Z.eqb_spec (ev_audit_key_version e) 0) as [|_]; [done|].
  rewrite Hk. cbn. destruct (Z.ltb_spec (blen k) 32); [lia|done].
Qed.

(** The authenticated bytes determine every field of the event. *)
Lemma message_of_inj e e' :
  event_in_range e -> event_in_range e' -> ev_event_hash e = ev_event_hash e' ->
  message_of e = message_of e' -> as_hashed e = as_hashed e'.
Proof.
  intros R R' Hh. destruct R, R'. unfold message_of, event_message, u32_range, u64_range in *.
  intros (_ & Hm)%app_inj_len; [|done].
  apply app_inj_len in Hm as [Hv Hm]; [|by rewrite !length_be_bytes].
  apply be_bytes_inj in Hv; [|done..].
  apply len_prefixed_inj in Hm as [Hp Hm]; [|done..].
  apply app_inj_len in Hm as [Hs Hm]; [|by rewrite !length_be_bytes].
  apply be_bytes_inj in Hs; [|done..].
  apply len_prefixed_inj in Hm as [Hi Hm]; [|done..].
  apply len_prefixed_inj in Hm as [Ht Hm]; [|done..].
  apply len_prefixed_inj in Hm as [Ha Hm]; [|done..].
  apply len_prefixed_inj in Hm as [Hai Hm]; [|done..].
  apply len_prefixed_inj in Hm as [Hj Hm]; [|done..].
  rewrite <-(app_nil_r (len_prefixed _)), <-(app_nil_r (len_prefixed (as_bytes (to_rfc3339 (ev_created_at e'))))) in Hm.
  apply len_prefixed_inj in Hm as [Hc _]; [|done..].
  apply as_bytes_inj in Hi, Ht, Ha, Hai, Hj, Hc.
  assert (Hid : ev_event_id e = ev_event_id e')
    by (destruct (ev_event_id e), (ev_event_id e'); simpl in *; congruence).
  assert (Hcr : ev_created_at e = ev_created_at e').
  { apply (f_equal parse_from_rfc3339) in Hc. rewrite !rfc3339_round_trip in Hc by done. congruence. }
  unfold as_hashed. congruence.
Qed.
End ChainLemmas.

(** ** Properties of the chain *)

(** Two different authenticated messages with one MAC. *)
Definition mac_collision `{Hashes} : Prop :=
  exists k m k' m', m <> m' /\ hmac_sha256 k m = hmac_sha256 k' m'.

Definition keyed_event `{Chrono} (e : AuditEvent) : Prop :=
  ev_audit_key_version e <> 0 /\ event_in_range e.

Section ChainProperties.
Context `{Hashes, ChronoLaws}.

Lemma check_keys_fields (l : list (string * option string)) (c : AuditContext) :
  Forall (fun f => contains_prohibited_key_name (fst f) = false) l ->
  check_keys (concat (map (fun f => context_field (fst f) (snd f)) l)) = Ok tt.
Proof.
  induction 1 as [|[k v] l Hk _ IH]; [done|]. cbn [map concat fst snd] in *.
  destruct v; cbn [context_field app check_keys]; [|done]. by rewrite Hk.
Qed.

(** The fields of an [AuditContext] pass the check on key names. *)
Lemma context_payload_ok `{JsonLaws} (c : AuditContext) :
  validate_audit_payload (json_print (context_to_json c)) = Ok tt.
Proof.
  unfold validate_audit_payload. rewrite json_round_trip. cbn [map_err mbind result_bind].
  pose proof (check_keys_fields [("request_id", ac_request_id c);
    ("credential_id", ac_credential_id c); ("capability_id", ac_capability_id c);
    ("browser_session_id", ac_browser_session_id c); ("target_origin", ac_target_origin c);
    ("action", ac_action c); ("decision", ac_decision c); ("risk_level", ac_risk_level c);
    ("error_code", ac_error_code c)] c) as Hc.
  cbn [map concat fst snd] in Hc. rewrite app_nil_r in Hc. apply Hc.
  repeat constructor.
Qed.

(** The event that is created, and when creation fails. *)
Lemma create_audit_event_eq `{JsonLaws} uuid sequence prev version key ty aty actor c now :
  create_audit_event uuid sequence prev version key ty aty actor c now =
  if (version =? 0) || (blen key <? 32)
  then Err (AuditSerialization "invalid audit key version or length")
  else
    let e h := {| ev_sequence := sequence; ev_event_id := id_new KEvent uuid;
      ev_event_type := ty; ev_actor_type := aty; ev_actor_id := actor;
      ev_event_json := json_print (context_to_json c); ev_audit_key_version := version;
      ev_previous_hash := prev; ev_event_hash := h; ev_created_at := now |} in
    Ok (e (hmac_sha256 key (message_of (e [])))).
Proof.
  unfold create_audit_event. rewrite context_payload_ok. cbn [mbind result_bind].
  unfold compute_event_hash. by destruct ((version =? 0) || (blen key <? 32)).
Qed.

Lemma created_event_links `{JsonLaws} ks uuid prev version key ty aty actor c now idx e :
  create_audit_event uuid (idx + 1) prev version key ty aty actor c now = Ok e ->
  ks !! version = Some key -> links ks idx prev e.
Proof.
  rewrite create_audit_event_eq.
  destruct ((version =? 0) || (blen key <? 32)) eqn:Hb; [done|].
  bool_to_prop. intros [= <-] Hk. split_and!; [done..|].
  by rewrite (recompute_keyed_Ok _ _ key).
Qed.

Lemma links_hash_inj ks idx prev idx' prev' e e' :
  keyed_event e -> keyed_event e' ->
  links ks idx prev e -> links ks idx' prev' e' -> ev_event_hash e = ev_event_hash e' ->
  mac_collision \/ as_hashed e = as_hashed e'.
Proof.
  intros [Hv Hr] [Hv' Hr'] (_ & _ & Hc) (_ & _ & Hc') Hh.
  apply recompute_keyed in Hc as (k & _ & _ & Hk); [|done].
  apply recompute_keyed in Hc' as (k' & _ & _ & Hk'); [|done].
  destruct (decide (message_of e = message_of e')) as [Hm|Hm].
  - right. by apply message_of_inj.
  - left. exists k, (message_of e), k', (message_of e'). split; [done|congruence].
Qed.

(** The head hash of a keyed chain determines the chain. *)
Lemma chain_determined ks es es' :
  Forall keyed_event es -> Forall keyed_event es' ->
  verify_audit_chain es ks = Ok tt -> verify_audit_chain es' ks = Ok tt ->
  length es = length es' ->
  last_hash GENESIS_PREVIOUS_HASH es = last_hash GENESIS_PREVIOUS_HASH es' ->
  mac_collision \/ map as_hashed es = map as_hashed es'.
Proof.
  unfold verify_audit_chain. revert es'.
  induction es as [|e es IH] using rev_ind; intros es' K K' V V' Hl Hh;
    destruct es' as [|e' es' _] using rev_ind; try (rewrite ?length_app in Hl; simpl in Hl; lia).
  { by right. }
  apply Forall_snoc_inv in K as [K Ke].
  apply Forall_snoc_inv in K' as [K' Ke'].
  apply verify_from_snoc in V as [V L]. apply verify_from_snoc in V' as [V' L'].
  rewrite !last_hash_snoc in Hh. rewrite !length_app in Hl. simpl in Hl.
  destruct (links_hash_inj _ _ _ _ _ _ _ Ke Ke' L L' Hh) as [?|Heq]; [by left|].
  destruct (IH es') as [?|IH']; [done..|lia| |by left|].
  - destruct L as (_ & <- & _), L' as (_ & <- & _). by apply (f_equal ev_previous_hash) in Heq.
  - right. rewrite !map_app. simpl. congruence.
Qed.

(** C36: the audit log is tamper evident. Two logs of MAC-protected events that
    both verify and end in an event with the same hash have the same number
    of events and agree on every audited field of every one of them (an
    absent actor and an empty one are not told apart), or an explicit HMAC
    collision can be exhibited: no event can be edited, reordered, inserted
    or removed without changing the final hash. *)
Theorem audit_chain_tamper_evident (ks : gmap Z (list byte)) es e es' e' :
  Forall keyed_event (es ++ [e]) -> Forall keyed_event (es' ++ [e']) ->
  verify_audit_chain (es ++ [e]) ks = Ok tt -> verify_audit_chain (es' ++ [e']) ks = Ok tt ->
  ev_event_hash e = ev_event_hash e' ->
  mac_collision \/ map as_hashed (es ++ [e]) = map as_hashed (es' ++ [e']).
Proof.
  intros K K' V V' Hh.
  pose proof V as [_ L]%verify_from_snoc. pose proof V' as [_ L']%verify_from_snoc.
  pose proof K as [_ Ke]%Forall_snoc_inv.
  pose proof K' as [_ Ke']%Forall_snoc_inv.
  destruct (links_hash_inj _ _ _ _ _ _ _ Ke Ke' L L' Hh) as [?|Heq]; [by left|].
  apply (chain_determined ks); [done..| |by rewrite !last_hash_snoc].
  apply (f_equal ev_sequence) in Heq. cbn in Heq.
  destruct L as (Hs & _), L' as (Hs' & _). rewrite !length_app. simpl. lia.
Qed.

(** Recording an event extends a verified log to a verified log. With a
    registered key of at least 32 bytes and a non-zero version, creating the
    event that carries the next sequence number and the hash of the last
    event succeeds, whatever the context holds, and the longer log verifies. *)
Theorem recorded_event_keeps_chain_valid `{JsonLaws} ks es uuid version key ty aty actor c now :
  verify_audit_chain es ks = Ok tt ->
  ks !! version = Some key -> version <> 0 -> 32 <= blen key ->
  exists e,
    create_audit_event uuid (Z.of_nat (length es) + 1) (last_hash GENESIS_PREVIOUS_HASH es)
      version key ty aty actor c now = Ok e /\
    verify_audit_chain (es ++ [e]) ks = Ok tt.
Proof.
  intros V Hk Hv Hl. eexists. split.
  - rewrite create_audit_event_eq.
    destruct (Z.eqb_spec version 0), (Z.ltb_spec (blen key) 32); try lia. reflexivity.
  - apply verify_from_snoc. split; [exact V|].
    split_and!; [done..|]. by rewrite (recompute_keyed_Ok _ _ key).
Qed.

(** Rewriting the events of a log as pre-keyed records. *)
Fixpoint forge_from (idx : Z) (prev : list byte) (events : list AuditEvent) :
    list AuditEvent :=
  match events with
  | [] => []
  | e :: events =>
      let unhashed h := {| ev_sequence := idx + 1; ev_event_id := ev_event_id e;
        ev_event_type := ev_event_type e; ev_actor_type := ev_actor_type e;
        ev_actor_id := ev_actor_id e; ev_event_json := ev_event_json e;
        ev_audit_key_version := 0; ev_previous_hash := prev; ev_event_hash := h;
        ev_created_at := ev_created_at e |} in
      let h := sha256 (legacy_message (unhashed [])) in
      unhashed h :: forge_from (idx + 1) h events
  end.

(** The verification accepts a log no key was ever used for. Any list of
    event contents can be given key version zero, sequence numbers and plain
    SHA-256 digests so that [verify_audit_chain] accepts it under every key
    ring: the compatibility branch for old records is not confined to a
    prefix of the log, so whoever can write the table can replace the whole
    of it. Only a signed checkpoint would expose the change. *)
Theorem unkeyed_log_verifies ks contents :
  verify_audit_chain (forge_from 0 GENESIS_PREVIOUS_HASH contents) ks = Ok tt.
Proof.
  unfold verify_audit_chain. generalize 0 as idx, GENESIS_PREVIOUS_HASH as prev.
  induction contents as [|e contents IH]; intros idx prev; [done|].
  cbn [forge_from]. apply verify_from_cons. split; [|apply IH]. by split_and!.
Qed.
End ChainProperties.

(** ** Properties of the checkpoints *)

Section CheckpointProperties.
Context `{Hashes, ChronoLaws, Signatures}.

Lemma verify_audit_checkpoints_in es cps keys cp :
  verify_audit_checkpoints es cps keys = Ok tt -> cp ∈ cps ->
  exists e pk, e ∈ es /\ ev_sequence e = cp_sequence cp /\
    ev_event_hash e = cp_event_hash cp /\
    ev_audit_key_version e = cp_audit_key_version cp /\
    keys !! cp_signing_key_id cp = Some pk /\
    verify_signature pk (checkpoint_message cp) (cp_signature cp) = Ok tt.
Proof.
  induction cps as [|cp' cps IH]; [set_solver|].
  cbn [verify_audit_checkpoints]. intros (e & He & V)%bind_Ok_inv Hin.
  apply ok_or_Ok in He. apply find_some in He as [Hi Hs].
  match type of V with (if ?b then _ else _) = _ => destruct b eqn:Hb; [done|] end.
  apply bind_Ok_inv in V as (pk & Hpk & V). apply ok_or_Ok in Hpk.
  apply bind_Ok_inv in V as ([] & Hsig & V). apply map_err_Ok in Hsig.
  apply elem_of_cons in Hin as [->|Hin]; [|by apply IH].
  bool_to_prop. exists e, pk. split_and!; try done.
  - by apply list_elem_of_In.
  - match goal with H : ~ _ <> _ |- _ => by apply dec_stable in H end.
Qed.

(** A verified chain that passes a checkpoint is at least as long as the
    checkpoint says, and its prefix up to there ends in the checkpointed hash. *)
Lemma checkpoint_prefix ks es cps keys cp :
  verify_audit_chain es ks = Ok tt -> verify_audit_checkpoints es cps keys = Ok tt ->
  cp ∈ cps ->
  exists es1 e es2, es = (es1 ++ [e]) ++ es2 /\
    Z.of_nat (length (es1 ++ [e])) = cp_sequence cp /\ ev_event_hash e = cp_event_hash cp.
Proof.
  intros V C Hin. apply (verify_audit_checkpoints_in _ _ _ _ C) in Hin
    as (e & _ & He & Hs & Hh & _).
  apply list_elem_of_split in He as (es1 & es2 & ->).
  exists es1, e, es2. split; [by rewrite <-app_assoc|]. split; [|done].
  assert (Hi : (es1 ++ e :: es2) !! length es1 = Some e) by (by apply list_lookup_middle).
  apply (verified_sequence _ _ _ _ _ _ V) in Hi. rewrite length_app. simpl. lia.
Qed.

(** A signed checkpoint pins the log below it. Two verified logs of
    MAC-protected events that pass one checkpoint both reach the sequence it
    names, carry the event hash it signs, under the registered signing key,
    and agree on every audited field of every event up to it, unless an HMAC
    collision can be exhibited: the log cannot be truncated below a
    checkpoint or rewritten under it. *)
Theorem checkpoint_pins_prefix ks es es' cps cps' keys cp :
  Forall keyed_event es -> Forall keyed_event es' ->
  verify_audit_chain es ks = Ok tt -> verify_audit_chain es' ks = Ok tt ->
  verify_audit_checkpoints es cps keys = Ok tt ->
  verify_audit_checkpoints es' cps' keys = Ok tt ->
  cp ∈ cps -> cp ∈ cps' ->
  (exists pk, keys !! cp_signing_key_id cp = Some pk /\
     verify_signature pk (checkpoint_message cp) (cp_signature cp) = Ok tt) /\
  let n := Z.to_nat (cp_sequence cp) in
  (0 < n <= length es)%nat /\ (n <= length es')%nat /\
  (mac_collision \/ map as_hashed (take n es) = map as_hashed (take n es')).
Proof.
  intros K K' V V' C C' Hin Hin'. split.
  { destruct (verify_audit_checkpoints_in _ _ _ _ C Hin) as (_ & pk & _ & _ & _ & _ & ? & ?).
    eauto. }
  destruct (checkpoint_prefix _ _ _ _ _ V C Hin) as (a & e & b & -> & Hl & Hh).
  destruct (checkpoint_prefix _ _ _ _ _ V' C' Hin') as (a' & e' & b' & -> & Hl' & Hh').
  apply verify_from_app in V, V'.
  apply Forall_app in K as [K _]. apply Forall_app in K' as [K' _].
  assert (Hn : Z.to_nat (cp_sequence cp) = length (a ++ [e])) by lia.
  assert (Hn' : Z.to_nat (cp_sequence cp) = length (a' ++ [e'])) by lia.
  cbn zeta. split; [rewrite Hn, !length_app; simpl; lia|].
  split; [rewrite Hn', (length_app _ b'); lia|].
  rewrite Hn at 1. rewrite Hn', !take_app_length.
  apply (chain_determined ks); [done..|lia|]. rewrite !last_hash_snoc. congruence.
Qed.
End CheckpointProperties.

(** ** Witnesses *)

Definition example_audit_key : list byte := replicate 32 Byte.x07.
Definition example_key_ring : gmap Z (list byte) := {[1 := example_audit_key]}.
Definition example_context : AuditContext := {|
  ac_request_id := Some "req_1"; ac_credential_id := None; ac_capability_id := None;
  ac_browser_session_id := None; ac_target_origin := None; ac_action := None;
  ac_decision := Some "allow"; ac_risk_level := None; ac_error_code := None |}.

Definition example_now : Instant := 1700000000 * nanos_per_second.

Definition example_event (sequence : Z) (prev : list byte) (actor : option string) : AuditEvent :=
  match create_audit_event "e1" sequence prev 1 example_audit_key "policy.decided" "broker"
          actor example_context example_now with
  | Ok e => e
  | Err _ => {| ev_sequence := 0; ev_event_id := MkId ""; ev_event_type := "";
      ev_actor_type := ""; ev_actor_id := None; ev_event_json := ""; ev_audit_key_version := 0;
      ev_previous_hash := []; ev_event_hash := []; ev_created_at := 0 |}
  end.

Definition example_e1 : AuditEvent := example_event 1 GENESIS_PREVIOUS_HASH None.
Definition example_e1' : AuditEvent := example_event 1 GENESIS_PREVIOUS_HASH (Some "").
Definition example_e2 : AuditEvent := example_event 2 (ev_event_hash example_e1) None.

Definition example_signing_key : KeyPair := {| signing_key := replicate 32 Byte.x09 |}.
Definition example_signing_keys : gmap string (list byte) :=
  {["signing-v1" := public_key_bytes example_signing_key]}.
Definition example_checkpoint : AuditCheckpoint :=
  create_audit_checkpoint 1 (ev_event_hash example_e1) 1 "signing-v1" example_signing_key
    example_now.

Ltac keyed := split; [vm_compute; discriminate |
  constructor; vm_compute; split; first [reflexivity | discriminate]].

Lemma audit_chain_tamper_evident_witness :
  mac_collision \/ map as_hashed [example_e1] = map as_hashed [example_e1'].
Proof.
  apply (audit_chain_tamper_evident example_key_ring [] example_e1 [] example_e1');
    [| |vm_compute; reflexivity..]; (apply Forall_singleton; keyed).
Defined.

Lemma recorded_event_keeps_chain_valid_witness :
  exists e, create_audit_event "e9" 2 (ev_event_hash example_e1) 1 example_audit_key
      "request.completed" "executor" None example_context example_now = Ok e /\
    verify_audit_chain [example_e1; e] example_key_ring = Ok tt.
Proof.
  apply (recorded_event_keeps_chain_valid example_key_ring [example_e1]);
    [vm_compute; reflexivity..| done | vm_compute; discriminate].
Defined.

Lemma checkpoint_pins_prefix_witness :
  mac_collision \/
  map as_hashed [example_e1] = map as_hashed [example_e1'].
Proof.
  apply (checkpoint_pins_prefix example_key_ring [example_e1; example_e2] [example_e1']
    [example_checkpoint] [example_checkpoint] example_signing_keys example_checkpoint);
    [| |vm_compute; reflexivity.. | left | left].
  - apply List.Forall_cons; [keyed|]. apply Forall_singleton. keyed.
  - apply Forall_singleton. keyed.
Defined.
