(* ===== verification/Capability.v ===== *)
(** * Capability: signed capability tokens and their consumption

    Models the crate [secretctl-capability]: the claims, the COSE_Sign1 encoding
    and decoding, minting and verification of [token.rs], and
    [verify_and_consume_capability] of [verifier.rs]. The derived CBOR codec of
    the claims' wire form is generated code: an interface here. *)

From S2P Require Import Prelude.
From S2P Require Import Externals.
From S2P Require Import Concrete.
From S2P Require Import Domain.
From S2P Require Import Crypto.

(** ** Errors ([error.rs]) *)

Inductive CapabilityError : Type :=
| CapExpired (message : string)
| InvalidSignature
| AlreadyConsumed (max used : Z)
| CapRevoked (message : string)
| BindingMismatch (field expected actual : string)
| EpochMismatch (expected actual : Z)
| CapSerialization (message : string).

#[global] Instance CapabilityError_eq_dec : EqDecision CapabilityError.
Proof. solve_decision. Defined.

(** The text [Display] prints. *)
Definition capability_error_text (e : CapabilityError) : string :=
  match e with
  | CapExpired m => "Capability token expired: " +:+ m
  | InvalidSignature => "Capability token signature invalid"
  | AlreadyConsumed max used =>
      "Capability already consumed or exceeded max uses (max: " +:+ format_unsigned max
      +:+ ", used: " +:+ format_unsigned used +:+ ")"
  | CapRevoked m => "Capability revoked: " +:+ m
  | BindingMismatch field expected actual =>
      "Binding mismatch: " +:+ field +:+ " expected " +:+ expected +:+ ", got " +:+ actual
  | EpochMismatch expected actual =>
      "Navigation epoch mismatch: expected " +:+ format_unsigned expected
      +:+ ", got " +:+ format_unsigned actual
  | CapSerialization m => "Serialization error: " +:+ m
  end.

(** ** Claims ([token.rs]) *)

Definition COSE_ALG_EDDSA : Z := -8.
Definition TOKEN_AUDIENCE : string := "secretctl:browser-runtime".

Record CapabilityClaimsWire : Type := {
  w_v : Z;
  w_aud : string;
  w_jti : string;
  w_req_id : string;
  w_agent_id : string;
  w_cred_id : string;
  w_action : string;
  w_top_origin : string;
  w_frame_origin : string;
  w_browser_session_id : string;
  w_extension_key_id : string;
  w_tab_id : Z;
  w_frame_id : Z;
  w_document_id : string;
  w_navigation_epoch : Z;
  w_recipe_id : string;
  w_recipe_hash : list byte;
  w_policy_hash : list byte;
  w_nbf : Z;
  w_iat : Z;
  w_consume_deadline : Z;
  w_max_uses : Z;
  w_issuer_key_id : string;
  w_execution_deadline : Z;
  w_flow_id : option string;
  w_step_id : option string;
  w_step_deadline : option Z
}.

Record CapabilityClaims : Type := {
  cl_v : Z;
  cl_aud : string;
  cl_jti : CapabilityId;
  cl_req_id : RequestId;
  cl_agent_id : AgentId;
  cl_cred_id : CredentialId;
  cl_action : ActionKind;
  cl_top_origin : CanonicalOrigin;
  cl_frame_origin : CanonicalOrigin;
  cl_browser_session_id : BrowserSessionId;
  cl_extension_key_id : string;
  cl_tab_id : Z;
  cl_frame_id : Z;
  cl_document_id : string;
  cl_navigation_epoch : Z;
  cl_recipe_id : RecipeId;
  cl_recipe_hash : list byte;
  cl_policy_hash : list byte;
  cl_nbf : Z;
  cl_iat : Z;
  cl_consume_deadline : Z;
  cl_execution_deadline : Z;
  cl_step_deadline : option Z;
  cl_flow_id : option FlowId;
  cl_step_id : option FlowStepId;
  cl_max_uses : Z;
  cl_issuer_key_id : string
}.

(** The [minicbor::Encode] and [minicbor::Decode] implementations derived for
    the wire form, with the error text that [Display] prints. *)
Class WireCodec := {
  wire_encode : CapabilityClaimsWire -> list byte;
  wire_decode : list byte -> result string CapabilityClaimsWire
}.

Class WireLaws `{WireCodec} := {
  wire_round_trip w : wire_decode (wire_encode w) = Ok w
}.

(** [From<&CapabilityClaims> for CapabilityClaimsWire]. *)
Definition claims_to_wire (c : CapabilityClaims) : CapabilityClaimsWire := {|
  w_v := cl_v c;
  w_aud := cl_aud c;
  w_jti := id_str (cl_jti c);
  w_req_id := id_str (cl_req_id c);
  w_agent_id := id_str (cl_agent_id c);
  w_cred_id := id_str (cl_cred_id c);
  w_action := action_as_str (cl_action c);
  w_top_origin := origin_as_str (cl_top_origin c);
  w_frame_origin := origin_as_str (cl_frame_origin c);
  w_browser_session_id := id_str (cl_browser_session_id c);
  w_extension_key_id := cl_extension_key_id c;
  w_tab_id := cl_tab_id c;
  w_frame_id := cl_frame_id c;
  w_document_id := cl_document_id c;
  w_navigation_epoch := cl_navigation_epoch c;
  w_recipe_id := id_str (cl_recipe_id c);
  w_recipe_hash := cl_recipe_hash c;
  w_policy_hash := cl_policy_hash c;
  w_nbf := cl_nbf c;
  w_iat := cl_iat c;
  w_consume_deadline := cl_consume_deadline c;
  w_execution_deadline := cl_execution_deadline c;
  w_step_deadline := cl_step_deadline c;
  w_flow_id := id_str <$> cl_flow_id c;
  w_step_id := id_str <$> cl_step_id c;
  w_max_uses := cl_max_uses c;
  w_issuer_key_id := cl_issuer_key_id c
|}.

Definition invalid {A : Type} : result DomainError A -> result CapabilityError A :=
  map_err (fun e => CapSerialization (domain_error_text e)).

(** [TryFrom<CapabilityClaimsWire> for CapabilityClaims]. *)
Definition wire_to_claims `{UrlParser} (w : CapabilityClaimsWire) :
    result CapabilityError CapabilityClaims :=
  jti ← invalid (id_parse KCapability (w_jti w));
  req_id ← invalid (id_parse KRequest (w_req_id w));
  agent_id ← invalid (id_parse KAgent (w_agent_id w));
  cred_id ← invalid (id_parse KCredential (w_cred_id w));
  action ← invalid (action_from_str (w_action w));
  top_origin ← invalid (origin_parse (w_top_origin w));
  frame_origin ← invalid (origin_parse (w_frame_origin w));
  browser_session_id ← invalid (id_parse KBrowserSession (w_browser_session_id w));
  recipe_id ← invalid (id_parse KRecipe (w_recipe_id w));
  flow_id ← invalid (transpose (id_parse KFlow <$> w_flow_id w));
  step_id ← invalid (transpose (id_parse KFlowStep <$> w_step_id w));
  Ok {|
    cl_v := w_v w; cl_aud := w_aud w; cl_jti := jti; cl_req_id := req_id;
    cl_agent_id := agent_id; cl_cred_id := cred_id; cl_action := action;
    cl_top_origin := top_origin; cl_frame_origin := frame_origin;
    cl_browser_session_id := browser_session_id;
    cl_extension_key_id := w_extension_key_id w; cl_tab_id := w_tab_id w;
    cl_frame_id := w_frame_id w; cl_document_id := w_document_id w;
    cl_navigation_epoch := w_navigation_epoch w; cl_recipe_id := recipe_id;
    cl_recipe_hash := w_recipe_hash w; cl_policy_hash := w_policy_hash w;
    cl_nbf := w_nbf w; cl_iat := w_iat w; cl_consume_deadline := w_consume_deadline w;
    cl_execution_deadline := w_execution_deadline w; cl_step_deadline := w_step_deadline w;
    cl_flow_id := flow_id; cl_step_id := step_id; cl_max_uses := w_max_uses w;
    cl_issuer_key_id := w_issuer_key_id w |}.

(** ** COSE_Sign1 ([token.rs]) *)

(** A chain of [minicbor::Encoder] calls on an empty [Vec], which cannot fail. *)
Definition encode_items `{Cbor} (items : list CborItem) : list byte :=
  concat (map cbor_encode items).

Definition protected_header `{Cbor} (key_id : string) : list byte :=
  encode_items [CMap 2; CUint8 1; CInt8 COSE_ALG_EDDSA; CUint8 4; CStr key_id].

Definition signature_structure `{Cbor} (protected payload : list byte) : list byte :=
  encode_items [CArray 4; CStr "Signature1"; CBytes protected; CBytes []; CBytes payload].

Definition encode_cose_sign1 `{Cbor, Signatures, WireCodec} (claims : CapabilityClaims)
    (broker_key : KeyPair) : list byte :=
  let payload := wire_encode (claims_to_wire claims) in
  let protected := protected_header (cl_issuer_key_id claims) in
  let signature := sign broker_key (signature_structure protected payload) in
  encode_items [CArray 4; CBytes protected; CMap 0; CBytes payload; CBytes signature].

Record DecodedCoseSign1 : Type := {
  dc_claims : CapabilityClaims;
  dc_protected : list byte;
  dc_payload : list byte;
  dc_signature : list byte
}.

Definition cbor_error {A : Type} : result string A -> result CapabilityError A :=
  map_err CapSerialization.

(** The protected header: reads the algorithm and returns the key id. *)
Definition decode_header `{Cbor} (protected : list byte) : result CapabilityError string :=
  let unsupported := Err (CapSerialization "unsupported COSE protected header") in
  '(n, header) ← cbor_error (cbor_map protected);
  if bool_decide (n ≠ Some 2) then unsupported else
  '(label, header) ← cbor_error (cbor_u8 header);
  if negb (label =? 1) then unsupported else
  '(alg, header) ← cbor_error (cbor_i8 header);
  if negb (alg =? COSE_ALG_EDDSA) then unsupported else
  '(label, header) ← cbor_error (cbor_u8 header);
  if negb (label =? 4) then unsupported else
  '(key_id, header) ← cbor_error (cbor_str header);
  if bool_decide (header ≠ []) || bool_decide (protected_header key_id ≠ protected)
  then Err (CapSerialization "non-canonical COSE protected header")
  else Ok key_id.

Definition decode_cose_sign1 `{Cbor, Base64, WireCodec, UrlParser} (token : string) :
    result CapabilityError DecodedCoseSign1 :=
  token_bytes ← cbor_error (b64_decode token);
  '(n, decoder) ← cbor_error (cbor_array token_bytes);
  if bool_decide (n ≠ Some 4)
  then Err (CapSerialization "COSE_Sign1 must be a four-item array") else
  '(protected, decoder) ← cbor_error (cbor_bytes decoder);
  '(n, decoder) ← cbor_error (cbor_map decoder);
  if bool_decide (n ≠ Some 0)
  then Err (CapSerialization "COSE unprotected header must be empty") else
  '(payload, decoder) ← cbor_error (cbor_bytes decoder);
  '(signature, decoder) ← cbor_error (cbor_bytes decoder);
  if bool_decide (decoder ≠ [])
  then Err (CapSerialization "trailing capability token data") else
  key_id ← decode_header protected;
  wire ← cbor_error (wire_decode payload);
  if bool_decide (wire_encode wire ≠ payload)
  then Err (CapSerialization "non-canonical capability payload") else
  claims ← wire_to_claims wire;
  if bool_decide (cl_issuer_key_id claims ≠ key_id) then Err InvalidSignature
  else Ok {| dc_claims := claims; dc_protected := protected; dc_payload := payload;
             dc_signature := signature |}.

(** ** Minting ([token.rs]) *)

(** The parameters of [mint_capability]. *)
Record MintArgs : Type := {
  ma_issuer_key_id : string;
  ma_request_id : RequestId;
  ma_agent_id : AgentId;
  ma_credential_id : CredentialId;
  ma_action : ActionKind;
  ma_top_origin : CanonicalOrigin;
  ma_frame_origin : CanonicalOrigin;
  ma_browser_session_id : BrowserSessionId;
  ma_extension_key_id : string;
  ma_tab_id : Z;
  ma_frame_id : Z;
  ma_document_id : string;
  ma_navigation_epoch : Z;
  ma_recipe_id : RecipeId;
  ma_recipe_hash : list byte;
  ma_policy_hash : list byte;
  ma_issued_at : Instant;
  ma_deadlines : CapabilityDeadlines;
  ma_flow : option FlowBinding;
  ma_max_uses : Z
}.

Definition mint_claims (a : MintArgs) (capability_id : CapabilityId)
    (consume_deadline execution_deadline : Instant) (step_deadline : option Instant) :
    CapabilityClaims := {|
  cl_v := 1; cl_aud := TOKEN_AUDIENCE; cl_jti := capability_id;
  cl_req_id := ma_request_id a; cl_agent_id := ma_agent_id a; cl_cred_id := ma_credential_id a;
  cl_action := ma_action a; cl_top_origin := ma_top_origin a;
  cl_frame_origin := ma_frame_origin a; cl_browser_session_id := ma_browser_session_id a;
  cl_extension_key_id := ma_extension_key_id a; cl_tab_id := ma_tab_id a;
  cl_frame_id := ma_frame_id a; cl_document_id := ma_document_id a;
  cl_navigation_epoch := ma_navigation_epoch a; cl_recipe_id := ma_recipe_id a;
  cl_recipe_hash := ma_recipe_hash a; cl_policy_hash := ma_policy_hash a;
  cl_nbf := timestamp (ma_issued_at a) - 1; cl_iat := timestamp (ma_issued_at a);
  cl_consume_deadline := timestamp consume_deadline;
  cl_execution_deadline := timestamp execution_deadline;
  cl_step_deadline := timestamp <$> step_deadline;
  cl_flow_id := fb_flow_id <$> ma_flow a; cl_step_id := fb_step_id <$> ma_flow a;
  cl_max_uses := ma_max_uses a; cl_issuer_key_id := ma_issuer_key_id a |}.

Definition mint_record (a : MintArgs) (capability_id : CapabilityId) (token_hash : list byte)
    (consume_deadline execution_deadline : Instant) (step_deadline : option Instant) :
    Capability := {|
  cap_capability_id := capability_id; cap_request_id := ma_request_id a;
  cap_agent_id := ma_agent_id a; cap_credential_id := ma_credential_id a;
  cap_action := ma_action a; cap_top_origin := ma_top_origin a;
  cap_frame_origin := ma_frame_origin a; cap_browser_session_id := ma_browser_session_id a;
  cap_extension_key_id := ma_extension_key_id a; cap_tab_id := ma_tab_id a;
  cap_frame_id := ma_frame_id a; cap_document_id := ma_document_id a;
  cap_navigation_epoch := ma_navigation_epoch a; cap_recipe_id := ma_recipe_id a;
  cap_recipe_hash := ma_recipe_hash a; cap_policy_hash := ma_policy_hash a;
  cap_token_hash := token_hash; cap_state := CapabilityState.Issued;
  cap_max_uses := ma_max_uses a; cap_used_count := 0; cap_issued_at := ma_issued_at a;
  cap_consume_deadline := consume_deadline; cap_execution_deadline := execution_deadline;
  cap_step_deadline := step_deadline; cap_flow_id := fb_flow_id <$> ma_flow a;
  cap_step_id := fb_step_id <$> ma_flow a; cap_revoked_reason := None |}.

(** [None] where an addition to [issued_at] panics; [cap_uuid] is the text
    [CapabilityId::new] draws. *)
Definition mint_capability `{Chrono, Hashes, Signatures, Cbor, Base64, WireCodec}
    (broker_key : KeyPair) (cap_uuid : string) (a : MintArgs) : option (Capability * string) :=
  let capability_id := id_new KCapability cap_uuid in
  let after ttl := add_seconds (ma_issued_at a) (u64_as_i64 ttl) in
  consume_deadline ← after (dl_consume_ttl_seconds (ma_deadlines a));
  execution_deadline ← after (dl_execution_ttl_seconds (ma_deadlines a));
  step_deadline ←
    match dl_step_ttl_seconds (ma_deadlines a) with
    | None => Some None
    | Some seconds => Some <$> after seconds
    end;
  let claims := mint_claims a capability_id consume_deadline execution_deadline step_deadline in
  let token := b64_encode (encode_cose_sign1 claims broker_key) in
  let token_hash := sha256_digest (as_bytes token) in
  Some (mint_record a capability_id token_hash consume_deadline execution_deadline step_deadline,
        token).

(** ** Verification ([token.rs]) *)

Section Verification.
Context `{Chrono, Hashes, Signatures, Cbor, Base64, WireCodec, UrlParser}.

Definition parse_and_verify_token (token : string) (broker_public_key : list byte) :
    result CapabilityError CapabilityClaims :=
  decoded ← decode_cose_sign1 token;
  _ ← map_err (fun _ => InvalidSignature)
        (verify_signature broker_public_key
           (signature_structure (dc_protected decoded) (dc_payload decoded))
           (dc_signature decoded));
  Ok (dc_claims decoded).

Definition parse_and_verify_token_with_keys (token : string)
    (active_keys : gmap string (list byte)) : result CapabilityError CapabilityClaims :=
  decoded ← decode_cose_sign1 token;
  let unverified := dc_claims decoded in
  public_key ← ok_or InvalidSignature (active_keys !! cl_issuer_key_id unverified);
  if negb (blen public_key =? 32) then Err InvalidSignature else
  verified ← parse_and_verify_token token public_key;
  if bool_decide (cl_issuer_key_id verified ≠ cl_issuer_key_id unverified)
  then Err InvalidSignature
  else Ok verified.
End Verification.

(** ** Consumption ([verifier.rs]) *)

Record ExecutionContextSnapshot : Type := {
  sn_top_origin : CanonicalOrigin;
  sn_frame_origin : CanonicalOrigin;
  sn_browser_session_id : BrowserSessionId;
  sn_extension_key_id : string;
  sn_tab_id : Z;
  sn_frame_id : Z;
  sn_document_id : string;
  sn_navigation_epoch : Z
}.

Definition executor_context_text (extension_key_id : string) (tab_id frame_id : Z)
    (document_id : string) : string :=
  extension_key_id +:+ "/" +:+ format_unsigned tab_id +:+ "/" +:+ format_unsigned frame_id
  +:+ "/" +:+ document_id.

Definition set_state (c : Capability) (state : CapabilityState.t) : Capability :=
  set_capability_status c state (cap_used_count c) (cap_revoked_reason c).

(** Steps 1 and 2: the signature, the audience and the stored claims. *)
Definition check_stored_claims (capability : Capability) (claims : CapabilityClaims) :
    result CapabilityError unit :=
  if negb (cl_v claims =? 1) || bool_decide (cl_aud claims ≠ TOKEN_AUDIENCE)
  then Err (BindingMismatch "audience" TOKEN_AUDIENCE (cl_aud claims))
  else if bool_decide (cl_jti claims ≠ cap_capability_id capability)
  then Err (BindingMismatch "capability_id" (id_str (cap_capability_id capability))
              (id_str (cl_jti claims)))
  else if bool_decide (cl_req_id claims ≠ cap_request_id capability)
       || bool_decide (cl_agent_id claims ≠ cap_agent_id capability)
       || bool_decide (cl_cred_id claims ≠ cap_credential_id capability)
       || bool_decide (cl_action claims ≠ cap_action capability)
       || bool_decide (cl_recipe_id claims ≠ cap_recipe_id capability)
       || bool_decide (cl_recipe_hash claims ≠ cap_recipe_hash capability)
       || bool_decide (cl_policy_hash claims ≠ cap_policy_hash capability)
  then Err (BindingMismatch "stored_claims" "authoritative capability state"
              "signed claims mismatch")
  else Ok tt.

(** Steps 5 to 7: the origins, the session, the executor and the epoch. *)
Definition check_context (claims : CapabilityClaims) (cx : ExecutionContextSnapshot) :
    result CapabilityError unit :=
  if negb (origin_matches (cl_top_origin claims) (sn_top_origin cx))
  then Err (BindingMismatch "top_origin" (origin_as_str (cl_top_origin claims))
              (origin_as_str (sn_top_origin cx)))
  else if negb (origin_matches (cl_frame_origin claims) (sn_frame_origin cx))
  then Err (BindingMismatch "frame_origin" (origin_as_str (cl_frame_origin claims))
              (origin_as_str (sn_frame_origin cx)))
  else if bool_decide (cl_browser_session_id claims ≠ sn_browser_session_id cx)
  then Err (BindingMismatch "browser_session_id" (id_str (cl_browser_session_id claims))
              (id_str (sn_browser_session_id cx)))
  else if bool_decide (cl_extension_key_id claims ≠ sn_extension_key_id cx)
       || negb (cl_tab_id claims =? sn_tab_id cx)
       || negb (cl_frame_id claims =? sn_frame_id cx)
       || bool_decide (cl_document_id claims ≠ sn_document_id cx)
  then Err (BindingMismatch "executor_context"
              (executor_context_text (cl_extension_key_id claims) (cl_tab_id claims)
                 (cl_frame_id claims) (cl_document_id claims))
              (executor_context_text (sn_extension_key_id cx) (sn_tab_id cx)
                 (sn_frame_id cx) (sn_document_id cx)))
  else if negb (cl_navigation_epoch claims =? sn_navigation_epoch cx)
  then Err (EpochMismatch (cl_navigation_epoch claims) (sn_navigation_epoch cx))
  else Ok tt.

(** The increment at the end. *)
Definition consume_transition (c : Capability) : Capability :=
  let used_count := cap_used_count c + 1 in
  set_capability_status c
    (if used_count >=? cap_max_uses c then CapabilityState.Consumed else CapabilityState.Active)
    used_count (cap_revoked_reason c).

Section Consumption.
Context `{Chrono, Hashes, Signatures, Cbor, Base64, WireCodec, UrlParser}.

(** Returns the result and the capability as the call leaves it. *)
Definition verify_and_consume_capability (capability : Capability) (token : string)
    (broker_public_key : list byte) (current_context : ExecutionContextSnapshot)
    (now : Instant) : result CapabilityError CapabilityClaims * Capability :=
  match parse_and_verify_token token broker_public_key with
  | Err e => (Err e, capability)
  | Ok claims =>
      match check_stored_claims capability claims with
      | Err e => (Err e, capability)
      | Ok _ =>
          if timestamp now <? cl_nbf claims
          then (Err (BindingMismatch "not_before" (format_int (cl_nbf claims))
                       (format_int (timestamp now))), capability)
          else if (timestamp now >=? cl_consume_deadline claims)
               || (now >=? cap_consume_deadline capability)
          then (Err (CapExpired ("Capability consume window closed at "
                       +:+ display_instant (cap_consume_deadline capability))),
                set_state capability CapabilityState.Expired)
          else if bool_decide (cap_state capability = CapabilityState.Consumed)
               || (cap_used_count capability >=? cap_max_uses capability)
          then (Err (AlreadyConsumed (cap_max_uses capability) (cap_used_count capability)),
                capability)
          else if bool_decide (cap_state capability ≠ CapabilityState.Issued)
               && bool_decide (cap_state capability ≠ CapabilityState.Active)
          then (Err (CapRevoked ("Capability in invalid state: "
                       +:+ CapabilityState.as_str (cap_state capability))), capability)
          else
            match check_context claims current_context with
            | Err e => (Err e, capability)
            | Ok _ => (Ok claims, consume_transition capability)
            end
      end
  end.
End Consumption.

(** ** The encoding reads back *)

Section CodecLemmas.
Context `{CborLaws, Base64Laws, WireLaws, UP : UrlParser, SignatureLaws}.

Lemma encode_items_cons i l : encode_items (i :: l) = cbor_encode i ++ encode_items l.
Proof. done. Qed.

Lemma invalid_Ok {A : Type} (r : result DomainError A) (a : A) :
  invalid r = Ok a <-> r = Ok a.
Proof. apply map_err_Ok. Qed.

Lemma protected_header_eq key_id :
  protected_header key_id = cbor_encode (CMap 2) ++ cbor_encode (CUint8 1)
    ++ cbor_encode (CInt8 COSE_ALG_EDDSA) ++ cbor_encode (CUint8 4)
    ++ cbor_encode (CStr key_id) ++ [].
Proof. done. Qed.

Lemma decode_header_protected (key_id : string) :
  decode_header (protected_header key_id) = Ok key_id.
Proof.
  remember (protected_header key_id) as p eqn:Hp. unfold decode_header.
  rewrite Hp at 1. rewrite protected_header_eq, cbor_map_encode. cbn.
  rewrite cbor_u8_encode by lia. cbn. rewrite cbor_i8_encode by (unfold COSE_ALG_EDDSA; lia).
  cbn. rewrite cbor_u8_encode by lia. cbn. rewrite cbor_str_encode. cbn.
  by rewrite Hp, <-protected_header_eq, !bool_decide_neq_refl.
Qed.

Lemma decode_header_Ok (protected : list byte) (key_id : string) :
  decode_header protected = Ok key_id -> protected = protected_header key_id.
Proof.
  unfold decode_header. intros HD.
  apply bind_Ok_inv in HD as ([n h] & _ & HD). case_bool_decide; [done|].
  apply bind_Ok_inv in HD as ([l1 h1] & _ & HD). destruct (negb (l1 =? 1)); [done|].
  apply bind_Ok_inv in HD as ([a h2] & _ & HD). destruct (negb (a =? _)); [done|].
  apply bind_Ok_inv in HD as ([l2 h3] & _ & HD). destruct (negb (l2 =? 4)); [done|].
  apply bind_Ok_inv in HD as ([k h4] & _ & HD).
  destruct (_ || _) eqn:E in HD; [done|]. injection HD as ->.
  bool_to_prop. symmetry. by apply dec_stable.
Qed.

(** What a decoded token is made of. *)
Lemma decode_cose_sign1_Ok token d :
  decode_cose_sign1 token = Ok d ->
  exists wire,
    dc_payload d = wire_encode wire /\ wire_to_claims wire = Ok (dc_claims d) /\
    dc_protected d = protected_header (cl_issuer_key_id (dc_claims d)).
Proof.
  unfold decode_cose_sign1. intros HD.
  apply bind_Ok_inv in HD as (bs & _ & HD).
  apply bind_Ok_inv in HD as ([n r] & _ & HD). case_bool_decide; [done|].
  apply bind_Ok_inv in HD as ([p r1] & _ & HD).
  apply bind_Ok_inv in HD as ([m r2] & _ & HD). case_bool_decide; [done|].
  apply bind_Ok_inv in HD as ([pl r3] & _ & HD).
  apply bind_Ok_inv in HD as ([sg r4] & _ & HD). case_bool_decide; [done|].
  apply bind_Ok_inv in HD as (k & Hk & HD). apply decode_header_Ok in Hk.
  apply bind_Ok_inv in HD as (w & _ & HD). case_bool_decide as Hw; [done|].
  apply bind_Ok_inv in HD as (c & Hc & HD). case_bool_decide as Hi; [done|].
  injection HD as <-. exists w. cbn. subst. auto.
Qed.

(** The identifiers and origins of the claims read back from their text. *)
Record claims_readable (c : CapabilityClaims) : Prop := {
  cr_jti : id_parse KCapability (id_str (cl_jti c)) = Ok (cl_jti c);
  cr_req_id : id_parse KRequest (id_str (cl_req_id c)) = Ok (cl_req_id c);
  cr_agent_id : id_parse KAgent (id_str (cl_agent_id c)) = Ok (cl_agent_id c);
  cr_cred_id : id_parse KCredential (id_str (cl_cred_id c)) = Ok (cl_cred_id c);
  cr_top : origin_parse (origin_as_str (cl_top_origin c)) = Ok (cl_top_origin c);
  cr_frame : origin_parse (origin_as_str (cl_frame_origin c)) = Ok (cl_frame_origin c);
  cr_session :
    id_parse KBrowserSession (id_str (cl_browser_session_id c)) = Ok (cl_browser_session_id c);
  cr_recipe : id_parse KRecipe (id_str (cl_recipe_id c)) = Ok (cl_recipe_id c);
  cr_flow f : cl_flow_id c = Some f -> id_parse KFlow (id_str f) = Ok f;
  cr_step s : cl_step_id c = Some s -> id_parse KFlowStep (id_str s) = Ok s
}.

Lemma wire_round_trip_claims c :
  claims_readable c -> wire_to_claims (claims_to_wire c) = Ok c.
Proof.
  intros [E1 E2 E3 E4 E5 E6 E7 E8 E9 E10]. unfold wire_to_claims, invalid.
  cbn [w_jti w_req_id w_agent_id w_cred_id w_action w_top_origin w_frame_origin
    w_browser_session_id w_recipe_id w_flow_id w_step_id claims_to_wire].
  rewrite E1, E2, E3, E4, action_round_trip, E5, E6, E7, E8.
  destruct c as [? ? ? ? ? ? ? ? ? ? ? ? ? ? ? ? ? ? ? ? ? ? ? flow step ? ?]. cbn in *.
  destruct flow as [f|]; [cbn; rewrite (E9 f eq_refl)|];
    (destruct step as [s|]; [cbn; rewrite (E10 s eq_refl)|]); reflexivity.
Qed.

Lemma decode_encode_cose_sign1 c key :
  claims_readable c ->
  decode_cose_sign1 (b64_encode (encode_cose_sign1 c key)) =
  Ok (let payload := wire_encode (claims_to_wire c) in
      let protected := protected_header (cl_issuer_key_id c) in
      {| dc_claims := c; dc_protected := protected; dc_payload := payload;
         dc_signature := sign key (signature_structure protected payload) |}).
Proof.
  intros Hc. unfold decode_cose_sign1, encode_cose_sign1.
  rewrite b64_round_trip. cbn [cbor_error map_err mbind result_bind]. rewrite !encode_items_cons.
  rewrite cbor_array_encode. cbn [cbor_error map_err mbind result_bind].
  rewrite cbor_bytes_encode. cbn [cbor_error map_err mbind result_bind].
  rewrite cbor_map_encode. cbn [cbor_error map_err mbind result_bind].
  rewrite cbor_bytes_encode. cbn [cbor_error map_err mbind result_bind].
  rewrite cbor_bytes_encode. cbn [cbor_error map_err mbind result_bind].
  rewrite decode_header_protected. cbn. rewrite wire_round_trip. cbn.
  rewrite wire_round_trip_claims by done. cbn.
  by rewrite !bool_decide_neq_refl.
Qed.

Lemma parse_encoded `{Chrono, Hashes} c key :
  claims_readable c -> length (signing_key key) = 32%nat ->
  parse_and_verify_token (b64_encode (encode_cose_sign1 c key)) (public_key_bytes key) = Ok c.
Proof.
  intros Hc Hk. unfold parse_and_verify_token. rewrite decode_encode_cose_sign1 by done.
  cbn. by rewrite verify_own_signature.
Qed.
End CodecLemmas.

(** ** Properties of tokens *)

(** A minted capability and the claims of its token say the same. *)
Definition claims_match (cap : Capability) (key_id : string) (c : CapabilityClaims) : Prop :=
  cl_v c = 1 /\ cl_aud c = TOKEN_AUDIENCE /\ cl_jti c = cap_capability_id cap /\
  cl_req_id c = cap_request_id cap /\ cl_agent_id c = cap_agent_id cap /\
  cl_cred_id c = cap_credential_id cap /\ cl_action c = cap_action cap /\
  cl_top_origin c = cap_top_origin cap /\ cl_frame_origin c = cap_frame_origin cap /\
  cl_browser_session_id c = cap_browser_session_id cap /\
  cl_extension_key_id c = cap_extension_key_id cap /\ cl_tab_id c = cap_tab_id cap /\
  cl_frame_id c = cap_frame_id cap /\ cl_document_id c = cap_document_id cap /\
  cl_navigation_epoch c = cap_navigation_epoch cap /\ cl_recipe_id c = cap_recipe_id cap /\
  cl_recipe_hash c = cap_recipe_hash cap /\ cl_policy_hash c = cap_policy_hash cap /\
  cl_nbf c = timestamp (cap_issued_at cap) - 1 /\ cl_iat c = timestamp (cap_issued_at cap) /\
  cl_consume_deadline c = timestamp (cap_consume_deadline cap) /\
  cl_execution_deadline c = timestamp (cap_execution_deadline cap) /\
  cl_step_deadline c = timestamp <$> cap_step_deadline cap /\
  cl_flow_id c = cap_flow_id cap /\ cl_step_id c = cap_step_id cap /\
  cl_max_uses c = cap_max_uses cap /\ cl_issuer_key_id c = key_id.

(** The identifiers and origins given to [mint_capability] are in the form their
    parsers accept. *)
Record mint_args_readable `{UrlParser} (a : MintArgs) : Prop := {
  mr_request : id_parse KRequest (id_str (ma_request_id a)) = Ok (ma_request_id a);
  mr_agent : id_parse KAgent (id_str (ma_agent_id a)) = Ok (ma_agent_id a);
  mr_credential : id_parse KCredential (id_str (ma_credential_id a)) = Ok (ma_credential_id a);
  mr_top : origin_parse (origin_as_str (ma_top_origin a)) = Ok (ma_top_origin a);
  mr_frame : origin_parse (origin_as_str (ma_frame_origin a)) = Ok (ma_frame_origin a);
  mr_session : id_parse KBrowserSession (id_str (ma_browser_session_id a))
               = Ok (ma_browser_session_id a);
  mr_recipe : id_parse KRecipe (id_str (ma_recipe_id a)) = Ok (ma_recipe_id a);
  mr_flow b : ma_flow a = Some b ->
    id_parse KFlow (id_str (fb_flow_id b)) = Ok (fb_flow_id b) /\
    id_parse KFlowStep (id_str (fb_step_id b)) = Ok (fb_step_id b)
}.

Section MintProperties.
Context `{ChronoLaws, Hashes, SignatureLaws, CborLaws, Base64Laws, WireLaws, UP : UrlParser}.

Lemma mint_capability_Some key uuid a cap token :
  mint_capability key uuid a = Some (cap, token) ->
  exists cd ed sd,
    add_seconds (ma_issued_at a) (u64_as_i64 (dl_consume_ttl_seconds (ma_deadlines a))) = Some cd /\
    add_seconds (ma_issued_at a) (u64_as_i64 (dl_execution_ttl_seconds (ma_deadlines a))) = Some ed /\
    let claims := mint_claims a (id_new KCapability uuid) cd ed sd in
    token = b64_encode (encode_cose_sign1 claims key) /\
    cap = mint_record a (id_new KCapability uuid) (sha256_digest (as_bytes token)) cd ed sd.
Proof.
  unfold mint_capability. intros Hm.
  apply bind_Some in Hm as (cd & Hcd & Hm). apply bind_Some in Hm as (ed & Hed & Hm).
  apply bind_Some in Hm as (sd & Hsd & Hm). injection Hm as <- <-.
  exists cd, ed, sd. auto.
Qed.

Lemma mint_claims_readable a uuid cd ed sd :
  uuid <> EmptyString -> mint_args_readable a ->
  claims_readable (mint_claims a (id_new KCapability uuid) cd ed sd).
Proof.
  intros Hu []. constructor; try done.
  - by apply id_parse_new.
  - intros f Hf. apply fmap_Some in Hf as (b & Hb & ->). by apply mr_flow0.
  - intros f Hf. apply fmap_Some in Hf as (b & Hb & ->). by apply mr_flow0.
Qed.

(** The token of a fresh capability verifies under the minting key. *)
Lemma minted_token_parses key uuid a cap token :
  length (signing_key key) = 32%nat -> uuid <> EmptyString -> mint_args_readable a ->
  mint_capability key uuid a = Some (cap, token) ->
  exists claims, parse_and_verify_token token (public_key_bytes key) = Ok claims /\
    claims_match cap (ma_issuer_key_id a) claims.
Proof.
  intros Hk Hu Ha Hm. apply mint_capability_Some in Hm as (cd & ed & sd & _ & _ & -> & ->).
  eexists. split; [apply parse_encoded; [by apply mint_claims_readable | done]|].
  by split_and!.
Qed.

(** A token that is minted reads back. Verified with the minting key, and
    through a key ring that registers that key under the issuer's name, it
    yields claims that agree with the stored capability in every field. *)
Theorem minted_token_round_trip key uuid a cap token keys :
  length (signing_key key) = 32%nat -> uuid <> EmptyString -> mint_args_readable a ->
  mint_capability key uuid a = Some (cap, token) ->
  keys !! ma_issuer_key_id a = Some (public_key_bytes key) ->
  exists claims,
    parse_and_verify_token token (public_key_bytes key) = Ok claims /\
    parse_and_verify_token_with_keys token keys = Ok claims /\
    claims_match cap (ma_issuer_key_id a) claims /\
    cap_token_hash cap = sha256_digest (as_bytes token) /\
    cap_state cap = CapabilityState.Issued /\ cap_used_count cap = 0.
Proof.
  intros Hk Hu Ha Hm Hkeys. apply mint_capability_Some in Hm as (cd & ed & sd & _ & _ & -> & ->).
  pose proof (mint_claims_readable a uuid cd ed sd Hu Ha) as Hr.
  eexists. split; [by apply parse_encoded|]. split; [|by split_and!].
  unfold parse_and_verify_token_with_keys. rewrite decode_encode_cose_sign1 by done.
  cbn [mbind result_bind dc_claims]. cbn [cl_issuer_key_id mint_claims]. rewrite Hkeys.
  cbn [ok_or mbind result_bind]. unfold blen, public_key_bytes at 1.
  rewrite length_ed_public by done. cbn [negb Z.eqb].
  rewrite parse_encoded by done. cbn [mbind result_bind]. by rewrite bool_decide_neq_refl.
Qed.
End MintProperties.

Section VerificationProperties.
Context `{Chrono, Hashes, Signatures, Cbor, Base64, WireCodec, UP : UrlParser}.

Lemma parse_and_verify_Ok token pk claims :
  parse_and_verify_token token pk = Ok claims ->
  exists wire sig,
    wire_to_claims wire = Ok claims /\
    verify_signature pk (signature_structure (protected_header (cl_issuer_key_id claims))
      (wire_encode wire)) sig = Ok tt.
Proof.
  unfold parse_and_verify_token. intros Hp.
  apply bind_Ok_inv in Hp as (d & Hd & Hp). apply bind_Ok_inv in Hp as ([] & Hs & Hp).
  apply map_err_Ok in Hs. injection Hp as <-.
  apply decode_cose_sign1_Ok in Hd as (w & Hpl & Hw & Hpr).
  exists w, (dc_signature d). rewrite <-Hpl, <-Hpr. auto.
Qed.

(** A token is accepted through the key ring only under a key registered
    for the issuer its signed header names, of 32 bytes, and with a signature
    by that key over exactly the canonical header and the canonical payload
    the claims are read from: a key that has been retired from the ring, or
    that is registered under another name, verifies nothing. *)
Theorem accepted_token_is_signed token keys claims :
  parse_and_verify_token_with_keys token keys = Ok claims ->
  exists pk wire sig,
    keys !! cl_issuer_key_id claims = Some pk /\ blen pk = 32 /\
    wire_to_claims wire = Ok claims /\
    ed_verify pk (signature_structure (protected_header (cl_issuer_key_id claims))
      (wire_encode wire)) sig = true /\
    (forall keys', keys' !! cl_issuer_key_id claims = None ->
       parse_and_verify_token_with_keys token keys' = Err InvalidSignature).
Proof.
  unfold parse_and_verify_token_with_keys. intros Hp.
  apply bind_Ok_inv in Hp as (d & Hd & Hp). apply bind_Ok_inv in Hp as (pk & Hpk & Hp).
  apply ok_or_Ok in Hpk. destruct (Z.eqb_spec (blen pk) 32) as [Hl|]; [|done]. cbn [negb] in Hp.
  apply bind_Ok_inv in Hp as (v & Hv & Hp).
  case_bool_decide as Hi; [done|]. injection Hp as ->.
  apply parse_and_verify_Ok in Hv as (w & sig & Hw & Hs).
  apply verify_signature_Ok in Hs as (_ & _ & _ & Hs).
  exists pk, w, sig. rewrite Hi. split_and!; try done; [congruence|].
  intros keys' Hk'. rewrite Hd. cbn [mbind result_bind]. rewrite Hk'. done.
Qed.
End VerificationProperties.

(** ** Properties of consumption *)

(** The stored record is the one the claims were signed for. *)
Definition claims_stored (c : Capability) (cl : CapabilityClaims) : Prop :=
  cl_v cl = 1 /\ cl_aud cl = TOKEN_AUDIENCE /\ cl_jti cl = cap_capability_id c /\
  cl_req_id cl = cap_request_id c /\ cl_agent_id cl = cap_agent_id c /\
  cl_cred_id cl = cap_credential_id c /\ cl_action cl = cap_action c /\
  cl_recipe_id cl = cap_recipe_id c /\ cl_recipe_hash cl = cap_recipe_hash c /\
  cl_policy_hash cl = cap_policy_hash c.

(** The page the executor is on is the page the claims name. *)
Definition context_bound (cl : CapabilityClaims) (cx : ExecutionContextSnapshot) : Prop :=
  cl_top_origin cl = sn_top_origin cx /\ cl_frame_origin cl = sn_frame_origin cx /\
  cl_browser_session_id cl = sn_browser_session_id cx /\
  cl_extension_key_id cl = sn_extension_key_id cx /\ cl_tab_id cl = sn_tab_id cx /\
  cl_frame_id cl = sn_frame_id cx /\ cl_document_id cl = sn_document_id cx /\
  cl_navigation_epoch cl = sn_navigation_epoch cx.

(** The consume window is open and a use is left. *)
Definition window_open (c : Capability) (cl : CapabilityClaims) (now : Instant) : Prop :=
  cl_nbf cl <= timestamp now < cl_consume_deadline cl /\ now < cap_consume_deadline c /\
  (cap_state c = CapabilityState.Issued \/ cap_state c = CapabilityState.Active) /\
  cap_used_count c < cap_max_uses c.

Lemma check_stored_claims_Ok c cl :
  check_stored_claims c cl = Ok tt <-> claims_stored c cl.
Proof.
  unfold check_stored_claims, claims_stored.
  destruct (Z.eqb_spec (cl_v cl) 1); cbn [negb orb]; [|naive_solver].
  repeat case_bool_decide; cbn [orb]; naive_solver.
Qed.

Lemma check_context_Ok cl cx : check_context cl cx = Ok tt <-> context_bound cl cx.
Proof.
  unfold check_context, context_bound.
  rewrite <-(origin_matches_eq (cl_top_origin cl)), <-(origin_matches_eq (cl_frame_origin cl)).
  destruct (origin_matches (cl_top_origin cl) _); cbn [negb]; [|naive_solver].
  destruct (origin_matches (cl_frame_origin cl) _); cbn [negb]; [|naive_solver].
  case_bool_decide; [naive_solver|]. case_bool_decide; cbn [orb]; [naive_solver|].
  destruct (Z.eqb_spec (cl_tab_id cl) (sn_tab_id cx)); cbn [negb orb]; [|naive_solver].
  destruct (Z.eqb_spec (cl_frame_id cl) (sn_frame_id cx)); cbn [negb orb]; [|naive_solver].
  case_bool_decide; [naive_solver|].
  destruct (Z.eqb_spec (cl_navigation_epoch cl) (sn_navigation_epoch cx)); cbn [negb];
    naive_solver.
Qed.

(** One attempt to consume: what arrives with it. *)
Record Attempt : Type := {
  at_token : string;
  at_key : list byte;
  at_context : ExecutionContextSnapshot;
  at_now : Instant
}.

Section ConsumptionProperties.
Context `{Chrono, Hashes, Signatures, Cbor, Base64, WireCodec, UP : UrlParser}.

Lemma verify_and_consume_Ok c token pk cx now cl c' :
  verify_and_consume_capability c token pk cx now = (Ok cl, c') <->
  parse_and_verify_token token pk = Ok cl /\ claims_stored c cl /\ window_open c cl now /\
  context_bound cl cx /\ c' = consume_transition c.
Proof.
  unfold verify_and_consume_capability, window_open. split.
  - destruct (parse_and_verify_token token pk) as [k|]; [|done].
    destruct (check_stored_claims c k) as [[]|] eqn:Hs; [|done].
    apply check_stored_claims_Ok in Hs.
    destruct (Z.ltb_spec (timestamp now) (cl_nbf k)); [done|].
    rewrite !Z.geb_leb.
    destruct (Z.leb_spec (cl_consume_deadline k) (timestamp now)); [done|].
    destruct (Z.leb_spec (cap_consume_deadline c) now); [done|].
    destruct (Z.leb_spec (cap_max_uses c) (cap_used_count c)); [by rewrite orb_true_r|].
    destruct (check_context k cx) as [[]|] eqn:Hc; [apply check_context_Ok in Hc|];
      (destruct (cap_state c) eqn:Hst; cbn; try done);
      intros [= <- <-]; split_and!; auto; lia.
  - intros (-> & Hs%check_stored_claims_Ok & ((Hn1 & Hn2) & Hd & Hst & Hu)
      & Hc%check_context_Ok & ->). rewrite Hs, Hc, !Z.geb_leb.
    destruct (Z.ltb_spec (timestamp now) (cl_nbf cl)); [lia|].
    destruct (Z.leb_spec (cl_consume_deadline cl) (timestamp now)); [lia|].
    destruct (Z.leb_spec (cap_consume_deadline c) now); [lia|].
    destruct (Z.leb_spec (cap_max_uses c) (cap_used_count c)); [lia|].
    by destruct Hst as [-> | ->].
Qed.

(** C34: the secret-release check accepts exactly the right requests. It
    succeeds if and only if the token is a signed one whose claims are the
    stored capability's, the consume window is open at [now] on both the
    token's clock and the record's, a use is left on a capability that is
    neither expired nor revoked, and page, frame, session, executor and
    navigation epoch are those the token names; it then counts one use and
    marks the capability consumed when that was the last one. *)
Theorem consume_succeeds_iff_bound c token pk cx now cl c' :
  verify_and_consume_capability c token pk cx now = (Ok cl, c') <->
  parse_and_verify_token token pk = Ok cl /\ claims_stored c cl /\ window_open c cl now /\
  context_bound cl cx /\
  c' = set_capability_status c
    (if cap_used_count c + 1 >=? cap_max_uses c then CapabilityState.Consumed
     else CapabilityState.Active)
    (cap_used_count c + 1) (cap_revoked_reason c).
Proof. apply verify_and_consume_Ok. Qed.

Lemma consume_failure c token pk cx now e c' :
  verify_and_consume_capability c token pk cx now = (Err e, c') ->
  c' = c \/ c' = set_state c CapabilityState.Expired.
Proof.
  unfold verify_and_consume_capability. intros Hc.
  repeat (case_in Hc; try discriminate Hc; try (injection Hc as _ <-; auto)).
Qed.

(** A sequence of attempts on one capability: the results in order. *)
Fixpoint consume_all (c : Capability) (attempts : list Attempt) :
    list (result CapabilityError CapabilityClaims) * Capability :=
  match attempts with
  | [] => ([], c)
  | a :: attempts =>
      let '(r, c) := verify_and_consume_capability c (at_token a) (at_key a)
                       (at_context a) (at_now a) in
      let '(rs, c) := consume_all c attempts in
      (r :: rs, c)
  end.

Definition successes (rs : list (result CapabilityError CapabilityClaims)) : Z :=
  Z.of_nat (length (List.filter is_ok rs)).

Lemma consume_all_counts attempts : forall c rs c',
  cap_used_count c <= cap_max_uses c ->
  consume_all c attempts = (rs, c') ->
  cap_max_uses c' = cap_max_uses c /\
  cap_used_count c' = cap_used_count c + successes rs /\
  cap_used_count c' <= cap_max_uses c'.
Proof.
  induction attempts as [|a attempts IH]; intros c rs c' Hc Hr; simpl in Hr.
  - injection Hr as <- <-. unfold successes. simpl. lia.
  - destruct (verify_and_consume_capability c _ _ _ _) as [r c1] eqn:Hv.
    destruct (consume_all c1 attempts) as [rs1 c2] eqn:Hrs. injection Hr as <- <-.
    assert (cap_max_uses c1 = cap_max_uses c /\ cap_used_count c1 <= cap_max_uses c1 /\
      cap_used_count c1 = cap_used_count c + (if is_ok r then 1 else 0)) as (Hm & Hu & Hn).
    { destruct r as [cl|e]; cbn [is_ok].
      - apply verify_and_consume_Ok in Hv as (_ & _ & (_ & _ & _ & Hlt) & _ & ->).
        cbn. split_and!; lia.
      - apply consume_failure in Hv as [-> | ->]; cbn; split_and!; lia. }
    apply IH in Hrs as (Hm' & Hn' & Hu'); [|done]. rewrite Hm', Hm, Hn', Hn.
    unfold successes in *. destruct r; simpl in *; split_and!; lia.
Qed.

(** A capability releases at most [max_uses] secrets in its whole life.
    Over any sequence of attempts, with whatever tokens, keys, pages and
    clock readings, the successes together with the uses already counted
    never exceed [max_uses], the stored counter is exactly their number, and
    once they reach it every further attempt fails. *)
Theorem capability_uses_bounded c attempts rs c' :
  cap_used_count c <= cap_max_uses c ->
  consume_all c attempts = (rs, c') ->
  cap_used_count c + successes rs <= cap_max_uses c /\
  cap_used_count c' = cap_used_count c + successes rs /\
  (cap_used_count c + successes rs = cap_max_uses c ->
   forall a, is_ok (fst (verify_and_consume_capability c' (at_token a) (at_key a)
                           (at_context a) (at_now a))) = false).
Proof.
  intros Hc Hr. pose proof (consume_all_counts _ _ _ _ Hc Hr) as (Hm & Hn & Hu).
  split_and!; [lia..|]. intros Heq a.
  destruct (verify_and_consume_capability c' _ _ _ _) as [[cl|e] c2] eqn:Hv; [|done].
  apply verify_and_consume_Ok in Hv as (_ & _ & (_ & _ & _ & Hlt) & _). lia.
Qed.
End ConsumptionProperties.

(** ** Witnesses *)

(** A concrete wire codec: the twenty-seven fields, each escaped. *)
Definition value_bytes {A : Type} `{Countable A} (a : A) : list byte := as_bytes (print_via a).
Definition value_of {A : Type} `{Countable A} (l : list byte) : option A :=
  parse_via (from_bytes l).

Definition wire_fields (w : CapabilityClaimsWire) : list (list byte) :=
  [value_bytes (w_v w); as_bytes (w_aud w); as_bytes (w_jti w); as_bytes (w_req_id w);
   as_bytes (w_agent_id w); as_bytes (w_cred_id w); as_bytes (w_action w);
   as_bytes (w_top_origin w); as_bytes (w_frame_origin w); as_bytes (w_browser_session_id w);
   as_bytes (w_extension_key_id w); value_bytes (w_tab_id w); value_bytes (w_frame_id w);
   as_bytes (w_document_id w); value_bytes (w_navigation_epoch w); as_bytes (w_recipe_id w);
   w_recipe_hash w; w_policy_hash w; value_bytes (w_nbf w); value_bytes (w_iat w);
   value_bytes (w_consume_deadline w); value_bytes (w_max_uses w); as_bytes (w_issuer_key_id w);
   value_bytes (w_execution_deadline w); value_bytes (w_flow_id w); value_bytes (w_step_id w);
   value_bytes (w_step_deadline w)].

Definition wire_of_fields (fields : list (list byte)) : option CapabilityClaimsWire :=
  match fields with
  | [v; aud; jti; req; agent; cred; action; top; frame; session; ext; tab; fr; doc; epoch;
     recipe; rhash; phash; nbf; iat; cd; max; issuer; ed; flow; step; sd] =>
      v ← value_of v; tab ← value_of tab; fr ← value_of fr; epoch ← value_of epoch;
      nbf ← value_of nbf; iat ← value_of iat; cd ← value_of cd; max ← value_of max;
      ed ← value_of ed; flow ← value_of flow; step ← value_of step; sd ← value_of sd;
      Some {| w_v := v; w_aud := from_bytes aud; w_jti := from_bytes jti;
        w_req_id := from_bytes req; w_agent_id := from_bytes agent;
        w_cred_id := from_bytes cred; w_action := from_bytes action;
        w_top_origin := from_bytes top; w_frame_origin := from_bytes frame;
        w_browser_session_id := from_bytes session; w_extension_key_id := from_bytes ext;
        w_tab_id := tab; w_frame_id := fr; w_document_id := from_bytes doc;
        w_navigation_epoch := epoch; w_recipe_id := from_bytes recipe;
        w_recipe_hash := rhash; w_policy_hash := phash; w_nbf := nbf; w_iat := iat;
        w_consume_deadline := cd; w_max_uses := max; w_issuer_key_id := from_bytes issuer;
        w_execution_deadline := ed; w_flow_id := flow; w_step_id := step;
        w_step_deadline := sd |}
  | _ => None
  end.

Fixpoint unescape_fields (n : nat) (l : list byte) : option (list (list byte)) :=
  match n with
  | O => match l with [] => Some [] | _ => None end
  | S n => '(x, r) ← unescape l; xs ← unescape_fields n r; Some (x :: xs)
  end.

#[global] Instance concrete_wire : WireCodec := {
  wire_encode w := concat (map escape (wire_fields w));
  wire_decode l := ok_or "decode error" (fs ← unescape_fields 27 l; wire_of_fields fs)
}.

Lemma unescape_fields_concat (fs : list (list byte)) :
  unescape_fields (length fs) (concat (map escape fs)) = Some fs.
Proof. induction fs as [|f fs IH]; simpl; [done|]. rewrite unescape_escape. simpl. by rewrite IH. Qed.

Lemma value_of_bytes {A : Type} `{Countable A} (a : A) : value_of (value_bytes a) = Some a.
Proof. unfold value_of, value_bytes. by rewrite from_as_bytes, parse_print_via. Qed.

#[global] Instance concrete_wire_laws : WireLaws.
Proof.
  constructor. intros w. cbn [wire_encode wire_decode concrete_wire].
  change 27%nat with (length (wire_fields w)). rewrite unescape_fields_concat.
  destruct w. cbn [mbind option_bind wire_fields wire_of_fields w_v w_aud w_jti w_req_id
    w_agent_id w_cred_id w_action w_top_origin w_frame_origin w_browser_session_id
    w_extension_key_id w_tab_id w_frame_id w_document_id w_navigation_epoch w_recipe_id
    w_recipe_hash w_policy_hash w_nbf w_iat w_consume_deadline w_max_uses w_issuer_key_id
    w_execution_deadline w_flow_id w_step_id w_step_deadline].
  do 12 (rewrite value_of_bytes; cbn [mbind option_bind]). by rewrite !from_as_bytes.
Qed.

Definition example_broker_key : KeyPair := {| signing_key := replicate 32 Byte.x05 |}.
Definition example_origin : CanonicalOrigin := MkOrigin "https" "github.com" 443.

Definition example_mint_args : MintArgs := {|
  ma_issuer_key_id := "k1"; ma_request_id := MkId "req_1"; ma_agent_id := MkId "agent_1";
  ma_credential_id := MkId "cred_1"; ma_action := AuthenticatePassword;
  ma_top_origin := example_origin; ma_frame_origin := example_origin;
  ma_browser_session_id := MkId "bs_1"; ma_extension_key_id := "ext"; ma_tab_id := 42;
  ma_frame_id := 0; ma_document_id := "doc"; ma_navigation_epoch := 1;
  ma_recipe_id := MkId "rcp_login"; ma_recipe_hash := [Byte.x01]; ma_policy_hash := [Byte.x02];
  ma_issued_at := 1700000000 * nanos_per_second;
  ma_deadlines := {| dl_consume_ttl_seconds := 30; dl_execution_ttl_seconds := 120;
                     dl_step_ttl_seconds := None |};
  ma_flow := None; ma_max_uses := 1 |}.

Definition example_minted : option (Capability * string) :=
  mint_capability example_broker_key "1" example_mint_args.
Definition example_token : string := default "" (snd <$> example_minted).
Definition example_capability : Capability :=
  match example_minted with
  | Some (c, _) => c
  | None => mint_record example_mint_args (MkId "") [] 0 0 None
  end.
Definition example_snapshot : ExecutionContextSnapshot := {|
  sn_top_origin := example_origin; sn_frame_origin := example_origin;
  sn_browser_session_id := MkId "bs_1"; sn_extension_key_id := "ext"; sn_tab_id := 42;
  sn_frame_id := 0; sn_document_id := "doc"; sn_navigation_epoch := 1 |}.
Definition example_keys : gmap string (list byte) :=
  {["k1" := public_key_bytes example_broker_key]}.

Lemma minted_token_round_trip_witness :
  exists claims, parse_and_verify_token_with_keys example_token example_keys = Ok claims.
Proof.
  destruct (minted_token_round_trip example_broker_key "1" example_mint_args example_capability
    example_token example_keys) as (cl & _ & H & _); [vm_compute; reflexivity | done | |
    vm_compute; reflexivity | vm_compute; reflexivity | by exists cl].
  by constructor; vm_compute.
Defined.

Definition example_claims : CapabilityClaims :=
  mint_claims example_mint_args (MkId "cap_1") (cap_consume_deadline example_capability)
    (cap_execution_deadline example_capability) None.

Lemma accepted_token_is_signed_witness :
  exists pk, example_keys !! "k1" = Some pk /\ blen pk = 32.
Proof.
  destruct (accepted_token_is_signed example_token example_keys example_claims)
    as (pk & _ & _ & H & Hl & _); [vm_compute; reflexivity|]. by exists pk.
Defined.

Definition example_attempts : list Attempt :=
  replicate 2 {| at_token := example_token; at_key := public_key_bytes example_broker_key;
    at_context := example_snapshot; at_now := 1700000005 * nanos_per_second |}.

Lemma capability_uses_bounded_witness :
  map is_ok (fst (consume_all example_capability example_attempts)) = [true; false] /\
  cap_used_count (snd (consume_all example_capability example_attempts)) = 1.
Proof.
  split; [vm_compute; reflexivity|].
  destruct (capability_uses_bounded example_capability example_attempts
    (fst (consume_all example_capability example_attempts))
    (snd (consume_all example_capability example_attempts))) as (_ & H & _);
    [vm_compute; discriminate | by destruct (consume_all _ _) | ].
  rewrite H. vm_compute. reflexivity.
Defined.
