(* ===== verification/Provider.v ===== *)
(** * Provider: where secrets are kept

    Models the trait [SecretProvider] of [secretctl-providers/src/traits.rs] as
    a class over the provider's state, and the in-memory implementation of
    [memory.rs] as an instance. The laws are what the callers of the trait rely
    on; the instance satisfies them, and so do the providers of the platforms in
    [Keychain.v]. *)

From S2P Require Import Prelude.
From S2P Require Import Crypto.

(** ** Errors ([error.rs]) *)

Inductive ProviderError : Type :=
| SecretNotFound (locator : string)
| AuthenticationFailed
| Unavailable (message : string)
| StorageFailed (message : string)
| Internal (message : string).

(** ** The trait ([traits.rs]) *)

(** A call returns its result and the state it leaves the provider in. *)
Class SecretProvider (P : Type) := {
  provider_name : P -> string;
  get_secret : string -> P -> result ProviderError SecretBytes * P;
  store_secret : string -> list byte -> P -> result ProviderError unit * P;
  delete_secret : string -> P -> result ProviderError unit * P;
  exists_secret : string -> P -> result ProviderError bool
}.

(** What clients rely on: a stored secret reads back, a deleted one is gone, and
    neither call, nor a read, touches another locator. [secret_at] is what a
    read would find. *)
Definition secret_at {P : Type} `{SecretProvider P} (locator : string) (p : P) :
    option (list byte) := secret_as_bytes <$> result_ok (fst (get_secret locator p)).

Class SecretProviderLaws (P : Type) `{SecretProvider P} := {
  stored_reads_back l b p :
    is_ok (fst (store_secret l b p)) = true -> secret_at l (snd (store_secret l b p)) = Some b;
  deleted_is_gone l p :
    is_ok (fst (delete_secret l p)) = true -> secret_at l (snd (delete_secret l p)) = None;
  store_other l l' b p : l <> l' -> secret_at l' (snd (store_secret l b p)) = secret_at l' p;
  delete_other l l' p : l <> l' -> secret_at l' (snd (delete_secret l p)) = secret_at l' p;
  get_keeps l l' p : secret_at l' (snd (get_secret l p)) = secret_at l' p
}.

(** ** The in-memory provider ([memory.rs]) *)

Record MemorySecretProvider : Type := {
  mp_store : gmap string (list byte);
  mp_retrieval_count : Z
}.

Definition memory_new : MemorySecretProvider := {| mp_store := ∅; mp_retrieval_count := 0 |}.

Definition memory_get_secret (locator : string) (p : MemorySecretProvider) :
    result ProviderError SecretBytes * MemorySecretProvider :=
  match mp_store p !! locator with
  | None => (Err (SecretNotFound locator), p)
  | Some bytes =>
      (Ok {| secret_data := bytes |},
       {| mp_store := mp_store p; mp_retrieval_count := wrap_u64 (mp_retrieval_count p + 1) |})
  end.

Definition memory_store_secret (locator : string) (secret : list byte)
    (p : MemorySecretProvider) : result ProviderError unit * MemorySecretProvider :=
  (Ok tt, {| mp_store := <[locator := secret]> (mp_store p);
             mp_retrieval_count := mp_retrieval_count p |}).

Definition memory_delete_secret (locator : string) (p : MemorySecretProvider) :
    result ProviderError unit * MemorySecretProvider :=
  (Ok tt, {| mp_store := delete locator (mp_store p);
             mp_retrieval_count := mp_retrieval_count p |}).

Definition memory_exists (locator : string) (p : MemorySecretProvider) :
    result ProviderError bool := Ok (bool_decide (is_Some (mp_store p !! locator))).

#[global] Instance memory_provider : SecretProvider MemorySecretProvider := {
  provider_name _ := "memory";
  get_secret := memory_get_secret;
  store_secret := memory_store_secret;
  delete_secret := memory_delete_secret;
  exists_secret := memory_exists
}.

Lemma memory_secret_at (locator : string) (p : MemorySecretProvider) :
  secret_at locator p = mp_store p !! locator.
Proof.
  unfold secret_at. cbn [get_secret memory_provider]. unfold memory_get_secret.
  by destruct (mp_store p !! locator).
Qed.

#[global] Instance memory_provider_laws : SecretProviderLaws MemorySecretProvider.
Proof.
  split; intros; rewrite ?memory_secret_at; cbn [snd store_secret delete_secret get_secret
    memory_provider memory_store_secret memory_delete_secret mp_store].
  - by rewrite lookup_insert_eq.
  - by rewrite lookup_delete_eq.
  - by rewrite lookup_insert_ne.
  - by rewrite lookup_delete_ne.
  - unfold memory_get_secret. by destruct (mp_store p !! l).
Qed.
