(* ===== verification/Keychain.v ===== *)
(** * Keychain: the key stores of the platforms

    Models [secretctl-provider-macos/src/lib.rs], the provider over the macOS
    Keychain, whose calls are an interface with the documented behaviour as laws,
    and the providers that are not there yet: [secretctl-provider-linux],
    [secretctl-provider-windows] and the Keychain provider on another system. *)

From S2P Require Import Prelude.
From S2P Require Import Crypto.
From S2P Require Import Provider.

(** ** The Keychain *)

(** A call runs on a worker, which may be lost ([JoinError]); a refusal is an
    [OSStatus]. *)
Inductive WorkerResult (A : Type) : Type :=
| Returned (a : A)
| Refused (code : Z)
| WorkerLost.
Arguments Returned {A} a.
Arguments Refused {A} code.
Arguments WorkerLost {A}.

Definition ERR_ITEM_NOT_FOUND : Z := -25300.
Definition ERR_AUTH_FAILED : Z := -25293.

Class KeychainServices (K : Type) := {
  get_generic_password : string -> string -> K -> WorkerResult (list byte) * K;
  set_generic_password : string -> string -> list byte -> K -> WorkerResult unit * K;
  delete_generic_password : string -> string -> K -> WorkerResult unit * K
}.

(** What an item reads as. *)
Definition item {K : Type} `{KeychainServices K} (service account : string) (k : K) :
    option (list byte) :=
  match fst (get_generic_password service account k) with
  | Returned bytes => Some bytes
  | _ => None
  end.

Class KeychainLaws (K : Type) `{KeychainServices K} := {
  set_reads_back service account b k :
    fst (set_generic_password service account b k) = Returned tt ->
    item service account (snd (set_generic_password service account b k)) = Some b;
  deleted_item service account k :
    fst (delete_generic_password service account k) = Returned tt ->
    item service account (snd (delete_generic_password service account k)) = None;
  set_other service account account' b k : account <> account' ->
    item service account' (snd (set_generic_password service account b k)) = item service account' k;
  delete_other_item service account account' k : account <> account' ->
    item service account' (snd (delete_generic_password service account k)) = item service account' k;
  get_same service account account' k :
    item service account' (snd (get_generic_password service account k)) = item service account' k
}.

(** ** The provider over it *)

Record MacOsKeychainProvider {K : Type} : Type := { kc_service : string; kc_keychain : K }.
Arguments MacOsKeychainProvider : clear implicits.

Definition DEFAULT_MACOS_SERVICE : string := "secretctl".
(** [MacOsKeychainProvider::new], with the variable [SECRETCTL_PROVIDER_SERVICE]. *)
Definition keychain_new {K : Type} (variable : option string) (k : K) : MacOsKeychainProvider K := {|
  kc_service := default DEFAULT_MACOS_SERVICE variable; kc_keychain := k |}.

Definition WORKER_FAILED : ProviderError := Internal "Keychain worker failed".

Section Keychain.
Context {K : Type} `{KeychainServices K}.
Implicit Type p : MacOsKeychainProvider K.

Definition with_keychain p (k : K) : MacOsKeychainProvider K := {|
  kc_service := kc_service p; kc_keychain := k |}.

(** The result of the worker, with the refusals read as they are for the call. *)
Definition joined {A B : Type} (refusal : Z -> ProviderError) (ok : A -> B) (r : WorkerResult A) :
    result ProviderError B :=
  match r with
  | Returned a => Ok (ok a)
  | Refused code => Err (refusal code)
  | WorkerLost => Err WORKER_FAILED
  end.

Definition retrieval_refusal (locator : string) (code : Z) : ProviderError :=
  if code =? ERR_ITEM_NOT_FOUND then SecretNotFound locator
  else if code =? ERR_AUTH_FAILED then AuthenticationFailed
  else StorageFailed "macOS Keychain retrieval failed".
Definition deletion_refusal (locator : string) (code : Z) : ProviderError :=
  if code =? ERR_ITEM_NOT_FOUND then SecretNotFound locator
  else StorageFailed "macOS Keychain deletion failed".

Definition keychain_get (locator : string) p :
    result ProviderError SecretBytes * MacOsKeychainProvider K :=
  let '(r, k) := get_generic_password (kc_service p) locator (kc_keychain p) in
  (joined (retrieval_refusal locator) (fun bytes => {| secret_data := bytes |}) r, with_keychain p k).
Definition keychain_store (locator : string) (secret : list byte) p :
    result ProviderError unit * MacOsKeychainProvider K :=
  let '(r, k) := set_generic_password (kc_service p) locator secret (kc_keychain p) in
  (joined (fun _ => StorageFailed "macOS Keychain storage failed") id r, with_keychain p k).
Definition keychain_delete (locator : string) p :
    result ProviderError unit * MacOsKeychainProvider K :=
  let '(r, k) := delete_generic_password (kc_service p) locator (kc_keychain p) in
  (joined (deletion_refusal locator) id r, with_keychain p k).
Definition keychain_exists (locator : string) p : result ProviderError bool :=
  match fst (get_generic_password (kc_service p) locator (kc_keychain p)) with
  | Returned _ => Ok true
  | Refused code =>
      if code =? ERR_ITEM_NOT_FOUND then Ok false
      else Err (StorageFailed "macOS Keychain lookup failed")
  | WorkerLost => Err WORKER_FAILED
  end.

#[export] Instance keychain_provider : SecretProvider (MacOsKeychainProvider K) := {
  provider_name _ := "macos-keychain";
  get_secret := keychain_get;
  store_secret := keychain_store;
  delete_secret := keychain_delete;
  exists_secret := keychain_exists
}.

Lemma keychain_secret_at locator p :
  secret_at locator p = item (kc_service p) locator (kc_keychain p).
Proof.
  unfold secret_at, item. cbn [get_secret keychain_provider]. unfold keychain_get.
  destruct (get_generic_password _ _ _) as [[] k]; reflexivity.
Qed.

(** After a call the provider holds what the Keychain then holds. *)
Lemma keychain_get_after l l' p :
  secret_at l' (snd (keychain_get l p))
  = item (kc_service p) l' (snd (get_generic_password (kc_service p) l (kc_keychain p))).
Proof.
  unfold keychain_get. destruct (get_generic_password _ _ _) as [r k].
  by rewrite keychain_secret_at.
Qed.
Lemma keychain_store_after l l' b p :
  secret_at l' (snd (keychain_store l b p))
  = item (kc_service p) l' (snd (set_generic_password (kc_service p) l b (kc_keychain p))) /\
  (is_ok (fst (keychain_store l b p)) = true ->
     fst (set_generic_password (kc_service p) l b (kc_keychain p)) = Returned tt).
Proof.
  unfold keychain_store. destruct (set_generic_password _ _ _ _) as [[[]| |] k];
    by rewrite keychain_secret_at.
Qed.
Lemma keychain_delete_after l l' p :
  secret_at l' (snd (keychain_delete l p))
  = item (kc_service p) l' (snd (delete_generic_password (kc_service p) l (kc_keychain p))) /\
  (is_ok (fst (keychain_delete l p)) = true ->
     fst (delete_generic_password (kc_service p) l (kc_keychain p)) = Returned tt).
Proof.
  unfold keychain_delete. destruct (delete_generic_password _ _ _) as [[[]| |] k];
    by rewrite keychain_secret_at.
Qed.

#[export] Instance keychain_provider_laws `{!KeychainLaws K} :
  SecretProviderLaws (MacOsKeychainProvider K).
Proof.
  split; cbn [get_secret store_secret delete_secret keychain_provider].
  - intros l b p. destruct (keychain_store_after l l b p) as [-> Hr]. auto using set_reads_back.
  - intros l p. destruct (keychain_delete_after l l p) as [-> Hr]. auto using deleted_item.
  - intros l l' b p Hl. destruct (keychain_store_after l l' b p) as [-> _].
    rewrite keychain_secret_at. by apply set_other.
  - intros l l' p Hl. destruct (keychain_delete_after l l' p) as [-> _].
    rewrite keychain_secret_at. by apply delete_other_item.
  - intros l l' p. rewrite keychain_get_after, keychain_secret_at. apply get_same.
Qed.

(** The provider knows what it holds. *)
Lemma keychain_exists_agrees locator p b :
  exists_secret locator p = Ok b -> b = bool_decide (is_Some (secret_at locator p)).
Proof.
  rewrite keychain_secret_at. unfold item. cbn. unfold keychain_exists.
  destruct (fst _) as [bytes|code|]; [intros [= <-]; done| |done].
  destruct (code =? _); [intros [= <-]; done|done].
Qed.
End Keychain.

(** ** The providers that are not there *)

(** What a retrieval, another call and [exists] answer. *)
Record PendingProvider : Type := {
  pp_name : string;
  pp_retrieval : string -> string;
  pp_call : string;
  pp_exists : result ProviderError bool
}.

Definition linux_message : string :=
  "Linux Secret Service support is pending; the current release target is macOS".
Definition windows_message : string :=
  "Windows Credential Manager support is pending; the current release target is macOS".
Definition keychain_message : string := "macOS Keychain is not supported on this platform".

Definition linux_provider : PendingProvider := {|
  pp_name := "linux-secret-service"; pp_retrieval _ := linux_message; pp_call := linux_message;
  pp_exists := Err (Unavailable linux_message) |}.
Definition windows_provider : PendingProvider := {|
  pp_name := "windows-credential-manager"; pp_retrieval _ := windows_message;
  pp_call := windows_message; pp_exists := Err (Unavailable windows_message) |}.
Definition keychain_stub : PendingProvider := {|
  pp_name := "macos-keychain-stub";
  pp_retrieval locator := keychain_message +:+ ": " +:+ locator; pp_call := keychain_message;
  pp_exists := Ok false |}.

#[export] Instance pending_provider : SecretProvider PendingProvider := {
  provider_name := pp_name;
  get_secret locator p := (Err (Unavailable (pp_retrieval p locator)), p);
  store_secret _ _ p := (Err (Unavailable (pp_call p)), p);
  delete_secret _ p := (Err (Unavailable (pp_call p)), p);
  exists_secret _ p := pp_exists p
}.
#[export] Instance pending_provider_laws : SecretProviderLaws PendingProvider.
Proof. by split. Qed.
