(* ===== verification/Table.v ===== *)
(** * Table: what the SQL statements of the store mean

    A table is the list of its rows in insertion order. This file gives the
    statements the store issues their meaning on such lists: an insertion that
    respects the table's uniqueness constraints, conditional updates and
    deletions that count the rows they change, and ordered selections. *)

From Stdlib Require Import Sorted.
From S2P Require Import Prelude.

Section Statements.
Context {R : Type}.

(** [INSERT]: [None] when the row violates a PRIMARY KEY or UNIQUE constraint
    with a row already there. *)
Definition insert_row (conflicts : R -> R -> bool) (row : R) (rows : list R) : option (list R) :=
  if existsb (conflicts row) rows then None else Some (rows ++ [row]).

(** [UPDATE ... WHERE p]: the rows after it. *)
Definition update_where (p : R -> bool) (f : R -> R) (rows : list R) : list R :=
  map (fun row => if p row then f row else row) rows.

(** The number of rows a [WHERE] clause selects. *)
Definition count_where (p : R -> bool) (rows : list R) : Z :=
  Z.of_nat (length (List.filter p rows)).

(** [DELETE FROM ... WHERE p]. *)
Definition delete_where (p : R -> bool) (rows : list R) : list R :=
  List.filter (fun row => negb (p row)) rows.

(** [SELECT ... WHERE p], and its first row. *)
Definition select_where (p : R -> bool) (rows : list R) : list R := List.filter p rows.
Definition select_first (p : R -> bool) (rows : list R) : option R := List.find p rows.

(** [ORDER BY]: a stable sort. *)
Fixpoint insert_ordered (le : R -> R -> bool) (row : R) (rows : list R) : list R :=
  match rows with
  | [] => [row]
  | r :: rows => if le row r then row :: r :: rows else r :: insert_ordered le row rows
  end.
Definition order_by (le : R -> R -> bool) (rows : list R) : list R :=
  fold_right (insert_ordered le) [] rows.

(** ** Lemmas *)

Lemma insert_row_Some conflicts row rows rows' :
  insert_row conflicts row rows = Some rows' <->
  rows' = rows ++ [row] /\ forall r, r ∈ rows -> conflicts row r = false.
Proof.
  unfold insert_row. destruct (existsb (conflicts row) rows) eqn:E.
  - apply existsb_exists in E as (r & Hin & Hr). split; [done|].
    intros [_ Hall]. apply list_elem_of_In in Hin. apply Hall in Hin. congruence.
  - split.
    + intros [= <-]. split; [done|]. intros r Hr. apply not_true_iff_false. intros Hc.
      apply not_true_iff_false in E. apply E. apply existsb_exists. exists r.
      split; [by apply list_elem_of_In | done].
    + by intros [-> _].
Qed.

Lemma length_update_where p f rows : length (update_where p f rows) = length rows.
Proof. apply length_map. Qed.

Lemma elem_of_update_where p f rows r :
  r ∈ update_where p f rows <->
  exists r0, r0 ∈ rows /\ r = if p r0 then f r0 else r0.
Proof.
  unfold update_where. rewrite list_elem_of_In, in_map_iff.
  split; intros (r0 & H1 & H2); exists r0; (split; [|try done]); try by apply list_elem_of_In.
  all: try done. all: by apply list_elem_of_In.
Qed.

Lemma update_where_none p f rows :
  (forall r, r ∈ rows -> p r = false) -> update_where p f rows = rows.
Proof.
  induction rows as [|r rows IH]; intros H; [done|]. unfold update_where in *. simpl.
  rewrite (H r) by set_solver. f_equal. apply IH. set_solver.
Qed.

(** A column an update does not touch keeps its values, in order. *)
Lemma map_update_where {K : Type} (key : R -> K) p f rows :
  (forall r, p r = true -> key (f r) = key r) ->
  map key (update_where p f rows) = map key rows.
Proof.
  intros H. unfold update_where. rewrite map_map. apply map_ext. intros r.
  destruct (p r) eqn:E; [by apply H | done].
Qed.

Lemma count_where_zero p rows :
  count_where p rows = 0 <-> forall r, r ∈ rows -> p r = false.
Proof.
  unfold count_where. split.
  - intros H r Hr. destruct (p r) eqn:E; [|done].
    assert (In r (List.filter p rows)) as Hin by (apply filter_In; by rewrite <-list_elem_of_In).
    destruct (List.filter p rows); [done | simpl in H; lia].
  - intros H. induction rows as [|r rows IH]; [done|]. simpl.
    rewrite (H r) by set_solver. apply IH. set_solver.
Qed.

Lemma count_where_le {K : Type} (key : R -> K) p rows :
  NoDup (map key rows) -> (forall r1 r2, p r1 = true -> p r2 = true -> key r1 = key r2) ->
  0 <= count_where p rows <= 1.
Proof.
  unfold count_where. induction rows as [|r rows IH]; intros Hd Hp; [simpl; lia|].
  simpl in *. inversion Hd as [|? ? Hn Hd']; subst. clear Hd. rename Hd' into Hd. specialize (IH Hd Hp).
  destruct (p r) eqn:E; simpl; [|lia].
  assert (Hz : count_where p rows = 0).
  { apply count_where_zero. intros r' Hr'. apply not_true_iff_false. intros E'.
    apply Hn. rewrite (Hp r r' E E'). rewrite list_elem_of_In. apply in_map.
    by apply list_elem_of_In. }
  unfold count_where in Hz. lia.
Qed.

Lemma select_first_Some p rows r :
  select_first p rows = Some r -> r ∈ rows /\ p r = true.
Proof. intros H. apply find_some in H as [Hin Hp]. by rewrite list_elem_of_In. Qed.

Lemma select_first_None p rows :
  select_first p rows = None <-> forall r, r ∈ rows -> p r = false.
Proof.
  unfold select_first. split.
  - intros H r Hr. apply (find_none p rows H). by apply list_elem_of_In.
  - intros H. destruct (List.find p rows) as [r|] eqn:E; [|done].
    apply find_some in E as [Hin Hp]. apply list_elem_of_In in Hin. apply H in Hin. congruence.
Qed.

Lemma select_first_app p l1 l2 :
  select_first p (l1 ++ l2) =
  match select_first p l1 with Some r => Some r | None => select_first p l2 end.
Proof.
  unfold select_first. induction l1 as [|r l1 IH]; simpl; [done|]. by destruct (p r).
Qed.

Lemma insert_ordered_perm le row rows : insert_ordered le row rows ≡ₚ row :: rows.
Proof.
  induction rows as [|r rows IH]; simpl; [done|]. destruct (le row r); [done|].
  rewrite IH. apply Permutation_swap.
Qed.

Lemma order_by_perm le rows : order_by le rows ≡ₚ rows.
Proof.
  unfold order_by. induction rows as [|r rows IH]; simpl; [done|].
  by rewrite insert_ordered_perm, IH.
Qed.

(** The greatest row, when it stands last, comes first in the other order. *)
Lemma order_by_last le rows row :
  (forall r, r ∈ rows -> le r row = false) -> head (order_by le (rows ++ [row])) = Some row.
Proof.
  unfold order_by. rewrite fold_right_app. cbn [fold_right insert_ordered].
  induction rows as [|r rows IH]; intros H; [done|]. cbn [fold_right].
  specialize (IH ltac:(set_solver)).
  destruct (fold_right (insert_ordered le) [row] rows) as [|r' l]; [done|].
  injection IH as ->. cbn [insert_ordered]. rewrite (H r) by set_solver. done.
Qed.

(** Rows already in order stay as they are. *)
(** Under a total order the result is sorted. *)
Lemma order_by_Sorted le rows :
  (forall a b, le a b = true \/ le b a = true) -> Sorted (fun a b => le a b = true) (order_by le rows).
Proof.
  intros Ht. unfold order_by. induction rows as [|r rows IH]; cbn; [constructor|].
  set (l := fold_right _ _ _) in *. clearbody l. clear rows.
  induction IH as [|a l IH' IHl Hh]; cbn; [by repeat constructor|].
  destruct (le r a) eqn:E; [by repeat constructor|]. constructor; [done|].
  destruct (Ht r a) as [|Ha]; [congruence|].
  destruct l as [|b l]; cbn; [by constructor|]. destruct (le r b); constructor; [done|].
  by inversion Hh.
Qed.

Lemma order_by_sorted le rows :
  StronglySorted (fun a b => le a b = true) rows -> order_by le rows = rows.
Proof.
  unfold order_by. induction 1 as [|r rows Hs IH Hle]; simpl; [done|]. rewrite IH.
  destruct rows as [|r' rows]; [done|]. simpl.
  apply Forall_cons_1 in Hle as [-> _]. done.
Qed.
End Statements.

(** ** Tables whose settled rows are final

    [table_change key open] relates the rows before and after an operation that
    leaves the table alone, adds a row with a fresh key, or updates rows that
    are still open without touching their key. *)

Section Change.
Context {R K : Type} (key : R -> K) (open : R -> bool).

Inductive table_change (rows : list R) : list R -> Prop :=
| tc_same : table_change rows rows
| tc_insert row : (forall r, r ∈ rows -> key row <> key r) -> table_change rows (rows ++ [row])
| tc_update p f :
    (forall r, p r = true -> open r = true /\ key (f r) = key r) ->
    table_change rows (update_where p f rows).

Lemma table_change_keys rows rows' :
  table_change rows rows' -> NoDup (map key rows) -> NoDup (map key rows').
Proof.
  intros Hc Hd. destruct Hc as [|row Hf|p f Hu]; [done| |].
  - rewrite map_app. apply list.NoDup_app. split_and!; [done| |apply NoDup_singleton].
    intros k Hk Hk'. simpl in Hk'. apply list_elem_of_singleton in Hk' as ->.
    apply list_elem_of_In, in_map_iff in Hk as (r & Hk & Hr).
    apply list_elem_of_In in Hr. by apply Hf in Hr.
  - rewrite map_update_where; [done|]. intros r Hp. by apply Hu.
Qed.

(** A settled row stays as it is. *)
Lemma table_change_settled rows rows' r :
  table_change rows rows' -> r ∈ rows -> open r = false -> r ∈ rows'.
Proof.
  intros Hc Hr Ho. destruct Hc as [|row Hf|p f Hu]; [done|set_solver|].
  apply elem_of_update_where. exists r. split; [done|].
  destruct (p r) eqn:E; [|done]. apply Hu in E as [E _]. congruence.
Qed.

(** A key that is present stays present. *)
Lemma table_change_present rows rows' r :
  table_change rows rows' -> r ∈ rows -> exists r', r' ∈ rows' /\ key r' = key r.
Proof.
  intros Hc Hr. destruct Hc as [|row Hf|p f Hu]; [by exists r | exists r; set_solver |].
  exists (if p r then f r else r). split.
  - apply elem_of_update_where. by exists r.
  - destruct (p r) eqn:E; [by apply Hu | done].
Qed.

(** With unique keys a row is found by its key. *)
Lemma unique_key rows r r' :
  NoDup (map key rows) -> r ∈ rows -> r' ∈ rows -> key r = key r' -> r = r'.
Proof.
  intros Hd Hr Hr' Hk. induction rows as [|x rows IH]; [set_solver|].
  simpl in Hd. inversion Hd as [|? ? Hn Hd']; subst.
  assert (Hin : forall y, y ∈ rows -> key y ∈ map key rows).
  { intros y Hy. apply list_elem_of_In, in_map. by apply list_elem_of_In. }
  apply elem_of_cons in Hr as [->|Hr]; apply elem_of_cons in Hr' as [->|Hr']; try done.
  - exfalso. apply Hn. rewrite Hk. by apply Hin.
  - exfalso. apply Hn. rewrite <-Hk. by apply Hin.
  - by apply IH.
Qed.
End Change.
