(* ===== verification/Store.v ===== *)
(** * Store: the SQLite repository

    Models [SqliteStore] of [secretctl-store/src/repository.rs]: one record
    field per table of the schema, rows with their columns as the code writes
    them (identifiers, states and times as text), and one operation per method.
    An operation returns its result and the store it leaves behind. The meaning
    of the SQL statements is in [Table.v].

    A statement outside a transaction, and a transaction as a whole, either
    takes effect completely or not at all: [commit] is that rule. The tables
    [recipes], [browser_sessions] and [action_requests] of the schema are never
    read or written by the program and are left out. Waiting for the mutex, and
    failures of the disk, are not modelled; the failure the program's own test
    hook injects, a trigger that aborts every insertion of an audit event, is. *)

From S2P Require Import Prelude.
From S2P Require Import Externals.
From S2P Require Import Concrete.
From S2P Require Import Domain.
From S2P Require Import Crypto.
From S2P Require Import AuditChain.
From S2P Require Import Table.

(** ** Errors ([error.rs]) *)

(** The cases of [rusqlite::Error] the program meets: its texts are the
    library's own. *)
Inductive SqliteError : Type :=
| QueryReturnedNoRows
| FromSqlConversionFailure (index : Z)
| ToSqlConversionFailure
| ConstraintViolation (table : string)
| IntegralValueOutOfRange (index value : Z)
| TriggerAbort (message : string).

Inductive StoreError : Type :=
| Sqlite (e : SqliteError)
| Migration (message : string)
| NotFound (what : string)
| StoreSerialization (message : string)
| StateConflict (what : string).

#[global] Instance StoreError_eq_dec : EqDecision StoreError.
Proof. intros a b. unfold Decision. repeat decide equality. Defined.

(** ** Rows *)

Record AgentRow : Type := {
  agr_agent_id : string;
  agr_role : string;
  agr_public_key : list byte;
  agr_executable_hash : option (list byte);
  agr_executable_path : option string;
  agr_peer_uid : option Z;
  agr_display_name : string;
  agr_state : string;
  agr_created_at : string
}.

Record CredentialRow : Type := {
  crr_credential_id : string;
  crr_name : string;
  crr_kind : string;
  crr_provider : string;
  crr_provider_locator : string;
  crr_allowed_actions_json : string;
  crr_metadata_json : string;
  crr_disabled_at : option string
}.

Record ApprovalRow : Type := {
  apw_approval_id : string;
  apw_request_id : string;
  apw_decision : string;
  apw_actor : option string;
  apw_presence : option string;
  apw_context_digest : list byte;
  apw_decided_at : option string;
  apw_expires_at : string
}.

Record CapabilityRow : Type := {
  cpr_capability_id : string;
  cpr_request_id : string;
  cpr_token_hash : list byte;
  cpr_state : string;
  cpr_max_uses : Z;
  cpr_used_count : Z;
  cpr_issued_at : string;
  cpr_consume_deadline : string;
  cpr_execution_deadline : string;
  cpr_step_deadline : option string;
  cpr_flow_id : option string;
  cpr_step_id : option string;
  cpr_revoked_reason : option string;
  cpr_signing_key_id : string;
  cpr_policy_hash : option (list byte);
  cpr_browser_session_id : option string
}.

Record ExecutionRow : Type := {
  exr_execution_id : string;
  exr_capability_id : string;
  exr_state : string;
  exr_prepared_context_digest : option (list byte);
  exr_started_at : option string;
  exr_completed_at : option string;
  exr_result_code : option string
}.

Record OAuthGrantRow : Type := {
  ogr_grant_id : string;
  ogr_credential_id : string;
  ogr_provider_locator : string;
  ogr_scopes_json : string;
  ogr_subject_hint : option string;
  ogr_created_at : string;
  ogr_expires_at : option string
}.

Record AuditEventRow : Type := {
  evr_sequence : Z;
  evr_event_id : string;
  evr_event_type : string;
  evr_actor_type : string;
  evr_actor_id : option string;
  evr_event_json : string;
  evr_audit_key_version : Z;
  evr_previous_hash : list byte;
  evr_event_hash : list byte;
  evr_created_at : string
}.

Record CheckpointRow : Type := {
  ckr_sequence : Z;
  ckr_event_hash : list byte;
  ckr_audit_key_version : Z;
  ckr_signing_key_id : string;
  ckr_signature : list byte;
  ckr_created_at : string
}.

Record SigningKeyRow : Type := {
  skr_key_id : string;
  skr_public_key : list byte;
  skr_state : string;
  skr_created_at : string;
  skr_retired_at : option string
}.

Record AuditKeyRow : Type := {
  akr_version : Z;
  akr_key_locator : string;
  akr_state : string;
  akr_created_at : string;
  akr_retired_at : option string
}.

Record GrantRow : Type := {
  gr_grant_id : string;
  gr_agent_id : string;
  gr_agent_name : string;
  gr_credential_id : string;
  gr_credential_name : string;
  gr_origin : string;
  gr_action : string;
  gr_risk_ceiling : string;
  gr_require_presence : Z;
  gr_created_at : string;
  gr_expires_at : string;
  gr_revoked_at : option string;
  gr_revoked_reason : option string;
  gr_last_used_at : option string;
  gr_use_count : Z
}.

Record TotpRow : Type := {
  tr_credential_id : string;
  tr_time_step : Z;
  tr_execution_id : string;
  tr_issued_at : option string
}.

(** ** The database *)

Record Store : Type := {
  agents : list AgentRow;
  credentials : list CredentialRow;
  approvals : list ApprovalRow;
  capabilities : list CapabilityRow;
  executions : list ExecutionRow;
  oauth_grants : list OAuthGrantRow;
  audit_events : list AuditEventRow;
  audit_checkpoints : list CheckpointRow;
  trusted_signing_keys : list SigningKeyRow;
  audit_key_versions : list AuditKeyRow;
  standing_grants : list GrantRow;
  totp_issuances : list TotpRow;
  audit_failure_trigger : bool
}.

Definition empty_store : Store := {|
  agents := []; credentials := []; approvals := []; capabilities := []; executions := [];
  oauth_grants := []; audit_events := []; audit_checkpoints := []; trusted_signing_keys := [];
  audit_key_versions := []; standing_grants := []; totp_issuances := [];
  audit_failure_trigger := false |}.

Definition set_agents (s : Store) v : Store :=
  Build_Store v (credentials s) (approvals s) (capabilities s) (executions s) (oauth_grants s)
    (audit_events s) (audit_checkpoints s) (trusted_signing_keys s) (audit_key_versions s)
    (standing_grants s) (totp_issuances s) (audit_failure_trigger s).
Definition set_credentials (s : Store) v : Store :=
  Build_Store (agents s) v (approvals s) (capabilities s) (executions s) (oauth_grants s)
    (audit_events s) (audit_checkpoints s) (trusted_signing_keys s) (audit_key_versions s)
    (standing_grants s) (totp_issuances s) (audit_failure_trigger s).
Definition set_approvals (s : Store) v : Store :=
  Build_Store (agents s) (credentials s) v (capabilities s) (executions s) (oauth_grants s)
    (audit_events s) (audit_checkpoints s) (trusted_signing_keys s) (audit_key_versions s)
    (standing_grants s) (totp_issuances s) (audit_failure_trigger s).
Definition set_capabilities (s : Store) v : Store :=
  Build_Store (agents s) (credentials s) (approvals s) v (executions s) (oauth_grants s)
    (audit_events s) (audit_checkpoints s) (trusted_signing_keys s) (audit_key_versions s)
    (standing_grants s) (totp_issuances s) (audit_failure_trigger s).
Definition set_executions (s : Store) v : Store :=
  Build_Store (agents s) (credentials s) (approvals s) (capabilities s) v (oauth_grants s)
    (audit_events s) (audit_checkpoints s) (trusted_signing_keys s) (audit_key_versions s)
    (standing_grants s) (totp_issuances s) (audit_failure_trigger s).
Definition set_oauth_grants (s : Store) v : Store :=
  Build_Store (agents s) (credentials s) (approvals s) (capabilities s) (executions s) v
    (audit_events s) (audit_checkpoints s) (trusted_signing_keys s) (audit_key_versions s)
    (standing_grants s) (totp_issuances s) (audit_failure_trigger s).
Definition set_audit_events (s : Store) v : Store :=
  Build_Store (agents s) (credentials s) (approvals s) (capabilities s) (executions s)
    (oauth_grants s) v (audit_checkpoints s) (trusted_signing_keys s) (audit_key_versions s)
    (standing_grants s) (totp_issuances s) (audit_failure_trigger s).
Definition set_audit_checkpoints (s : Store) v : Store :=
  Build_Store (agents s) (credentials s) (approvals s) (capabilities s) (executions s)
    (oauth_grants s) (audit_events s) v (trusted_signing_keys s) (audit_key_versions s)
    (standing_grants s) (totp_issuances s) (audit_failure_trigger s).
Definition set_trusted_signing_keys (s : Store) v : Store :=
  Build_Store (agents s) (credentials s) (approvals s) (capabilities s) (executions s)
    (oauth_grants s) (audit_events s) (audit_checkpoints s) v (audit_key_versions s)
    (standing_grants s) (totp_issuances s) (audit_failure_trigger s).
Definition set_audit_key_versions (s : Store) v : Store :=
  Build_Store (agents s) (credentials s) (approvals s) (capabilities s) (executions s)
    (oauth_grants s) (audit_events s) (audit_checkpoints s) (trusted_signing_keys s) v
    (standing_grants s) (totp_issuances s) (audit_failure_trigger s).
Definition set_standing_grants (s : Store) v : Store :=
  Build_Store (agents s) (credentials s) (approvals s) (capabilities s) (executions s)
    (oauth_grants s) (audit_events s) (audit_checkpoints s) (trusted_signing_keys s)
    (audit_key_versions s) v (totp_issuances s) (audit_failure_trigger s).
Definition set_totp_issuances (s : Store) v : Store :=
  Build_Store (agents s) (credentials s) (approvals s) (capabilities s) (executions s)
    (oauth_grants s) (audit_events s) (audit_checkpoints s) (trusted_signing_keys s)
    (audit_key_versions s) (standing_grants s) v (audit_failure_trigger s).
Definition set_audit_failure_trigger (s : Store) v : Store :=
  Build_Store (agents s) (credentials s) (approvals s) (capabilities s) (executions s)
    (oauth_grants s) (audit_events s) (audit_checkpoints s) (trusted_signing_keys s)
    (audit_key_versions s) (standing_grants s) (totp_issuances s) v.

(** A statement, or the statements of a transaction: on an error nothing of
    them remains. *)
Definition Statement (A : Type) : Type := Store -> result StoreError (A * Store).

Definition commit {A : Type} (body : Statement A) (s : Store) : result StoreError A * Store :=
  match body s with
  | Ok (a, s) => (Ok a, s)
  | Err e => (Err e, s)
  end.

(** The insertion of a row into one table. *)
Definition insert_into {R : Type} (table : string) (get : Store -> list R)
    (put : Store -> list R -> Store) (conflicts : R -> R -> bool) (row : R) : Statement unit :=
  fun s =>
    rows ← ok_or (Sqlite (ConstraintViolation table)) (insert_row conflicts row (get s));
    Ok (tt, put s rows).

(** An update of one table: returns the number of rows changed. *)
Definition update_table {R : Type} (get : Store -> list R) (put : Store -> list R -> Store)
    (p : R -> bool) (f : R -> R) (s : Store) : Z * Store :=
  (count_where p (get s), put s (update_where p f (get s))).

(** A one-row [SELECT] through [query_row]. *)
Definition query_row {R A : Type} (p : R -> bool) (f : R -> result SqliteError A)
    (rows : list R) : result SqliteError A :=
  match select_first p rows with
  | Some row => f row
  | None => Err QueryReturnedNoRows
  end.

(** The conversions of a column read back. *)
Definition column {E A : Type} (index : Z) (r : result E A) : result SqliteError A :=
  map_err (fun _ => FromSqlConversionFailure index) r.
Definition time_column `{Chrono} (index : Z) (text : string) : result SqliteError Instant :=
  ok_or (FromSqlConversionFailure index) (parse_from_rfc3339 text).
Definition opt_time_column `{Chrono} (index : Z) (text : option string) :
    result SqliteError (option Instant) := transpose (time_column index <$> text).

(** [row.get] of an integer column as a [u32]. *)
Definition u32_column (index value : Z) : result SqliteError Z :=
  if (0 <=? value) && (value <=? u32_max) then Ok value
  else Err (IntegralValueOutOfRange index value).

Definition not_found {A : Type} (what : string) (r : result SqliteError A) :
    result StoreError A :=
  map_err (fun e => match e with QueryReturnedNoRows => NotFound what | e => Sqlite e end) r.

(** ** Agents *)

Section Agents.
Context `{Chrono}.

Definition agent_row (agent : AgentPrincipal) : AgentRow := {|
  agr_agent_id := id_str (ag_agent_id agent);
  agr_role := ag_role agent;
  agr_public_key := ag_public_key agent;
  agr_executable_hash := ag_executable_hash agent;
  agr_executable_path := ag_executable_path agent;
  agr_peer_uid := ag_peer_uid agent;
  agr_display_name := ag_display_name agent;
  agr_state := ag_state agent;
  agr_created_at := to_rfc3339 (ag_created_at agent)
|}.

Definition agent_conflicts (a b : AgentRow) : bool :=
  bool_decide (agr_agent_id a = agr_agent_id b).

Definition insert_agent (agent : AgentPrincipal) : Store -> result StoreError unit * Store :=
  commit (insert_into "agents" agents set_agents agent_conflicts (agent_row agent)).

(** [ON CONFLICT(agent_id) DO UPDATE]: everything but the creation time. *)
Definition upsert_agent (agent : AgentPrincipal) : Store -> result StoreError unit * Store :=
  commit (fun s =>
    let new := agent_row agent in
    if existsb (agent_conflicts new) (agents s) then
      Ok (tt, set_agents s (update_where (agent_conflicts new) (fun old => {|
        agr_agent_id := agr_agent_id old; agr_role := agr_role new;
        agr_public_key := agr_public_key new; agr_executable_hash := agr_executable_hash new;
        agr_executable_path := agr_executable_path new; agr_peer_uid := agr_peer_uid new;
        agr_display_name := agr_display_name new; agr_state := agr_state new;
        agr_created_at := agr_created_at old |}) (agents s)))
    else Ok (tt, set_agents s (agents s ++ [new]))).

Definition enrolled (agent_id : string) (row : AgentRow) : bool :=
  bool_decide (agr_agent_id row = agent_id) && bool_decide (agr_state row = "enrolled").

Definition get_enrolled_agent (s : Store) (agent_id : string) :
    result StoreError AgentPrincipal :=
  not_found agent_id (query_row (enrolled agent_id) (fun row =>
    id ← column 0 (id_parse KAgent (agr_agent_id row));
    created_at ← time_column 8 (agr_created_at row);
    Ok {| ag_agent_id := id; ag_role := agr_role row; ag_public_key := agr_public_key row;
          ag_display_name := agr_display_name row; ag_peer_uid := wrap_u32 <$> agr_peer_uid row;
          ag_executable_path := agr_executable_path row;
          ag_executable_hash := agr_executable_hash row; ag_state := agr_state row;
          ag_created_at := created_at |}) (agents s)).

(** Text columns are ordered bytewise. *)
Definition text_le {R : Type} (key : R -> string) (a b : R) : bool := String.leb (key a) (key b).
Definition text_ge {R : Type} (key : R -> string) (a b : R) : bool := String.leb (key b) (key a).

Definition list_agents (s : Store) : result StoreError (list AgentPrincipal) :=
  let ids := map agr_agent_id (order_by (text_le agr_created_at)
    (select_where (fun row => bool_decide (agr_state row = "enrolled")) (agents s))) in
  collect (get_enrolled_agent s) ids.

Definition agent_exists (s : Store) (agent_id : string) : result StoreError bool :=
  Ok (0 <? count_where (enrolled agent_id) (agents s)).

Definition resolve_agent_id (s : Store) (agent_id : string) :
    result StoreError (option AgentId) :=
  Ok (row ← select_first (enrolled agent_id) (agents s);
      result_ok (id_parse KAgent (agr_agent_id row))).
End Agents.

(** ** Audit events *)

Section AuditRows.
Context `{Chrono}.

Definition event_row (event : AuditEvent) : AuditEventRow := {|
  evr_sequence := u64_as_i64 (ev_sequence event);
  evr_event_id := id_str (ev_event_id event);
  evr_event_type := ev_event_type event;
  evr_actor_type := ev_actor_type event;
  evr_actor_id := ev_actor_id event;
  evr_event_json := ev_event_json event;
  evr_audit_key_version := ev_audit_key_version event;
  evr_previous_hash := ev_previous_hash event;
  evr_event_hash := ev_event_hash event;
  evr_created_at := to_rfc3339 (ev_created_at event)
|}.

Definition event_conflicts (a b : AuditEventRow) : bool :=
  (evr_sequence a =? evr_sequence b) || bool_decide (evr_event_id a = evr_event_id b).

Definition insert_audit_event_tx (event : AuditEvent) : Statement unit := fun s =>
  if audit_failure_trigger s then Err (Sqlite (TriggerAbort "simulated audit storage failure"))
  else insert_into "audit_events" audit_events set_audit_events event_conflicts
         (event_row event) s.

Definition insert_audit_event (event : AuditEvent) : Store -> result StoreError unit * Store :=
  commit (insert_audit_event_tx event).

Definition row_to_event (row : AuditEventRow) : result SqliteError AuditEvent :=
  event_id ← column 1 (id_parse KEvent (evr_event_id row));
  created_at ← time_column 9 (evr_created_at row);
  Ok {| ev_sequence := i64_as_u64 (evr_sequence row); ev_event_id := event_id;
        ev_event_type := evr_event_type row; ev_actor_type := evr_actor_type row;
        ev_actor_id := evr_actor_id row; ev_event_json := evr_event_json row;
        ev_audit_key_version := wrap_u32 (evr_audit_key_version row);
        ev_previous_hash := evr_previous_hash row; ev_event_hash := evr_event_hash row;
        ev_created_at := created_at |}.

Definition sequence_le (a b : AuditEventRow) : bool := evr_sequence a <=? evr_sequence b.

Definition list_audit_events (s : Store) : result StoreError (list AuditEvent) :=
  map_err Sqlite (collect row_to_event (order_by sequence_le (audit_events s))).

Definition latest_event (s : Store) : option AuditEventRow :=
  head (order_by (fun a b => sequence_le b a) (audit_events s)).

Definition get_latest_audit_hash (s : Store) : result StoreError (list byte) :=
  Ok (default GENESIS_PREVIOUS_HASH (evr_event_hash <$> latest_event s)).

(** [COALESCE(MAX(sequence), 0)]. *)
Definition get_latest_audit_sequence (s : Store) : result StoreError Z :=
  Ok (i64_as_u64 (match audit_events s with
                  | [] => 0
                  | row :: rows => fold_left Z.max (map evr_sequence rows) (evr_sequence row)
                  end)).

Definition checkpoint_row (checkpoint : AuditCheckpoint) : CheckpointRow := {|
  ckr_sequence := u64_as_i64 (cp_sequence checkpoint);
  ckr_event_hash := cp_event_hash checkpoint;
  ckr_audit_key_version := cp_audit_key_version checkpoint;
  ckr_signing_key_id := cp_signing_key_id checkpoint;
  ckr_signature := cp_signature checkpoint;
  ckr_created_at := to_rfc3339 (cp_created_at checkpoint)
|}.

Definition insert_audit_checkpoint (checkpoint : AuditCheckpoint) :
    Store -> result StoreError unit * Store :=
  commit (insert_into "audit_checkpoints" audit_checkpoints set_audit_checkpoints
    (fun a b => ckr_sequence a =? ckr_sequence b) (checkpoint_row checkpoint)).

Definition row_to_checkpoint (row : CheckpointRow) : result SqliteError AuditCheckpoint :=
  created_at ← time_column 5 (ckr_created_at row);
  Ok {| cp_sequence := i64_as_u64 (ckr_sequence row); cp_event_hash := ckr_event_hash row;
        cp_audit_key_version := wrap_u32 (ckr_audit_key_version row);
        cp_signing_key_id := ckr_signing_key_id row; cp_signature := ckr_signature row;
        cp_created_at := created_at |}.

Definition list_audit_checkpoints (s : Store) : result StoreError (list AuditCheckpoint) :=
  map_err Sqlite (collect row_to_checkpoint
    (order_by (fun a b => ckr_sequence a <=? ckr_sequence b) (audit_checkpoints s))).
End AuditRows.

Definition install_audit_failure_trigger_for_tests (s : Store) : result StoreError unit * Store :=
  (Ok tt, set_audit_failure_trigger s true).

(** ** Credentials *)

Section Credentials.
Context `{Chrono, JsonCodec}.

(** The derived serialisation of a list of actions or of strings. *)
Definition actions_to_json (l : list ActionKind) : Json :=
  JArray (map (fun a => JString (action_as_str a)) l).
Definition json_to_string (j : Json) : result string string :=
  match j with JString s => Ok s | _ => Err "invalid type" end.
Definition json_to_action (j : Json) : result string ActionKind :=
  s ← json_to_string j; map_err (fun _ => "unknown variant") (action_from_str s).
Definition json_to_list {A : Type} (f : Json -> result string A) (text : string) :
    result string (list A) :=
  j ← json_parse text;
  match j with JArray l => collect f l | _ => Err "invalid type" end.

Definition credential_row (c : CredentialDescriptor) : CredentialRow := {|
  crr_credential_id := id_str (cred_credential_id c);
  crr_name := cred_name c;
  crr_kind := cred_kind c;
  crr_provider := cred_provider c;
  crr_provider_locator := cred_provider_locator c;
  crr_allowed_actions_json := json_print (actions_to_json (cred_allowed_actions c));
  crr_metadata_json := cred_metadata_json c;
  crr_disabled_at := to_rfc3339 <$> cred_disabled_at c
|}.

Definition insert_credential (c : CredentialDescriptor) :
    Store -> result StoreError unit * Store :=
  commit (insert_into "credentials" credentials set_credentials
    (fun a b => bool_decide (crr_credential_id a = crr_credential_id b)
                || bool_decide (crr_name a = crr_name b)) (credential_row c)).

Definition row_to_credential (row : CredentialRow) : result SqliteError CredentialDescriptor :=
  allowed_actions ← column 5 (json_to_list json_to_action (crr_allowed_actions_json row));
  disabled_at ← opt_time_column 7 (crr_disabled_at row);
  credential_id ← column 0 (id_parse KCredential (crr_credential_id row));
  Ok {| cred_credential_id := credential_id; cred_name := crr_name row;
        cred_kind := crr_kind row; cred_provider := crr_provider row;
        cred_provider_locator := crr_provider_locator row;
        cred_allowed_actions := allowed_actions; cred_metadata_json := crr_metadata_json row;
        cred_disabled_at := disabled_at |}.

Definition get_credential_by_name (s : Store) (name : string) :
    result StoreError CredentialDescriptor :=
  not_found name (query_row (fun row => bool_decide (crr_name row = name)) row_to_credential
    (credentials s)).

Definition delete_credential_by_name (name : string) : Store -> result StoreError unit * Store :=
  commit (fun s =>
    let p row := bool_decide (crr_name row = name) in
    if negb (count_where p (credentials s) =? 1) then Err (NotFound name)
    else Ok (tt, set_credentials s (delete_where p (credentials s)))).

Definition list_credentials (s : Store) : result StoreError (list CredentialDescriptor) :=
  collect (get_credential_by_name s)
    (map crr_name (order_by (text_le crr_name) (credentials s))).

(** ** OAuth grants *)

Definition oauth_grant_row (g : OAuthGrant) : OAuthGrantRow := {|
  ogr_grant_id := id_str (og_grant_id g);
  ogr_credential_id := id_str (og_credential_id g);
  ogr_provider_locator := og_provider_locator g;
  ogr_scopes_json := json_print (JArray (map JString (og_scopes g)));
  ogr_subject_hint := og_subject_hint g;
  ogr_created_at := to_rfc3339 (og_created_at g);
  ogr_expires_at := to_rfc3339 <$> og_expires_at g
|}.

Definition insert_oauth_grant (g : OAuthGrant) : Store -> result StoreError unit * Store :=
  commit (insert_into "oauth_grants" oauth_grants set_oauth_grants
    (fun a b => bool_decide (ogr_grant_id a = ogr_grant_id b)) (oauth_grant_row g)).

Definition row_to_oauth_grant (row : OAuthGrantRow) : result SqliteError OAuthGrant :=
  let conversion {E A} (r : result E A) := map_err (fun _ => ToSqlConversionFailure) r in
  grant_id ← conversion (id_parse KGrant (ogr_grant_id row));
  credential_id ← conversion (id_parse KCredential (ogr_credential_id row));
  scopes ← conversion (json_to_list json_to_string (ogr_scopes_json row));
  created_at ← conversion (time_column 5 (ogr_created_at row));
  expires_at ← conversion (opt_time_column 6 (ogr_expires_at row));
  Ok {| og_grant_id := grant_id; og_credential_id := credential_id;
        og_provider_locator := ogr_provider_locator row; og_scopes := scopes;
        og_subject_hint := ogr_subject_hint row; og_created_at := created_at;
        og_expires_at := expires_at |}.

Definition get_oauth_grant (s : Store) (grant_id : GrantId) :
    result StoreError (option OAuthGrant) :=
  match query_row (fun row => bool_decide (ogr_grant_id row = id_str grant_id))
          row_to_oauth_grant (oauth_grants s) with
  | Ok grant => Ok (Some grant)
  | Err QueryReturnedNoRows => Ok None
  | Err e => Err (Sqlite e)
  end.

Definition delete_oauth_grant (grant_id : GrantId) : Store -> result StoreError bool * Store :=
  commit (fun s =>
    let p row := bool_decide (ogr_grant_id row = id_str grant_id) in
    Ok (count_where p (oauth_grants s) =? 1, set_oauth_grants s (delete_where p (oauth_grants s)))).

(** ** The scan at start-up *)

Fixpoint inspect (value : Json) (path : string) : result StoreError unit :=
  match value with
  | JObject fields =>
      (fix inspect_fields (fields : list (string * Json)) : result StoreError unit :=
         match fields with
         | [] => Ok tt
         | (key, value) :: fields =>
             if contains_prohibited_key_name key
             then Err (StateConflict ("prohibited secret-bearing metadata key at "
                         +:+ path +:+ "." +:+ key))
             else _ ← inspect value (path +:+ "." +:+ key); inspect_fields fields
         end) fields
  | JArray items =>
      (fix inspect_items (index : Z) (items : list Json) : result StoreError unit :=
         match items with
         | [] => Ok tt
         | value :: items =>
             _ ← inspect value (path +:+ "[" +:+ format_unsigned index +:+ "]");
             inspect_items (index + 1) items
         end) 0 items
  | _ => Ok tt
  end.

Fixpoint inspect_column (name : string) (texts : list string) : result StoreError unit :=
  match texts with
  | [] => Ok tt
  | text :: texts =>
      document ← map_err (fun e => StoreSerialization ("invalid " +:+ name +:+ ": " +:+ e))
        (json_parse text);
      _ ← inspect document name;
      inspect_column name texts
  end.

Definition validate_no_prohibited_persisted_keys (s : Store) : result StoreError unit :=
  _ ← inspect_column "credentials.metadata_json" (map crr_metadata_json (credentials s));
  inspect_column "audit_events.event_json" (map evr_event_json (audit_events s)).
End Credentials.

(** ** Approvals *)

Section Approvals.
Context `{Chrono}.

Definition approval_row (a : Approval) : ApprovalRow := {|
  apw_approval_id := id_str (apr_approval_id a);
  apw_request_id := id_str (apr_request_id a);
  apw_decision := apr_decision a;
  apw_actor := apr_actor a;
  apw_presence := apr_presence a;
  apw_context_digest := apr_context_digest a;
  apw_decided_at := to_rfc3339 <$> apr_decided_at a;
  apw_expires_at := to_rfc3339 (apr_expires_at a)
|}.

Definition insert_approval_tx (a : Approval) : Statement unit :=
  insert_into "approvals" approvals set_approvals
    (fun x y => bool_decide (apw_approval_id x = apw_approval_id y)) (approval_row a).

Definition insert_approval (a : Approval) : Store -> result StoreError unit * Store :=
  commit (insert_approval_tx a).

Definition insert_approval_with_audit (a : Approval) (audit_event : AuditEvent) :
    Store -> result StoreError unit * Store :=
  commit (fun s =>
    '(_, s) ← insert_approval_tx a s;
    insert_audit_event_tx audit_event s).

(** The update of a pending approval: how many rows it changed, and the store. *)
Definition decide_approval_row (a : Approval) : Store -> Z * Store :=
  update_table approvals set_approvals
    (fun row => bool_decide (apw_approval_id row = id_str (apr_approval_id a))
                && bool_decide (apw_decision row = "pending"))
    (fun row => {|
      apw_approval_id := apw_approval_id row; apw_request_id := apw_request_id row;
      apw_decision := apr_decision a; apw_actor := apr_actor a; apw_presence := apr_presence a;
      apw_context_digest := apw_context_digest row;
      apw_decided_at := to_rfc3339 <$> apr_decided_at a; apw_expires_at := apw_expires_at row |}).

(** The statement has run when the count is checked: without a transaction its
    effect stays. *)
Definition update_approval (a : Approval) (s : Store) : result StoreError unit * Store :=
  let '(changed, s) := decide_approval_row a s in
  if negb (changed =? 1) then (Err (NotFound (id_str (apr_approval_id a))), s)
  else (Ok tt, s).

Definition update_approval_with_audit (a : Approval) (audit_event : AuditEvent) :
    Store -> result StoreError unit * Store :=
  commit (fun s =>
    let '(changed, s) := decide_approval_row a s in
    if negb (changed =? 1) then Err (StateConflict (id_str (apr_approval_id a)))
    else insert_audit_event_tx audit_event s).
End Approvals.

(** ** Capabilities and executions *)

Section Capabilities.
Context `{Chrono}.

Definition capability_row (c : Capability) (signing_key_id : string) : CapabilityRow := {|
  cpr_capability_id := id_str (cap_capability_id c);
  cpr_request_id := id_str (cap_request_id c);
  cpr_token_hash := cap_token_hash c;
  cpr_state := CapabilityState.as_str (cap_state c);
  cpr_max_uses := cap_max_uses c;
  cpr_used_count := cap_used_count c;
  cpr_issued_at := to_rfc3339 (cap_issued_at c);
  cpr_consume_deadline := to_rfc3339 (cap_consume_deadline c);
  cpr_execution_deadline := to_rfc3339 (cap_execution_deadline c);
  cpr_step_deadline := to_rfc3339 <$> cap_step_deadline c;
  cpr_flow_id := id_str <$> cap_flow_id c;
  cpr_step_id := id_str <$> cap_step_id c;
  cpr_revoked_reason := cap_revoked_reason c;
  cpr_signing_key_id := signing_key_id;
  cpr_policy_hash := Some (cap_policy_hash c);
  cpr_browser_session_id := Some (id_str (cap_browser_session_id c))
|}.

(** The columns an update of a capability sets. *)
Definition set_capability_row (row : CapabilityRow) (state : string) (used_count : Z)
    (revoked_reason : option string) : CapabilityRow := {|
  cpr_capability_id := cpr_capability_id row; cpr_request_id := cpr_request_id row;
  cpr_token_hash := cpr_token_hash row; cpr_state := state; cpr_max_uses := cpr_max_uses row;
  cpr_used_count := used_count; cpr_issued_at := cpr_issued_at row;
  cpr_consume_deadline := cpr_consume_deadline row;
  cpr_execution_deadline := cpr_execution_deadline row;
  cpr_step_deadline := cpr_step_deadline row; cpr_flow_id := cpr_flow_id row;
  cpr_step_id := cpr_step_id row; cpr_revoked_reason := revoked_reason;
  cpr_signing_key_id := cpr_signing_key_id row; cpr_policy_hash := cpr_policy_hash row;
  cpr_browser_session_id := cpr_browser_session_id row |}.

(** [state IN ('issued', 'active')]. *)
Definition live_row (row : CapabilityRow) : bool :=
  bool_decide (cpr_state row = "issued") || bool_decide (cpr_state row = "active").

Definition insert_capability_with_audit (c : Capability) (signing_key_id : string)
    (audit_event : AuditEvent) : Store -> result StoreError unit * Store :=
  commit (fun s =>
    '(_, s) ← insert_into "capabilities" capabilities set_capabilities
      (fun a b => bool_decide (cpr_capability_id a = cpr_capability_id b))
      (capability_row c signing_key_id) s;
    insert_audit_event_tx audit_event s).

Definition consumable_row (capability_id : CapabilityId) (row : CapabilityRow) : bool :=
  bool_decide (cpr_capability_id row = id_str capability_id) && live_row row
  && (cpr_used_count row <? cpr_max_uses row).

Definition consumed_row (row : CapabilityRow) : CapabilityRow :=
  set_capability_row row "consumed" (cpr_used_count row + 1) (cpr_revoked_reason row).

Definition consume_row (capability_id : CapabilityId) : Store -> Z * Store :=
  update_table capabilities set_capabilities (consumable_row capability_id) consumed_row.

Definition execution_row (e : Execution) : ExecutionRow := {|
  exr_execution_id := id_str (ex_execution_id e);
  exr_capability_id := id_str (ex_capability_id e);
  exr_state := ExecutionState.as_str (ex_state e);
  exr_prepared_context_digest := ex_prepared_context_digest e;
  exr_started_at := to_rfc3339 <$> ex_started_at e;
  exr_completed_at := to_rfc3339 <$> ex_completed_at e;
  exr_result_code := ex_result_code e
|}.

Definition totp_conflicts (a b : TotpRow) : bool :=
  (bool_decide (tr_credential_id a = tr_credential_id b) && (tr_time_step a =? tr_time_step b))
  || bool_decide (tr_execution_id a = tr_execution_id b).

(** [INSERT OR IGNORE] of the time step: a conflict changes no row. A row
    without [issued_at] is ignored as well, the column being NOT NULL; a time
    step beyond [i64] cannot be bound. *)
Definition claim_totp_step (execution : Execution) (totp_step : option (CredentialId * Z)) :
    Statement unit := fun s =>
  match totp_step with
  | None => Ok (tt, s)
  | Some (credential_id, time_step) =>
      if 2 ^ 63 <=? time_step then Err (Sqlite ToSqlConversionFailure) else
      let row := {| tr_credential_id := id_str credential_id; tr_time_step := time_step;
                    tr_execution_id := id_str (ex_execution_id execution);
                    tr_issued_at := to_rfc3339 <$> ex_started_at execution |} in
      match (if bool_decide (tr_issued_at row = None) then None
             else insert_row totp_conflicts row (totp_issuances s)) with
      | Some rows => Ok (tt, set_totp_issuances s rows)
      | None => Err (StateConflict ("TOTP step already issued for " +:+ id_str credential_id))
      end
  end.

Definition insert_execution_tx (execution : Execution) : Statement unit :=
  insert_into "executions" executions set_executions
    (fun a b => bool_decide (exr_execution_id a = exr_execution_id b)) (execution_row execution).

Definition consume_capability_with_execution_and_audit (capability_id : CapabilityId)
    (execution : Execution) (audit_event : AuditEvent) (totp_step : option (CredentialId * Z)) :
    Store -> result StoreError unit * Store :=
  commit (fun s =>
    '(_, s) ← claim_totp_step execution totp_step s;
    let '(changed, s) := consume_row capability_id s in
    if negb (changed =? 1) then Err (StateConflict (id_str capability_id)) else
    '(_, s) ← insert_execution_tx execution s;
    insert_audit_event_tx audit_event s).

(** The columns an update of an execution sets. *)
Definition set_execution_row (row : ExecutionRow) (state : string) (completed_at : option string)
    (result_code : option string) : ExecutionRow := {|
  exr_execution_id := exr_execution_id row; exr_capability_id := exr_capability_id row;
  exr_state := state; exr_prepared_context_digest := exr_prepared_context_digest row;
  exr_started_at := exr_started_at row; exr_completed_at := completed_at;
  exr_result_code := result_code |}.

Definition finish_execution_with_audit (execution : Execution) (audit_event : AuditEvent) :
    Store -> result StoreError unit * Store :=
  commit (fun s =>
    let '(changed, s) := update_table executions set_executions
      (fun row => bool_decide (exr_execution_id row = id_str (ex_execution_id execution))
                  && bool_decide (exr_state row = "consuming"))
      (fun row => set_execution_row row (ExecutionState.as_str (ex_state execution))
                    (to_rfc3339 <$> ex_completed_at execution) (ex_result_code execution)) s in
    if negb (changed =? 1) then Err (StateConflict (id_str (ex_execution_id execution)))
    else insert_audit_event_tx audit_event s).

Definition recover_incomplete_state (now : Instant) : Store -> result StoreError (Z * Z) * Store :=
  commit (fun s =>
    let '(expired, s) := update_table capabilities set_capabilities live_row
      (fun row => set_capability_row row "expired" (cpr_used_count row) (Some "broker_restart")) s in
    let '(indeterminate, s) := update_table executions set_executions
      (fun row => bool_decide (exr_state row = "prepared") || bool_decide (exr_state row = "consuming"))
      (fun row => set_execution_row row "indeterminate" (Some (to_rfc3339 now))
                    (Some "BROKER_RESTART")) s in
    Ok ((expired, indeterminate), s)).

Definition revoke_rows (p : CapabilityRow -> bool) (reason : string) : Store -> Z * Store :=
  update_table capabilities set_capabilities (fun row => p row && live_row row)
    (fun row => set_capability_row row "revoked" (cpr_used_count row) (Some reason)).

Definition with_id (capability_id : CapabilityId) (row : CapabilityRow) : bool :=
  bool_decide (cpr_capability_id row = id_str capability_id).

Definition revoke_capability (capability_id : CapabilityId) (reason : string) (s : Store) :
    result StoreError unit * Store :=
  let '(changed, s) := revoke_rows (with_id capability_id) reason s in
  if negb (changed =? 1) then (Err (StateConflict (id_str capability_id)), s) else (Ok tt, s).

Definition consume_oauth_capability (capability_id : CapabilityId) (s : Store) :
    result StoreError unit * Store :=
  let '(changed, s) := consume_row capability_id s in
  if negb (changed =? 1) then (Err (StateConflict (id_str capability_id)), s) else (Ok tt, s).

Definition revoke_capability_with_audit (capability_id : CapabilityId) (reason : string)
    (audit_event : AuditEvent) : Store -> result StoreError unit * Store :=
  commit (fun s =>
    let '(changed, s) := revoke_rows (with_id capability_id) reason s in
    if negb (changed =? 1) then Err (StateConflict (id_str capability_id))
    else insert_audit_event_tx audit_event s).

(** [policy_hash != ?1] does not hold of a row without a hash. *)
Definition revoke_capabilities_not_policy_with_audit (active_policy_hash : list byte)
    (audit_event : AuditEvent) : Store -> result StoreError Z * Store :=
  commit (fun s =>
    let '(changed, s) := revoke_rows
      (fun row => is_some_and (fun hash => bool_decide (hash ≠ active_policy_hash))
                    (cpr_policy_hash row)) "policy_changed" s in
    '(_, s) ← insert_audit_event_tx audit_event s;
    Ok (changed, s)).

Definition revoke_capabilities_for_session (browser_session_id : string) (s : Store) :
    result StoreError Z * Store :=
  let '(changed, s) := revoke_rows
    (fun row => bool_decide (cpr_browser_session_id row = Some browser_session_id))
    "session_stale" s in
  (Ok changed, s).

Definition row_to_summary (row : CapabilityRow) : result SqliteError CapabilitySummary :=
  capability_id ← column 0 (id_parse KCapability (cpr_capability_id row));
  request_id ← column 1 (id_parse KRequest (cpr_request_id row));
  max_uses ← u32_column 3 (cpr_max_uses row);
  used_count ← u32_column 4 (cpr_used_count row);
  issued_at ← time_column 5 (cpr_issued_at row);
  expires_at ← time_column 6 (cpr_consume_deadline row);
  Ok {| cs_capability_id := capability_id; cs_request_id := request_id;
        cs_state := cpr_state row; cs_max_uses := max_uses;
        cs_used_count := used_count; cs_issued_at := issued_at;
        cs_expires_at := expires_at; cs_revoked_reason := cpr_revoked_reason row;
        cs_signing_key_id := cpr_signing_key_id row |}.

Definition list_capabilities (s : Store) (state : option string) :
    result StoreError (list CapabilitySummary) :=
  map_err Sqlite (collect row_to_summary (order_by (text_ge cpr_issued_at)
    (select_where (fun row => is_none_or (fun st => bool_decide (cpr_state row = st)) state)
       (capabilities s)))).

Definition capability_state (s : Store) (capability_id : CapabilityId) :
    result StoreError string :=
  map_err Sqlite (query_row (with_id capability_id) (fun row => Ok (cpr_state row))
    (capabilities s)).

Definition execution_count (s : Store) : result StoreError Z :=
  Ok (i64_as_u64 (Z.of_nat (length (executions s)))).

(** Rows without a start time come last in the descending order. *)
Definition started_ge (a b : ExecutionRow) : bool :=
  match exr_started_at a, exr_started_at b with
  | Some x, Some y => String.leb y x
  | Some _, None => true
  | None, Some _ => false
  | None, None => true
  end.

Definition execution_state_for_capability (s : Store) (capability_id : CapabilityId) :
    result StoreError string :=
  map_err Sqlite (query_row (fun _ => true) (fun row => Ok (exr_state row))
    (order_by started_ge
       (select_where (fun row => bool_decide (exr_capability_id row = id_str capability_id))
          (executions s)))).
End Capabilities.

(** ** Signing keys and audit keys *)

Section Keys.
Context `{Chrono}.

Definition signing_key_row (key_id : string) (public_key : list byte) (state : string)
    (now : Instant) : SigningKeyRow := {|
  skr_key_id := key_id; skr_public_key := public_key; skr_state := state;
  skr_created_at := to_rfc3339 now; skr_retired_at := None |}.

(** [ON CONFLICT(key_id) DO UPDATE]: the key and its state. *)
Definition register_signing_key (key_id : string) (public_key : list byte) (state : string)
    (now : Instant) : Store -> result StoreError unit * Store :=
  commit (fun s =>
    let p row := bool_decide (skr_key_id row = key_id) in
    if existsb p (trusted_signing_keys s) then
      Ok (tt, set_trusted_signing_keys s (update_where p (fun row => {|
        skr_key_id := skr_key_id row; skr_public_key := public_key; skr_state := state;
        skr_created_at := skr_created_at row; skr_retired_at := skr_retired_at row |})
        (trusted_signing_keys s)))
    else Ok (tt, set_trusted_signing_keys s
                   (trusted_signing_keys s ++ [signing_key_row key_id public_key state now]))).

Definition retire_signing_key (key_id : string) (now : Instant) (s : Store) :
    result StoreError unit * Store :=
  let '(changed, s) := update_table trusted_signing_keys set_trusted_signing_keys
    (fun row => bool_decide (skr_key_id row = key_id) && bool_decide (skr_state row = "active"))
    (fun row => {|
      skr_key_id := skr_key_id row; skr_public_key := skr_public_key row; skr_state := "retired";
      skr_created_at := skr_created_at row; skr_retired_at := Some (to_rfc3339 now) |}) s in
  if negb (changed =? 1) then (Err (NotFound key_id), s) else (Ok tt, s).

Definition get_trusted_signing_keys (s : Store) : result StoreError (gmap string (list byte)) :=
  Ok (fold_left (fun m row => <[skr_key_id row := skr_public_key row]> m)
    (select_where (fun row => bool_decide (skr_state row = "active")
                              || bool_decide (skr_state row = "retired"))
       (trusted_signing_keys s)) ∅).

Definition active_signing_key_id (s : Store) : result StoreError (option string) :=
  Ok (skr_key_id <$> head (order_by (text_ge skr_created_at)
    (select_where (fun row => bool_decide (skr_state row = "active")) (trusted_signing_keys s)))).

Definition audit_key_row (version : Z) (key_locator state : string) (now : Instant) :
    AuditKeyRow := {|
  akr_version := version; akr_key_locator := key_locator; akr_state := state;
  akr_created_at := to_rfc3339 now; akr_retired_at := None |}.

(** [ON CONFLICT(version) DO UPDATE]; the locator is unique over the table. *)
Definition register_audit_key_version (version : Z) (key_locator state : string)
    (now : Instant) : Store -> result StoreError unit * Store :=
  commit (fun s =>
    let p row := akr_version row =? version in
    let rows := audit_key_versions s in
    if existsb (fun row => negb (p row) && bool_decide (akr_key_locator row = key_locator)) rows
    then Err (Sqlite (ConstraintViolation "audit_key_versions"))
    else if existsb p rows then
      Ok (tt, set_audit_key_versions s (update_where p (fun row => {|
        akr_version := akr_version row; akr_key_locator := key_locator; akr_state := state;
        akr_created_at := akr_created_at row; akr_retired_at := akr_retired_at row |}) rows))
    else Ok (tt, set_audit_key_versions s (rows ++ [audit_key_row version key_locator state now]))).

Definition get_audit_key_versions (s : Store) : result StoreError (list (Z * string * string)) :=
  Ok (map (fun row => (wrap_u32 (akr_version row), akr_key_locator row, akr_state row))
    (order_by (fun a b => akr_version a <=? akr_version b) (audit_key_versions s))).

Definition retire_audit_key_version (version : Z) (now : Instant) (s : Store) :
    result StoreError unit * Store :=
  let '(changed, s) := update_table audit_key_versions set_audit_key_versions
    (fun row => (akr_version row =? version) && bool_decide (akr_state row = "active"))
    (fun row => {|
      akr_version := akr_version row; akr_key_locator := akr_key_locator row;
      akr_state := "retired"; akr_created_at := akr_created_at row;
      akr_retired_at := Some (to_rfc3339 now) |}) s in
  if negb (changed =? 1) then (Err (NotFound (format_unsigned version)), s) else (Ok tt, s).

(** [max_by_key] keeps the last of the maximal elements. *)
Definition later_version (best : option (Z * string)) (key : Z * string * string) :
    option (Z * string) :=
  let '(version, locator, _) := key in
  match best with
  | Some (v, _) => if v <=? version then Some (version, locator) else best
  | None => Some (version, locator)
  end.

Definition active_audit_key_version (s : Store) : result StoreError (option (Z * string)) :=
  versions ← get_audit_key_versions s;
  Ok (fold_left later_version
        (List.filter (fun '(_, _, state) => bool_decide (state = "active")) versions) None).
End Keys.

(** ** Standing grants *)

Inductive GrantSelector : Type :=
| SelectId (grant_id : GrantId)
| SelectAgent (name : string)
| SelectCredential (name : string)
| SelectAll.

Definition selector_matches (self : GrantSelector) (grant : StandingGrant) : bool :=
  match self with
  | SelectId grant_id => bool_decide (sg_grant_id grant = grant_id)
  | SelectAgent name =>
      bool_decide (sg_agent_name grant = name) || bool_decide (id_str (sg_agent_id grant) = name)
  | SelectCredential name => bool_decide (sg_credential_name grant = name)
  | SelectAll => true
  end.

Section Grants.
Context `{Chrono, UrlParser}.

Definition grant_row (g : StandingGrant) : GrantRow := {|
  gr_grant_id := id_str (sg_grant_id g); gr_agent_id := id_str (sg_agent_id g);
  gr_agent_name := sg_agent_name g; gr_credential_id := id_str (sg_credential_id g);
  gr_credential_name := sg_credential_name g; gr_origin := origin_as_str (sg_origin g);
  gr_action := action_as_str (sg_action g); gr_risk_ceiling := risk_as_str (sg_risk_ceiling g);
  gr_require_presence := if sg_require_presence g then 1 else 0;
  gr_created_at := to_rfc3339 (sg_created_at g); gr_expires_at := to_rfc3339 (sg_expires_at g);
  gr_revoked_at := None; gr_revoked_reason := None; gr_last_used_at := None;
  gr_use_count := 0 |}.

Definition set_grant_revoked (row : GrantRow) (revoked_at revoked_reason : string) : GrantRow := {|
  gr_grant_id := gr_grant_id row; gr_agent_id := gr_agent_id row;
  gr_agent_name := gr_agent_name row; gr_credential_id := gr_credential_id row;
  gr_credential_name := gr_credential_name row; gr_origin := gr_origin row;
  gr_action := gr_action row; gr_risk_ceiling := gr_risk_ceiling row;
  gr_require_presence := gr_require_presence row; gr_created_at := gr_created_at row;
  gr_expires_at := gr_expires_at row; gr_revoked_at := Some revoked_at;
  gr_revoked_reason := Some revoked_reason; gr_last_used_at := gr_last_used_at row;
  gr_use_count := gr_use_count row |}.

Definition set_grant_used (row : GrantRow) (used_at : string) : GrantRow := {|
  gr_grant_id := gr_grant_id row; gr_agent_id := gr_agent_id row;
  gr_agent_name := gr_agent_name row; gr_credential_id := gr_credential_id row;
  gr_credential_name := gr_credential_name row; gr_origin := gr_origin row;
  gr_action := gr_action row; gr_risk_ceiling := gr_risk_ceiling row;
  gr_require_presence := gr_require_presence row; gr_created_at := gr_created_at row;
  gr_expires_at := gr_expires_at row; gr_revoked_at := gr_revoked_at row;
  gr_revoked_reason := gr_revoked_reason row; gr_last_used_at := Some used_at;
  gr_use_count := gr_use_count row + 1 |}.

Definition live_grant (row : GrantRow) : bool := bool_decide (gr_revoked_at row = None).

(** The columns of the partial unique index of schema version 4. *)
Definition same_tuple (agent_id credential_name origin action : string) (row : GrantRow) : bool :=
  bool_decide (gr_agent_id row = agent_id)
  && bool_decide (gr_credential_name row = credential_name)
  && bool_decide (gr_origin row = origin) && bool_decide (gr_action row = action).

Definition same_grant_tuple (g : StandingGrant) : GrantRow -> bool :=
  same_tuple (id_str (sg_agent_id g)) (sg_credential_name g) (origin_as_str (sg_origin g))
    (action_as_str (sg_action g)).

(** The primary key, and the index over the rows that are not revoked. *)
Definition grant_conflicts (a b : GrantRow) : bool :=
  bool_decide (gr_grant_id a = gr_grant_id b)
  || (live_grant a && live_grant b
      && same_tuple (gr_agent_id a) (gr_credential_name a) (gr_origin a) (gr_action a) b).

Definition insert_standing_grant_with_audit (g : StandingGrant) (audit_event : AuditEvent) :
    Store -> result StoreError unit * Store :=
  commit (fun s =>
    let '(_, s) := update_table standing_grants set_standing_grants
      (fun row => live_grant row && same_grant_tuple g row)
      (fun row => set_grant_revoked row (to_rfc3339 (sg_created_at g)) "superseded") s in
    '(_, s) ← insert_into "standing_grants" standing_grants set_standing_grants grant_conflicts
      (grant_row g) s;
    insert_audit_event_tx audit_event s).

Definition row_to_standing_grant (row : GrantRow) : result SqliteError StandingGrant :=
  grant_id ← column 0 (id_parse KGrant (gr_grant_id row));
  agent_id ← column 1 (id_parse KAgent (gr_agent_id row));
  credential_id ← column 3 (id_parse KCredential (gr_credential_id row));
  origin ← column 5 (origin_parse (gr_origin row));
  action ← column 6 (action_from_str (gr_action row));
  risk_ceiling ← column 7 (risk_from_str (gr_risk_ceiling row));
  created_at ← time_column 9 (gr_created_at row);
  expires_at ← time_column 10 (gr_expires_at row);
  revoked_at ← opt_time_column 11 (gr_revoked_at row);
  last_used_at ← opt_time_column 13 (gr_last_used_at row);
  Ok {| sg_grant_id := grant_id; sg_agent_id := agent_id; sg_agent_name := gr_agent_name row;
        sg_credential_id := credential_id; sg_credential_name := gr_credential_name row;
        sg_origin := origin; sg_action := action; sg_risk_ceiling := risk_ceiling;
        sg_require_presence := negb (gr_require_presence row =? 0);
        sg_created_at := created_at; sg_expires_at := expires_at; sg_revoked_at := revoked_at;
        sg_revoked_reason := gr_revoked_reason row; sg_last_used_at := last_used_at;
        sg_use_count := Z.max (gr_use_count row) 0 |}.

Definition list_standing_grants (s : Store) (include_revoked : bool) :
    result StoreError (list StandingGrant) :=
  map_err Sqlite (collect row_to_standing_grant (order_by (text_ge gr_created_at)
    (select_where (fun row => include_revoked || live_grant row) (standing_grants s)))).

Definition find_matching_standing_grant (s : Store) (agent_id : AgentId)
    (credential_name : string) (action : ActionKind) (origin : CanonicalOrigin) :
    result StoreError (option StandingGrant) :=
  map_err Sqlite (transpose (row_to_standing_grant <$>
    select_first (fun row => live_grant row
      && same_tuple (id_str agent_id) credential_name (origin_as_str origin)
           (action_as_str action) row) (standing_grants s))).

Definition touch_standing_grant (grant_id : GrantId) (used_at : Instant) (s : Store) :
    result StoreError unit * Store :=
  let '(_, s) := update_table standing_grants set_standing_grants
    (fun row => bool_decide (gr_grant_id row = id_str grant_id))
    (fun row => set_grant_used row (to_rfc3339 used_at)) s in
  (Ok tt, s).

Definition revoke_grant_row (grant_id : GrantId) (reason : string) (revoked_at : Instant)
    (s : Store) : Store :=
  snd (update_table standing_grants set_standing_grants
    (fun row => bool_decide (gr_grant_id row = id_str grant_id) && live_grant row)
    (fun row => set_grant_revoked row (to_rfc3339 revoked_at) reason) s).

(** Each grant is revoked by a statement of its own. *)
Definition revoke_standing_grants (selector : GrantSelector) (reason : string)
    (revoked_at : Instant) (s : Store) : result StoreError (list StandingGrant) * Store :=
  match list_standing_grants s false with
  | Err e => (Err e, s)
  | Ok grants =>
      let matching := List.filter (selector_matches selector) grants in
      (Ok matching,
       fold_left (fun s grant => revoke_grant_row (sg_grant_id grant) reason revoked_at s)
         matching s)
  end.
End Grants.
