(* ===== verification/StoreProps.v ===== *)
(** * StoreProps: what the repository guarantees

    The theorems about [Store.v]: rows of terminal state are final, a
    capability is consumed at most once over any sequence of operations, a
    failed operation changes nothing, every audited change leaves its event, a
    restart leaves nothing live, grants are unique per tuple and read back as
    they were written. [StoreOp] names the operations that write, so that
    statements quantify over every sequence of them. *)

From Stdlib Require Import Sorted.
From S2P Require Import Prelude.
From S2P Require Import Externals.
From S2P Require Import Concrete.
From S2P Require Import Domain.
From S2P Require Import Crypto.
From S2P Require Import AuditChain.
From S2P Require Import Table.
From S2P Require Import Store.

(** ** The operations that write *)

Inductive StoreOp : Type :=
| OpInsertAgent (a : AgentPrincipal)
| OpUpsertAgent (a : AgentPrincipal)
| OpInsertAuditEvent (e : AuditEvent)
| OpInsertCredential (c : CredentialDescriptor)
| OpDeleteCredential (name : string)
| OpInsertOAuthGrant (g : OAuthGrant)
| OpDeleteOAuthGrant (grant_id : GrantId)
| OpInsertApproval (a : Approval)
| OpInsertApprovalAudit (a : Approval) (e : AuditEvent)
| OpUpdateApproval (a : Approval)
| OpUpdateApprovalAudit (a : Approval) (e : AuditEvent)
| OpInsertCapability (c : Capability) (signing_key_id : string) (e : AuditEvent)
| OpConsume (capability_id : CapabilityId) (x : Execution) (e : AuditEvent)
    (totp_step : option (CredentialId * Z))
| OpConsumeOAuth (capability_id : CapabilityId)
| OpFinish (x : Execution) (e : AuditEvent)
| OpRecover (now : Instant)
| OpRevoke (capability_id : CapabilityId) (reason : string)
| OpRevokeAudit (capability_id : CapabilityId) (reason : string) (e : AuditEvent)
| OpRevokePolicy (policy_hash : list byte) (e : AuditEvent)
| OpRevokeSession (browser_session_id : string)
| OpInsertCheckpoint (c : AuditCheckpoint)
| OpRegisterSigningKey (key_id : string) (public_key : list byte) (state : string) (now : Instant)
| OpRetireSigningKey (key_id : string) (now : Instant)
| OpRegisterAuditKey (version : Z) (locator state : string) (now : Instant)
| OpRetireAuditKey (version : Z) (now : Instant)
| OpInsertGrant (g : StandingGrant) (e : AuditEvent)
| OpTouchGrant (grant_id : GrantId) (used_at : Instant)
| OpRevokeGrants (selector : GrantSelector) (reason : string) (revoked_at : Instant)
| OpInstallTrigger.

Definition discard {A : Type} (r : result StoreError A * Store) : result StoreError unit * Store :=
  (match fst r with Ok _ => Ok tt | Err e => Err e end, snd r).

Section Run.
Context `{Chrono, JsonCodec, UrlParser}.

Definition run_op (op : StoreOp) (s : Store) : result StoreError unit * Store :=
  match op with
  | OpInsertAgent a => insert_agent a s
  | OpUpsertAgent a => upsert_agent a s
  | OpInsertAuditEvent e => insert_audit_event e s
  | OpInsertCredential c => insert_credential c s
  | OpDeleteCredential name => delete_credential_by_name name s
  | OpInsertOAuthGrant g => insert_oauth_grant g s
  | OpDeleteOAuthGrant i => discard (delete_oauth_grant i s)
  | OpInsertApproval a => insert_approval a s
  | OpInsertApprovalAudit a e => insert_approval_with_audit a e s
  | OpUpdateApproval a => update_approval a s
  | OpUpdateApprovalAudit a e => update_approval_with_audit a e s
  | OpInsertCapability c k e => insert_capability_with_audit c k e s
  | OpConsume i x e t => consume_capability_with_execution_and_audit i x e t s
  | OpConsumeOAuth i => consume_oauth_capability i s
  | OpFinish x e => finish_execution_with_audit x e s
  | OpRecover now => discard (recover_incomplete_state now s)
  | OpRevoke i reason => revoke_capability i reason s
  | OpRevokeAudit i reason e => revoke_capability_with_audit i reason e s
  | OpRevokePolicy h e => discard (revoke_capabilities_not_policy_with_audit h e s)
  | OpRevokeSession b => discard (revoke_capabilities_for_session b s)
  | OpInsertCheckpoint c => insert_audit_checkpoint c s
  | OpRegisterSigningKey k pk st now => register_signing_key k pk st now s
  | OpRetireSigningKey k now => retire_signing_key k now s
  | OpRegisterAuditKey v l st now => register_audit_key_version v l st now s
  | OpRetireAuditKey v now => retire_audit_key_version v now s
  | OpInsertGrant g e => insert_standing_grant_with_audit g e s
  | OpTouchGrant i t => touch_standing_grant i t s
  | OpRevokeGrants sel reason t => discard (revoke_standing_grants sel reason t s)
  | OpInstallTrigger => install_audit_failure_trigger_for_tests s
  end.

(** A sequence of operations: the results in order, and the final store. *)
Fixpoint run_ops (ops : list StoreOp) (s : Store) : list (result StoreError unit) * Store :=
  match ops with
  | [] => ([], s)
  | op :: ops =>
      let '(r, s) := run_op op s in
      let '(rs, s) := run_ops ops s in
      (r :: rs, s)
  end.
End Run.

(** ** Lemmas on statements *)

Lemma commit_cases {A : Type} (body : Statement A) s :
  (exists a s', body s = Ok (a, s') /\ commit body s = (Ok a, s')) \/
  (exists e, body s = Err e /\ commit body s = (Err e, s)).
Proof. unfold commit. destruct (body s) as [[a s']|e]; eauto. Qed.

Lemma commit_Ok {A : Type} (body : Statement A) s a s' :
  commit body s = (Ok a, s') <-> body s = Ok (a, s').
Proof. unfold commit. destruct (body s) as [[]|]; split; congruence. Qed.

Lemma commit_Err {A : Type} (body : Statement A) s e s' :
  commit body s = (Err e, s') -> body s = Err e /\ s' = s.
Proof. unfold commit. destruct (body s) as [[]|]; intros [= <- <-]; done. Qed.

Lemma insert_into_Ok {R : Type} table get put conflicts (row : R) s u s' :
  insert_into table get put conflicts row s = Ok (u, s') ->
  s' = put s (get s ++ [row]) /\ forall r, r ∈ get s -> conflicts row r = false.
Proof.
  unfold insert_into. intros (rows & Hr & Hs)%bind_Ok_inv. apply ok_or_Ok in Hr.
  apply insert_row_Some in Hr as [-> Hr]. by injection Hs as <- <-.
Qed.

Lemma insert_audit_event_tx_Ok `{Chrono} e s u s' :
  insert_audit_event_tx e s = Ok (u, s') ->
  audit_failure_trigger s = false /\
  s' = set_audit_events s (audit_events s ++ [event_row e]) /\
  forall r, r ∈ audit_events s -> event_conflicts (event_row e) r = false.
Proof.
  unfold insert_audit_event_tx. destruct (audit_failure_trigger s); [done|].
  intros (-> & Hr)%insert_into_Ok. done.
Qed.

(** Takes a statement of a transaction apart. *)
Ltac split_stmt H :=
  lazymatch type of H with
  | (_ ≫= _) = Ok _ =>
      let x := fresh "x" in let s := fresh "s" in let E := fresh "E" in
      apply bind_Ok_inv in H as ([x s] & E & H)
  | insert_into _ _ _ _ _ _ = Ok _ => apply insert_into_Ok in H as [-> H]
  | insert_audit_event_tx _ _ = Ok _ =>
      let T := fresh "T" in apply insert_audit_event_tx_Ok in H as (T & -> & H)
  end.

(** ** Capability rows *)

(** A change an operation makes to the table: none, a new row with a fresh key,
    or an update of live rows to a terminal state. *)
Definition ends_row (row row' : CapabilityRow) : Prop :=
  cpr_capability_id row' = cpr_capability_id row /\ cpr_max_uses row' = cpr_max_uses row /\
  ((cpr_state row' = "consumed" /\ cpr_used_count row' = cpr_used_count row + 1 /\
    cpr_used_count row < cpr_max_uses row) \/
   ((cpr_state row' = "expired" \/ cpr_state row' = "revoked") /\
    cpr_used_count row' = cpr_used_count row)).

Inductive capabilities_change (rows : list CapabilityRow) : list CapabilityRow -> Prop :=
| cc_same : capabilities_change rows rows
| cc_insert row :
    (forall r, r ∈ rows -> cpr_capability_id row <> cpr_capability_id r) ->
    capabilities_change rows (rows ++ [row])
| cc_update p f :
    (forall r, p r = true -> live_row r = true /\ ends_row r (f r)) ->
    capabilities_change rows (update_where p f rows).

Section CapabilityChange.
Context `{Chrono, JsonCodec, UrlParser}.

Lemma claim_totp_step_other x t s u s' :
  claim_totp_step x t s = Ok (u, s') ->
  s' = s \/ exists row, insert_row totp_conflicts row (totp_issuances s) = Some (totp_issuances s') /\
    s' = set_totp_issuances s (totp_issuances s').
Proof.
  unfold claim_totp_step. destruct t as [[c step]|]; [|intros [= _ <-]; by left].
  destruct (2 ^ 63 <=? step); [done|]. case_bool_decide; [done|].
  match goal with |- context [insert_row ?c ?r ?l] => destruct (insert_row c r l) eqn:E; [|done] end.
  intros [= _ <-]. right. eexists. split; [exact E|done].
Qed.

Lemma cc_consume i s :
  capabilities_change (capabilities s) (capabilities (snd (consume_row i s))).
Proof.
  unfold consume_row, update_table. cbn. apply cc_update. intros r Hr.
  unfold consumable_row in Hr. bool_to_prop. split; [done|].
  unfold ends_row. cbn. split_and!; try done. left. split_and!; [done|done|lia].
Qed.

Lemma cc_revoke p reason s :
  capabilities_change (capabilities s) (capabilities (snd (revoke_rows p reason s))).
Proof.
  unfold revoke_rows, update_table. cbn. apply cc_update. intros r Hr. bool_to_prop.
  split; [done|]. unfold ends_row. cbn. split_and!; try done. right. auto.
Qed.
End CapabilityChange.

Section CapabilityTrace.
Context `{Chrono, JsonCodec, UrlParser}.

Lemma cc_insert_capability c k e s :
  capabilities_change (capabilities s)
    (capabilities (snd (insert_capability_with_audit c k e s))).
Proof.
  unfold insert_capability_with_audit.
  match goal with |- context [commit ?b s] =>
    destruct (commit_cases b s) as [(a & s' & Hb & ->)|(err & _ & ->)] end; [|apply cc_same].
  split_stmt Hb. split_stmt E. split_stmt Hb. cbn. apply cc_insert. intros r Hr.
  apply E in Hr. by apply bool_decide_eq_false in Hr.
Qed.

(** What a successful consumption does to the store. *)
Lemma consume_with_execution_Ok i x e t s s' :
  consume_capability_with_execution_and_audit i x e t s = (Ok tt, s') <->
  consume_capability_with_execution_and_audit i x e t s = (Ok tt, s') /\
  count_where (consumable_row i) (capabilities s) = 1 /\
  capabilities s' = update_where (consumable_row i) consumed_row (capabilities s) /\
  executions s' = executions s ++ [execution_row x] /\
  audit_events s' = audit_events s ++ [event_row e] /\
  approvals s' = approvals s /\ standing_grants s' = standing_grants s /\
  (forall r, r ∈ executions s -> exr_execution_id r <> id_str (ex_execution_id x)).
Proof.
  split; [|tauto]. intros Hc. split; [done|].
  unfold consume_capability_with_execution_and_audit in Hc. apply commit_Ok in Hc. cbn beta in Hc.
  split_stmt Hc.
  assert (Hs : capabilities s0 = capabilities s /\ executions s0 = executions s /\
    audit_events s0 = audit_events s /\ approvals s0 = approvals s /\
    standing_grants s0 = standing_grants s).
  { apply claim_totp_step_other in E as [-> | (row & _ & ->)]; done. }
  destruct Hs as (Hs1 & Hs2 & Hs3 & Hs4 & Hs5).
  unfold consume_row, update_table in Hc.
  destruct (Z.eqb_spec (count_where (consumable_row i) (capabilities s0)) 1) as [Hn|Hn];
    cbn [negb] in Hc; [|done].
  split_stmt Hc. unfold insert_execution_tx in E0. split_stmt E0. split_stmt Hc.
  cbn [capabilities executions audit_events approvals standing_grants set_audit_events
    set_executions set_capabilities] in *. rewrite <-Hs1, <-Hs2, <-Hs3.
  split_and!; try done.
  intros r Hr Heq. apply E0 in Hr. apply bool_decide_eq_false in Hr. by rewrite Heq in Hr.
Qed.

Lemma cc_consume_with_execution i x e t s :
  capabilities_change (capabilities s)
    (capabilities (snd (consume_capability_with_execution_and_audit i x e t s))).
Proof.
  destruct (consume_capability_with_execution_and_audit i x e t s) as [[[]|err] s'] eqn:Hc.
  - apply consume_with_execution_Ok in Hc as (_ & _ & Hcap & _). cbn. rewrite Hcap.
    exact (cc_consume i s).
  - unfold consume_capability_with_execution_and_audit in Hc.
    apply commit_Err in Hc as [_ ->]. apply cc_same.
Qed.

Lemma cc_revoke_capability i reason s :
  capabilities_change (capabilities s) (capabilities (snd (revoke_capability i reason s))).
Proof.
  pose proof (cc_revoke (with_id i) reason s) as Hc. unfold revoke_capability.
  destruct (revoke_rows _ _ s) as [n s']. by destruct (negb (n =? 1)).
Qed.

Lemma cc_revoke_audit i reason e s :
  capabilities_change (capabilities s)
    (capabilities (snd (revoke_capability_with_audit i reason e s))).
Proof.
  pose proof (cc_revoke (with_id i) reason s) as Hc. unfold revoke_capability_with_audit, commit.
  destruct (revoke_rows _ _ s) as [n s']. destruct (negb (n =? 1)); [apply cc_same|].
  destruct (insert_audit_event_tx e s') as [[[] s'']|] eqn:Ha; [|apply cc_same].
  by split_stmt Ha.
Qed.

Lemma cc_revoke_policy h e s :
  capabilities_change (capabilities s)
    (capabilities (snd (revoke_capabilities_not_policy_with_audit h e s))).
Proof.
  unfold revoke_capabilities_not_policy_with_audit, commit.
  match goal with |- context [revoke_rows ?p ?r s] => pose proof (cc_revoke p r s) as Hc;
    destruct (revoke_rows p r s) as [n s'] end.
  destruct (insert_audit_event_tx e s') as [[[] s'']|] eqn:Ha; [|apply cc_same].
  by split_stmt Ha.
Qed.

Lemma cc_recover now s :
  capabilities_change (capabilities s) (capabilities (snd (recover_incomplete_state now s))).
Proof.
  unfold recover_incomplete_state, update_table. cbn. apply cc_update. intros r Hr.
  split; [done|]. unfold ends_row. cbn. split_and!; try done. right. auto.
Qed.
End CapabilityTrace.

(** Unfolds an operation that does not touch the table in question. *)
Ltac other_table tac :=
  unfold discard, insert_agent, upsert_agent, insert_audit_event,
    insert_credential, delete_credential_by_name, insert_oauth_grant, delete_oauth_grant,
    insert_approval, insert_approval_with_audit, insert_approval_tx, update_approval,
    update_approval_with_audit, decide_approval_row, finish_execution_with_audit,
    insert_audit_checkpoint, register_signing_key, retire_signing_key,
    register_audit_key_version, retire_audit_key_version, insert_standing_grant_with_audit,
    touch_standing_grant, install_audit_failure_trigger_for_tests,
    insert_capability_with_audit, revoke_capability, revoke_capability_with_audit,
    revoke_capabilities_not_policy_with_audit, revoke_capabilities_for_session,
    recover_incomplete_state, consume_oauth_capability, revoke_rows, consume_row,
    insert_audit_event_tx, commit, insert_into, update_table, ok_or, mbind, result_bind;
  repeat (case_match; simplify_eq/=; try tac); tac.

(** Revoking grants one by one keeps every other table. *)
Lemma revoke_grants_other {A : Type} `{Chrono, UrlParser} (get : Store -> A) sel reason t s :
  (forall s v, get (set_standing_grants s v) = get s) ->
  get (snd (revoke_standing_grants sel reason t s)) = get s.
Proof.
  intros Hget. unfold revoke_standing_grants.
  destruct (list_standing_grants s false) as [gs|]; [|done]. cbn.
  generalize (List.filter (selector_matches sel) gs) as l. intros l. revert s.
  induction l as [|g l IH]; intros s; [done|]. cbn [fold_left]. rewrite IH.
  unfold revoke_grant_row, update_table. cbn. apply Hget.
Qed.

Lemma cc_consume_oauth i s :
  capabilities_change (capabilities s) (capabilities (snd (consume_oauth_capability i s))).
Proof.
  pose proof (cc_consume i s) as Hc. unfold consume_oauth_capability.
  destruct (consume_row i s) as [n s']. by destruct (negb (n =? 1)).
Qed.

Lemma cc_revoke_session b s :
  capabilities_change (capabilities s)
    (capabilities (snd (revoke_capabilities_for_session b s))).
Proof.
  unfold revoke_capabilities_for_session.
  match goal with |- context [revoke_rows ?p ?r s] => pose proof (cc_revoke p r s) as Hc;
    destruct (revoke_rows p r s) as [n s'] end. exact Hc.
Qed.

(** Every operation changes the capability rows in one of the three ways. *)
Lemma run_op_capabilities `{Chrono, JsonCodec, UrlParser} op s :
  capabilities_change (capabilities s) (capabilities (snd (run_op op s))).
Proof.
  destruct op; cbn [run_op discard snd];
    first [apply cc_insert_capability | apply cc_consume_with_execution | apply cc_consume_oauth
      | apply cc_revoke_capability | apply cc_revoke_audit | apply cc_recover
      | apply cc_revoke_policy | apply cc_revoke_session
      | rewrite revoke_grants_other by done; apply cc_same
      | solve [other_table ltac:(apply cc_same)]].
Qed.

(** ** The other tables with settled rows *)

Lemma capabilities_change_table rows rows' :
  capabilities_change rows rows' -> table_change cpr_capability_id live_row rows rows'.
Proof.
  intros [|row Hf|p f Hu]; [apply tc_same | by apply tc_insert |].
  apply tc_update. intros r Hr. apply Hu in Hr as (Hl & Hi & _). done.
Qed.

Definition open_execution (row : ExecutionRow) : bool :=
  bool_decide (exr_state row = "prepared") || bool_decide (exr_state row = "consuming").

Definition totp_key (row : TotpRow) : string * Z := (tr_credential_id row, tr_time_step row).

(** The primary keys and uniqueness constraints of the schema. *)
Definition live_tuple (row : GrantRow) : string * string * string * string :=
  (gr_agent_id row, gr_credential_name row, gr_origin row, gr_action row).

Section OtherTables.
Context `{Chrono, JsonCodec, UrlParser}.

Lemma tc_executions_consume i x e t s :
  table_change exr_execution_id open_execution (executions s)
    (executions (snd (consume_capability_with_execution_and_audit i x e t s))).
Proof.
  destruct (consume_capability_with_execution_and_audit i x e t s) as [[[]|err] s'] eqn:Hc.
  - apply consume_with_execution_Ok in Hc as (_ & _ & _ & He & _ & _ & _ & Hf). cbn. rewrite He.
    apply tc_insert. intros r Hr Heq. by apply (Hf r Hr).
  - unfold consume_capability_with_execution_and_audit in Hc.
    apply commit_Err in Hc as [_ ->]. apply tc_same.
Qed.

Lemma tc_executions_finish x e s :
  table_change exr_execution_id open_execution (executions s)
    (executions (snd (finish_execution_with_audit x e s))).
Proof.
  unfold finish_execution_with_audit, commit, update_table.
  match goal with |- context [count_where ?p ?l =? 1] => destruct (count_where p l =? 1) end;
    cbn [negb]; [|apply tc_same].
  match goal with |- context [insert_audit_event_tx e ?s] =>
    destruct (insert_audit_event_tx e s) as [[[] s'']|] eqn:Ha end; [|apply tc_same].
  split_stmt Ha. cbn. apply tc_update. intros r Hr. bool_to_prop. split; [|done].
  unfold open_execution. by rewrite orb_true_iff, (bool_decide_eq_true_2 (_ = "consuming")); auto.
Qed.

Lemma tc_executions_recover now s :
  table_change exr_execution_id open_execution (executions s)
    (executions (snd (recover_incomplete_state now s))).
Proof.
  unfold recover_incomplete_state, commit, update_table. cbn. apply tc_update. done.
Qed.

Lemma run_op_executions op s :
  table_change exr_execution_id open_execution (executions s) (executions (snd (run_op op s))).
Proof.
  destruct op; cbn [run_op discard snd];
    first [apply tc_executions_consume | apply tc_executions_finish | apply tc_executions_recover
      | rewrite revoke_grants_other by done; apply tc_same
      | solve [other_table ltac:(apply tc_same)]].
Qed.

(** The claim of a time step in a successful consumption. *)
Lemma consume_totp_Ok i x e t s s' :
  consume_capability_with_execution_and_audit i x e t s = (Ok tt, s') ->
  match t with
  | None => totp_issuances s' = totp_issuances s
  | Some (c, step) =>
      exists row, totp_issuances s' = totp_issuances s ++ [row] /\
        totp_key row = (id_str c, step) /\
        forall r, r ∈ totp_issuances s -> totp_key row <> totp_key r
  end.
Proof.
  unfold consume_capability_with_execution_and_audit. intros Hb. apply commit_Ok in Hb.
  cbn beta in Hb. split_stmt Hb.
  destruct (consume_row i s0) as [n s1] eqn:Hr. destruct (negb (n =? 1)); [done|].
  assert (totp_issuances s1 = totp_issuances s0) as Ht1.
  { unfold consume_row, update_table in Hr. injection Hr as <- <-. done. }
  split_stmt Hb. unfold insert_execution_tx in E0. split_stmt E0. split_stmt Hb.
  change (totp_issuances (set_audit_events _ _)) with (totp_issuances s1). rewrite Ht1.
  unfold claim_totp_step in E. destruct t as [[c step]|]; [|by injection E as _ <-].
  destruct (2 ^ 63 <=? step); [done|]. case_bool_decide; [done|].
  match type of E with context [insert_row ?c ?r ?l] =>
    destruct (insert_row c r l) eqn:Hi; [|done] end.
  injection E as _ <-. apply insert_row_Some in Hi as [-> Hi].
  eexists. split; [done|]. split; [done|]. intros r Hr' Heq.
  apply Hi in Hr'. unfold totp_conflicts in Hr'. unfold totp_key in Heq. cbn in *.
  injection Heq as Hc Hs.
  rewrite bool_decide_eq_true_2, (proj2 (Z.eqb_eq _ _) Hs) in Hr' by done. done.
Qed.

Lemma tc_totp_consume i x e t s :
  table_change totp_key (fun _ => false) (totp_issuances s)
    (totp_issuances (snd (consume_capability_with_execution_and_audit i x e t s))).
Proof.
  destruct (consume_capability_with_execution_and_audit i x e t s) as [[[]|err] s'] eqn:Hc.
  - apply consume_totp_Ok in Hc. cbn. destruct t as [[c step]|].
    + destruct Hc as (row & -> & _ & Hf). by apply tc_insert.
    + rewrite Hc. apply tc_same.
  - unfold consume_capability_with_execution_and_audit in Hc.
    apply commit_Err in Hc as [_ ->]. apply tc_same.
Qed.

Lemma run_op_totp op s :
  table_change totp_key (fun _ => false) (totp_issuances s) (totp_issuances (snd (run_op op s))).
Proof.
  destruct op; cbn [run_op discard snd];
    first [apply tc_totp_consume
      | rewrite revoke_grants_other by done; apply tc_same
      | solve [other_table ltac:(apply tc_same)]].
Qed.
End OtherTables.

(** ** Over sequences of operations *)

Definition names_capability (i : CapabilityId) (op : StoreOp) : bool :=
  match op with
  | OpConsume j _ _ _ | OpConsumeOAuth j => bool_decide (id_str j = id_str i)
  | _ => false
  end.

Definition claims_step (c : CredentialId) (step : Z) (op : StoreOp) : bool :=
  match op with
  | OpConsume _ _ _ (Some (c', step')) => bool_decide (id_str c' = id_str c) && (step' =? step)
  | _ => false
  end.

Section Traces.
Context `{Chrono, JsonCodec, UrlParser}.

(** How many of the operations [p] selects succeed in a run. *)
Fixpoint succeeded (p : StoreOp -> bool) (ops : list StoreOp) (s : Store) : Z :=
  match ops with
  | [] => 0
  | op :: ops =>
      (if p op && is_ok (fst (run_op op s)) then 1 else 0)
      + succeeded p ops (snd (run_op op s))
  end.

Lemma run_ops_cons op ops s : snd (run_ops (op :: ops) s) = snd (run_ops ops (snd (run_op op s))).
Proof.
  cbn [run_ops]. destruct (run_op op s) as [r s1]. cbn [snd].
  by destruct (run_ops ops s1).
Qed.

Lemma run_ops_invariant (P : Store -> Prop) :
  (forall op s, P s -> P (snd (run_op op s))) -> forall ops s, P s -> P (snd (run_ops ops s)).
Proof.
  intros Hstep ops. induction ops as [|op ops IH]; intros s HP; [done|].
  rewrite run_ops_cons. by apply IH, Hstep.
Qed.

(** An operation that can succeed at most once: after a success a settled
    condition holds, which persists and excludes further successes. *)
Lemma succeeded_at_most_once (p : StoreOp -> bool) (I settled : Store -> Prop) :
  (forall op s, I s -> I (snd (run_op op s))) ->
  (forall op s, I s -> settled s -> settled (snd (run_op op s))) ->
  (forall op s, I s -> p op = true -> is_ok (fst (run_op op s)) = true ->
     ~ settled s /\ settled (snd (run_op op s))) ->
  forall ops s, I s -> succeeded p ops s <= 1 /\ (settled s -> succeeded p ops s = 0).
Proof.
  intros HI Hpersist Hsettle ops. induction ops as [|op ops IH]; intros s Is; [cbn; lia|].
  cbn [succeeded]. destruct (IH _ (HI op s Is)) as [IH1 IH2].
  destruct (p op && is_ok (fst (run_op op s))) eqn:E.
  - apply andb_true_iff in E as [Ep Eok].
    destruct (Hsettle op s Is Ep Eok) as [Hn Hs]. rewrite IH2 by done. split; [lia|done].
  - split; [lia|]. intros Hs. rewrite IH2 by auto. lia.
Qed.

Lemma run_op_capability_keys op s :
  NoDup (map cpr_capability_id (capabilities s)) ->
  NoDup (map cpr_capability_id (capabilities (snd (run_op op s)))).
Proof.
  apply (table_change_keys _ live_row). apply capabilities_change_table, run_op_capabilities.
Qed.

(** A row of the capability is there, and it is settled. *)
Definition settled_capability (i : CapabilityId) (s : Store) : Prop :=
  exists row, row ∈ capabilities s /\ cpr_capability_id row = id_str i /\ live_row row = false.

Lemma settled_capability_persists i op s :
  settled_capability i s -> settled_capability i (snd (run_op op s)).
Proof.
  intros (row & Hr & Hi & Hl). exists row. split; [|done].
  eapply table_change_settled; [|done|done].
  apply capabilities_change_table, run_op_capabilities.
Qed.

Lemma settled_not_consumable i s :
  NoDup (map cpr_capability_id (capabilities s)) -> settled_capability i s ->
  count_where (consumable_row i) (capabilities s) = 0.
Proof.
  intros Hd (row & Hr & Hi & Hl). apply count_where_zero. intros r Hin.
  unfold consumable_row. destruct (bool_decide_reflect (cpr_capability_id r = id_str i)) as [E|E];
    [|done]. cbn [andb].
  rewrite (unique_key cpr_capability_id _ r row Hd Hin Hr) by congruence. by rewrite Hl.
Qed.

Lemma consumed_is_settled i s rows :
  count_where (consumable_row i) rows = 1 ->
  capabilities s = update_where (consumable_row i) consumed_row rows ->
  settled_capability i s.
Proof.
  intros Hn Hs.
  assert (exists r, r ∈ rows /\ consumable_row i r = true) as (r & Hr & Hc).
  { unfold count_where in Hn. destruct (List.filter (consumable_row i) rows) as [|r l] eqn:E;
      [done|]. assert (In r (List.filter (consumable_row i) rows)) as Hin by (rewrite E; by left).
    apply filter_In in Hin as [Hin Hc]. exists r. by rewrite list_elem_of_In. }
  exists (consumed_row r). rewrite Hs. split.
  - apply elem_of_update_where. exists r. by rewrite Hc.
  - unfold consumable_row in Hc. bool_to_prop. done.
Qed.

Lemma consume_oauth_Ok i s :
  is_ok (fst (consume_oauth_capability i s)) = true ->
  count_where (consumable_row i) (capabilities s) = 1 /\
  capabilities (snd (consume_oauth_capability i s)) =
    update_where (consumable_row i) consumed_row (capabilities s).
Proof.
  unfold consume_oauth_capability, consume_row, update_table.
  destruct (Z.eqb_spec (count_where (consumable_row i) (capabilities s)) 1); [done|].
  cbn. done.
Qed.

Lemma consume_success_settles i op s :
  names_capability i op = true -> is_ok (fst (run_op op s)) = true ->
  count_where (consumable_row i) (capabilities s) = 1 /\
  settled_capability i (snd (run_op op s)).
Proof.
  intros Hop Hok.
  destruct op; try discriminate Hop; cbn [names_capability run_op] in *;
    apply bool_decide_eq_true in Hop;
    assert (consumable_row capability_id = consumable_row i) as Hrow
      by (unfold consumable_row; by rewrite Hop).
  - destruct (consume_capability_with_execution_and_audit capability_id x e totp_step s)
      as [[[]|] s'] eqn:Hc; [|done].
    apply consume_with_execution_Ok in Hc as (_ & Hn & Hcap & _). rewrite Hrow in *.
    split; [done|]. by eapply consumed_is_settled.
  - apply consume_oauth_Ok in Hok as [Hn Hcap]. rewrite Hrow in *.
    split; [done|]. by eapply consumed_is_settled.
Qed.

Lemma consumed_at_most_once (i : CapabilityId) (ops : list StoreOp) (s : Store) :
  NoDup (map cpr_capability_id (capabilities s)) ->
  succeeded (names_capability i) ops s <= 1 /\
  (settled_capability i s -> succeeded (names_capability i) ops s = 0).
Proof.
  apply (succeeded_at_most_once (names_capability i)
    (fun s => NoDup (map cpr_capability_id (capabilities s))) (settled_capability i)).
  - intros op s'. apply run_op_capability_keys.
  - intros op s' _. apply settled_capability_persists.
  - intros op s' Hd Hop Hok. destruct (consume_success_settles i op s' Hop Hok) as [Hn Hs].
    split; [|done]. intros Hset. rewrite settled_not_consumable in Hn by done. done.
Qed.

(** No sequence of operations on the repository consumes a capability
    twice. Whatever is done in between, by whatever callers and in whatever
    order (mint, revoke, recover after a restart, finish executions), at most
    one call of the two consuming operations succeeds for one capability, and
    none does once its row is consumed, expired or revoked. *)
Theorem store_consumes_at_most_once (i : CapabilityId) (ops : list StoreOp) (s : Store) :
  NoDup (map cpr_capability_id (capabilities s)) ->
  succeeded (names_capability i) ops s <= 1 /\
  (settled_capability i s -> succeeded (names_capability i) ops s = 0).
Proof. apply consumed_at_most_once. Qed.

(** One TOTP time step of one credential is issued at most once, over any
    sequence of operations: the second claim finds the row of the first and the
    whole consumption is rolled back. *)
Theorem totp_step_issued_at_most_once (c : CredentialId) (step : Z) (ops : list StoreOp)
    (s : Store) :
  NoDup (map totp_key (totp_issuances s)) ->
  succeeded (claims_step c step) ops s <= 1 /\
  ((exists row, row ∈ totp_issuances s /\ totp_key row = (id_str c, step)) ->
   succeeded (claims_step c step) ops s = 0).
Proof.
  apply (succeeded_at_most_once (claims_step c step)
    (fun s => NoDup (map totp_key (totp_issuances s)))
    (fun s => exists row, row ∈ totp_issuances s /\ totp_key row = (id_str c, step))).
  - intros op s'. apply (table_change_keys _ (fun _ => false)), run_op_totp.
  - intros op s' _ (row & Hr & Hk). exists row. split; [|done].
    eapply table_change_settled; [apply run_op_totp | done | done].
  - intros op s' _ Hop Hok. destruct op; try discriminate Hop.
    destruct totp_step as [[c' step']|]; [|discriminate Hop].
    cbn [claims_step run_op] in *. bool_to_prop. subst step'.
    destruct (consume_capability_with_execution_and_audit capability_id x e (Some (c', step)) s')
      as [[[]|] s''] eqn:Hc; [|done].
    apply consume_totp_Ok in Hc as (row & Hrows & Hk & Hf).
    split.
    + intros (r & Hr & Hk'). apply (Hf r Hr). congruence.
    + exists row. cbn [snd]. rewrite Hrows. split; [set_solver | congruence].
Qed.

Lemma settled_rows_persist ops s :
  (forall r, r ∈ capabilities s -> live_row r = false ->
     r ∈ capabilities (snd (run_ops ops s))) /\
  (forall r, r ∈ executions s -> open_execution r = false ->
     r ∈ executions (snd (run_ops ops s))).
Proof.
  split; intros r Hr Ho.
  - apply (run_ops_invariant (fun s => r ∈ capabilities s)); [|done].
    intros op s' Hr'. eapply table_change_settled; [|done|done].
    apply capabilities_change_table, run_op_capabilities.
  - apply (run_ops_invariant (fun s => r ∈ executions s)); [|done].
    intros op s' Hr'. eapply table_change_settled; [apply run_op_executions|done|done].
Qed.

(** Stored outcomes are final. Over any sequence of operations, a capability
    row that is consumed, expired or revoked, and an execution row that is no
    longer prepared or consuming, stays in its table exactly as it is, every
    column included: nothing rewrites history, and nothing deletes it. *)
Theorem settled_rows_are_final (ops : list StoreOp) (s : Store) :
  (forall r, r ∈ capabilities s -> live_row r = false ->
     r ∈ capabilities (snd (run_ops ops s))) /\
  (forall r, r ∈ executions s -> open_execution r = false ->
     r ∈ executions (snd (run_ops ops s))).
Proof. apply settled_rows_persist. Qed.

Lemma live_row_state row :
  live_row row = true ->
  cpr_state row = CapabilityState.as_str CapabilityState.Issued \/
  cpr_state row = CapabilityState.as_str CapabilityState.Active.
Proof.
  unfold live_row. rewrite orb_true_iff, !bool_decide_eq_true. done.
Qed.

(** The SQL updates implement the capability state machine. Under any
    operation, every row keeps its identifier and its maximum number of uses,
    and its state either does not change or changes along a transition that
    [CapabilityState::transition_to] accepts; a row that respects its maximum
    goes on respecting it. *)
Theorem capability_rows_follow_state_machine (op : StoreOp) (s : Store) (row : CapabilityRow) :
  row ∈ capabilities s ->
  exists row', row' ∈ capabilities (snd (run_op op s)) /\
    cpr_capability_id row' = cpr_capability_id row /\ cpr_max_uses row' = cpr_max_uses row /\
    (cpr_used_count row <= cpr_max_uses row -> cpr_used_count row' <= cpr_max_uses row') /\
    (row' = row \/
     exists from to, cpr_state row = CapabilityState.as_str from /\
       cpr_state row' = CapabilityState.as_str to /\
       CapabilityState.transition_to from to = Ok to).
Proof.
  intros Hr. destruct (run_op_capabilities op s) as [|new _|p f Hu].
  - exists row. split_and!; auto.
  - exists row. split_and!; auto. set_solver.
  - exists (if p row then f row else row).
    split; [apply elem_of_update_where; by exists row|].
    destruct (p row) eqn:E; [|by auto]. apply Hu in E as (Hl & Hi & Hm & Hs).
    apply live_row_state in Hl. split_and!; [done|done|naive_solver lia|right].
    destruct Hl as [Hl|Hl];
      [exists CapabilityState.Issued | exists CapabilityState.Active];
      (destruct Hs as [(Hs & _) | ([Hs|Hs] & _)];
        [exists CapabilityState.Consumed | exists CapabilityState.Expired
        | exists CapabilityState.Revoked]; done).
Qed.
End Traces.

(** ** Audited operations *)

Definition audited_by (op : StoreOp) : option AuditEvent :=
  match op with
  | OpInsertAuditEvent e | OpInsertApprovalAudit _ e | OpUpdateApprovalAudit _ e
  | OpInsertCapability _ _ e | OpConsume _ _ e _ | OpFinish _ e | OpRevokeAudit _ _ e
  | OpRevokePolicy _ e | OpInsertGrant _ e => Some e
  | _ => None
  end.

(** A statement that, where it succeeds, has inserted this audit event last. *)
Definition ends_with_event `{Chrono} {A : Type} (e : AuditEvent) (body : Statement A) : Prop :=
  forall s a s', body s = Ok (a, s') ->
    audit_failure_trigger s = false /\ audit_events s' = audit_events s ++ [event_row e].

Section Audited.
Context `{Chrono, JsonCodec, UrlParser}.

Lemma commit_audited {A : Type} e (body : Statement A) s :
  ends_with_event e body ->
  (exists a s', commit body s = (Ok a, s') /\ audit_failure_trigger s = false /\
     audit_events s' = audit_events s ++ [event_row e]) \/
  (exists err, commit body s = (Err err, s)).
Proof.
  intros He. destruct (commit_cases body s) as [(a & s' & Hb & Hc)|(err & Hb & Hc)].
  - left. apply He in Hb as [Ht Ha]. eauto.
  - right. eauto.
Qed.

Lemma ends_with_event_insert e : ends_with_event e (insert_audit_event_tx e).
Proof. intros s a s' Hb. by split_stmt Hb. Qed.

Lemma ends_with_event_capability c k e :
  ends_with_event e (fun s =>
    '(_, s) ← insert_into "capabilities" capabilities set_capabilities
      (fun a b => bool_decide (cpr_capability_id a = cpr_capability_id b)) (capability_row c k) s;
    insert_audit_event_tx e s).
Proof. intros s a s' Hb. split_stmt Hb. split_stmt E. by split_stmt Hb. Qed.

Lemma ends_with_event_approval a e :
  ends_with_event e (fun s => '(_, s) ← insert_approval_tx a s; insert_audit_event_tx e s).
Proof.
  intros s u s' Hb. split_stmt Hb. unfold insert_approval_tx in E. split_stmt E. by split_stmt Hb.
Qed.

(** An update that checks the number of rows before the event is inserted. *)
Lemma ends_with_event_update {R : Type} (get : Store -> list R) put p f e what :
  (forall s v, audit_events (put s v) = audit_events s) ->
  (forall s v, audit_failure_trigger (put s v) = audit_failure_trigger s) ->
  ends_with_event e (fun s =>
    let '(changed, s) := update_table get put p f s in
    if negb (changed =? 1) then Err (StateConflict what) else insert_audit_event_tx e s).
Proof.
  intros Hp Ht s a s' Hb. unfold update_table in Hb.
  destruct (negb (_ =? 1)); [done|]. split_stmt Hb. rewrite Ht in T. cbn. by rewrite Hp.
Qed.

Lemma ends_with_event_consume i x e t :
  ends_with_event e (fun s =>
    '(_, s) ← claim_totp_step x t s;
    let '(changed, s) := consume_row i s in
    if negb (changed =? 1) then Err (StateConflict (id_str i)) else
    '(_, s) ← insert_execution_tx x s;
    insert_audit_event_tx e s).
Proof.
  intros s a s' Hb. split_stmt Hb. unfold consume_row, update_table in Hb.
  destruct (negb (_ =? 1)); [done|]. split_stmt Hb. unfold insert_execution_tx in E0.
  split_stmt E0. split_stmt Hb. cbn in *.
  apply claim_totp_step_other in E as [-> | (row & _ & E)]; [done|].
  rewrite E in T |- *. done.
Qed.

Lemma ends_with_event_policy h e :
  ends_with_event e (fun s =>
    let '(changed, s) := revoke_rows
      (fun row => is_some_and (fun hash => bool_decide (hash ≠ h)) (cpr_policy_hash row))
      "policy_changed" s in
    '(_, s) ← insert_audit_event_tx e s; Ok (changed, s)).
Proof.
  intros s a s' Hb. unfold revoke_rows, update_table in Hb. split_stmt Hb. split_stmt E.
  by injection Hb as _ <-.
Qed.

Lemma ends_with_event_grant g e :
  ends_with_event e (fun s =>
    let '(_, s) := update_table standing_grants set_standing_grants
      (fun row => live_grant row && same_grant_tuple g row)
      (fun row => set_grant_revoked row (to_rfc3339 (sg_created_at g)) "superseded") s in
    '(_, s) ← insert_into "standing_grants" standing_grants set_standing_grants grant_conflicts
      (grant_row g) s;
    insert_audit_event_tx e s).
Proof.
  intros s a s' Hb. unfold update_table in Hb. split_stmt Hb. split_stmt E. by split_stmt Hb.
Qed.

Lemma audited_or_unchanged op e s :
  audited_by op = Some e ->
  (exists s', run_op op s = (Ok tt, s') /\ audit_failure_trigger s = false /\
     audit_events s' = audit_events s ++ [event_row e]) \/
  (exists err, run_op op s = (Err err, s)).
Proof.
  intros Ha.
  assert (Hgen : forall {A : Type} (body : Statement A), ends_with_event e body ->
    run_op op s = discard (commit body s) ->
    (exists s', run_op op s = (Ok tt, s') /\ audit_failure_trigger s = false /\
       audit_events s' = audit_events s ++ [event_row e]) \/
    (exists err, run_op op s = (Err err, s))).
  { intros A body He Hrun. rewrite Hrun.
    destruct (commit_audited e body s He) as [(a & s' & -> & ?)|(err & ->)];
      [left; by exists s' | right; by exists err]. }
  assert (Hd : forall (body : Statement unit), commit body s = discard (commit body s)).
  { intros body. destruct (commit_cases body s) as [([] & s' & _ & ->)|(err & _ & ->)]; done. }
  destruct op; try discriminate Ha; injection Ha as <-; cbn [run_op].
  - apply (Hgen _ _ (ends_with_event_insert e0)), Hd.
  - apply (Hgen _ _ (ends_with_event_approval a e0)), Hd.
  - eapply Hgen; [|apply Hd]. apply ends_with_event_update; done.
  - apply (Hgen _ _ (ends_with_event_capability c signing_key_id e0)), Hd.
  - apply (Hgen _ _ (ends_with_event_consume capability_id x e0 totp_step)), Hd.
  - eapply Hgen; [|apply Hd]. apply ends_with_event_update; done.
  - eapply Hgen; [|apply Hd]. apply ends_with_event_update; done.
  - apply (Hgen _ _ (ends_with_event_policy policy_hash e0)). done.
  - apply (Hgen _ _ (ends_with_event_grant g e0)), Hd.
Qed.

(** C35: an audited change is all or nothing. Every operation that carries an
    audit event either succeeds and has appended exactly that event to the log,
    or fails and leaves the whole database as it was; when the log cannot be
    written, it fails. No capability, consumption, finished execution,
    approval, revocation or standing grant exists without its event. *)
Theorem audited_operations_are_atomic (op : StoreOp) (e : AuditEvent) (s : Store) :
  audited_by op = Some e ->
  ((exists s', run_op op s = (Ok tt, s') /\
      audit_events s' = audit_events s ++ [event_row e]) \/
   (exists err, run_op op s = (Err err, s))) /\
  (audit_failure_trigger s = true -> exists err, run_op op s = (Err err, s)).
Proof.
  intros Ha. destruct (audited_or_unchanged op e s Ha) as [(s' & Hr & Ht & He)|Hr].
  - split; [by left; exists s' | by rewrite Ht].
  - auto.
Qed.
End Audited.

(** ** Recovery after a restart *)

Section Recovery.
Context `{Chrono, JsonCodec, UrlParser}.

Lemma update_where_settles {R : Type} (p : R -> bool) f rows :
  (forall r, p (f r) = false) -> forall r, r ∈ update_where p f rows -> p r = false.
Proof.
  intros Hf r Hr. apply elem_of_update_where in Hr as (r0 & _ & ->).
  destruct (p r0) eqn:E; [apply Hf | done].
Qed.

(** A restart leaves nothing half done. Recovery succeeds and reports how
    many capabilities and executions it closed; afterwards no capability is
    issued or active and no execution prepared or consuming, whatever was in
    flight; running it again finds nothing, and no capability minted before the
    restart can be consumed after it. *)
Theorem recovery_closes_everything (now later : Instant) (s : Store) :
  let '(r, s') := recover_incomplete_state now s in
  r = Ok (count_where live_row (capabilities s), count_where open_execution (executions s)) /\
  (forall row, row ∈ capabilities s' -> live_row row = false) /\
  (forall row, row ∈ executions s' -> open_execution row = false) /\
  fst (recover_incomplete_state later s') = Ok (0, 0) /\
  (forall op i, names_capability i op = true -> is_ok (fst (run_op op s')) = false).
Proof.
  destruct (recover_incomplete_state now s) as [r s'] eqn:Hr.
  unfold recover_incomplete_state, commit, update_table in Hr. injection Hr as <- Hs.
  assert (Hl : forall row, row ∈ capabilities s' -> live_row row = false)
    by (rewrite <-Hs; apply update_where_settles; done).
  assert (Ho : forall row, row ∈ executions s' -> open_execution row = false)
    by (rewrite <-Hs; apply (update_where_settles open_execution); done).
  clear Hs.
  split_and!; [done|done|done| |].
  - unfold recover_incomplete_state, commit, update_table. cbn [fst].
    rewrite (proj2 (count_where_zero live_row _) Hl).
    match goal with |- context [count_where ?p (executions (set_capabilities s' ?v))] =>
      change (count_where p (executions (set_capabilities s' v)))
        with (count_where open_execution (executions s')) end.
    by rewrite (proj2 (count_where_zero open_execution _) Ho).
  - intros op i Hop. destruct (is_ok (fst (run_op op s'))) eqn:E; [|done].
    destruct (consume_success_settles i op s' Hop E) as [Hn _].
    assert (count_where (consumable_row i) (capabilities s') = 0) as Hz; [|lia].
    apply count_where_zero. intros r Hr. unfold consumable_row. rewrite (Hl r Hr).
    by rewrite andb_false_r.
Qed.
End Recovery.

(** ** Standing grants *)

Definition live_tuples (rows : list GrantRow) : list (string * string * string * string) :=
  map live_tuple (select_where live_grant rows).

(** The primary key and the partial unique index. *)
Definition grants_unique (s : Store) : Prop :=
  NoDup (map gr_grant_id (standing_grants s)) /\ NoDup (live_tuples (standing_grants s)).

Section GrantLemmas.
Context `{Chrono, JsonCodec, UrlParser}.

(** An update that revokes rows, or leaves their tuple alone. *)
Lemma live_tuples_update p f rows :
  (forall r, p r = true -> live_grant (f r) = true -> live_grant r = true /\ live_tuple (f r) = live_tuple r) ->
  live_tuples (update_where p f rows) `sublist_of` live_tuples rows.
Proof.
  intros Hf. unfold live_tuples, select_where, update_where.
  induction rows as [|r rows IH]; [done|]. cbn [map List.filter].
  destruct (p r) eqn:Ep.
  - destruct (live_grant (f r)) eqn:Ef.
    + destruct (Hf r Ep Ef) as [-> Ht]. cbn [map]. rewrite Ht. by constructor.
    + destruct (live_grant r); cbn [map]; [by constructor | done].
  - destruct (live_grant r); cbn [map]; [by constructor | done].
Qed.

Lemma live_tuples_snoc rows row :
  live_tuples (rows ++ [row]) =
  live_tuples rows ++ (if live_grant row then [live_tuple row] else []).
Proof.
  unfold live_tuples, select_where. rewrite filter_app, map_app. cbn [List.filter].
  by destruct (live_grant row).
Qed.

Lemma grants_unique_update s p f :
  (forall r, p r = true -> gr_grant_id (f r) = gr_grant_id r) ->
  (forall r, p r = true -> live_grant (f r) = true -> live_grant r = true /\ live_tuple (f r) = live_tuple r) ->
  grants_unique s -> grants_unique (set_standing_grants s (update_where p f (standing_grants s))).
Proof.
  intros Hk Hf [Hi Ht]. split; cbn [standing_grants set_standing_grants].
  - by rewrite map_update_where.
  - eapply sublist_NoDup; [exact Ht | by apply live_tuples_update].
Qed.

Lemma grants_unique_insert s row :
  (forall r, r ∈ standing_grants s -> grant_conflicts row r = false) ->
  grants_unique s -> grants_unique (set_standing_grants s (standing_grants s ++ [row])).
Proof.
  intros Hc [Hi Ht]. split; cbn [standing_grants set_standing_grants].
  - eapply (table_change_keys gr_grant_id (fun _ => true)); [apply tc_insert | done].
    intros r Hr Heq. apply Hc in Hr. unfold grant_conflicts in Hr.
    by rewrite bool_decide_eq_true_2 in Hr.
  - rewrite live_tuples_snoc. destruct (live_grant row) eqn:El; [|by rewrite app_nil_r].
    apply list.NoDup_app. split_and!; [done| |apply NoDup_singleton].
    intros t Hin Heq. apply list_elem_of_singleton in Heq as ->.
    unfold live_tuples, select_where in Hin.
    apply list_elem_of_In, in_map_iff in Hin as (r & Hr & Hin).
    apply filter_In in Hin as [Hin Hlr]. apply list_elem_of_In in Hin. apply Hc in Hin.
    unfold grant_conflicts, same_tuple in Hin. unfold live_tuple in Hr. injection Hr as H1' H2' H3' H4'.
    apply orb_false_iff in Hin as [_ Hin].
    by rewrite El, Hlr, H1', H2', H3', H4', !bool_decide_eq_true_2 in Hin by done.
Qed.

Lemma grants_unique_eq s s' :
  standing_grants s' = standing_grants s -> grants_unique s -> grants_unique s'.
Proof. unfold grants_unique. by intros ->. Qed.

Lemma insert_grant_Ok g e s s' :
  insert_standing_grant_with_audit g e s = (Ok tt, s') ->
  let revoked := update_where (fun row => live_grant row && same_grant_tuple g row)
    (fun row => set_grant_revoked row (to_rfc3339 (sg_created_at g)) "superseded")
    (standing_grants s) in
  standing_grants s' = revoked ++ [grant_row g] /\
  forall r, r ∈ revoked -> grant_conflicts (grant_row g) r = false.
Proof.
  unfold insert_standing_grant_with_audit. intros Hc. apply commit_Ok in Hc.
  unfold update_table in Hc. split_stmt Hc. split_stmt E. split_stmt Hc. done.
Qed.

Lemma grants_unique_revoke_row i reason t s :
  grants_unique s -> grants_unique (revoke_grant_row i reason t s).
Proof. apply grants_unique_update; [done|]. intros r _ Hl. discriminate Hl. Qed.

Lemma grants_unique_revoke sel reason t s :
  grants_unique s -> grants_unique (snd (revoke_standing_grants sel reason t s)).
Proof.
  unfold revoke_standing_grants. destruct (list_standing_grants s false) as [gs|]; [|done].
  cbn [snd]. generalize (List.filter (selector_matches sel) gs) as l. intros l. revert s.
  induction l as [|g l IH]; intros s Hs; [done|]. cbn [fold_left].
  by apply IH, grants_unique_revoke_row.
Qed.

Lemma run_op_grants_unique op s : grants_unique s -> grants_unique (snd (run_op op s)).
Proof.
  intros Hu. destruct op; cbn [run_op discard snd];
    try solve [eapply grants_unique_eq; [|exact Hu]; other_table ltac:(reflexivity)].
  - destruct (consume_capability_with_execution_and_audit capability_id x e totp_step s)
      as [[[]|err] s'] eqn:Hc.
    + eapply grants_unique_eq; [|exact Hu].
      by apply consume_with_execution_Ok in Hc as (_ & _ & _ & _ & _ & _ & Hg & _).
    + unfold consume_capability_with_execution_and_audit in Hc. by apply commit_Err in Hc as [_ ->].
  - destruct (insert_standing_grant_with_audit g e s) as [[[]|err] s'] eqn:Hc.
    + apply insert_grant_Ok in Hc as [Hs Hf]. set (up := update_where _ _ _) in *.
      apply (grants_unique_eq (set_standing_grants (set_standing_grants s up) (up ++ [grant_row g])));
        [exact Hs|].
      apply (grants_unique_insert (set_standing_grants s up)); [exact Hf|].
      apply grants_unique_update; [done| |done]. intros r _ Hl. discriminate Hl.
    + unfold insert_standing_grant_with_audit in Hc. by apply commit_Err in Hc as [_ ->].
  - apply grants_unique_update; done.
  - by apply grants_unique_revoke.
Qed.

(** At most one standing grant is live for one agent, credential, origin and
    action, whatever operations run: the schema's uniqueness holds in the empty
    database and every sequence of operations preserves it, a replaced grant
    being revoked before its successor is written. *)
Theorem one_live_grant_per_tuple (ops : list StoreOp) :
  grants_unique (snd (run_ops ops empty_store)).
Proof.
  apply (run_ops_invariant grants_unique); [apply run_op_grants_unique|].
  split; constructor.
Qed.
End GrantLemmas.

(** ** Reading grants back *)

(** The fields of a grant are in the form the columns read back from. *)
Record grant_readable `{UrlParser} (g : StandingGrant) : Prop := {
  gd_grant_id : id_parse KGrant (id_str (sg_grant_id g)) = Ok (sg_grant_id g);
  gd_agent_id : id_parse KAgent (id_str (sg_agent_id g)) = Ok (sg_agent_id g);
  gd_credential_id :
    id_parse KCredential (id_str (sg_credential_id g)) = Ok (sg_credential_id g);
  gd_origin : origin_parse (origin_as_str (sg_origin g)) = Ok (sg_origin g);
  gd_created_at : four_digit_year (sg_created_at g);
  gd_expires_at : four_digit_year (sg_expires_at g)
}.

(** A grant as it is first stored: live and unused. *)
Definition as_granted (g : StandingGrant) : StandingGrant := {|
  sg_grant_id := sg_grant_id g; sg_agent_id := sg_agent_id g; sg_agent_name := sg_agent_name g;
  sg_credential_id := sg_credential_id g; sg_credential_name := sg_credential_name g;
  sg_origin := sg_origin g; sg_action := sg_action g; sg_risk_ceiling := sg_risk_ceiling g;
  sg_require_presence := sg_require_presence g; sg_created_at := sg_created_at g;
  sg_expires_at := sg_expires_at g; sg_revoked_at := None; sg_revoked_reason := None;
  sg_last_used_at := None; sg_use_count := 0 |}.

Section GrantReads.
Context `{ChronoLaws, JsonCodec, UP : UrlParser}.

Lemma row_to_standing_grant_row g :
  grant_readable g -> row_to_standing_grant (grant_row g) = Ok (as_granted g).
Proof.
  intros [E1 E2 E3 E4 E5 E6]. unfold row_to_standing_grant, column, time_column, opt_time_column.
  cbn [gr_grant_id gr_agent_id gr_credential_id gr_origin gr_action gr_risk_ceiling
    gr_created_at gr_expires_at gr_revoked_at gr_last_used_at grant_row].
  rewrite E1, E2, E3, E4, action_round_trip, risk_round_trip, !rfc3339_round_trip by done.
  cbn. unfold as_granted. by destruct (sg_require_presence g).
Qed.

(** The columns a parsed grant was read from. *)
Lemma row_to_standing_grant_Ok row g :
  row_to_standing_grant row = Ok g ->
  gr_grant_id row = id_str (sg_grant_id g) /\ gr_agent_id row = id_str (sg_agent_id g) /\
  sg_agent_name g = gr_agent_name row /\
  sg_credential_name g = gr_credential_name row /\
  origin_parse (gr_origin row) = Ok (sg_origin g) /\
  gr_action row = action_as_str (sg_action g) /\
  (live_grant row = true -> sg_revoked_at g = None).
Proof.
  unfold row_to_standing_grant, column, time_column. intros Hr.
  apply bind_Ok_inv in Hr as (gi & H1' & Hr). apply map_err_Ok, id_parse_str in H1' as [_ H1'].
  apply bind_Ok_inv in Hr as (ai & H2' & Hr). apply map_err_Ok, id_parse_str in H2' as [_ H2'].
  apply bind_Ok_inv in Hr as (ci & _ & Hr).
  apply bind_Ok_inv in Hr as (o & H4' & Hr). apply map_err_Ok in H4'.
  apply bind_Ok_inv in Hr as (a & H5' & Hr). apply map_err_Ok, action_from_str_Ok in H5'.
  apply bind_Ok_inv in Hr as (rc & _ & Hr). apply bind_Ok_inv in Hr as (ca & _ & Hr).
  apply bind_Ok_inv in Hr as (ea & _ & Hr). apply bind_Ok_inv in Hr as (ra & H9' & Hr).
  apply bind_Ok_inv in Hr as (lu & _ & Hr). injection Hr as <-. cbn.
  split_and!; try done. intros Hl. unfold live_grant in Hl. apply bool_decide_eq_true in Hl.
  rewrite Hl in H9'. by injection H9' as <-.
Qed.

Lemma find_matching_Ok s agent name action origin g :
  origin_parse (origin_as_str origin) = Ok origin ->
  find_matching_standing_grant s agent name action origin = Ok (Some g) ->
  (exists row, row ∈ standing_grants s /\ live_grant row = true /\
     row_to_standing_grant row = Ok g) /\
  sg_agent_id g = agent /\ sg_credential_name g = name /\ sg_action g = action /\
  sg_origin g = origin /\ sg_revoked_at g = None.
Proof.
  intros Ho Hf. unfold find_matching_standing_grant in Hf. apply map_err_Ok in Hf.
  destruct (select_first _ _) as [row|] eqn:Hs; [|done].
  apply select_first_Some in Hs as [Hin Hp]. cbn [fmap option_fmap option_map] in Hf.
  destruct (row_to_standing_grant row) as [g'|] eqn:Hr; [|done]. injection Hf as ->.
  unfold same_tuple in Hp. bool_to_prop.
  pose proof Hr as (_ & Ha & _ & Hn & Hor & Hact & Hrev)%row_to_standing_grant_Ok.
  split; [by exists row|]. split_and!; auto.
  - destruct (sg_agent_id g), agent; cbn in *; congruence.
  - congruence.
  - apply action_as_str_inj. congruence.
  - congruence.
Qed.

(** A standing grant reads back as it was given. When the insertion
    succeeds, looking up its agent, credential, action and origin finds exactly
    that grant, live and unused, even if an older grant for the same tuple was
    there. *)
Theorem inserted_grant_is_found (g : StandingGrant) (e : AuditEvent) (s s' : Store) :
  grant_readable g ->
  insert_standing_grant_with_audit g e s = (Ok tt, s') ->
  find_matching_standing_grant s' (sg_agent_id g) (sg_credential_name g) (sg_action g)
    (sg_origin g) = Ok (Some (as_granted g)).
Proof.
  intros Hg Hi. apply insert_grant_Ok in Hi as [Hs _].
  unfold find_matching_standing_grant. rewrite Hs, select_first_app.
  rewrite (proj2 (select_first_None _ _)).
  - unfold select_first. cbn [List.find].
    assert (same_grant_tuple g (grant_row g) = true) as Ht
      by (unfold same_grant_tuple, same_tuple; cbn; by rewrite !bool_decide_eq_true_2).
    unfold same_grant_tuple in Ht. rewrite Ht. change (live_grant (grant_row g) && true) with true.
    cbn [fmap option_fmap option_map transpose map_err].
    by rewrite row_to_standing_grant_row.
  - intros r Hr. apply elem_of_update_where in Hr as (r0 & _ & ->).
    destruct (live_grant r0 && same_grant_tuple g r0) eqn:E; [done | exact E].
Qed.

Lemma revoke_grant_row_live i reason t s r :
  r ∈ standing_grants (revoke_grant_row i reason t s) -> live_grant r = true ->
  r ∈ standing_grants s /\ gr_grant_id r <> id_str i.
Proof.
  unfold revoke_grant_row, update_table. cbn. intros Hr Hl.
  apply elem_of_update_where in Hr as (r0 & Hr0 & ->).
  destruct (bool_decide (gr_grant_id r0 = id_str i) && live_grant r0) eqn:E; [done|].
  split; [done|]. rewrite Hl, andb_true_r in E. by apply bool_decide_eq_false in E.
Qed.

Lemma revoke_grants_fold reason t l : forall s r,
  r ∈ standing_grants (fold_left (fun s g => revoke_grant_row (sg_grant_id g) reason t s) l s) ->
  live_grant r = true ->
  r ∈ standing_grants s /\ forall g, g ∈ l -> gr_grant_id r <> id_str (sg_grant_id g).
Proof.
  induction l as [|g l IH]; intros s r Hr Hl; cbn [fold_left] in *.
  - split; [done|]. intros g Hg. by apply elem_of_nil in Hg.
  - apply IH in Hr as [Hr Hf]; [|done]. apply revoke_grant_row_live in Hr as [Hr Hn]; [|done].
    split; [done|]. intros g' [->|Hg']%elem_of_cons; auto.
Qed.

(** Revoking grants silences all of them. When the revocation succeeds,
    every live grant that is left reads back as one the selector does not
    match, and the grants returned to the caller are ones that were live and
    that it does match. *)
Theorem revocation_silences_matching_grants (sel : GrantSelector) (reason : string) (t : Instant)
    (s : Store) (gs : list StandingGrant) :
  fst (revoke_standing_grants sel reason t s) = Ok gs ->
  (forall row, row ∈ standing_grants (snd (revoke_standing_grants sel reason t s)) ->
     live_grant row = true ->
     exists g, row_to_standing_grant row = Ok g /\ selector_matches sel g = false) /\
  (forall g, g ∈ gs -> selector_matches sel g = true /\ sg_revoked_at g = None).
Proof.
  unfold revoke_standing_grants. destruct (list_standing_grants s false) as [all|] eqn:Hl; [|done].
  cbn [fst snd]. intros [= <-].
  unfold list_standing_grants in Hl. apply map_err_Ok, collect_Ok in Hl.
  split.
  - intros row Hr Hlive. apply revoke_grants_fold in Hr as [Hr Hf]; [|done].
    assert (Hin : row ∈ order_by (text_ge gr_created_at)
      (select_where (fun row => false || live_grant row) (standing_grants s))).
    { rewrite order_by_perm. unfold select_where. apply list_elem_of_In, filter_In.
      split; [by apply list_elem_of_In | done]. }
    apply list_elem_of_lookup in Hin as [i Hi].
    destruct (Forall2_lookup_l _ _ _ _ _ Hl Hi) as (g & Hgi & Hg). exists g. split; [done|].
    apply not_true_iff_false. intros Hm.
    assert (Hgin : g ∈ List.filter (selector_matches sel) all).
    { apply list_elem_of_In, filter_In. split; [|done].
      apply list_elem_of_In. by eapply list_elem_of_lookup_2. }
    apply Hf in Hgin. by apply row_to_standing_grant_Ok in Hg as [Hg _].
  - intros g Hg. apply list_elem_of_In, filter_In in Hg as [Hg Hm]. split; [done|].
    apply list_elem_of_In, list_elem_of_lookup in Hg as [i Hi].
    destruct (Forall2_lookup_r _ _ _ _ _ Hl Hi) as (row & Hri & Hr).
    apply row_to_standing_grant_Ok in Hr as (_ & _ & _ & _ & _ & _ & Hr). apply Hr.
    apply list_elem_of_lookup_2 in Hri. rewrite order_by_perm in Hri.
    unfold select_where in Hri. by apply list_elem_of_In, filter_In in Hri as [_ ?].
Qed.
End GrantReads.

(** ** Reading the audit log back *)

Record event_readable (e : AuditEvent) : Prop := {
  evd_id : id_parse KEvent (id_str (ev_event_id e)) = Ok (ev_event_id e);
  evd_version : u32_range (ev_audit_key_version e);
  evd_created_at : four_digit_year (ev_created_at e)
}.

(** The events of a log, numbered from [start + 1] on. *)
Definition numbered_from (start : Z) (es : list AuditEvent) : Prop :=
  forall i e, es !! i = Some e -> ev_sequence e = start + Z.of_nat i + 1.

Section AuditLog.
Context `{ChronoLaws, Hashes}.

Lemma numbered_cons start e es :
  numbered_from start (e :: es) <-> ev_sequence e = start + 1 /\ numbered_from (start + 1) es.
Proof.
  split.
  - intros Hn. split; [by rewrite (Hn 0%nat e eq_refl); lia|].
    intros i e' Hi. rewrite (Hn (S i) e' Hi). lia.
  - intros [He Hn] [|i] e' Hi; [injection Hi as <-; lia|]. rewrite (Hn i e' Hi). lia.
Qed.

Lemma numbered_app start es es' :
  numbered_from start (es ++ es') -> numbered_from start es.
Proof. intros Hn i e Hi. apply Hn. by apply lookup_app_l_Some. Qed.

Lemma verified_numbered ks es : verify_audit_chain es ks = Ok tt -> numbered_from 0 es.
Proof. intros Hv i e Hi. by apply (verified_sequence _ _ _ _ _ _ Hv). Qed.

Lemma row_to_event_row e :
  event_readable e -> 0 <= ev_sequence e < 2 ^ 63 -> row_to_event (event_row e) = Ok e.
Proof.
  intros [E1 E2 E3] Hs. unfold row_to_event, column, time_column, event_row. cbn.
  rewrite E1, rfc3339_round_trip, i64_u64_round_trip by (unfold u64_range; lia || done).
  cbn. unfold wrap_u32. rewrite Z.mod_small by exact E2. by destruct e.
Qed.

Lemma order_by_numbered start es :
  0 <= start -> start + Z.of_nat (length es) < 2 ^ 63 -> numbered_from start es ->
  StronglySorted (fun a b => sequence_le a b = true) (map event_row es).
Proof.
  revert start; induction es as [|e es IH]; intros start H0' Hl Hn; [constructor|].
  apply numbered_cons in Hn as [He Hn]. cbn [length] in Hl. cbn [map]. constructor.
  - apply (IH (start + 1)); [lia..|done].
  - apply List.Forall_forall. intros r Hr. apply in_map_iff in Hr as (e' & <- & Hin).
    apply list_elem_of_In, list_elem_of_lookup in Hin as [i Hi].
    pose proof (Hn i e' Hi) as He'. apply lookup_lt_Some in Hi.
    unfold sequence_le, event_row. cbn. rewrite !u64_as_i64_small by lia. apply Z.leb_le. lia.
Qed.

Lemma list_audit_events_rows s es :
  audit_events s = map event_row es -> Forall event_readable es -> numbered_from 0 es ->
  Z.of_nat (length es) < 2 ^ 63 -> list_audit_events s = Ok es.
Proof.
  intros Hs Hr Hn Hl. unfold list_audit_events.
  rewrite Hs, order_by_sorted by (apply (order_by_numbered 0); [lia..|done]).
  apply map_err_Ok, collect_Ok, Forall2_fmap_l, Forall2_same_length_lookup_2; [done|].
  intros i e e' Hi Hi'. rewrite Hi in Hi'. injection Hi' as <-.
  apply row_to_event_row.
  - rewrite Forall_lookup in Hr. by eapply Hr.
  - pose proof (Hn i e Hi). apply lookup_lt_Some in Hi. lia.
Qed.

Lemma fold_max_le l : forall a x, a <= x -> (forall y, y ∈ l -> y <= x) -> fold_left Z.max l a <= x.
Proof.
  induction l as [|y l IH]; intros a x Ha Hl; [done|]. cbn [fold_left].
  apply IH; [|set_solver]. assert (y <= x) by set_solver. lia.
Qed.

Lemma numbered_snoc start es e :
  numbered_from start (es ++ [e]) ->
  ev_sequence e = start + Z.of_nat (length es) + 1 /\
  forall e', e' ∈ es -> start < ev_sequence e' < ev_sequence e.
Proof.
  intros Hn. assert (He : (es ++ [e]) !! length es = Some e) by (by apply list_lookup_middle).
  apply Hn in He as Hs. split; [done|]. intros e' [i Hi]%list_elem_of_lookup.
  pose proof (lookup_lt_Some _ _ _ Hi). assert ((es ++ [e]) !! i = Some e') as Hi'
    by (by apply lookup_app_l_Some). apply Hn in Hi'. lia.
Qed.

Lemma latest_audit_rows s es :
  audit_events s = map event_row es -> numbered_from 0 es -> Z.of_nat (length es) < 2 ^ 63 ->
  get_latest_audit_hash s = Ok (last_hash GENESIS_PREVIOUS_HASH es) /\
  get_latest_audit_sequence s = Ok (Z.of_nat (length es)).
Proof.
  intros Hs Hn Hl. unfold get_latest_audit_hash, get_latest_audit_sequence, latest_event.
  rewrite Hs. destruct es as [|e es _] using rev_ind; [done|].
  apply numbered_snoc in Hn as [He Hlt]. rewrite length_app in *. cbn [length] in *.
  assert (Hseq : forall e', e' ∈ es -> evr_sequence (event_row e') < evr_sequence (event_row e)).
  { intros e' He'. apply Hlt in He'. unfold event_row. cbn. rewrite !u64_as_i64_small by lia. lia. }
  split.
  - rewrite map_app. cbn [map]. rewrite order_by_last.
    + cbn. by rewrite last_hash_snoc.
    + intros r Hr. apply list_elem_of_In, in_map_iff in Hr as (e' & <- & Hr).
      apply list_elem_of_In in Hr. apply Hseq in Hr. unfold sequence_le. apply Z.leb_gt. lia.
  - f_equal. transitivity (i64_as_u64 (evr_sequence (event_row e))).
    + f_equal. destruct es as [|e0 es].
      * cbn. lia.
      * cbn [app map]. rewrite map_app, map_app, fold_left_app. cbn [map fold_left].
        assert (fold_left Z.max (map evr_sequence (map event_row es)) (evr_sequence (event_row e0))
                <= evr_sequence (event_row e)); [|lia].
        apply fold_max_le; [apply Z.lt_le_incl, Hseq; set_solver|].
        intros y Hy. apply list_elem_of_In in Hy. rewrite map_map, in_map_iff in Hy.
        destruct Hy as (e' & <- & Hy). apply list_elem_of_In in Hy.
        apply Z.lt_le_incl, Hseq. set_solver.
    + unfold event_row. cbn. rewrite i64_u64_round_trip by (unfold u64_range; lia). lia.
Qed.

(** The audit log survives a restart. If the table holds the rows of a
    verified log, reading it back yields exactly that log, in order, so it
    verifies as before; and the last hash and the last sequence number the next
    event is chained to are those of the log, the genesis hash and zero when it
    is empty. *)
Theorem audit_log_reads_back (ks : gmap Z (list byte)) (es : list AuditEvent) (s : Store) :
  audit_events s = map event_row es -> verify_audit_chain es ks = Ok tt ->
  Forall event_readable es -> Z.of_nat (length es) < 2 ^ 63 ->
  list_audit_events s = Ok es /\
  get_latest_audit_hash s = Ok (last_hash GENESIS_PREVIOUS_HASH es) /\
  get_latest_audit_sequence s = Ok (Z.of_nat (length es)).
Proof.
  intros Hs Hv Hr Hl. apply verified_numbered in Hv.
  split; [by apply list_audit_events_rows | by apply latest_audit_rows].
Qed.
End AuditLog.

(** ** Witnesses *)

Definition example_stored : Capability := {|
  cap_capability_id := MkId "cap_1"; cap_request_id := MkId "req_1"; cap_agent_id := MkId "agent_1";
  cap_credential_id := MkId "cred_1"; cap_action := AuthenticateTotp;
  cap_top_origin := MkOrigin "https" "github.com" 443;
  cap_frame_origin := MkOrigin "https" "github.com" 443; cap_browser_session_id := MkId "bs_1";
  cap_extension_key_id := "ext"; cap_tab_id := 1; cap_frame_id := 0; cap_document_id := "doc";
  cap_navigation_epoch := 1; cap_recipe_id := MkId "rcp_1"; cap_recipe_hash := [];
  cap_policy_hash := []; cap_token_hash := []; cap_state := CapabilityState.Issued;
  cap_max_uses := 1; cap_used_count := 0; cap_issued_at := 5; cap_consume_deadline := 35;
  cap_execution_deadline := 125; cap_step_deadline := None; cap_flow_id := None;
  cap_step_id := None; cap_revoked_reason := None |}.

Definition example_execution : Execution := {|
  ex_execution_id := MkId "exec_1"; ex_capability_id := MkId "cap_1";
  ex_state := ExecutionState.Consuming; ex_prepared_context_digest := None;
  ex_started_at := Some 10; ex_completed_at := None; ex_result_code := None |}.

Definition example_log_event (n : Z) (id : string) : AuditEvent := {|
  ev_sequence := n; ev_event_id := MkId id; ev_event_type := "t"; ev_actor_type := "broker";
  ev_actor_id := None; ev_event_json := "{}"; ev_audit_key_version := 1; ev_previous_hash := [];
  ev_event_hash := []; ev_created_at := 7 |}.

Definition example_consume (n : Z) (event_id : string) : StoreOp :=
  OpConsume (MkId "cap_1") example_execution (example_log_event n event_id)
    (Some (MkId "cred_1", 3)).
Definition example_mint_op : StoreOp :=
  OpInsertCapability example_stored "k1" (example_log_event 1 "evt_1").
Definition example_run : list StoreOp :=
  [example_mint_op; example_consume 2 "evt_2"; example_consume 3 "evt_3"].

Lemma store_consumes_at_most_once_witness :
  map is_ok (fst (run_ops example_run empty_store)) = [true; true; false] /\
  succeeded (names_capability (MkId "cap_1")) example_run empty_store <= 1.
Proof.
  split; [vm_compute; reflexivity|].
  apply (store_consumes_at_most_once (MkId "cap_1") example_run empty_store). constructor.
Defined.

Lemma totp_step_issued_at_most_once_witness :
  succeeded (claims_step (MkId "cred_1") 3) example_run empty_store = 1 /\
  succeeded (claims_step (MkId "cred_1") 3) example_run empty_store <= 1.
Proof.
  split; [vm_compute; reflexivity|].
  apply (totp_step_issued_at_most_once (MkId "cred_1") 3 example_run empty_store). constructor.
Defined.

Definition example_minted_store : Store := snd (run_op example_mint_op empty_store).

Lemma capability_rows_follow_state_machine_witness :
  exists row', row' ∈ capabilities (snd (run_op (example_consume 2 "evt_2") example_minted_store)) /\
    cpr_capability_id row' = "cap_1".
Proof.
  destruct (capability_rows_follow_state_machine (example_consume 2 "evt_2") example_minted_store
    (capability_row example_stored "k1")) as (row' & Hr & Hi & _); [left|]. by exists row'.
Defined.

Lemma audited_operations_are_atomic_witness :
  exists err, run_op example_mint_op (set_audit_failure_trigger empty_store true)
    = (Err err, set_audit_failure_trigger empty_store true).
Proof.
  apply (audited_operations_are_atomic example_mint_op (example_log_event 1 "evt_1")); reflexivity.
Defined.

Lemma inserted_grant_is_found_witness :
  find_matching_standing_grant
    (snd (insert_standing_grant_with_audit example_grant (example_log_event 1 "evt_1") empty_store))
    (MkId "agent_fixed") "github-work" AuthenticatePassword (MkOrigin "https" "github.com" 443)
  = Ok (Some (as_granted example_grant)).
Proof.
  apply (inserted_grant_is_found example_grant (example_log_event 1 "evt_1") empty_store).
  - constructor; vm_compute; first [reflexivity | split; [discriminate | reflexivity]].
  - vm_compute. reflexivity.
Defined.

Definition example_granted_store : Store :=
  snd (insert_standing_grant_with_audit example_grant (example_log_event 1 "evt_1") empty_store).

Lemma revocation_silences_matching_grants_witness :
  fst (revoke_standing_grants (SelectAgent "claude") "user" 9 example_granted_store)
    = Ok [as_granted example_grant] /\
  (forall g, g ∈ [as_granted example_grant] -> sg_revoked_at g = None).
Proof.
  assert (Hr : fst (revoke_standing_grants (SelectAgent "claude") "user" 9 example_granted_store)
    = Ok [as_granted example_grant]) by (vm_compute; reflexivity).
  split; [exact Hr|]. intros g Hg.
  exact (proj2 (proj2 (revocation_silences_matching_grants (SelectAgent "claude") "user" 9
    example_granted_store [as_granted example_grant] Hr) g Hg)).
Defined.

Definition example_logged_store : Store :=
  set_audit_events empty_store (map event_row [example_e1]).

Lemma audit_log_reads_back_witness :
  list_audit_events example_logged_store = Ok [example_e1] /\
  get_latest_audit_sequence example_logged_store = Ok 1.
Proof.
  destruct (audit_log_reads_back example_key_ring [example_e1] example_logged_store) as (H1 & _ & H2);
    [reflexivity | vm_compute; reflexivity | | vm_compute; reflexivity | split; [exact H1 | exact H2]].
  apply Forall_singleton.
  constructor; vm_compute; first [reflexivity | split; first [discriminate | reflexivity]].
Defined.
