(* ===== verification/StoreTypes.v ===== *)
(** * StoreTypes: the database stays well typed

    SQLite checks neither the form of an identifier nor of a time, and the
    repository converts every column when it reads a row. Here: what the
    repository writes it can read, over any sequence of its operations. *)

From S2P Require Import Prelude.
From S2P Require Import Externals.
From S2P Require Import Concrete.
From S2P Require Import Domain.
From S2P Require Import AuditChain.
From S2P Require Import Capability.
From S2P Require Import Table.
From S2P Require Import Store.
From S2P Require Import StoreProps.

(** ** Tables of typed rows with a key *)

Section Tables.
Context {R K : Type} (typed : R -> Prop) (key : R -> K).

Definition table_ok (rows : list R) : Prop := Forall typed rows /\ NoDup (map key rows).

Lemma table_ok_nil : table_ok [].
Proof. split; constructor. Qed.

Lemma table_ok_insert row rows :
  typed row -> (forall r, r ∈ rows -> key row <> key r) -> table_ok rows ->
  table_ok (rows ++ [row]).
Proof.
  intros Hr Hf [Ht Hn]. split.
  - apply Forall_app. by rewrite list.Forall_singleton.
  - eapply (table_change_keys key (fun _ => true)); [by apply tc_insert|done].
Qed.

Lemma table_ok_update p f rows :
  (forall r, p r = true -> typed r -> typed (f r) /\ key (f r) = key r) -> table_ok rows ->
  table_ok (update_where p f rows).
Proof.
  intros Hf [Ht Hn]. split.
  - apply list.Forall_forall. intros r (r0 & Hr0 & ->)%elem_of_update_where.
    rewrite list.Forall_forall in Ht. specialize (Ht _ Hr0). destruct (p r0) eqn:Hp; [by apply Hf|done].
  - assert (map key (update_where p f rows) = map key rows) as ->; [|done].
    clear Hn. induction Ht as [|r rows Hr _ IH]; [done|]. unfold update_where in *. cbn [map].
    rewrite IH. f_equal. destruct (p r) eqn:Hp; [by apply Hf|done].
Qed.

Lemma table_ok_delete p rows : table_ok rows -> table_ok (delete_where p rows).
Proof.
  intros [Ht Hn]. unfold delete_where. induction rows as [|r rows IH]; [by split|].
  inversion_clear Ht as [|? ? Hr Hts]. inversion_clear Hn as [|? ? Hx Hns].
  destruct (IH Hts Hns) as [Ht' Hn']. cbn [List.filter]. destruct (negb (p r)); [|by split].
  split; [by constructor|]. cbn [map]. constructor; [|done].
  intros Hin. apply Hx. apply list_elem_of_In, in_map_iff in Hin as (r' & Hk & Hr').
  apply filter_In in Hr' as [Hr' _]. rewrite <-Hk. by apply list_elem_of_In, in_map.
Qed.

(** A second key that no other row has, given to the row of a first key. *)
Lemma table_ok_rekey {L : Type} (second : R -> L) p f l rows :
  (forall r r', p r = true -> p r' = true -> key r = key r') ->
  (forall r, p r = true -> second (f r) = l) ->
  (forall r, r ∈ rows -> p r = false -> second r <> l) ->
  NoDup (map key rows) -> NoDup (map second rows) -> NoDup (map second (update_where p f rows)).
Proof.
  intros Hp Hf. unfold update_where. induction rows as [|r rows IH]; intros Ho Hk Hs; [done|].
  cbn [map] in *. inversion_clear Hk as [|? ? Hx Hks]. inversion_clear Hs as [|? ? Hy Hss].
  constructor; [|apply IH; [intros x Hx'; apply Ho; by right|done..]].
  intros Hin. apply list_elem_of_In in Hin. rewrite map_map in Hin.
  apply in_map_iff in Hin as (r' & He & Hr'). apply list_elem_of_In in Hr'.
  assert (Hne : key r <> key r').
  { intros E. apply Hx. rewrite E. by apply list_elem_of_In, in_map, list_elem_of_In. }
  assert (Hne' : second r <> second r').
  { intros E. apply Hy. rewrite E. by apply list_elem_of_In, in_map, list_elem_of_In. }
  destruct (p r) eqn:E1, (p r') eqn:E2.
  - by apply Hne, Hp.
  - rewrite (Hf r E1) in He. apply (Ho r'); [by right|done|done].
  - rewrite (Hf r' E2) in He. apply (Ho r); [by left|done|done].
  - by apply Hne'.
Qed.
End Tables.

(** A table with a second key beside its primary one. *)
Definition two_keys {R K L : Type} (typed : R -> Prop) (key : R -> K) (second : R -> L)
    (rows : list R) : Prop :=
  table_ok typed key rows /\ table_ok (fun _ => True) second rows.

(** ** What a row and an operation have to be like *)

Section Types.
Context `{Chrono, JsonCodec, UrlParser}.

Definition id_ok {k : IdKind} (i : Id k) : Prop := id_parse k (id_str i) = Ok i.
Definition id_text (k : IdKind) (text : string) : Prop := exists i : Id k, id_ok i /\ text = id_str i.
Definition time_text (text : string) : Prop := exists t, four_digit_year t /\ text = to_rfc3339 t.
Definition opt_time_text (text : option string) : Prop :=
  match text with Some text => time_text text | None => True end.
Definition opt_year (t : option Instant) : Prop :=
  match t with Some t => four_digit_year t | None => True end.

Record agent_typed (row : AgentRow) : Prop := {
  agt_id : id_text KAgent (agr_agent_id row);
  agt_created : time_text (agr_created_at row)
}.
Record credential_typed (row : CredentialRow) : Prop := {
  crt_id : id_text KCredential (crr_credential_id row);
  crt_actions : exists actions, crr_allowed_actions_json row = json_print (actions_to_json actions);
  crt_disabled : opt_time_text (crr_disabled_at row)
}.
Record oauth_grant_typed (row : OAuthGrantRow) : Prop := {
  ogt_id : id_text KGrant (ogr_grant_id row);
  ogt_credential : id_text KCredential (ogr_credential_id row);
  ogt_scopes : exists scopes, ogr_scopes_json row = json_print (JArray (map JString scopes));
  ogt_created : time_text (ogr_created_at row);
  ogt_expires : opt_time_text (ogr_expires_at row)
}.
Record capability_typed (row : CapabilityRow) : Prop := {
  cpt_id : id_text KCapability (cpr_capability_id row);
  cpt_request : id_text KRequest (cpr_request_id row);
  cpt_state : exists state, cpr_state row = CapabilityState.as_str state;
  cpt_uses : 0 <= cpr_used_count row <= cpr_max_uses row /\ cpr_max_uses row <= u32_max;
  cpt_issued : time_text (cpr_issued_at row);
  cpt_deadline : time_text (cpr_consume_deadline row)
}.
Definition execution_typed (row : ExecutionRow) : Prop :=
  exists state, exr_state row = ExecutionState.as_str state.
Record event_typed (row : AuditEventRow) : Prop := {
  evt_id : id_text KEvent (evr_event_id row);
  evt_created : time_text (evr_created_at row)
}.
Definition checkpoint_typed (row : CheckpointRow) : Prop := time_text (ckr_created_at row).
Record grant_typed (row : GrantRow) : Prop := {
  grt_id : id_text KGrant (gr_grant_id row);
  grt_agent : id_text KAgent (gr_agent_id row);
  grt_credential : id_text KCredential (gr_credential_id row);
  grt_origin : exists origin, origin_parse (gr_origin row) = Ok origin;
  grt_action : exists action, gr_action row = action_as_str action;
  grt_risk : exists risk, gr_risk_ceiling row = risk_as_str risk;
  grt_created : time_text (gr_created_at row);
  grt_expires : time_text (gr_expires_at row);
  grt_revoked : opt_time_text (gr_revoked_at row);
  grt_used : opt_time_text (gr_last_used_at row)
}.

(** Every row is typed, and the primary keys are unique, and so are the other
    columns that are declared so. *)
Record well_typed (s : Store) : Prop := {
  wt_agents : table_ok agent_typed agr_agent_id (agents s);
  wt_credentials : two_keys credential_typed crr_credential_id crr_name (credentials s);
  wt_approvals : table_ok (fun _ => True) apw_approval_id (approvals s);
  wt_capabilities : table_ok capability_typed cpr_capability_id (capabilities s);
  wt_executions : table_ok execution_typed exr_execution_id (executions s);
  wt_oauth_grants : table_ok oauth_grant_typed ogr_grant_id (oauth_grants s);
  wt_audit_events : two_keys event_typed evr_sequence evr_event_id (audit_events s);
  wt_audit_checkpoints : table_ok checkpoint_typed ckr_sequence (audit_checkpoints s);
  wt_signing_keys : table_ok (fun _ => True) skr_key_id (trusted_signing_keys s);
  wt_audit_keys : two_keys (fun _ => True) akr_version akr_key_locator (audit_key_versions s);
  wt_standing_grants : table_ok grant_typed gr_grant_id (standing_grants s);
  wt_totp : two_keys (fun _ => True) totp_key tr_execution_id (totp_issuances s)
}.

(** The values a caller passes: identifiers that are identifiers, and times whose
    year the text form can hold. *)
Definition agent_ok (a : AgentPrincipal) : Prop :=
  id_ok (ag_agent_id a) /\ four_digit_year (ag_created_at a).
Definition event_ok (e : AuditEvent) : Prop :=
  id_ok (ev_event_id e) /\ four_digit_year (ev_created_at e).
Definition credential_ok (c : CredentialDescriptor) : Prop :=
  id_ok (cred_credential_id c) /\ opt_year (cred_disabled_at c).
Definition oauth_grant_ok (g : OAuthGrant) : Prop :=
  id_ok (og_grant_id g) /\ id_ok (og_credential_id g) /\ four_digit_year (og_created_at g) /\
  opt_year (og_expires_at g).
Definition capability_ok (c : Capability) : Prop :=
  id_ok (cap_capability_id c) /\ id_ok (cap_request_id c) /\
  (0 <= cap_used_count c <= cap_max_uses c /\ cap_max_uses c <= u32_max) /\
  four_digit_year (cap_issued_at c) /\ four_digit_year (cap_consume_deadline c).

Definition op_typed (op : StoreOp) : Prop :=
  match op with
  | OpInsertAgent a | OpUpsertAgent a => agent_ok a
  | OpInsertAuditEvent e | OpInsertApprovalAudit _ e | OpUpdateApprovalAudit _ e
  | OpConsume _ _ e _ | OpFinish _ e | OpRevokeAudit _ _ e | OpRevokePolicy _ e => event_ok e
  | OpInsertCredential c => credential_ok c
  | OpInsertOAuthGrant g => oauth_grant_ok g
  | OpInsertCapability c _ e => capability_ok c /\ event_ok e
  | OpInsertCheckpoint c => four_digit_year (cp_created_at c)
  | OpInsertGrant g e => grant_readable g /\ event_ok e
  | OpTouchGrant _ t | OpRevokeGrants _ _ t => four_digit_year t
  | _ => True
  end.
End Types.

(** ** Tables are replaced one at a time *)

Section Updates.
Context `{Chrono, JsonCodec, UrlParser}.
Implicit Type s : Store.

Ltac one_table := intros [] ?; by split.
Lemma wt_set_agents s v : well_typed s -> table_ok agent_typed agr_agent_id v ->
  well_typed (set_agents s v).
Proof. one_table. Qed.
Lemma wt_set_credentials s v : well_typed s -> two_keys credential_typed crr_credential_id crr_name v ->
  well_typed (set_credentials s v).
Proof. one_table. Qed.
Lemma wt_set_approvals s v : well_typed s -> table_ok (fun _ => True) apw_approval_id v ->
  well_typed (set_approvals s v).
Proof. one_table. Qed.
Lemma wt_set_capabilities s v : well_typed s -> table_ok capability_typed cpr_capability_id v ->
  well_typed (set_capabilities s v).
Proof. one_table. Qed.
Lemma wt_set_executions s v : well_typed s -> table_ok execution_typed exr_execution_id v ->
  well_typed (set_executions s v).
Proof. one_table. Qed.
Lemma wt_set_oauth_grants s v : well_typed s -> table_ok oauth_grant_typed ogr_grant_id v ->
  well_typed (set_oauth_grants s v).
Proof. one_table. Qed.
Lemma wt_set_audit_events s v : well_typed s -> two_keys event_typed evr_sequence evr_event_id v ->
  well_typed (set_audit_events s v).
Proof. one_table. Qed.
Lemma wt_set_audit_checkpoints s v : well_typed s -> table_ok checkpoint_typed ckr_sequence v ->
  well_typed (set_audit_checkpoints s v).
Proof. one_table. Qed.
Lemma wt_set_trusted_signing_keys s v : well_typed s -> table_ok (fun _ => True) skr_key_id v ->
  well_typed (set_trusted_signing_keys s v).
Proof. one_table. Qed.
Lemma wt_set_audit_key_versions s v : well_typed s -> two_keys (fun _ => True) akr_version akr_key_locator v ->
  well_typed (set_audit_key_versions s v).
Proof. one_table. Qed.
Lemma wt_set_standing_grants s v : well_typed s -> table_ok grant_typed gr_grant_id v ->
  well_typed (set_standing_grants s v).
Proof. one_table. Qed.
Lemma wt_set_totp_issuances s v : well_typed s -> two_keys (fun _ => True) totp_key tr_execution_id v ->
  well_typed (set_totp_issuances s v).
Proof. one_table. Qed.
Lemma wt_set_trigger s v : well_typed s -> well_typed (set_audit_failure_trigger s v).
Proof. intros []. by split. Qed.

Lemma wt_empty : well_typed empty_store.
Proof. repeat split; constructor. Qed.

(** ** The rows that are written *)

Lemma time_text_of t : four_digit_year t -> time_text (to_rfc3339 t).
Proof. by exists t. Qed.
Lemma opt_time_text_of t : opt_year t -> opt_time_text (to_rfc3339 <$> t).
Proof. destruct t; [apply time_text_of|done]. Qed.
Lemma id_text_of {k} (i : Id k) : id_ok i -> id_text k (id_str i).
Proof. by exists i. Qed.

Lemma agent_row_typed a : agent_ok a -> agent_typed (agent_row a).
Proof. intros [? ?]. split; [by apply id_text_of|by apply time_text_of]. Qed.
Lemma event_row_typed e : event_ok e -> event_typed (event_row e).
Proof. intros [? ?]. split; [by apply id_text_of|by apply time_text_of]. Qed.
Lemma credential_row_typed c : credential_ok c -> credential_typed (credential_row c).
Proof. intros [? ?]. split; [by apply id_text_of|by eexists|by apply opt_time_text_of]. Qed.
Lemma oauth_grant_row_typed g : oauth_grant_ok g -> oauth_grant_typed (oauth_grant_row g).
Proof.
  intros (? & ? & ? & ?). split; [by apply id_text_of|by apply id_text_of|by eexists|
    by apply time_text_of|by apply opt_time_text_of].
Qed.
Lemma capability_row_typed c k : capability_ok c -> capability_typed (capability_row c k).
Proof.
  intros (? & ? & ? & ? & ?). split; [by apply id_text_of|by apply id_text_of|by eexists|done|
    by apply time_text_of|by apply time_text_of].
Qed.
Lemma grant_row_typed g : grant_readable g -> grant_typed (grant_row g).
Proof.
  intros [? ? ? ? ? ?]. split; try done; try (by apply id_text_of); try (by apply time_text_of);
    by eexists.
Qed.

Lemma ended_row_typed row state used reason :
  (exists st, state = CapabilityState.as_str st) -> 0 <= used <= cpr_max_uses row ->
  capability_typed row -> capability_typed (set_capability_row row state used reason).
Proof. intros ? ? [? ? ? [? ?] ? ?]. by split. Qed.
Lemma revoked_grant_typed row t reason :
  time_text t -> grant_typed row -> grant_typed (set_grant_revoked row t reason).
Proof. intros ? []. by split. Qed.
Lemma used_grant_typed row t :
  time_text t -> grant_typed row -> grant_typed (set_grant_used row t).
Proof. intros ? []. by split. Qed.
End Updates.

Create HintDb typed.
#[export] Hint Resolve wt_set_agents wt_set_credentials wt_set_approvals wt_set_capabilities
  wt_set_executions wt_set_oauth_grants wt_set_audit_events wt_set_audit_checkpoints
  wt_set_trusted_signing_keys wt_set_audit_key_versions wt_set_standing_grants
  wt_set_totp_issuances wt_set_trigger : typed.
#[export] Hint Resolve wt_agents wt_credentials wt_approvals wt_capabilities wt_executions
  wt_oauth_grants wt_audit_events wt_audit_checkpoints wt_signing_keys wt_audit_keys
  wt_standing_grants wt_totp : typed.
#[export] Hint Resolve agent_row_typed event_row_typed credential_row_typed oauth_grant_row_typed
  capability_row_typed grant_row_typed ended_row_typed revoked_grant_typed used_grant_typed
  time_text_of opt_time_text_of id_text_of table_ok_delete : typed.

(** ** Statements that keep the database typed *)

Section Statements.
Context `{Chrono, JsonCodec, UrlParser}.

Definition keeps_typed {A : Type} (body : Statement A) : Prop :=
  forall s a s', well_typed s -> body s = Ok (a, s') -> well_typed s'.

Lemma kt_commit {A : Type} (body : Statement A) s :
  keeps_typed body -> well_typed s -> well_typed (snd (commit body s)).
Proof.
  intros Hb Hs. unfold commit. destruct (body s) as [[a s']|e] eqn:Hr; [by eapply Hb|done].
Qed.

Lemma kt_audit e : event_ok e -> keeps_typed (insert_audit_event_tx e).
Proof.
  intros He s u s' Hs (_ & -> & Hf)%insert_audit_event_tx_Ok.
  apply wt_set_audit_events; [done|]. destruct (wt_audit_events _ Hs) as [H1' H2'].
  split; (apply table_ok_insert; [by try apply event_row_typed| |done]); intros r Hr Hk;
    apply Hf in Hr; unfold event_conflicts in Hr.
  - by rewrite Hk, Z.eqb_refl in Hr.
  - by rewrite (bool_decide_eq_true_2 _ Hk), orb_true_r in Hr.
Qed.

Lemma kt_then {A : Type} (m : Statement A) e :
  event_ok e -> keeps_typed m -> keeps_typed (fun s => '(_, s) ← m s; insert_audit_event_tx e s).
Proof.
  intros He Hm s u s' Hs ([a s1] & Hs1 & Hs')%bind_Ok_inv. eapply kt_audit; [done| |done].
  by eapply Hm.
Qed.

(** An update that was meant for one row, and the event of it. *)
Lemma kt_one_row (update : Store -> Z * Store) err e :
  event_ok e -> (forall s, well_typed s -> well_typed (snd (update s))) ->
  keeps_typed (fun s => let '(changed, s) := update s in
    if negb (changed =? 1) then Err err else insert_audit_event_tx e s).
Proof.
  intros He Hu s u s' Hs. specialize (Hu s Hs). destruct (update s) as [n s1].
  destruct (negb (n =? 1)); [done|]. by apply kt_audit.
Qed.

Lemma wt_revoke p reason s : well_typed s -> well_typed (snd (revoke_rows p reason s)).
Proof.
  intros Hs. apply wt_set_capabilities; [done|]. apply table_ok_update; [|by apply wt_capabilities].
  intros r _ Hr. split; [|done]. apply ended_row_typed; [by exists CapabilityState.Revoked| |done].
  apply Hr.
Qed.
Lemma wt_consume i s : well_typed s -> well_typed (snd (consume_row i s)).
Proof.
  intros Hs. apply wt_set_capabilities; [done|]. apply table_ok_update; [|by apply wt_capabilities].
  intros r Hp Hr. split; [|done]. apply ended_row_typed; [by exists CapabilityState.Consumed| |done].
  unfold consumable_row in Hp. pose proof (cpt_uses _ Hr). bool_to_prop. lia.
Qed.
Lemma wt_decide a s : well_typed s -> well_typed (snd (decide_approval_row a s)).
Proof.
  intros Hs. apply wt_set_approvals; [done|]. apply table_ok_update; [done|by apply wt_approvals].
Qed.
Lemma wt_revoke_grant i reason t s :
  four_digit_year t -> well_typed s -> well_typed (revoke_grant_row i reason t s).
Proof.
  intros Ht Hs. apply wt_set_standing_grants; [done|].
  apply table_ok_update; [|by apply wt_standing_grants]. intros r _ Hr. split; [|done].
  by eauto with typed.
Qed.

Lemma kt_insert {R K : Type} (typed : R -> Prop) (key : R -> K) table get put conflicts row :
  (forall s v, well_typed s -> table_ok typed key v -> well_typed (put s v)) ->
  (forall s, well_typed s -> table_ok typed key (get s)) ->
  typed row -> (forall r, key row = key r -> conflicts row r = true) ->
  keeps_typed (insert_into table get put conflicts row).
Proof.
  intros Hput Hget Hrow Hc s u s' Hs (-> & Hf)%insert_into_Ok. apply Hput; [done|].
  apply table_ok_insert; [done| |by apply Hget]. intros r Hr Hk. apply Hf in Hr.
  rewrite (Hc r Hk) in Hr. done.
Qed.

(** The insertions. *)
Ltac conflict :=
  intros r Hk; cbn in *; first [rewrite (bool_decide_eq_true_2 _ Hk) | rewrite Hk, Z.eqb_refl];
  by rewrite ?orb_true_r.
Lemma kt_insert_agent a : agent_ok a ->
  keeps_typed (insert_into "agents" agents set_agents agent_conflicts (agent_row a)).
Proof.
  intros Ha. eapply kt_insert; eauto with typed. unfold agent_conflicts. conflict.
Qed.
Lemma kt_insert_approval a : keeps_typed (insert_approval_tx a).
Proof. eapply (kt_insert (fun _ => True)); eauto with typed. conflict. Qed.
Lemma kt_insert_execution x : keeps_typed (insert_execution_tx x).
Proof.
  eapply (kt_insert execution_typed); eauto with typed; [by eexists|]. conflict.
Qed.

Lemma kt_claim x t : keeps_typed (claim_totp_step x t).
Proof.
  intros s u s' Hs. unfold claim_totp_step. destruct t as [[i step]|]; [|by intros [= _ <-]].
  destruct (_ <=? _); [done|]. case_bool_decide; [done|].
  destruct (insert_row _ _ _) as [rows|] eqn:Hr; [|done]. intros [= _ <-].
  apply insert_row_Some in Hr as [-> Hf]. apply wt_set_totp_issuances; [done|].
  destruct (wt_totp _ Hs) as [H1' H2'].
  split; (apply table_ok_insert; [done| |done]); intros r Hin Hk; apply Hf in Hin;
    unfold totp_conflicts in Hin; cbn in Hin.
  - injection Hk as Hi Ht. by rewrite Hi, Ht, bool_decide_eq_true_2, Z.eqb_refl in Hin.
  - cbn in Hk. by rewrite (bool_decide_eq_true_2 _ Hk), orb_true_r in Hin.
Qed.

Lemma kt_consume i x e t : event_ok e ->
  keeps_typed (fun s =>
    '(_, s) ← claim_totp_step x t s;
    let '(changed, s) := consume_row i s in
    if negb (changed =? 1) then Err (StateConflict (id_str i)) else
    '(_, s) ← insert_execution_tx x s;
    insert_audit_event_tx e s).
Proof.
  intros He s u s' Hs ([[] s1] & Hs1 & Hr)%bind_Ok_inv. apply kt_claim in Hs1; [|done].
  pose proof (wt_consume i s1 Hs1) as Hs2. destruct (consume_row i s1) as [n s2].
  destruct (negb (n =? 1)); [done|]. eapply kt_then; [exact He| | |exact Hr].
  - apply kt_insert_execution.
  - exact Hs2.
Qed.

Lemma kt_grant g e : grant_readable g -> event_ok e ->
  keeps_typed (fun s =>
    let '(_, s) := update_table standing_grants set_standing_grants
      (fun row => live_grant row && same_grant_tuple g row)
      (fun row => set_grant_revoked row (to_rfc3339 (sg_created_at g)) "superseded") s in
    '(_, s) ← insert_into "standing_grants" standing_grants set_standing_grants grant_conflicts
      (grant_row g) s;
    insert_audit_event_tx e s).
Proof.
  intros Hg He s u s' Hs Hr. unfold update_table in Hr.
  eapply kt_then; [exact He| | |exact Hr].
  - eapply (kt_insert grant_typed gr_grant_id); eauto with typed.
    intros r Hk. unfold grant_conflicts. by rewrite (bool_decide_eq_true_2 _ Hk).
  - apply wt_set_standing_grants; [done|]. apply table_ok_update; [|by apply wt_standing_grants].
    intros r _ Hr'. split; [|done]. apply revoked_grant_typed; [|done].
    apply time_text_of, (gd_created_at _ Hg).
Qed.

Lemma wt_recover now s : well_typed s -> well_typed (snd (recover_incomplete_state now s)).
Proof.
  intros Hs. unfold recover_incomplete_state, commit, update_table. cbn.
  apply wt_set_executions; [apply wt_set_capabilities; [done|]|];
    (apply table_ok_update; [|by eauto with typed]).
  - intros r _ Hr. split; [|done]. apply ended_row_typed; [by exists CapabilityState.Expired| |done].
    apply Hr.
  - intros r _ Hr. split; [|done]. by exists ExecutionState.Indeterminate.
Qed.

Lemma wt_finish x e s : event_ok e -> well_typed s ->
  well_typed (snd (finish_execution_with_audit x e s)).
Proof.
  intros He Hs. apply kt_commit; [|done]. apply kt_one_row; [done|]. clear s Hs. intros s Hs.
  apply wt_set_executions; [done|]. apply table_ok_update; [|by eauto with typed].
  intros r _ Hr. split; [by eexists|done].
Qed.

Lemma wt_upsert_agent a s : agent_ok a -> well_typed s -> well_typed (snd (upsert_agent a s)).
Proof.
  intros Ha Hs. apply kt_commit; [|done]. clear s Hs. intros s u s' Hs. cbv zeta.
  case_match eqn:He; intros [= _ <-]; (apply wt_set_agents; [done|]).
  - apply table_ok_update; [|by eauto with typed]. intros r _ [? ?]. by split.
  - apply table_ok_insert; [by apply agent_row_typed| |by eauto with typed].
    intros r Hr Hk. apply not_true_iff_false in He. apply He. apply existsb_exists. exists r.
    split; [by apply list_elem_of_In|]. unfold agent_conflicts. by apply bool_decide_eq_true.
Qed.

Lemma wt_register_signing_key k pk st now s :
  well_typed s -> well_typed (snd (register_signing_key k pk st now s)).
Proof.
  intros Hs. apply kt_commit; [|done]. clear s Hs. intros s u s' Hs. cbv zeta.
  case_match eqn:He; intros [= _ <-]; (apply wt_set_trusted_signing_keys; [done|]).
  - apply table_ok_update; [done|by eauto with typed].
  - apply table_ok_insert; [done| |by eauto with typed].
    intros r Hr Hk. apply not_true_iff_false in He. apply He. apply existsb_exists. exists r.
    split; [by apply list_elem_of_In|]. by apply bool_decide_eq_true.
Qed.

Lemma wt_register_audit_key v l st now s :
  well_typed s -> well_typed (snd (register_audit_key_version v l st now s)).
Proof.
  intros Hs. apply kt_commit; [|done]. clear s Hs. intros s u s' Hs.
  cbv zeta. case_match eqn:Hl; [done|]. destruct (wt_audit_keys _ Hs) as [H1' H2'].
  assert (Hfree : forall r, r ∈ audit_key_versions s -> (akr_version r =? v) = false ->
    akr_key_locator r <> l).
  { intros r Hr Hv E. apply not_true_iff_false in Hl. apply Hl, existsb_exists. exists r.
    split; [by apply list_elem_of_In|]. by rewrite Hv, bool_decide_eq_true_2. }
  case_match eqn:He; intros [= _ <-]; (apply wt_set_audit_key_versions; [done|]).
  - split; [by apply table_ok_update|]. split; [by apply list.Forall_forall|].
    refine (table_ok_rekey akr_version _ _ _ l _ _ _ Hfree (proj2 H1') (proj2 H2')); [|done].
    intros r r' Hr Hr'. apply Z.eqb_eq in Hr, Hr'. congruence.
  - assert (Hnew : forall r, r ∈ audit_key_versions s -> (akr_version r =? v) = false).
    { intros r Hr. apply not_true_iff_false. intros E. apply not_true_iff_false in He. apply He.
      apply existsb_exists. exists r. split; [by apply list_elem_of_In|done]. }
    split; (apply table_ok_insert; [done| |done]); intros r Hr Hk; cbn in Hk.
    + apply Hnew in Hr. by rewrite <-Hk, Z.eqb_refl in Hr.
    + by apply (Hfree r Hr); [apply Hnew|].
Qed.

Lemma wt_revoke_grants sel reason t s :
  four_digit_year t -> well_typed s -> well_typed (snd (revoke_standing_grants sel reason t s)).
Proof.
  intros Ht Hs. unfold revoke_standing_grants. destruct (list_standing_grants s false) as [l|]; [|done].
  cbn. generalize (List.filter (selector_matches sel) l) as gs. intros gs. revert s Hs.
  induction gs as [|g gs IH]; intros s Hs; [done|]. cbn [fold_left]. apply IH.
  by apply wt_revoke_grant.
Qed.

(** An update and a check of how many rows it changed. *)
Lemma wt_changed (r : Z * Store) (err : StoreError) :
  well_typed (snd r) ->
  well_typed (snd (let '(changed, s) := r in
    if negb (changed =? 1) then (Err err, s) else (Ok (E := StoreError) tt, s))).
Proof. destruct r as [n s]. by destruct (negb (n =? 1)). Qed.

Lemma wt_insert_credential c s :
  credential_ok c -> well_typed s -> well_typed (snd (insert_credential c s)).
Proof.
  intros Hc Hs. apply kt_commit; [|done]. clear s Hs. intros s u s' Hs (-> & Hf)%insert_into_Ok.
  apply wt_set_credentials; [done|]. destruct (wt_credentials _ Hs) as [H1' H2'].
  split; (apply table_ok_insert; [by try apply credential_row_typed| |done]); intros r Hr Hk;
    apply Hf in Hr; rewrite (bool_decide_eq_true_2 _ Hk), ?orb_true_r in Hr; done.
Qed.
Lemma wt_insert_oauth_grant g s :
  oauth_grant_ok g -> well_typed s -> well_typed (snd (insert_oauth_grant g s)).
Proof.
  intros Hg Hs. apply kt_commit; [|done].
  eapply (kt_insert oauth_grant_typed ogr_grant_id); eauto with typed. conflict.
Qed.
Lemma wt_insert_capability c k e s : capability_ok c -> event_ok e -> well_typed s ->
  well_typed (snd (insert_capability_with_audit c k e s)).
Proof.
  intros Hc He Hs. apply kt_commit; [|done]. apply kt_then; [done|].
  eapply (kt_insert capability_typed cpr_capability_id); eauto with typed. conflict.
Qed.
Lemma wt_insert_checkpoint c s : four_digit_year (cp_created_at c) -> well_typed s ->
  well_typed (snd (insert_audit_checkpoint c s)).
Proof.
  intros Hc Hs. apply kt_commit; [|done].
  eapply (kt_insert checkpoint_typed ckr_sequence); [by eauto with typed..| |].
  - by apply time_text_of.
  - conflict.
Qed.
Lemma wt_delete_credential name s :
  well_typed s -> well_typed (snd (delete_credential_by_name name s)).
Proof.
  intros Hs. apply kt_commit; [|done]. clear s Hs. intros s u s' Hs. cbv zeta.
  case_match; [done|]. intros [= _ <-]. destruct (wt_credentials _ Hs) as [H1' H2'].
  apply wt_set_credentials; [done|]. split; by apply table_ok_delete.
Qed.
Lemma wt_delete_oauth_grant i s : well_typed s -> well_typed (snd (delete_oauth_grant i s)).
Proof.
  intros Hs. apply kt_commit; [|done]. clear s Hs. intros s u s' Hs [= _ <-]. eauto with typed.
Qed.
Lemma wt_revoke_policy h e s : event_ok e -> well_typed s ->
  well_typed (snd (revoke_capabilities_not_policy_with_audit h e s)).
Proof.
  intros He Hs. apply kt_commit; [|done]. clear s Hs. intros s n s' Hs.
  pose proof (wt_revoke (fun row => is_some_and (fun hash => bool_decide (hash ≠ h))
    (cpr_policy_hash row)) "policy_changed" s Hs) as Hr.
  destruct (revoke_rows _ _ _) as [c s1]. intros ([u s2] & Ha & [= _ <-])%bind_Ok_inv.
  by eapply kt_audit.
Qed.
Lemma wt_revoke_session b s : well_typed s ->
  well_typed (snd (revoke_capabilities_for_session b s)).
Proof.
  intros Hs. unfold revoke_capabilities_for_session.
  match goal with |- context [revoke_rows ?p ?r s] => pose proof (wt_revoke p r s Hs) as Hc;
    destruct (revoke_rows p r s) end. exact Hc.
Qed.
Lemma wt_retire_signing_key k now s : well_typed s -> well_typed (snd (retire_signing_key k now s)).
Proof.
  intros Hs. apply wt_changed, wt_set_trusted_signing_keys; [done|].
  apply table_ok_update; [done|by eauto with typed].
Qed.
Lemma wt_retire_audit_key v now s :
  well_typed s -> well_typed (snd (retire_audit_key_version v now s)).
Proof.
  intros Hs. apply wt_changed, wt_set_audit_key_versions; [done|].
  destruct (wt_audit_keys _ Hs) as [H1' H2']. split; by apply table_ok_update.
Qed.
Lemma wt_touch i t s : four_digit_year t -> well_typed s ->
  well_typed (snd (touch_standing_grant i t s)).
Proof.
  intros Ht Hs. apply wt_set_standing_grants; [done|].
  apply table_ok_update; [|by eauto with typed]. intros r _ Hr. split; [|done].
  by auto with typed.
Qed.

(** Every operation. *)
Lemma run_op_typed op s : op_typed op -> well_typed s -> well_typed (snd (run_op op s)).
Proof.
  intros Ho Hs. destruct op; cbn [run_op discard snd op_typed] in *.
  - apply kt_commit; [|done]. by apply kt_insert_agent.
  - by apply wt_upsert_agent.
  - apply kt_commit; [|done]. by apply kt_audit.
  - by apply wt_insert_credential.
  - by apply wt_delete_credential.
  - by apply wt_insert_oauth_grant.
  - by apply wt_delete_oauth_grant.
  - apply kt_commit; [|done]. by apply kt_insert_approval.
  - apply kt_commit; [|done]. apply kt_then; [done|]. by apply kt_insert_approval.
  - by apply wt_changed, wt_decide.
  - apply kt_commit; [|done]. apply kt_one_row; [done|]. intros. by apply wt_decide.
  - destruct Ho. by apply wt_insert_capability.
  - apply kt_commit; [|done]. by apply kt_consume.
  - by apply wt_changed, wt_consume.
  - by apply wt_finish.
  - by apply wt_recover.
  - by apply wt_changed, wt_revoke.
  - apply kt_commit; [|done]. apply kt_one_row; [done|]. intros. by apply wt_revoke.
  - by apply wt_revoke_policy.
  - by apply wt_revoke_session.
  - by apply wt_insert_checkpoint.
  - by apply wt_register_signing_key.
  - by apply wt_retire_signing_key.
  - by apply wt_register_audit_key.
  - by apply wt_retire_audit_key.
  - destruct Ho. apply kt_commit; [|done]. by apply kt_grant.
  - by apply wt_touch.
  - by apply wt_revoke_grants.
  - by apply wt_set_trigger.
Qed.
End Statements.

(** ** What is typed can be read *)

Section Readers.
Context `{ChronoLaws, JsonLaws, UrlParser}.

Lemma collect_succeeds {E A B : Type} (f : A -> result E B) l :
  (forall a, a ∈ l -> is_ok (f a) = true) -> is_ok (collect f l) = true.
Proof.
  induction l as [|a l IH]; intros Hf; [done|]. cbn.
  assert (Ha : is_ok (f a) = true) by (apply Hf; by left). destruct (f a) as [b|]; [|done]. cbn.
  assert (Hl : is_ok (collect f l) = true) by (apply IH; intros; apply Hf; by right).
  by destruct (collect f l).
Qed.

Lemma is_ok_map_err {E F A : Type} (f : E -> F) (r : result E A) :
  is_ok (map_err f r) = is_ok r.
Proof. by destruct r. Qed.

Lemma read_id k text index :
  id_text k text -> exists i : Id k, column index (id_parse k text) = Ok i.
Proof. intros (i & Hi & ->). exists i. by rewrite Hi. Qed.
Lemma read_time index text : time_text text -> exists t, time_column index text = Ok t.
Proof. intros (t & Ht & ->). exists t. unfold time_column. by rewrite rfc3339_round_trip. Qed.
Lemma read_opt_time index text :
  opt_time_text text -> exists t, opt_time_column index text = Ok t.
Proof.
  unfold opt_time_column. destruct text as [text|]; [|by eexists].
  intros [t Ht]%(read_time index). cbn. rewrite Ht. by eexists.
Qed.

Lemma read_u32 index value : 0 <= value <= u32_max -> u32_column index value = Ok value.
Proof.
  intros ?. unfold u32_column. by destruct (Z.leb_spec 0 value), (Z.leb_spec value u32_max); cbn; lia || done.
Qed.

Lemma read_actions actions :
  json_to_list json_to_action (json_print (actions_to_json actions)) = Ok actions.
Proof.
  unfold json_to_list. rewrite json_round_trip. cbn.
  induction actions as [|a actions IH]; [done|]. cbn.
  rewrite action_round_trip. cbn. cbn in IH. by rewrite IH.
Qed.
Lemma read_scopes scopes :
  json_to_list json_to_string (json_print (JArray (map JString scopes))) = Ok scopes.
Proof.
  unfold json_to_list. rewrite json_round_trip. cbn.
  induction scopes as [|a scopes IH]; [done|]. cbn. cbn in IH. by rewrite IH.
Qed.

(** Reads the columns of a typed row, one after the other. *)
Ltac columns :=
  repeat match goal with
  | Ht : id_text ?k ?text |- context [column ?i (id_parse ?k ?text)] =>
      let v := fresh "v" in let E := fresh "E" in destruct (read_id k text i Ht) as [v E]; rewrite E;
      cbn [mbind result_bind]
  | Ht : time_text ?text |- context [time_column ?i ?text] =>
      let v := fresh "v" in let E := fresh "E" in destruct (read_time i text Ht) as [v E]; rewrite E;
      cbn [mbind result_bind]
  | Ht : opt_time_text ?text |- context [opt_time_column ?i ?text] =>
      let v := fresh "v" in let E := fresh "E" in destruct (read_opt_time i text Ht) as [v E];
      rewrite E; cbn [mbind result_bind]
  end.

Lemma event_reads row : event_typed row -> is_ok (row_to_event row) = true.
Proof. intros [? ?]. unfold row_to_event. by columns. Qed.
Lemma checkpoint_reads row : checkpoint_typed row -> is_ok (row_to_checkpoint row) = true.
Proof. unfold checkpoint_typed. intros ?. unfold row_to_checkpoint. by columns. Qed.
Lemma summary_reads row : capability_typed row -> is_ok (row_to_summary row) = true.
Proof.
  intros [? ? ? [? ?] ? ?]. unfold row_to_summary. columns.
  rewrite !read_u32 by lia. cbn [mbind result_bind]. by columns.
Qed.
Lemma credential_reads row : credential_typed row -> is_ok (row_to_credential row) = true.
Proof.
  intros [? [actions Ha] ?]. unfold row_to_credential. rewrite Ha, read_actions.
  cbn [column map_err mbind result_bind]. by columns.
Qed.
Lemma oauth_grant_reads row : oauth_grant_typed row -> is_ok (row_to_oauth_grant row) = true.
Proof.
  intros [(i & Hi & Hi') (c & Hc & Hc') [scopes Hs] (t & Ht & Ht') He].
  unfold row_to_oauth_grant. rewrite Hi', Hi, Hc', Hc, Hs, read_scopes, Ht'.
  unfold time_column at 1. rewrite rfc3339_round_trip by done. cbn [map_err ok_or mbind result_bind].
  by columns.
Qed.
Lemma grant_reads row : grant_typed row -> is_ok (row_to_standing_grant row) = true.
Proof.
  intros [? ? ? [o Ho] [a Ha] [r Hr] ? ? ? ?]. unfold row_to_standing_grant. columns.
  unfold column. rewrite Ho, Ha, action_round_trip, Hr, risk_round_trip.
  cbn [map_err mbind result_bind]. by columns.
Qed.

Lemma table_typed {R K : Type} (typed : R -> Prop) (key : R -> K) rows r :
  table_ok typed key rows -> r ∈ rows -> typed r.
Proof. intros [Ht _]. rewrite list.Forall_forall in Ht. apply Ht. Qed.

Lemma agent_reads s agent_id :
  well_typed s ->
  match get_enrolled_agent s agent_id with
  | Ok _ => True
  | Err e => e = NotFound agent_id /\ forall r, r ∈ agents s -> enrolled agent_id r = false
  end.
Proof.
  intros Hs. unfold get_enrolled_agent, query_row.
  destruct (select_first _ _) as [row|] eqn:Hf.
  - apply select_first_Some in Hf as [Hr _].
    destruct (table_typed _ _ _ _ (wt_agents _ Hs) Hr) as [? ?]. by columns.
  - split; [done|]. by apply select_first_None.
Qed.

Lemma credential_by_name_reads s name :
  well_typed s ->
  match get_credential_by_name s name with
  | Ok _ => True
  | Err e => e = NotFound name /\ forall r, r ∈ credentials s -> crr_name r <> name
  end.
Proof.
  intros Hs. unfold get_credential_by_name, query_row.
  destruct (select_first _ _) as [row|] eqn:Hf.
  - apply select_first_Some in Hf as [Hr _].
    pose proof (credential_reads _ (table_typed _ _ _ _ (proj1 (wt_credentials _ Hs)) Hr)) as Ho.
    by destruct (row_to_credential row).
  - split; [done|]. intros r Hr. eapply select_first_None in Hf; [|exact Hr].
    by apply bool_decide_eq_false in Hf.
Qed.

Lemma elem_of_selected {R : Type} le p (rows : list R) r :
  r ∈ order_by le (select_where p rows) <-> r ∈ rows /\ p r = true.
Proof.
  rewrite order_by_perm. unfold select_where.
  by rewrite list_elem_of_In, filter_In, <-list_elem_of_In.
Qed.

Lemma select_all {R : Type} (rows : list R) : select_where (fun _ => true) rows = rows.
Proof. induction rows as [|r rows IH]; [done|]. unfold select_where in *. cbn. by rewrite IH. Qed.

Lemma selected_reads {R A : Type} (typed : R -> Prop) {K} (key : R -> K)
    (read : R -> result SqliteError A) le p rows :
  (forall r, typed r -> is_ok (read r) = true) -> table_ok typed key rows ->
  is_ok (map_err Sqlite (collect read (order_by le (select_where p rows)))) = true.
Proof.
  intros Hr Ht. rewrite is_ok_map_err. apply collect_succeeds. intros r [Hin _]%elem_of_selected.
  by eapply Hr, table_typed.
Qed.

Lemma list_agents_reads s : well_typed s -> is_ok (list_agents s) = true.
Proof.
  intros Hs. apply collect_succeeds. intros i Hi.
  apply list_elem_of_In, in_map_iff in Hi as (r & Hi & Hr). apply list_elem_of_In in Hr.
  apply elem_of_selected in Hr as [Hr He]. pose proof (agent_reads s i Hs) as Ha.
  destruct (get_enrolled_agent s i); [done|]. destruct Ha as [_ Ha]. specialize (Ha _ Hr).
  unfold enrolled in Ha. by rewrite Hi, bool_decide_eq_true_2, He in Ha.
Qed.

Lemma list_credentials_reads s : well_typed s -> is_ok (list_credentials s) = true.
Proof.
  intros Hs. apply collect_succeeds. intros name Hn.
  apply list_elem_of_In, in_map_iff in Hn as (r & Hn & Hr). apply list_elem_of_In in Hr.
  rewrite order_by_perm in Hr. pose proof (credential_by_name_reads s name Hs) as Ha.
  destruct (get_credential_by_name s name); [done|]. destruct Ha as [_ Ha]. by specialize (Ha _ Hr).
Qed.

(** What can be read of a database. *)
Record readable (s : Store) : Prop := {
  rd_agents : is_ok (list_agents s) = true;
  rd_credentials : is_ok (list_credentials s) = true;
  rd_events : is_ok (list_audit_events s) = true;
  rd_checkpoints : is_ok (list_audit_checkpoints s) = true;
  rd_capabilities state : is_ok (list_capabilities s state) = true;
  rd_oauth_grant i : is_ok (get_oauth_grant s i) = true;
  rd_grants revoked : is_ok (list_standing_grants s revoked) = true;
  rd_matching agent name action origin :
    is_ok (find_matching_standing_grant s agent name action origin) = true
}.

Lemma well_typed_readable s : well_typed s -> readable s.
Proof.
  intros Hs. split.
  - by apply list_agents_reads.
  - by apply list_credentials_reads.
  - unfold list_audit_events. rewrite <-(select_all (audit_events s)).
    eapply selected_reads; [apply event_reads|apply (wt_audit_events _ Hs)].
  - unfold list_audit_checkpoints. rewrite <-(select_all (audit_checkpoints s)).
    eapply selected_reads; [apply checkpoint_reads|by apply wt_audit_checkpoints].
  - intros state. eapply selected_reads; [apply summary_reads|by apply wt_capabilities].
  - intros i. unfold get_oauth_grant, query_row. destruct (select_first _ _) as [row|] eqn:Hf; [|done].
    apply select_first_Some in Hf as [Hr _].
    pose proof (oauth_grant_reads _ (table_typed _ _ _ _ (wt_oauth_grants _ Hs) Hr)) as Ho.
    by destruct (row_to_oauth_grant row).
  - intros revoked. eapply selected_reads; [apply grant_reads|by apply wt_standing_grants].
  - intros agent name action origin. unfold find_matching_standing_grant. rewrite is_ok_map_err.
    destruct (select_first _ _) as [row|] eqn:Hf; [|done]. apply select_first_Some in Hf as [Hr _].
    pose proof (grant_reads _ (table_typed _ _ _ _ (wt_standing_grants _ Hs) Hr)) as Ho.
    cbn. by destruct (row_to_standing_grant row).
Qed.

(** C15: the database stays well typed. SQLite checks neither identifiers nor
    times, and one row that cannot be converted makes a whole list fail, so that
    for instance no grant could be revoked any more. From a well-typed database,
    over any sequence of repository operations on values whose identifiers are
    identifiers and whose times have a year of four digits, every row stays in
    the form its reader expects: identifiers, times, action and state names, use
    counts within their maximum and that within 32 bits, and the primary keys are
    unique, as are the names of credentials, the identifiers of events, the
    locators of audit keys and the executions of codes. Every list can then be
    read, an agent or a credential is either read or really not there, and the
    revocation of grants is carried out. *)
Theorem store_stays_well_typed (ops : list StoreOp) (s : Store) :
  Forall op_typed ops -> well_typed s ->
  let s' := snd (run_ops ops s) in
  well_typed s' /\ readable s' /\
  (forall i e, get_enrolled_agent s' i = Err e ->
     e = NotFound i /\ forall r, r ∈ agents s' -> enrolled i r = false) /\
  (forall n e, get_credential_by_name s' n = Err e ->
     e = NotFound n /\ forall r, r ∈ credentials s' -> crr_name r <> n) /\
  (forall sel reason t, is_ok (fst (revoke_standing_grants sel reason t s')) = true).
Proof.
  intros Ho Hs s'. assert (Hs' : well_typed s').
  { subst s'. revert s Hs. induction Ho as [|op ops Hop _ IH]; intros s Hs; [done|].
    rewrite run_ops_cons. apply IH. by apply run_op_typed. }
  pose proof (well_typed_readable _ Hs') as Hr. split_and!; [done|done|..].
  - intros i e He. pose proof (agent_reads s' i Hs') as Ha. by rewrite He in Ha.
  - intros n e He. pose proof (credential_by_name_reads s' n Hs') as Ha. by rewrite He in Ha.
  - intros sel reason t. unfold revoke_standing_grants. pose proof (rd_grants _ Hr false) as Hg.
    by destruct (list_standing_grants s' false).
Qed.
End Readers.

(** ** Witness *)

Lemma example_run_typed : Forall op_typed [example_mint_op; example_consume 2 "evt_2"; OpRecover 9].
Proof.
  repeat constructor; cbn; try (vm_compute; by repeat split).
Qed.

Lemma store_stays_well_typed_witness :
  is_ok (list_capabilities (snd (run_ops [example_mint_op; example_consume 2 "evt_2"; OpRecover 9]
    empty_store)) None) = true.
Proof.
  exact (rd_capabilities _ (proj1 (proj2 (store_stays_well_typed _ empty_store
    example_run_typed wt_empty))) None).
Defined.
