(* ===== verification/Migrations.v ===== *)
(** * Migrations: how a database comes to the schema of the repository

    Models [secretctl-store/src/migrations.rs] and [schema_version] of
    [repository.rs]: the statements of each version, what SQLite makes of them on
    headings and rows, and the transaction that applies the versions a database
    lacks. Columns are kept by name, so their order among the rows is not; the
    affinity of column types does not matter to these statements. *)

From S2P Require Import Prelude.

(** ** Tables *)

Inductive SqlValue : Type :=
| VNull
| VInteger (z : Z)
| VText (s : string)
| VBlob (b : list byte).
#[global] Instance SqlValue_eq_dec : EqDecision SqlValue.
Proof. solve_decision. Defined.

Inductive SqlType : Type := TEXT | INTEGER | BLOB.
#[global] Instance SqlType_eq_dec : EqDecision SqlType.
Proof. solve_decision. Defined.

(** A column without [DEFAULT] has the default [VNull]. *)
Record Column : Type := {
  co_name : string;
  co_type : SqlType;
  co_not_null : bool;
  co_default : SqlValue
}.
Record Heading : Type := {
  hd_columns : list Column;
  hd_primary : list string;
  hd_unique : list string
}.
Notation SqlRow := (gmap string SqlValue).
Record SqlTable : Type := { st_heading : Heading; st_rows : list SqlRow }.

Record MigrationRow : Type := {
  mr_version : Z;
  mr_applied_at : string;
  mr_checksum : string
}.

(** The tables but [schema_migrations], the indexes, and [schema_migrations] when
    it exists. *)
Record Database : Type := {
  db_tables : gmap string SqlTable;
  db_indexes : gset string;
  db_migrations : option (list MigrationRow)
}.
Definition empty_database : Database := {|
  db_tables := ∅; db_indexes := ∅; db_migrations := None |}.

Definition set_table (db : Database) (name : string) (t : SqlTable) : Database := {|
  db_tables := <[name := t]> (db_tables db); db_indexes := db_indexes db;
  db_migrations := db_migrations db |}.

Definition column_names (h : Heading) : list string := map co_name (hd_columns h).
Definition column_named (h : Heading) (name : string) : option Column :=
  List.find (fun c => bool_decide (co_name c = name)) (hd_columns h).
Definition value_at (row : SqlRow) (name : string) : SqlValue := default VNull (row !! name).

(** ** Statements *)

(** [UniqueWhereNull columns guard]: unique among the rows whose guard is null. *)
Inductive IndexKind : Type :=
| PlainIndex
| UniqueWhereNull (columns : list string) (guard : string).

(** [FillColumn t a b]: [UPDATE t SET a = b WHERE a = '']. *)
Inductive Statement : Type :=
| CreateTable (name : string) (h : Heading)
| CreateIndex (name table : string) (kind : IndexKind)
| AddColumn (table : string) (c : Column)
| RenameColumn (table old new : string)
| FillColumn (table target origin : string)
| Recorded (version : Z) (checksum : string).

Definition add_column (c : Column) (h : Heading) : option Heading :=
  if bool_decide (co_name c ∈ column_names h) || (co_not_null c && bool_decide (co_default c = VNull))
  then None
  else Some {| hd_columns := hd_columns h ++ [c]; hd_primary := hd_primary h;
               hd_unique := hd_unique h |}.

Definition renamed (old new name : string) : string := if bool_decide (name = old) then new else name.
Definition rename_column (old new : string) (h : Heading) : option Heading :=
  if negb (bool_decide (old ∈ column_names h)) || bool_decide (new ∈ column_names h) then None
  else Some {|
    hd_columns := map (fun c => {| co_name := renamed old new (co_name c); co_type := co_type c;
      co_not_null := co_not_null c; co_default := co_default c |}) (hd_columns h);
    hd_primary := map (renamed old new) (hd_primary h);
    hd_unique := map (renamed old new) (hd_unique h) |}.

Definition rename_in_row (old new : string) (row : SqlRow) : SqlRow :=
  <[new := value_at row old]> (delete old row).
Definition fill_in_row (target origin : string) (row : SqlRow) : SqlRow :=
  if bool_decide (value_at row target = VText EmptyString)
  then <[target := value_at row origin]> row else row.

(** The constraint a filled value breaks. *)
Definition filled_null (h : Heading) (target origin : string) (row : SqlRow) : bool :=
  match column_named h target with
  | Some c => co_not_null c && bool_decide (value_at row target = VText EmptyString)
              && bool_decide (value_at row origin = VNull)
  | None => false
  end.

Definition unique_where_null (columns : list string) (guard : string) (rows : list SqlRow) : bool :=
  bool_decide (NoDup (map (fun row => map (value_at row) columns)
    (List.filter (fun row => bool_decide (value_at row guard = VNull)) rows))).

Definition exec (now : string) (s : Statement) (db : Database) : option Database :=
  match s with
  | CreateTable name h =>
      match db_tables db !! name with
      | Some _ => Some db
      | None => Some (set_table db name {| st_heading := h; st_rows := [] |})
      end
  | CreateIndex name table kind =>
      if bool_decide (name ∈ db_indexes db) then Some db else
      t ← db_tables db !! table;
      if match kind with
         | PlainIndex => true
         | UniqueWhereNull columns guard => unique_where_null columns guard (st_rows t)
         end
      then Some {| db_tables := db_tables db; db_indexes := {[name]} ∪ db_indexes db;
                   db_migrations := db_migrations db |}
      else None
  | AddColumn table c =>
      t ← db_tables db !! table;
      h ← add_column c (st_heading t);
      Some (set_table db table {| st_heading := h;
        st_rows := map (insert (co_name c) (co_default c)) (st_rows t) |})
  | RenameColumn table old new =>
      t ← db_tables db !! table;
      h ← rename_column old new (st_heading t);
      Some (set_table db table {| st_heading := h; st_rows := map (rename_in_row old new) (st_rows t) |})
  | FillColumn table target origin =>
      t ← db_tables db !! table;
      if negb (bool_decide (target ∈ column_names (st_heading t)))
         || negb (bool_decide (origin ∈ column_names (st_heading t)))
         || existsb (filled_null (st_heading t) target origin) (st_rows t)
      then None
      else Some (set_table db table {| st_heading := st_heading t;
             st_rows := map (fill_in_row target origin) (st_rows t) |})
  | Recorded version checksum =>
      rows ← db_migrations db;
      if existsb (fun row => mr_version row =? version) rows then None
      else Some {| db_tables := db_tables db; db_indexes := db_indexes db;
             db_migrations := Some (rows ++ [{| mr_version := version; mr_applied_at := now;
                                                mr_checksum := checksum |}]) |}
  end.

Fixpoint exec_all (now : string) (statements : list Statement) (db : Database) : option Database :=
  match statements with
  | [] => Some db
  | s :: statements => db ← exec now s db; exec_all now statements db
  end.

(** ** The versions *)

Definition required (name : string) (t : SqlType) : Column := {|
  co_name := name; co_type := t; co_not_null := true; co_default := VNull |}.
Definition optional (name : string) (t : SqlType) : Column := {|
  co_name := name; co_type := t; co_not_null := false; co_default := VNull |}.
Definition defaulted (name : string) (t : SqlType) (v : SqlValue) : Column := {|
  co_name := name; co_type := t; co_not_null := true; co_default := v |}.
(** A primary key that is one column. SQLite lets a text key be null. *)
Definition keyed (name : string) (t : SqlType) (columns : list Column) (unique : list string) :
    Heading := {|
  hd_columns := optional name t :: columns; hd_primary := [name]; hd_unique := unique |}.

Definition v1_initial : list Statement := [
  CreateTable "agents" (keyed "agent_id" TEXT [required "public_key" BLOB;
    optional "executable_hash" BLOB; required "display_name" TEXT; required "state" TEXT;
    required "created_at" TEXT] []);
  CreateTable "credentials" (keyed "credential_id" TEXT [required "name" TEXT;
    required "kind" TEXT; required "provider" TEXT; required "provider_locator" TEXT;
    required "metadata_json" TEXT; optional "disabled_at" TEXT] ["name"]);
  CreateTable "recipes" {| hd_columns := [required "recipe_id" TEXT; required "version" INTEGER;
      required "content_json" TEXT; required "content_hash" BLOB; required "enabled" INTEGER];
    hd_primary := ["recipe_id"; "version"]; hd_unique := [] |};
  CreateTable "browser_sessions" (keyed "session_id" TEXT [required "instance_id" TEXT;
    required "extension_key_id" TEXT; required "profile_id" TEXT; required "assurance" TEXT;
    required "state" TEXT; required "last_heartbeat_at" TEXT] []);
  CreateTable "action_requests" (keyed "request_id" TEXT [required "agent_id" TEXT;
    required "credential_id" TEXT; required "action" TEXT; required "target_origin" TEXT;
    required "browser_session_id" TEXT; required "state" TEXT; optional "policy_hash" BLOB;
    required "created_at" TEXT; required "expires_at" TEXT] []);
  CreateTable "approvals" (keyed "approval_id" TEXT [required "request_id" TEXT;
    required "decision" TEXT; optional "actor" TEXT; optional "presence" TEXT;
    required "context_digest" BLOB; optional "decided_at" TEXT; required "expires_at" TEXT] []);
  CreateTable "capabilities" (keyed "capability_id" TEXT [required "request_id" TEXT;
    required "token_hash" BLOB; required "state" TEXT; required "max_uses" INTEGER;
    required "used_count" INTEGER; required "issued_at" TEXT; required "expires_at" TEXT;
    optional "revoked_reason" TEXT] []);
  CreateTable "executions" (keyed "execution_id" TEXT [required "capability_id" TEXT;
    required "state" TEXT; optional "prepared_context_digest" BLOB; optional "started_at" TEXT;
    optional "completed_at" TEXT; optional "result_code" TEXT] []);
  CreateTable "oauth_grants" (keyed "grant_id" TEXT [required "credential_id" TEXT;
    required "provider_locator" TEXT; required "scopes_json" TEXT; optional "subject_hint" TEXT;
    required "created_at" TEXT; optional "expires_at" TEXT] []);
  CreateTable "audit_events" (keyed "sequence" INTEGER [required "event_id" TEXT;
    required "event_type" TEXT; required "actor_type" TEXT; optional "actor_id" TEXT;
    required "event_json" TEXT; required "previous_hash" BLOB; required "event_hash" BLOB;
    required "created_at" TEXT] ["event_id"]);
  Recorded 1 "v1_initial"].

Definition v2_credential_allowed_actions : list Statement := [
  AddColumn "credentials" (defaulted "allowed_actions_json" TEXT (VText "[]"));
  Recorded 2 "v2_credential_allowed_actions"].

Definition v3_m1_durable_keys_and_audit : list Statement := [
  AddColumn "agents" (defaulted "role" TEXT (VText "agent"));
  AddColumn "agents" (optional "peer_uid" INTEGER);
  AddColumn "agents" (optional "executable_path" TEXT);
  AddColumn "audit_events" (defaulted "audit_key_version" INTEGER (VInteger 0));
  AddColumn "capabilities" (defaulted "signing_key_id" TEXT (VText "legacy"));
  AddColumn "capabilities" (optional "policy_hash" BLOB);
  AddColumn "capabilities" (optional "browser_session_id" TEXT);
  CreateTable "audit_checkpoints" (keyed "sequence" INTEGER [required "event_hash" BLOB;
    required "audit_key_version" INTEGER; required "signing_key_id" TEXT;
    required "signature" BLOB; required "created_at" TEXT] []);
  CreateTable "trusted_signing_keys" (keyed "key_id" TEXT [required "public_key" BLOB;
    required "state" TEXT; required "created_at" TEXT; optional "retired_at" TEXT] []);
  CreateTable "audit_key_versions" (keyed "version" INTEGER [required "key_locator" TEXT;
    required "state" TEXT; required "created_at" TEXT; optional "retired_at" TEXT]
    ["key_locator"]);
  Recorded 3 "v3_m1_durable_keys_and_audit"].

Definition v4_standing_grants : list Statement := [
  CreateTable "standing_grants" (keyed "grant_id" TEXT [required "agent_id" TEXT;
    required "agent_name" TEXT; required "credential_id" TEXT; required "credential_name" TEXT;
    required "origin" TEXT; required "action" TEXT; required "risk_ceiling" TEXT;
    required "require_presence" INTEGER; required "created_at" TEXT; required "expires_at" TEXT;
    optional "revoked_at" TEXT; optional "revoked_reason" TEXT; optional "last_used_at" TEXT;
    defaulted "use_count" INTEGER (VInteger 0)] []);
  CreateIndex "idx_standing_grants_unique_live" "standing_grants"
    (UniqueWhereNull ["agent_id"; "credential_name"; "origin"; "action"] "revoked_at");
  CreateIndex "idx_standing_grants_lookup" "standing_grants" PlainIndex;
  Recorded 4 "v4_standing_grants"].

Definition v5_totp_step_deduplication : list Statement := [
  CreateTable "totp_issuances" {| hd_columns := [required "credential_id" TEXT;
      required "time_step" INTEGER; required "execution_id" TEXT; required "issued_at" TEXT];
    hd_primary := ["credential_id"; "time_step"]; hd_unique := ["execution_id"] |};
  Recorded 5 "v5_totp_step_deduplication"].

Definition v6_split_capability_deadlines : list Statement := [
  RenameColumn "capabilities" "expires_at" "consume_deadline";
  AddColumn "capabilities" (defaulted "execution_deadline" TEXT (VText EmptyString));
  AddColumn "capabilities" (optional "step_deadline" TEXT);
  AddColumn "capabilities" (optional "flow_id" TEXT);
  AddColumn "capabilities" (optional "step_id" TEXT);
  FillColumn "capabilities" "execution_deadline" "consume_deadline";
  Recorded 6 "v6_split_capability_deadlines"].

Definition CURRENT_SCHEMA_VERSION : Z := 6.
Definition migrations : list (Z * list Statement) := [
  (1, v1_initial); (2, v2_credential_allowed_actions); (3, v3_m1_durable_keys_and_audit);
  (4, v4_standing_grants); (5, v5_totp_step_deduplication); (6, v6_split_capability_deadlines)].

(** The statements a database of that version lacks. *)
Definition statements_from (version : Z) : list Statement :=
  flat_map (fun '(v, statements) => if version <? v then statements else []) migrations.

(** [SELECT MAX(version)], read as [i32] with [.ok().flatten()]. *)
Definition max_version (rows : list MigrationRow) : option Z :=
  match map mr_version rows with
  | [] => None
  | v :: vs =>
      let m := fold_left Z.max vs v in
      if (- 2 ^ 31 <=? m) && (m <? 2 ^ 31) then Some m else None
  end.
Definition schema_version (db : Database) : Z :=
  default 0 (db_migrations db ≫= max_version).

Definition with_migrations_table (db : Database) : Database := {|
  db_tables := db_tables db; db_indexes := db_indexes db;
  db_migrations := Some (default [] (db_migrations db)) |}.

(** Whether it succeeds; a failure rolls the transaction back. *)
Definition apply_migrations (now : string) (db : Database) : bool * Database :=
  let tx := with_migrations_table db in
  match exec_all now (statements_from (schema_version tx)) tx with
  | Some db' => (true, db')
  | None => (false, db)
  end.
