(* ===== verification/MigrationsProps.v ===== *)
(** * MigrationsProps: the data of every version survives the migrations

    The effect of the statements is split in two: on headings, where it can be
    computed, and on rows, where every statement is a function of one row. *)

From S2P Require Import Prelude.
From S2P Require Import Migrations.

(** ** Headings alone *)

Notation Schema := (gmap string Heading).
Definition schema_of (db : Database) : Schema := st_heading <$> db_tables db.

Definition exec_schema (s : Statement) (sch : Schema) : option Schema :=
  match s with
  | CreateTable name h =>
      match sch !! name with Some _ => Some sch | None => Some (<[name := h]> sch) end
  | CreateIndex _ table _ => _ ← sch !! table; Some sch
  | AddColumn table c => h ← sch !! table; h ← add_column c h; Some (<[table := h]> sch)
  | RenameColumn table old new =>
      h ← sch !! table; h ← rename_column old new h; Some (<[table := h]> sch)
  | FillColumn table target origin =>
      h ← sch !! table;
      match column_named h target, column_named h origin with
      | Some _, Some c => if co_not_null c then Some sch else None
      | _, _ => None
      end
  | Recorded _ _ => Some sch
  end.
Fixpoint run_schema (statements : list Statement) (sch : Schema) : option Schema :=
  match statements with
  | [] => Some sch
  | s :: statements => sch ← exec_schema s sch; run_schema statements sch
  end.

(** ** One row *)

Definition row_step (table : string) (s : Statement) (row : SqlRow) : SqlRow :=
  match s with
  | AddColumn t c => if bool_decide (t = table) then <[co_name c := co_default c]> row else row
  | RenameColumn t old new => if bool_decide (t = table) then rename_in_row old new row else row
  | FillColumn t target origin =>
      if bool_decide (t = table) then fill_in_row target origin row else row
  | _ => row
  end.
Definition upgrade (statements : list Statement) (table : string) (row : SqlRow) : SqlRow :=
  fold_left (fun row s => row_step table s row) statements row.

Definition rows_of (db : Database) (table : string) : list SqlRow :=
  match db_tables db !! table with Some t => st_rows t | None => [] end.

(** A row of a table: it has the columns of the heading, and no null where none may
    be. *)
Record fits (h : Heading) (row : SqlRow) : Prop := {
  fits_columns name : is_Some (row !! name) <-> name ∈ column_names h;
  fits_not_null c : c ∈ hd_columns h -> co_not_null c = true -> value_at row (co_name c) <> VNull
}.
Definition db_fits (db : Database) : Prop :=
  forall name t, db_tables db !! name = Some t -> Forall (fits (st_heading t)) (st_rows t).

(** ** One statement *)

Lemma value_at_insert name name' v row :
  value_at (<[name := v]> row) name' = if bool_decide (name = name') then v else value_at row name'.
Proof.
  unfold value_at. case_bool_decide as E; [subst; by rewrite lookup_insert_eq|].
  by rewrite lookup_insert_ne.
Qed.

Lemma column_named_Some h name c :
  column_named h name = Some c -> c ∈ hd_columns h /\ co_name c = name.
Proof.
  unfold column_named. intros [Hin Hn]%find_some. apply bool_decide_eq_true in Hn.
  split; [by apply list_elem_of_In|done].
Qed.
Lemma elem_of_column_names h name :
  name ∈ column_names h <-> exists c, c ∈ hd_columns h /\ co_name c = name.
Proof.
  unfold column_names. rewrite list_elem_of_In, in_map_iff. setoid_rewrite list_elem_of_In. naive_solver.
Qed.
Lemma column_named_in h name c : column_named h name = Some c -> name ∈ column_names h.
Proof. intros [Hc Hn]%column_named_Some. apply elem_of_column_names. by exists c. Qed.

Lemma fits_add_column h h' c row :
  add_column c h = Some h' -> fits h row -> fits h' (<[co_name c := co_default c]> row).
Proof.
  unfold add_column. destruct (_ || _) eqn:E; [done|]. intros [= <-] [Hc Hn].
  apply orb_false_iff in E as [E1%bool_decide_eq_false E2].
  constructor; unfold column_names in *; cbn [hd_columns].
  - intros name. rewrite map_app, elem_of_app, <-Hc. cbn [map].
    rewrite list_elem_of_singleton. destruct (decide (name = co_name c)) as [->|Hne].
    + rewrite lookup_insert_eq. naive_solver.
    + rewrite lookup_insert_ne by done. naive_solver.
  - intros c' [Hin|Hin%list_elem_of_singleton]%elem_of_app Hnn; rewrite value_at_insert.
    + destruct (bool_decide_reflect (co_name c = co_name c')) as [He|He]; [|by apply Hn].
      destruct E1. rewrite He.
      by apply list_elem_of_In, in_map, list_elem_of_In.
    + subst c'. rewrite bool_decide_eq_true_2 by done. rewrite Hnn in E2. cbn in E2.
      by apply bool_decide_eq_false in E2.
Qed.

Lemma fits_rename_column h h' old new row :
  rename_column old new h = Some h' -> fits h row -> fits h' (rename_in_row old new row).
Proof.
  unfold rename_column. destruct (_ || _) eqn:E; [done|]. intros [= <-] [Hc Hn].
  apply orb_false_iff in E as [E1 E2%bool_decide_eq_false].
  apply negb_false_iff, bool_decide_eq_true in E1.
  assert (Hne : old <> new) by (by intros ->).
  assert (Hnames : map co_name (map (fun c => {| co_name := renamed old new (co_name c);
      co_type := co_type c; co_not_null := co_not_null c; co_default := co_default c |})
      (hd_columns h)) = map (renamed old new) (column_names h)).
  { unfold column_names. by rewrite !map_map. }
  assert (Hv : forall name, name ∈ column_names h ->
    value_at (rename_in_row old new row) (renamed old new name) = value_at row name).
  { intros name Hname. unfold rename_in_row, renamed. rewrite value_at_insert.
    destruct (bool_decide_reflect (name = old)) as [->|Ho].
    { by rewrite bool_decide_eq_true_2. }
    rewrite bool_decide_eq_false_2 by (intros ->; done).
    unfold value_at. by rewrite lookup_delete_ne. }
  constructor; cbn [hd_columns].
  - intros name. unfold column_names at 1. cbn [hd_columns]. rewrite Hnames, list_elem_of_In, in_map_iff. unfold rename_in_row.
    destruct (decide (name = new)) as [->|Hnew].
    + rewrite lookup_insert_eq. split; [|by eexists]. intros _. exists old.
      split; [unfold renamed; by rewrite bool_decide_eq_true_2|by apply list_elem_of_In].
    + rewrite lookup_insert_ne by done. destruct (decide (name = old)) as [->|Hold].
      * rewrite lookup_delete_eq. split; [by intros []|]. intros (x & Hx & _). unfold renamed in Hx.
        case_bool_decide; congruence.
      * rewrite lookup_delete_ne, Hc by done. rewrite list_elem_of_In. split.
        -- intros Hin. exists name. split; [|done]. unfold renamed. by rewrite bool_decide_eq_false_2.
        -- intros (x & Hx & Hin). unfold renamed in Hx. case_bool_decide; congruence.
  - intros c (c0 & <- & Hin)%list_elem_of_In%in_map_iff. cbn [co_not_null co_name].
    apply list_elem_of_In in Hin. intros Hnn. rewrite Hv; [by apply Hn|].
    apply elem_of_column_names. by exists c0.
Qed.

Lemma fits_fill_column h target origin c row :
  target ∈ column_names h -> column_named h origin = Some c -> co_not_null c = true ->
  fits h row -> fits h (fill_in_row target origin row).
Proof.
  intros Ht Ho Hnn Hf. unfold fill_in_row. case_bool_decide; [|done]. destruct Hf as [Hc Hn].
  apply column_named_Some in Ho as [Hin <-]. specialize (Hn c Hin Hnn) as Hv. constructor.
  - intros name. rewrite <-Hc. destruct (decide (name = target)) as [->|Hne].
    + rewrite lookup_insert_eq, Hc. naive_solver.
    + by rewrite lookup_insert_ne.
  - intros c' Hin' Hnn'. rewrite value_at_insert. case_bool_decide; [done|by apply Hn].
Qed.

(** Statements whose success depends on the data. *)
Definition ready (db : Database) (s : Statement) : Prop :=
  match s with
  | CreateIndex name table _ => name ∉ db_indexes db -> rows_of db table = []
  | Recorded v _ => exists rows, db_migrations db = Some rows /\ ~ v ∈ map mr_version rows
  | _ => True
  end.
Definition index_step (s : Statement) (indexes : gset string) : gset string :=
  match s with CreateIndex name _ _ => {[name]} ∪ indexes | _ => indexes end.
Definition record_step (now : string) (s : Statement) (rows : option (list MigrationRow)) :
    option (list MigrationRow) :=
  match s with
  | Recorded v checksum => (fun rows => rows ++ [{| mr_version := v; mr_applied_at := now;
                                                   mr_checksum := checksum |}]) <$> rows
  | _ => rows
  end.

Record stepped (now : string) (s : Statement) (sch : Schema) (db db' : Database) : Prop := {
  sd_schema : schema_of db' = sch;
  sd_fits : db_fits db';
  sd_rows t : rows_of db' t = map (row_step t s) (rows_of db t);
  sd_indexes : db_indexes db' = index_step s (db_indexes db);
  sd_records : db_migrations db' = record_step now s (db_migrations db)
}.

Lemma map_no_step {A : Type} (f : A -> A) (l : list A) : (forall a, f a = a) -> map f l = l.
Proof. intros Hf. induction l as [|a l IH]; [done|]. cbn. by rewrite Hf, IH. Qed.

(** A statement that changes one table, row by row. *)
Lemma stepped_table now s db name t h f :
  db_tables db !! name = Some t -> db_fits db ->
  (forall row, fits (st_heading t) row -> fits h (f row)) ->
  (forall table row, row_step table s row = if bool_decide (name = table) then f row else row) ->
  (forall i, index_step s i = i) -> (forall r, record_step now s r = r) ->
  stepped now s (<[name := h]> (schema_of db)) db
    (set_table db name {| st_heading := h; st_rows := map f (st_rows t) |}).
Proof.
  intros Ht Hfits Hf Hrow Hi Hr. constructor; cbn [set_table db_indexes db_migrations]; [| | |done..].
  - unfold schema_of. cbn [set_table db_tables]. by rewrite fmap_insert.
  - intros n t'. cbn [set_table db_tables]. destruct (decide (n = name)) as [->|Hn].
    + rewrite lookup_insert_eq. intros [= <-]. cbn [st_heading st_rows].
      specialize (Hfits name t Ht). induction Hfits; cbn; constructor; auto.
    + rewrite lookup_insert_ne by done. apply Hfits.
  - intros table. unfold rows_of. cbn [set_table db_tables].
    destruct (decide (table = name)) as [->|Hn].
    + rewrite lookup_insert_eq, Ht. cbn [st_rows]. apply map_ext. intros row. rewrite Hrow.
      by rewrite bool_decide_eq_true_2.
    + rewrite lookup_insert_ne by done. rewrite map_no_step; [done|]. intros row. rewrite Hrow.
      by rewrite bool_decide_eq_false_2.
Qed.

Lemma schema_lookup db name h :
  schema_of db !! name = Some h -> exists t, db_tables db !! name = Some t /\ st_heading t = h.
Proof. unfold schema_of. rewrite lookup_fmap. intros (t & Ht & ->)%fmap_Some. by exists t. Qed.

Lemma stepped_same now s db :
  db_fits db -> (forall t row, row_step t s row = row) -> index_step s (db_indexes db) = db_indexes db ->
  (forall r, record_step now s r = r) -> stepped now s (schema_of db) db db.
Proof. intros Hf Hr Hi Hm. constructor; try done. intros t. by rewrite map_no_step. Qed.

Lemma exec_create now name h db :
  db_fits db -> exists db', exec now (CreateTable name h) db = Some db' /\
    forall sch, exec_schema (CreateTable name h) (schema_of db) = Some sch ->
      stepped now (CreateTable name h) sch db db'.
Proof.
  intros Hf. cbn [exec exec_schema]. destruct (db_tables db !! name) as [t|] eqn:Ht.
  - eexists. split; [done|]. unfold schema_of. rewrite lookup_fmap, Ht. intros sch [= <-].
    by apply stepped_same.
  - eexists. split; [done|]. unfold schema_of at 1. rewrite lookup_fmap, Ht. cbn [fmap option_fmap option_map].
    intros sch [= <-]. constructor; try done.
    + unfold schema_of. cbn [set_table db_tables]. by rewrite fmap_insert.
    + intros n t. cbn [set_table db_tables]. destruct (decide (n = name)) as [->|Hn].
      * rewrite lookup_insert_eq. by intros [= <-].
      * rewrite lookup_insert_ne by done. apply Hf.
    + intros table. rewrite map_no_step by done. unfold rows_of. cbn [set_table db_tables].
      destruct (decide (table = name)) as [->|Hn]; [by rewrite lookup_insert_eq, Ht|].
      by rewrite lookup_insert_ne.
Qed.

Lemma exec_index now name table kind db sch :
  db_fits db -> ready db (CreateIndex name table kind) ->
  exec_schema (CreateIndex name table kind) (schema_of db) = Some sch ->
  exists db', exec now (CreateIndex name table kind) db = Some db' /\
    stepped now (CreateIndex name table kind) sch db db'.
Proof.
  intros Hf Hready. cbn [exec exec_schema].
  destruct (schema_of db !! table) as [h|] eqn:Hh; [|done]. intros [= <-].
  destruct (schema_lookup _ _ _ Hh) as (t & Ht & _).
  case_bool_decide as Hi.
  - exists db. split; [done|]. apply stepped_same; [done|done| |done].
    cbn [index_step]. apply leibniz_equiv. set_solver.
  - cbn [ready] in Hready. specialize (Hready Hi). unfold rows_of in Hready. rewrite Ht in *.
    cbn [mbind option_bind]. rewrite Hready.
    replace (match kind with PlainIndex => true | UniqueWhereNull c g => unique_where_null c g [] end)
      with true by (destruct kind; [done|]; symmetry; apply bool_decide_eq_true; constructor).
    eexists. split; [done|]. constructor; try done. intros t'. by rewrite map_no_step.
Qed.

Lemma exec_ready now s db sch :
  db_fits db -> ready db s -> exec_schema s (schema_of db) = Some sch ->
  exists db', exec now s db = Some db' /\ stepped now s sch db db'.
Proof.
  intros Hf Hready Hs. destruct s as [name h|name table kind|table c|table old new|table target origin|v cs].
  - destruct (exec_create now name h db Hf) as (db' & He & Hst). exists db'. auto.
  - by apply exec_index.
  - cbn [exec exec_schema] in *. destruct (schema_of db !! table) as [h|] eqn:Hh; [|done].
    destruct (schema_lookup _ _ _ Hh) as (t & Ht & <-). rewrite Ht. cbn [mbind option_bind] in *.
    destruct (add_column c (st_heading t)) as [h'|] eqn:Ha; [|done]. injection Hs as <-.
    eexists. split; [done|]. apply stepped_table; try done. intros row. by apply fits_add_column.
  - cbn [exec exec_schema] in *. destruct (schema_of db !! table) as [h|] eqn:Hh; [|done].
    destruct (schema_lookup _ _ _ Hh) as (t & Ht & <-). rewrite Ht. cbn [mbind option_bind] in *.
    destruct (rename_column old new (st_heading t)) as [h'|] eqn:Ha; [|done]. injection Hs as <-.
    eexists. split; [done|]. apply stepped_table; try done. intros row. by apply fits_rename_column.
  - cbn [exec exec_schema] in *. destruct (schema_of db !! table) as [h|] eqn:Hh; [|done].
    destruct (schema_lookup _ _ _ Hh) as (t & Ht & <-). rewrite Ht. cbn [mbind option_bind] in *.
    destruct (column_named (st_heading t) target) as [ct|] eqn:Hct; [|done].
    destruct (column_named (st_heading t) origin) as [co|] eqn:Hco; [|done].
    destruct (co_not_null co) eqn:Hnn; [|done]. injection Hs as <-.
    pose proof (column_named_in _ _ _ Hct) as Hit. pose proof (column_named_in _ _ _ Hco) as Hio.
    rewrite !bool_decide_eq_true_2 by done. cbn [negb orb].
    replace (existsb _ (st_rows t)) with false.
    + eexists. split; [done|].
      rewrite <-(insert_id (schema_of db) table (st_heading t) Hh).
      apply stepped_table; try done. intros row. by eapply fits_fill_column.
    + symmetry. apply not_true_iff_false. intros (row & Hrow & Hnull)%existsb_exists.
      apply list_elem_of_In in Hrow. specialize (Hf table t Ht). rewrite list.Forall_forall in Hf.
      apply column_named_Some in Hco as [Hin <-]. unfold filled_null in Hnull. rewrite Hct in Hnull.
      rewrite !andb_true_iff, !bool_decide_eq_true in Hnull.
      apply (fits_not_null _ _ (Hf row Hrow) co Hin Hnn), Hnull.
  - cbn [exec exec_schema] in *. injection Hs as <-. destruct Hready as (rows & Hr & Hv). rewrite Hr.
    cbn [mbind option_bind]. replace (existsb _ rows) with false.
    + eexists. split; [done|]. constructor; try done.
      * intros t. by rewrite map_no_step.
      * cbn. by rewrite Hr.
    + symmetry. apply not_true_iff_false. intros (row & Hrow & He)%existsb_exists.
      apply Z.eqb_eq in He. apply Hv. rewrite <-He. by apply list_elem_of_In, in_map.
Qed.

(** ** A list of statements *)

Definition recorded (statements : list Statement) : list (Z * string) :=
  omap (fun s => match s with Recorded v checksum => Some (v, checksum) | _ => None end) statements.
Definition record_of (row : MigrationRow) : Z * string := (mr_version row, mr_checksum row).

Record upgraded (statements : list Statement) (sch : Schema) (db db' : Database) : Prop := {
  up_schema : schema_of db' = sch;
  up_fits : db_fits db';
  up_rows t : rows_of db' t = map (upgrade statements t) (rows_of db t);
  up_indexes : db_indexes db' = fold_left (fun i s => index_step s i) statements (db_indexes db);
  up_records : exists rows rows', db_migrations db = Some rows /\ db_migrations db' = Some rows' /\
    map record_of rows' = map record_of rows ++ recorded statements
}.

(** A unique index is made when it is there, or over no rows. *)
Definition indexable (db : Database) (statements : list Statement) : Prop :=
  forall name t kind, CreateIndex name t kind ∈ statements ->
    name ∈ db_indexes db \/ rows_of db t = [].

Lemma stepped_indexable now s sch db db' statements :
  stepped now s sch db db' -> indexable db (s :: statements) -> indexable db' statements.
Proof.
  intros Hst Hi name t kind Hin. destruct (Hi name t kind) as [Hn|Hr]; [by right|left|right].
  - rewrite (sd_indexes _ _ _ _ _ Hst). destruct s; cbn [index_step]; set_solver.
  - by rewrite (sd_rows _ _ _ _ _ Hst), Hr.
Qed.

Lemma exec_all_ready now statements db sch rows :
  db_fits db -> run_schema statements (schema_of db) = Some sch -> indexable db statements ->
  db_migrations db = Some rows ->
  NoDup (map fst (map record_of rows ++ recorded statements)) ->
  exists db', exec_all now statements db = Some db' /\ upgraded statements sch db db'.
Proof.
  revert db rows. induction statements as [|s statements IH]; intros db rows Hf Hrun Hi Hm Hd.
  { injection Hrun as <-. exists db. split; [done|]. constructor; try done.
    - intros t. by rewrite map_no_step.
    - exists rows, rows. by rewrite app_nil_r. }
  cbn [run_schema exec_all] in *. destruct (exec_schema s (schema_of db)) as [sch1|] eqn:Es; [|done].
  cbn [mbind option_bind] in Hrun.
  assert (Hready : ready db s).
  { destruct s as [| name t kind| | | |v cs]; try done; cbn [ready].
    - intros Hn. destruct (Hi name t kind) as [|]; [by left|done|done].
    - exists rows. split; [done|]. intros Hin. cbn in Hd. rewrite map_app in Hd.
      apply list.NoDup_app in Hd as (_ & Hd & _). apply (Hd v); [|by left].
      rewrite map_map. exact Hin. }
  destruct (exec_ready now s db sch1 Hf Hready Es) as (db1 & -> & Hst).
  cbn [mbind option_bind].
  assert (exists rows1, db_migrations db1 = Some rows1 /\
    map record_of rows1 ++ recorded statements = map record_of rows ++ recorded (s :: statements))
    as (rows1 & Hm1 & Hrec).
  { pose proof (sd_records _ _ _ _ _ Hst) as Hr. rewrite Hm in Hr.
    destruct s; try (by exists rows). cbn in Hr. eexists. split; [exact Hr|].
    rewrite map_app, <-app_assoc. done. }
  destruct (IH db1 rows1) as (db' & He & [Hs' Hf' Hr' Hi' Hm']); try done.
  - by apply (sd_fits _ _ _ _ _ Hst).
  - by rewrite (sd_schema _ _ _ _ _ Hst).
  - by eapply stepped_indexable.
  - by rewrite Hrec.
  - exists db'. split; [done|]. constructor; try done.
    + intros t. rewrite Hr', (sd_rows _ _ _ _ _ Hst), map_map. done.
    + rewrite Hi', (sd_indexes _ _ _ _ _ Hst). done.
    + destruct Hm' as (r1 & r' & Hr1 & Hr1' & Hrr). exists rows, r'. split_and!; [done|done|].
      rewrite Hrr, <-Hrec. congruence.
Qed.

(** ** The released versions *)

Definition statements_to (version : Z) : list Statement :=
  flat_map (fun '(v, statements) => if v <=? version then statements else []) migrations.
Definition schema_at (version : Z) : Schema := default ∅ (run_schema (statements_to version) ∅).
Definition indexes_at (version : Z) : gset string :=
  fold_left (fun i s => index_step s i) (statements_to version) ∅.

(** A database as the program of that version left it, with any rows. *)
Record released (version : Z) (db : Database) : Prop := {
  rl_schema : schema_of db = schema_at version;
  rl_fits : db_fits db;
  rl_indexes : db_indexes db = indexes_at version;
  rl_records : map record_of (default [] (db_migrations db)) = recorded (statements_to version)
}.

Definition is_version (v : Z) : Prop := 0 <= v <= CURRENT_SCHEMA_VERSION.
Lemma version_cases v : is_version v -> v ∈ [0; 1; 2; 3; 4; 5; 6].
Proof.
  unfold is_version, CURRENT_SCHEMA_VERSION. intros Hv.
  assert (v = 0 \/ v = 1 \/ v = 2 \/ v = 3 \/ v = 4 \/ v = 5 \/ v = 6) as Hc by lia.
  destruct Hc as [->|[->|[->|[->|[->|[->| ->]]]]]]; set_solver.
Qed.
(** What is computed for every version holds of every version. *)
Lemma every_version (P : Z -> bool) :
  forallb P [0; 1; 2; 3; 4; 5; 6] = true -> forall v, is_version v -> P v = true.
Proof. intros H v Hv%version_cases%list_elem_of_In. by apply (proj1 (forallb_forall P _) H). Qed.

#[global] Instance Column_eq_dec : EqDecision Column.
Proof. solve_decision. Defined.
#[global] Instance Heading_eq_dec : EqDecision Heading.
Proof. solve_decision. Defined.

Definition chain_ok (v : Z) : bool :=
  bool_decide (run_schema (statements_from v) (schema_at v) = Some (schema_at CURRENT_SCHEMA_VERSION))
  && bool_decide (fold_left (fun i s => index_step s i) (statements_from v) (indexes_at v)
                  = indexes_at CURRENT_SCHEMA_VERSION)
  && bool_decide (recorded (statements_to v) ++ recorded (statements_from v)
                  = recorded (statements_to CURRENT_SCHEMA_VERSION))
  && bool_decide (max_version (map (fun '(w, checksum) =>
       {| mr_version := w; mr_applied_at := EmptyString; mr_checksum := checksum |})
       (recorded (statements_to v))) = if v =? 0 then None else Some v).

Lemma chain_holds v : is_version v -> chain_ok v = true.
Proof. apply every_version. by vm_compute. Qed.

Lemma max_version_records rows rows' :
  map record_of rows = map record_of rows' -> max_version rows = max_version rows'.
Proof.
  intros Hr. unfold max_version.
  replace (map mr_version rows) with (map fst (map record_of rows)) by by rewrite map_map.
  replace (map mr_version rows') with (map fst (map record_of rows')) by by rewrite map_map.
  by rewrite Hr.
Qed.

Lemma released_version v db : is_version v -> released v db -> schema_version db = v.
Proof.
  intros Hv [_ _ _ Hr]. pose proof (chain_holds v Hv) as Hc. unfold chain_ok in Hc.
  rewrite !andb_true_iff, !bool_decide_eq_true in Hc. destruct Hc as (_ & Hm).
  set (canon := map _ _) in Hm.
  assert (Hcanon : map record_of canon = recorded (statements_to v)).
  { unfold canon. rewrite map_map. generalize (recorded (statements_to v)). clear.
    intros l. induction l as [|[w cs] l IH]; [done|]. cbn. by rewrite IH. }
  unfold schema_version. destruct (db_migrations db) as [rows|] eqn:Hm'; cbn [default mbind option_bind] in *.
  - cbn [id] in Hr. rewrite (max_version_records rows canon), Hm by (by rewrite Hcanon).
    destruct (Z.eqb_spec v 0); [by subst|done].
  - cbn [map] in Hr. destruct (Z.eqb_spec v 0) as [->|Hne]; [done|]. exfalso.
    clearbody canon. rewrite <-Hr in Hcanon. by destruct canon.
Qed.

(** ** What becomes of a row *)

(** Statements that leave a column of a table alone. *)
Definition leaves_alone (table name : string) (s : Statement) : bool :=
  match s with
  | AddColumn t c => negb (bool_decide (t = table)) || negb (bool_decide (co_name c = name))
  | RenameColumn t old new => negb (bool_decide (t = table))
      || (negb (bool_decide (old = name)) && negb (bool_decide (new = name)))
  | FillColumn t target _ => negb (bool_decide (t = table)) || negb (bool_decide (target = name))
  | _ => true
  end.

Lemma row_step_alone table name s row :
  leaves_alone table name s = true -> row_step table s row !! name = row !! name.
Proof.
  destruct s as [| |t c|t old new|t target origin|]; cbn [leaves_alone row_step]; try done;
    destruct (bool_decide_reflect (t = table)) as [_|_]; try done; cbn [negb orb].
  - intros Hn%negb_true_iff%bool_decide_eq_false. by apply lookup_insert_ne.
  - rewrite andb_true_iff, !negb_true_iff, !bool_decide_eq_false. intros [Ho Hn].
    unfold rename_in_row. rewrite lookup_insert_ne by done. by apply lookup_delete_ne.
  - intros Hn%negb_true_iff%bool_decide_eq_false. unfold fill_in_row. case_bool_decide; [|done].
    by apply lookup_insert_ne.
Qed.

Lemma upgrade_alone statements table name row :
  forallb (leaves_alone table name) statements = true ->
  upgrade statements table row !! name = row !! name.
Proof.
  unfold upgrade. revert row. induction statements as [|s statements IH]; intros row; [done|].
  cbn [forallb fold_left]. intros [Hs Hr]%andb_true_iff. rewrite IH by done. by apply row_step_alone.
Qed.

Lemma upgrade_app s1 s2 table row : upgrade (s1 ++ s2) table row = upgrade s2 table (upgrade s1 table row).
Proof. apply fold_left_app. Qed.

(** An added column that nothing changes afterwards. *)
Fixpoint adds_alone (statements : list Statement) : bool :=
  match statements with
  | [] => true
  | AddColumn t c :: rest =>
      (bool_decide (co_name c = "execution_deadline") || forallb (leaves_alone t (co_name c)) rest)
      && adds_alone rest
  | _ :: rest => adds_alone rest
  end.

Lemma added_default statements t c row :
  adds_alone statements = true -> AddColumn t c ∈ statements -> co_name c <> "execution_deadline" ->
  upgrade statements t row !! co_name c = Some (co_default c).
Proof.
  intros Ha Hin Hne. revert row Ha. induction statements as [|s rest IH]; intros row Ha; [set_solver|].
  apply elem_of_cons in Hin as [<-|Hin].
  - cbn [adds_alone] in Ha. apply andb_true_iff in Ha as [Ha _].
    rewrite bool_decide_eq_false_2 in Ha by done. cbn [orb] in Ha.
    change (upgrade (AddColumn t c :: rest) t row)
      with (upgrade rest t (row_step t (AddColumn t c) row)).
    rewrite upgrade_alone by done. cbn [row_step]. rewrite bool_decide_eq_true_2 by done.
    apply lookup_insert_eq.
  - change (upgrade (s :: rest) t row) with (upgrade rest t (row_step t s row)).
    apply IH; [done|]. destruct s; cbn [adds_alone] in Ha; try done.
    by apply andb_true_iff in Ha as [_ Ha].
Qed.

(** The name a column of that version has afterwards. *)
Definition current_name (version : Z) (table name : string) : string :=
  if bool_decide (table = "capabilities") && bool_decide (name = "expires_at")
     && (version <? CURRENT_SCHEMA_VERSION)
  then "consume_deadline" else name.

Definition columns_alone (v : Z) : bool :=
  forallb (fun '(table, h) => forallb (fun name =>
      negb (bool_decide (current_name v table name = name))
      || forallb (leaves_alone table name) (statements_from v)) (column_names h))
    (map_to_list (schema_at v))
  && adds_alone (statements_from v).
Lemma columns_alone_holds v : is_version v -> columns_alone v = true.
Proof. apply every_version. by vm_compute. Qed.

Lemma kept_column v table h name row :
  is_version v -> schema_at v !! table = Some h -> name ∈ column_names h ->
  current_name v table name = name -> upgrade (statements_from v) table row !! name = row !! name.
Proof.
  intros Hv Hh Hname Hc. pose proof (columns_alone_holds v Hv) as Ha.
  apply andb_true_iff in Ha as [Ha _]. rewrite forallb_forall in Ha.
  specialize (Ha (table, h)). rewrite <-list_elem_of_In, elem_of_map_to_list in Ha. specialize (Ha Hh).
  cbv beta iota in Ha. rewrite forallb_forall in Ha. specialize (Ha name). rewrite <-list_elem_of_In in Ha.
  specialize (Ha Hname). rewrite bool_decide_eq_true_2 in Ha by done. by apply upgrade_alone.
Qed.

(** The deadlines of a capability. *)
Definition split_row (row : SqlRow) : SqlRow := upgrade v6_split_capability_deadlines "capabilities" row.

Lemma split_deadlines row x :
  row !! "expires_at" = Some x -> split_row row !! "consume_deadline" = Some x /\
  split_row row !! "execution_deadline" = Some x.
Proof.
  intros Hx. unfold split_row, upgrade, v6_split_capability_deadlines. cbn [fold_left row_step].
  rewrite !bool_decide_eq_true_2 by done. cbn [co_name co_default defaulted optional].
  set (r := <["step_id" := _]> _).
  assert (Ht : value_at r "execution_deadline" = VText EmptyString)
    by (subst r; rewrite !value_at_insert; reflexivity).
  assert (Ho : value_at r "consume_deadline" = x).
  { subst r. unfold rename_in_row. rewrite !value_at_insert. cbn. unfold value_at. by rewrite Hx. }
  unfold fill_in_row. rewrite Ht, Ho, bool_decide_eq_true_2 by done.
  split; [|apply lookup_insert_eq]. rewrite lookup_insert_ne by done. subst r.
  do 4 rewrite lookup_insert_ne by done. unfold rename_in_row. rewrite lookup_insert_eq.
  unfold value_at. by rewrite Hx.
Qed.

Definition before_split (v : Z) : list Statement :=
  flat_map (fun '(w, statements) => if (v <? w) && (w <? CURRENT_SCHEMA_VERSION) then statements else [])
    migrations.
Definition split_last (v : Z) : bool :=
  (CURRENT_SCHEMA_VERSION <=? v)
  || forallb (leaves_alone "capabilities" "expires_at") (before_split v).
Lemma statements_split v :
  is_version v -> v < CURRENT_SCHEMA_VERSION ->
  statements_from v = before_split v ++ v6_split_capability_deadlines.
Proof.
  intros Hv%version_cases Hlt. unfold CURRENT_SCHEMA_VERSION in *.
  repeat (apply elem_of_cons in Hv as [->|Hv]; [try done; lia|]). by apply elem_of_nil in Hv.
Qed.

Lemma deadlines_kept v row x :
  is_version v -> v < CURRENT_SCHEMA_VERSION -> row !! "expires_at" = Some x ->
  let row' := upgrade (statements_from v) "capabilities" row in
  row' !! "consume_deadline" = Some x /\ row' !! "execution_deadline" = Some x.
Proof.
  intros Hv Hlt Hx row'. subst row'. rewrite statements_split, upgrade_app by done.
  apply split_deadlines. rewrite upgrade_alone; [done|].
  assert (Hs : split_last v = true) by (clear Hlt; revert v Hv; apply every_version; by vm_compute).
  apply orb_true_iff in Hs as [Hs%Z.leb_le|Hs]; [lia|done].
Qed.

Lemma value_at_Some (row : SqlRow) name : is_Some (row !! name) -> row !! name = Some (value_at row name).
Proof. intros [v Hv]. unfold value_at. by rewrite Hv. Qed.

(** ** The migrations *)

(** What a row of a table is after the migrations: its columns under their names
    now, the one deadline of a capability as both of the two that came of it, and
    the new columns with their defaults. *)
Record carried (version : Z) (table : string) (row row' : SqlRow) : Prop := {
  cd_columns name h : schema_at version !! table = Some h -> name ∈ column_names h ->
    row' !! current_name version table name = row !! name;
  cd_deadlines : table = "capabilities" -> version < CURRENT_SCHEMA_VERSION ->
    row' !! "execution_deadline" = row !! "expires_at";
  cd_added c : AddColumn table c ∈ statements_from version -> co_name c <> "execution_deadline" ->
    row' !! co_name c = Some (co_default c)
}.

Lemma upgrade_carries v db table row :
  is_version v -> released v db -> row ∈ rows_of db table ->
  carried v table row (upgrade (statements_from v) table row).
Proof.
  intros Hv Hr Hrow. unfold rows_of in Hrow. destruct (db_tables db !! table) as [t|] eqn:Ht; [|set_solver].
  assert (Hh : schema_at v !! table = Some (st_heading t)).
  { rewrite <-(rl_schema _ _ Hr). unfold schema_of. by rewrite lookup_fmap, Ht. }
  pose proof (rl_fits _ _ Hr table t Ht) as Hf. rewrite list.Forall_forall in Hf. specialize (Hf row Hrow).
  assert (Hd : table = "capabilities" -> v < CURRENT_SCHEMA_VERSION ->
    row !! "expires_at" = Some (value_at row "expires_at")).
  { intros -> Hlt. apply value_at_Some, (fits_columns _ _ Hf).
    assert (Hx : match schema_at v !! "capabilities" with
      | Some h => bool_decide ("expires_at" ∈ column_names h) || (CURRENT_SCHEMA_VERSION <=? v)
      | None => true end = true)
      by (clear -Hv; revert v Hv; apply every_version; by vm_compute).
    rewrite Hh in Hx. apply orb_true_iff in Hx as [Hx|Hx%Z.leb_le]; [by apply bool_decide_eq_true in Hx|lia]. }
  constructor.
  - intros name h Hh' Hname. rewrite Hh in Hh'. injection Hh' as <-.
    destruct (decide (current_name v table name = name)) as [E|E].
    + rewrite E. by eapply kept_column.
    + unfold current_name in *. destruct (_ && _) eqn:Ec; [|done].
      rewrite !andb_true_iff, !bool_decide_eq_true in Ec. destruct Ec as [[-> ->] Hlt%Z.ltb_lt].
      rewrite (Hd eq_refl Hlt). by apply (deadlines_kept v row _ Hv Hlt (Hd eq_refl Hlt)).
  - intros -> Hlt. rewrite (Hd eq_refl Hlt).
    by apply (deadlines_kept v row _ Hv Hlt (Hd eq_refl Hlt)).
  - intros c Hin Hne. apply added_default; [|done..].
    pose proof (columns_alone_holds v Hv) as Ha. by apply andb_true_iff in Ha as [_ Ha].
Qed.

Lemma released_runs now v db :
  is_version v -> released v db ->
  exists db', apply_migrations now db = (true, db') /\ released CURRENT_SCHEMA_VERSION db' /\
    forall t, rows_of db' t = map (upgrade (statements_from v) t) (rows_of db t).
Proof.
  intros Hv Hr. pose proof (released_version v db Hv Hr) as Hver. unfold apply_migrations.
  set (tx := with_migrations_table db).
  assert (Htx : released v tx).
  { destruct Hr. by constructor. }
  rewrite (released_version v tx Hv Htx).
  pose proof (chain_holds v Hv) as Hc. unfold chain_ok in Hc.
  rewrite !andb_true_iff, !bool_decide_eq_true in Hc. destruct Hc as (((Hrun & Hidx) & Hrec) & _).
  destruct (exec_all_ready now (statements_from v) tx (schema_at CURRENT_SCHEMA_VERSION)
    (default [] (db_migrations db))) as (db' & He & [Hs' Hf' Hrows Hi' Hm']).
  - apply Htx.
  - by rewrite (rl_schema _ _ Htx).
  - intros name t kind Hin. right. unfold rows_of.
    destruct (db_tables tx !! t) as [tb|] eqn:Ht; [|done]. exfalso.
    assert (Hno : forallb (fun s => match s with
        | CreateIndex _ t _ => negb (bool_decide (is_Some (schema_at v !! t))) | _ => true end)
        (statements_from v) = true)
      by (clear -Hv; revert v Hv; apply every_version; by vm_compute).
    rewrite forallb_forall in Hno. specialize (Hno _ (proj1 (list_elem_of_In _ _) Hin)).
    apply negb_true_iff, bool_decide_eq_false in Hno. apply Hno.
    rewrite <-(rl_schema _ _ Htx). unfold schema_of. rewrite lookup_fmap, Ht. by eexists.
  - done.
  - pose proof (rl_records _ _ Htx) as Hm. cbn [tx with_migrations_table db_migrations default id] in Hm.
    rewrite Hm, Hrec. apply (bool_decide_unpack _). by vm_compute.
  - exists db'. rewrite He. split; [done|]. split; [|exact Hrows]. constructor; [done|done| |].
    + by rewrite Hi', (rl_indexes _ _ Htx).
    + destruct Hm' as (rows & rows' & Hrows1 & -> & Hrr). cbn [default id]. rewrite Hrr, <-Hrec. f_equal.
      pose proof (rl_records _ _ Htx) as Hm. by rewrite Hrows1 in Hm.
Qed.

(** C16: the migrations bring a database of any released version to the current one
    and lose nothing. They succeed on it whatever its rows are; every table keeps
    its rows, in order, with every column under its present name; the deadline of
    a capability becomes both of the deadlines it was split into; every new column
    has its default. Afterwards the database is as a fresh one of the current
    version, and the migrations leave it alone. *)
Theorem migrations_keep_the_data now version db :
  is_version version -> released version db ->
  exists db', apply_migrations now db = (true, db') /\
    released CURRENT_SCHEMA_VERSION db' /\ schema_version db' = CURRENT_SCHEMA_VERSION /\
    (forall table, Forall2 (carried version table) (rows_of db table) (rows_of db' table)) /\
    forall later, apply_migrations later db' = (true, db').
Proof.
  intros Hv Hr. destruct (released_runs now version db Hv Hr) as (db' & He & Hr' & Hrows).
  assert (Hv' : is_version CURRENT_SCHEMA_VERSION) by (by unfold is_version, CURRENT_SCHEMA_VERSION).
  pose proof (released_version _ _ Hv' Hr') as Hver. exists db'. split_and!; try done.
  - intros table. rewrite Hrows. apply Forall2_fmap_r, Forall_Forall2_diag, list.Forall_forall.
    intros row Hrow. by apply (upgrade_carries version db).
  - intros later. unfold apply_migrations.
    assert (Htx : with_migrations_table db' = db').
    { pose proof (rl_records _ _ Hr') as Hm. unfold with_migrations_table.
      destruct db' as [tables indexes [rows|]]; [done|discriminate Hm]. }
    by rewrite Htx, Hver.
Qed.

(** ** The schema the repository works on *)

Definition columns_of (sch : Schema) (table : string) : list string :=
  match sch !! table with Some h => column_names h | None => [] end.

(** The columns of the rows of [Store.v], and the keys it checks. *)
Definition repository_columns : list (string * list string) := [
  ("agents", ["agent_id"; "role"; "public_key"; "executable_hash"; "executable_path"; "peer_uid";
    "display_name"; "state"; "created_at"]);
  ("credentials", ["credential_id"; "name"; "kind"; "provider"; "provider_locator";
    "allowed_actions_json"; "metadata_json"; "disabled_at"]);
  ("approvals", ["approval_id"; "request_id"; "decision"; "actor"; "presence"; "context_digest";
    "decided_at"; "expires_at"]);
  ("capabilities", ["capability_id"; "request_id"; "token_hash"; "state"; "max_uses"; "used_count";
    "issued_at"; "consume_deadline"; "execution_deadline"; "step_deadline"; "flow_id"; "step_id";
    "revoked_reason"; "signing_key_id"; "policy_hash"; "browser_session_id"]);
  ("executions", ["execution_id"; "capability_id"; "state"; "prepared_context_digest"; "started_at";
    "completed_at"; "result_code"]);
  ("oauth_grants", ["grant_id"; "credential_id"; "provider_locator"; "scopes_json"; "subject_hint";
    "created_at"; "expires_at"]);
  ("audit_events", ["sequence"; "event_id"; "event_type"; "actor_type"; "actor_id"; "event_json";
    "audit_key_version"; "previous_hash"; "event_hash"; "created_at"]);
  ("audit_checkpoints", ["sequence"; "event_hash"; "audit_key_version"; "signing_key_id";
    "signature"; "created_at"]);
  ("trusted_signing_keys", ["key_id"; "public_key"; "state"; "created_at"; "retired_at"]);
  ("audit_key_versions", ["version"; "key_locator"; "state"; "created_at"; "retired_at"]);
  ("standing_grants", ["grant_id"; "agent_id"; "agent_name"; "credential_id"; "credential_name";
    "origin"; "action"; "risk_ceiling"; "require_presence"; "created_at"; "expires_at";
    "revoked_at"; "revoked_reason"; "last_used_at"; "use_count"]);
  ("totp_issuances", ["credential_id"; "time_step"; "execution_id"; "issued_at"])].

Example current_schema_is_that_of_the_repository :
  Forall (fun '(table, columns) =>
    list_to_set (columns_of (schema_at CURRENT_SCHEMA_VERSION) table) = (list_to_set columns : gset string))
    repository_columns.
Proof. unfold repository_columns. repeat constructor. Qed.

(** ** A database of the first version *)

Lemma fits_check h (row : SqlRow) :
  dom row = list_to_set (column_names h) ->
  forallb (fun c => negb (co_not_null c && bool_decide (value_at row (co_name c) = VNull)))
    (hd_columns h) = true -> fits h row.
Proof.
  intros Hd Hn. constructor.
  - intros name. by rewrite <-elem_of_dom, Hd, elem_of_list_to_set.
  - intros c Hc Hnn. rewrite forallb_forall in Hn. specialize (Hn c (proj1 (list_elem_of_In _ _) Hc)).
    rewrite Hnn in Hn. by apply negb_true_iff, bool_decide_eq_false in Hn.
Qed.

Definition old_capability : SqlRow := list_to_map [
  ("capability_id", VText "cap_1"); ("request_id", VText "req_1"); ("token_hash", VBlob [Byte.x01]);
  ("state", VText "issued"); ("max_uses", VInteger 1); ("used_count", VInteger 0);
  ("issued_at", VText "2024-01-01T00:00:00Z"); ("expires_at", VText "2024-01-01T00:01:00Z");
  ("revoked_reason", VNull)].
Definition old_database : Database := {|
  db_tables := map_imap (fun name h => Some {| st_heading := h;
    st_rows := if bool_decide (name = "capabilities") then [old_capability] else [] |}) (schema_at 1);
  db_indexes := ∅;
  db_migrations := Some [{| mr_version := 1; mr_applied_at := "then"; mr_checksum := "v1_initial" |}] |}.

Lemma old_database_released : released 1 old_database.
Proof.
  constructor.
  - apply (bool_decide_unpack _). by vm_compute.
  - intros name t. unfold old_database. cbn [db_tables]. rewrite map_lookup_imap.
    destruct (schema_at 1 !! name) as [h|] eqn:Hh; [|done]. intros [= <-]. cbn [st_heading st_rows].
    case_bool_decide as Hn; [|done]. subst name. apply list.Forall_singleton.
    assert (Hc : match schema_at 1 !! "capabilities" with
      | Some h => bool_decide (dom old_capability = list_to_set (column_names h))
          && forallb (fun c => negb (co_not_null c
               && bool_decide (value_at old_capability (co_name c) = VNull))) (hd_columns h)
      | None => true end = true) by by vm_compute.
    rewrite Hh in Hc. apply andb_true_iff in Hc as [Hd%bool_decide_eq_true Hc].
    by apply fits_check.
  - reflexivity.
  - reflexivity.
Qed.

Lemma migrations_keep_the_data_witness :
  fst (apply_migrations "now" old_database) = true /\
  exists row', rows_of (snd (apply_migrations "now" old_database)) "capabilities" = [row'] /\
    row' !! "execution_deadline" = Some (VText "2024-01-01T00:01:00Z").
Proof.
  destruct (migrations_keep_the_data "now" 1 old_database ltac:(unfold is_version, CURRENT_SCHEMA_VERSION; lia)
    old_database_released) as (db' & -> & _ & _ & Hrows & _).
  split; [reflexivity|]. specialize (Hrows "capabilities").
  assert (Hold : rows_of old_database "capabilities" = [old_capability]) by (vm_compute; reflexivity).
  rewrite Hold in Hrows. cbn [snd].
  destruct (rows_of db' "capabilities") as [|row' [|row'' rows]]; [by inversion Hrows| |].
  - exists row'. split; [reflexivity|]. apply list.Forall2_cons in Hrows as [[_ Hd _] _].
    rewrite (Hd eq_refl ltac:(reflexivity)). vm_compute. reflexivity.
  - apply list.Forall2_cons in Hrows as [_ Hrows]. by inversion Hrows.
Defined.
