(* ===== verification/OAuth.v ===== *)
(** * OAuth: the authorization code flow the broker owns

    Models [secretctld/src/oauth.rs]: the pending authorization with its PKCE
    material and one-time callback, the token exchange with the provider's token
    endpoint, and the storage and revocation of token grants. What a call draws
    from the random generator, the identifier generator and the clock is an
    argument; the HTTP client and the reading of the response body are an
    interface. *)

From S2P Require Import Prelude.
From S2P Require Import Externals.
From S2P Require Import Concrete.
From S2P Require Import Domain.
From S2P Require Import Crypto.
From S2P Require Import AuditChain.
From S2P Require Import Provider.
From S2P Require Import Table.
From S2P Require Import Store.
From S2P Require Import StoreProps.

(** ** Pending authorizations *)

Record PendingAuthorization : Type := {
  pa_state : string;
  pa_challenge : string;
  pa_verifier : string;
  pa_redirect_uri : string;
  pa_scopes : list string;
  pa_callback_consumed : bool
}.

Inductive OAuthCallbackError : Type :=
| RedirectMismatch | StateMismatch | ProviderRejected | Duplicate | MissingCode.

#[global] Instance OAuthCallbackError_eq_dec : EqDecision OAuthCallbackError.
Proof. solve_decision. Defined.

(** [PendingAuthorization::new], with the 32 random bytes and the UUID text. *)
Definition pending_new `{Base64, Hashes} (random : list byte) (uuid redirect_uri : string)
    (scopes : list string) : PendingAuthorization :=
  let verifier := b64_encode random in
  {| pa_state := uuid; pa_challenge := b64_encode (sha256_digest (as_bytes verifier));
     pa_verifier := verifier; pa_redirect_uri := redirect_uri; pa_scopes := scopes;
     pa_callback_consumed := false |}.

Definition accepts_callback (self : PendingAuthorization) (state redirect_uri : string) : bool :=
  bool_decide (pa_state self = state) && bool_decide (pa_redirect_uri self = redirect_uri).

Definition set_callback_consumed (self : PendingAuthorization) : PendingAuthorization := {|
  pa_state := pa_state self; pa_challenge := pa_challenge self; pa_verifier := pa_verifier self;
  pa_redirect_uri := pa_redirect_uri self; pa_scopes := pa_scopes self;
  pa_callback_consumed := true |}.

(** The map of the query parameters; a repeated key ends the loop. *)
Fixpoint insert_query (query : gmap string string) (pairs : list (string * string)) :
    option (gmap string string) :=
  match pairs with
  | [] => Some query
  | (key, value) :: pairs =>
      match query !! key with
      | Some _ => None
      | None => insert_query (<[key := value]> query) pairs
      end
  end.

Section Callback.
Context `{UrlParser}.

Definition authorization_url (self : PendingAuthorization) (endpoint client_id : string) :
    result OAuthCallbackError string :=
  url ← map_err (fun _ => RedirectMismatch) (url_parse endpoint);
  if bool_decide (url_scheme url ≠ "https") || bool_decide (url_query url ≠ None)
     || bool_decide (url_fragment url ≠ None)
  then Err RedirectMismatch
  else Ok (url_text (url_append_pairs url [
    ("response_type", "code"); ("client_id", client_id);
    ("redirect_uri", pa_redirect_uri self); ("scope", String.concat " " (pa_scopes self));
    ("state", pa_state self); ("code_challenge", pa_challenge self);
    ("code_challenge_method", "S256")])).

(** The checks of [consume_callback] up to the code. *)
Definition callback_code (self : PendingAuthorization) (callback_uri : string) :
    result OAuthCallbackError string :=
  if pa_callback_consumed self then Err Duplicate else
  callback ← map_err (fun _ => RedirectMismatch) (url_parse callback_uri);
  bound ← map_err (fun _ => RedirectMismatch) (url_parse (pa_redirect_uri self));
  if bool_decide (url_scheme callback ≠ url_scheme bound)
     || bool_decide (url_host_str callback ≠ url_host_str bound)
     || bool_decide (url_port_or_known_default callback ≠ url_port_or_known_default bound)
     || bool_decide (url_path callback ≠ url_path bound)
     || bool_decide (url_fragment callback ≠ None)
  then Err RedirectMismatch else
  query ← ok_or StateMismatch (insert_query ∅ (url_query_pairs callback));
  if bool_decide (query !! "state" ≠ Some (pa_state self)) then Err StateMismatch
  else if bool_decide (is_Some (query !! "error")) then Err ProviderRejected
  else
    code ← ok_or MissingCode (query !! "code");
    if bool_decide (code = "") then Err MissingCode else Ok code.

(** Returns the result and the authorization as the call leaves it. *)
Definition consume_callback (self : PendingAuthorization) (callback_uri : string) :
    result OAuthCallbackError string * PendingAuthorization :=
  match callback_code self callback_uri with
  | Ok code => (Ok code, set_callback_consumed self)
  | Err e => (Err e, self)
  end.
End Callback.

(** ** The token exchange *)

Record TokenSet : Type := {
  ts_access_token : string;
  ts_refresh_token : option string;
  ts_scopes : list string;
  ts_expires_at : option Instant
}.

Inductive TokenExchangeError : Type :=
| InsecureEndpoint | Rejected | InvalidResponse | ScopeMismatch.

#[global] Instance TokenExchangeError_eq_dec : EqDecision TokenExchangeError.
Proof. solve_decision. Defined.

Record TokenResponseWire : Type := {
  tw_access_token : string;
  tw_refresh_token : option string;
  tw_scope : option string;
  tw_expires_in : option Z
}.

(** [reqwest] and the derived reader of the body: what a POST of a form with an
    https-only client, redirects disabled, comes to. The first argument says
    when the call is made. [body] is what [response.json()] reads. *)
Inductive HttpOutcome : Type :=
| ClientUnavailable
| SendFailed
| Received (status : Z) (body : option TokenResponseWire).

Class HttpClient := {
  http_post_form : nat -> string -> list (string * string) -> HttpOutcome
}.

Definition validate_token_status (status : Z) : result TokenExchangeError unit :=
  if ((300 <=? status) && (status <? 400)) || negb ((200 <=? status) && (status <? 300))
  then Err Rejected else Ok tt.

Definition validate_returned_scopes (approved returned : list string) :
    result TokenExchangeError unit :=
  if existsb (fun scope => negb (bool_decide (scope ∈ approved))) returned
  then Err ScopeMismatch else Ok tt.

(** [i64::MAX] milliseconds is the longest [chrono::Duration], in seconds. *)
Definition max_duration_seconds : Z := (2 ^ 63 - 1) / 1000.

(** [Duration::try_seconds(seconds.min(i64::MAX as u64) as i64)]. *)
Definition try_seconds (seconds : Z) : option Z :=
  let seconds := Z.min seconds (2 ^ 63 - 1) in
  if max_duration_seconds <? seconds then None else Some seconds.

Section Exchange.
Context `{UrlParser, HttpClient, Chrono}.

(** [now + duration] panics out of chrono's range. *)
Definition expiry_after (now : Instant) (duration : option Z) :
    outcome TokenExchangeError (option Instant) :=
  match duration with
  | None => Done None
  | Some seconds =>
      match add_seconds now seconds with Some t => Done (Some t) | None => Panicked end
  end.

(** [tick] is when the request is sent and [now] the clock afterwards. *)
Definition exchange_code (tick : nat) (now : Instant) (token_endpoint client_id : string)
    (pending : PendingAuthorization) (code : string) : outcome TokenExchangeError TokenSet :=
  endpoint ← of_result (map_err (fun _ => InsecureEndpoint) (url_parse token_endpoint));
  if bool_decide (url_scheme endpoint ≠ "https") || bool_decide (url_username endpoint ≠ "")
     || bool_decide (url_password endpoint ≠ None) || bool_decide (url_query endpoint ≠ None)
     || bool_decide (url_fragment endpoint ≠ None)
  then Fail InsecureEndpoint else
  match http_post_form tick (url_text endpoint) [
    ("grant_type", "authorization_code"); ("client_id", client_id); ("code", code);
    ("redirect_uri", pa_redirect_uri pending); ("code_verifier", pa_verifier pending)] with
  | ClientUnavailable => Fail InvalidResponse
  | SendFailed => Fail Rejected
  | Received status body =>
      _ ← of_result (validate_token_status status);
      wire ← of_result (ok_or InvalidResponse body);
      if bool_decide (tw_access_token wire = "") then Fail InvalidResponse else
      let scopes := match tw_scope wire with
                    | Some value => split_ascii_whitespace value
                    | None => pa_scopes pending
                    end in
      _ ← of_result (validate_returned_scopes (pa_scopes pending) scopes);
      expires_at ← expiry_after now (tw_expires_in wire ≫= try_seconds);
      Done {| ts_access_token := tw_access_token wire;
              ts_refresh_token := tw_refresh_token wire;
              ts_scopes := scopes; ts_expires_at := expires_at |}
  end.
End Exchange.

(** ** Token grants *)

Inductive OAuthStorageError : Type := StorageProvider | StorageStore.

(** A version byte, the two lengths as [u32] and the two tokens. *)
Definition encode_tokens (access : list byte) (refresh : option (list byte)) : list byte :=
  [Byte.x01] ++ be_bytes 4 (blen access) ++ access
  ++ be_bytes 4 (blen (default [] refresh)) ++ default [] refresh.

Definition grant_locator (grant_id : GrantId) : string := "oauth-token-" +:+ id_str grant_id.

Section Grants.
Context `{Chrono, JsonCodec} {P : Type} `{SecretProvider P}.

Definition store_token_grant (uuid : string) (now : Instant) (credential_id : CredentialId)
    (tokens : TokenSet) (provider : P) (store : Store) :
    result OAuthStorageError OAuthGrant * P * Store :=
  let grant_id := id_new KGrant uuid in
  let locator := grant_locator grant_id in
  let encoded := encode_tokens (as_bytes (ts_access_token tokens))
                   (as_bytes <$> ts_refresh_token tokens) in
  match store_secret locator encoded provider with
  | (Err _, provider) => (Err StorageProvider, provider, store)
  | (Ok _, provider) =>
      let grant := {|
        og_grant_id := grant_id; og_credential_id := credential_id;
        og_provider_locator := locator; og_scopes := ts_scopes tokens;
        og_subject_hint := None; og_created_at := now; og_expires_at := ts_expires_at tokens |} in
      match insert_oauth_grant grant store with
      | (Err _, store) => (Err StorageStore, snd (delete_secret locator provider), store)
      | (Ok _, store) => (Ok grant, provider, store)
      end
  end.

Definition revoke_token_grant (grant_id : GrantId) (provider : P) (store : Store) :
    result OAuthStorageError bool * P * Store :=
  match get_oauth_grant store grant_id with
  | Err _ => (Err StorageStore, provider, store)
  | Ok None => (Ok false, provider, store)
  | Ok (Some grant) =>
      match delete_secret (og_provider_locator grant) provider with
      | (Err _, provider) => (Err StorageProvider, provider, store)
      | (Ok _, provider) =>
          let '(r, store) := delete_oauth_grant grant_id store in
          (map_err (fun _ => StorageStore) r, provider, store)
      end
  end.
End Grants.

(** ** Callbacks: what is accepted *)

Lemma insert_query_Some pairs : forall q q',
  insert_query q pairs = Some q' ->
  NoDup (map fst pairs) /\ (forall k, k ∈ map fst pairs -> q !! k = None) /\
  forall k v, q' !! k = Some v <-> q !! k = Some v \/ (k, v) ∈ pairs.
Proof.
  induction pairs as [|[key value] pairs IH]; cbn; intros q q' Hq.
  - injection Hq as <-. split_and!; [constructor|intros k Hk; set_solver|].
    intros k v. split; [by left|intros [Hv|Hv]; [done|set_solver]].
  - destruct (q !! key) as [w|] eqn:Hw; [done|].
    apply IH in Hq as (Hnd & Hfresh & Hval). split_and!.
    + apply list.NoDup_cons. split; [|done]. intros Hin.
      apply Hfresh in Hin. by rewrite lookup_insert_eq in Hin.
    + intros k [->|Hk]%elem_of_cons; [done|]. apply Hfresh in Hk.
      destruct (decide (key = k)) as [->|Hne]; [done|]. by rewrite lookup_insert_ne in Hk.
    + intros k v. rewrite Hval, elem_of_cons. destruct (decide (key = k)) as [<-|Hne].
      * rewrite lookup_insert_eq, Hw. split; [intros [[= <-]|Hv]; auto|].
        intros [Hv|[[= <-]|Hv]]; [done|by left|by right].
      * rewrite lookup_insert_ne by done. split; [intros [Hv|Hv]; auto|].
        intros [Hv|[[= <- <-]|Hv]]; [by left|done|by right].
Qed.

Lemma insert_query_NoDup pairs : forall q,
  NoDup (map fst pairs) -> (forall k, k ∈ map fst pairs -> q !! k = None) ->
  is_Some (insert_query q pairs).
Proof.
  induction pairs as [|[key value] pairs IH]; cbn; intros q Hnd Hfresh; [by eexists|].
  apply list.NoDup_cons in Hnd as [Hni Hnd]. rewrite Hfresh by (apply elem_of_cons; by left).
  apply IH; [done|]. intros k Hk. rewrite lookup_insert_ne by (intros ->; done).
  apply Hfresh. apply elem_of_cons. by right.
Qed.

Section CallbackProps.
Context `{UrlParser}.

(** A callback URI that names the bound redirect, with each parameter once. *)
Definition bound_callback (self : PendingAuthorization) (uri code : string) : Prop :=
  exists callback bound,
    url_parse uri = Ok callback /\ url_parse (pa_redirect_uri self) = Ok bound /\
    url_scheme callback = url_scheme bound /\ url_host_str callback = url_host_str bound /\
    url_port_or_known_default callback = url_port_or_known_default bound /\
    url_path callback = url_path bound /\ url_fragment callback = None /\
    NoDup (map fst (url_query_pairs callback)) /\
    ("state", pa_state self) ∈ url_query_pairs callback /\
    "error" ∉ map fst (url_query_pairs callback) /\
    ("code", code) ∈ url_query_pairs callback /\ code <> "".

Lemma callback_code_Ok self uri code :
  callback_code self uri = Ok code -> pa_callback_consumed self = false /\ bound_callback self uri code.
Proof.
  unfold callback_code. destruct (pa_callback_consumed self); [done|]. intros Hc. split; [done|].
  apply bind_Ok_inv in Hc as (callback & Hcb & Hc). apply map_err_Ok in Hcb.
  apply bind_Ok_inv in Hc as (bound & Hb & Hc). apply map_err_Ok in Hb.
  case_in Hc; [done|]. apply bind_Ok_inv in Hc as (q & Hq & Hc). apply ok_or_Ok in Hq.
  case_in Hc; [done|]. case_in Hc; [done|]. apply bind_Ok_inv in Hc as (c & Hcode & Hc).
  apply ok_or_Ok in Hcode. case_in Hc; [done|]. injection Hc as ->.
  bool_to_prop. apply insert_query_Some in Hq as (Hnd & _ & Hval).
  assert (Hin : forall k v, q !! k = Some v <-> (k, v) ∈ url_query_pairs callback).
  { intros k v. rewrite Hval, lookup_empty. naive_solver. }
  exists callback, bound. split_and!; try done.
  all: repeat match goal with Hn : ~ (_ <> _) |- _ => apply dec_stable in Hn end; try done.
  - by apply Hin.
  - intros ((k & v) & Hk & Hp)%list_elem_of_fmap. cbn in Hk. subst k.
    apply Hin in Hp. naive_solver.
  - by apply Hin.
Qed.

Lemma bound_callback_code self uri code :
  pa_callback_consumed self = false -> bound_callback self uri code ->
  callback_code self uri = Ok code.
Proof.
  intros Hc (callback & bound & E1 & E2 & E3 & E4 & E5 & E6 & E7 & Hnd & Hs & He & Hcode & Hne).
  unfold callback_code. rewrite Hc, E1. cbn. rewrite E2. cbn.
  rewrite E3, E4, E5, E6, E7, !bool_decide_neq_refl. cbn.
  destruct (insert_query_NoDup (url_query_pairs callback) ∅ Hnd) as [q Hq];
    [intros; apply lookup_empty|]. rewrite Hq. cbn.
  apply insert_query_Some in Hq as (_ & _ & Hval).
  rewrite (proj2 (Hval _ _) (or_intror Hs)), bool_decide_neq_refl.
  rewrite (bool_decide_false (is_Some _)).
  - rewrite (proj2 (Hval _ _) (or_intror Hcode)). cbn. by rewrite bool_decide_false.
  - intros [v Hv]. apply Hval in Hv as [Hv|Hv]; [by rewrite lookup_empty in Hv|].
    apply He. apply list_elem_of_fmap. by exists ("error", v).
Qed.

(** A callback is accepted exactly when it is the first one, its URI is the
    bound redirect (scheme, host, port and path, no fragment), no query
    parameter is repeated, the state is the one that was drawn, there is no
    [error] and the code is not empty; the code handed on is the one of the URI.
    After that every callback is refused as a duplicate, while a refused one
    leaves the authorization as it was. *)
Theorem callback_accepted_iff_bound self uri code :
  (fst (consume_callback self uri) = Ok code <->
     pa_callback_consumed self = false /\ bound_callback self uri code) /\
  (is_ok (fst (consume_callback self uri)) = true ->
     forall uri', consume_callback (snd (consume_callback self uri)) uri'
       = (Err Duplicate, snd (consume_callback self uri))) /\
  (is_ok (fst (consume_callback self uri)) = false -> snd (consume_callback self uri) = self).
Proof.
  unfold consume_callback. destruct (callback_code self uri) as [c|e] eqn:Hc; cbn; split_and!;
    try done.
  - split; [intros [= ->]; by apply callback_code_Ok|].
    intros [H1 H2]. by rewrite (bound_callback_code _ _ _ H1 H2) in Hc.
  - split; [done|]. intros [H1 H2]. by rewrite (bound_callback_code _ _ _ H1 H2) in Hc.
Qed.
End CallbackProps.

(** ** The exchange: what is accepted *)

Section ExchangeProps.
Context `{UrlParser, HttpClient, Chrono}.

(** Tokens are only taken from a clean HTTPS endpoint, from a response with
    a success status, with a token in it, and never with more scopes than were
    asked for. *)
Theorem exchanged_tokens_stay_in_scope tick now token_endpoint client_id pending code tokens :
  exchange_code tick now token_endpoint client_id pending code = Done tokens ->
  (exists url, url_parse token_endpoint = Ok url /\ url_scheme url = "https" /\
     url_username url = "" /\ url_password url = None /\ url_query url = None /\
     url_fragment url = None) /\
  (forall scope, scope ∈ ts_scopes tokens -> scope ∈ pa_scopes pending) /\
  ts_access_token tokens <> "".
Proof.
  unfold exchange_code. destruct (url_parse token_endpoint) as [url|] eqn:Hu; [|done]. cbn.
  destruct (_ || _) eqn:Hclean; [done|]. intros Hx.
  destruct (http_post_form _ _ _) as [| |status body]; try done.
  destruct (validate_token_status status) as [[]|]; [|done]. cbn in Hx.
  destruct body as [wire|]; [|done]. cbn in Hx. case_bool_decide; [done|].
  destruct (validate_returned_scopes _ _) as [[]|] eqn:Hs; [|done]. cbn in Hx.
  destruct (expiry_after _ _); [|done..]. cbn in Hx. inv_ok. subst tokens. bool_to_prop.
  repeat match goal with Hn : ~ (_ <> _) |- _ => apply dec_stable in Hn end.
  split_and!; cbn; [by exists url| |done].
  intros scope Hin. unfold validate_returned_scopes in Hs.
  destruct (existsb _ _) eqn:Hx in Hs; [done|].
  destruct (decide (scope ∈ pa_scopes pending)) as [|Hn]; [done|].
  apply not_true_iff_false in Hx. destruct Hx.
  apply existsb_exists. exists scope. split; [by apply list_elem_of_In|].
  by rewrite bool_decide_false.
Qed.
End ExchangeProps.

(** ** Token grants: all or nothing *)

(** The encoding determines both tokens, an absent refresh token reading as an
    empty one. *)
Lemma encode_tokens_inj a a' r r' :
  blen a < 2 ^ 32 -> blen a' < 2 ^ 32 -> blen (default [] r) < 2 ^ 32 ->
  blen (default [] r') < 2 ^ 32 ->
  encode_tokens a r = encode_tokens a' r' -> a = a' /\ default [] r = default [] r'.
Proof.
  unfold encode_tokens, blen. intros H1 H2 H3 H4 Heq. cbn [app] in Heq.
  apply (f_equal (@tl byte)) in Heq. cbn [tl] in Heq.
  apply app_inj_len in Heq as [Hl Heq]; [|by rewrite !length_be_bytes].
  apply be_bytes_inj in Hl; [|lia..].
  apply app_inj_len in Heq as [-> Heq]; [|lia].
  apply app_inj_len in Heq as [_ Heq]; [done|by rewrite !length_be_bytes].
Qed.

Record token_grant_readable (uuid : string) (now : Instant) (credential_id : CredentialId)
    (tokens : TokenSet) : Prop := {
  tg_uuid : uuid <> EmptyString;
  tg_credential : id_parse KCredential (id_str credential_id) = Ok credential_id;
  tg_now : four_digit_year now;
  tg_expires : forall t, ts_expires_at tokens = Some t -> four_digit_year t
}.

Section GrantProps.
Context `{ChronoLaws, JsonLaws} {P : Type} `{SecretProviderLaws P}.

Lemma json_strings_read_back (l : list string) :
  json_to_list json_to_string (json_print (JArray (map JString l))) = Ok l.
Proof.
  unfold json_to_list. rewrite json_round_trip. cbn. apply collect_Ok.
  induction l as [|x l IH]; cbn; constructor; done.
Qed.

Lemma oauth_row_reads_back uuid now credential_id tokens g :
  token_grant_readable uuid now credential_id tokens ->
  g = {| og_grant_id := id_new KGrant uuid; og_credential_id := credential_id;
         og_provider_locator := grant_locator (id_new KGrant uuid);
         og_scopes := ts_scopes tokens; og_subject_hint := None; og_created_at := now;
         og_expires_at := ts_expires_at tokens |} ->
  row_to_oauth_grant (oauth_grant_row g) = Ok g.
Proof.
  intros [E1 E2 E3 E4] ->. unfold row_to_oauth_grant, oauth_grant_row, time_column, opt_time_column.
  cbn [ogr_grant_id ogr_credential_id ogr_scopes_json ogr_created_at ogr_expires_at
       og_grant_id og_credential_id og_scopes og_created_at og_expires_at].
  rewrite id_parse_new, E2, json_strings_read_back, rfc3339_round_trip by done. cbn.
  destruct (ts_expires_at tokens) as [t|] eqn:Ht; cbn; [|done].
  unfold time_column. by rewrite rfc3339_round_trip by auto.
Qed.

(** What is stored for one grant: its row in the database, and its secret. *)
Definition grant_row_at (grant_id : GrantId) (s : Store) : option OAuthGrantRow :=
  select_first (fun row => bool_decide (ogr_grant_id row = id_str grant_id)) (oauth_grants s).

Lemma get_oauth_grant_row s grant_id :
  get_oauth_grant s grant_id =
  match grant_row_at grant_id s with
  | None => Ok None
  | Some row =>
      match row_to_oauth_grant row with
      | Ok g => Ok (Some g)
      | Err QueryReturnedNoRows => Ok None
      | Err e => Err (Sqlite e)
      end
  end.
Proof. unfold get_oauth_grant, query_row, grant_row_at. by destruct (select_first _ _). Qed.

Lemma insert_oauth_grant_cases g s :
  match insert_oauth_grant g s with
  | (Ok _, s') => grant_row_at (og_grant_id g) s = None /\
                  s' = set_oauth_grants s (oauth_grants s ++ [oauth_grant_row g])
  | (Err _, s') => s' = s
  end.
Proof.
  unfold insert_oauth_grant, commit, insert_into.
  destruct (insert_row _ _ _) as [rows|] eqn:Hr; cbn; [|done].
  apply insert_row_Some in Hr as [-> Hf]. split; [|done].
  apply select_first_None. intros r Hin. apply Hf in Hin. cbn in Hin. bool_to_prop.
  apply bool_decide_eq_false. congruence.
Qed.

(** Storing a token grant is all or nothing. On success the provider holds
    exactly the encoding of the tokens under the grant's locator, and the
    database reads the grant back, with the scopes, the expiry and the locator
    but no token. On failure the database is unchanged and, if the provider had
    taken the tokens and can delete, they are deleted again. No other secret is
    touched either way. *)
Theorem token_grant_stored_or_rolled_back uuid now credential_id tokens (p : P) (s : Store) :
  token_grant_readable uuid now credential_id tokens ->
  let '(r, p', s') := store_token_grant uuid now credential_id tokens p s in
  match r with
  | Ok g =>
      og_scopes g = ts_scopes tokens /\ og_expires_at g = ts_expires_at tokens /\
      get_oauth_grant s (og_grant_id g) = Ok None /\
      get_oauth_grant s' (og_grant_id g) = Ok (Some g) /\
      secret_at (og_provider_locator g) p' =
        Some (encode_tokens (as_bytes (ts_access_token tokens)) (as_bytes <$> ts_refresh_token tokens))
  | Err e =>
      s' = s /\
      (e = StorageStore -> (forall l q, is_ok (fst (delete_secret l q)) = true) ->
         secret_at (grant_locator (id_new KGrant uuid)) p' = None)
  end /\
  (forall l, l <> grant_locator (id_new KGrant uuid) -> secret_at l p' = secret_at l p).
Proof.
  intros Hg. unfold store_token_grant.
  set (l := grant_locator (id_new KGrant uuid)). set (b := encode_tokens _ _).
  pose proof (stored_reads_back l b p) as Hs. pose proof (fun l' => store_other l l' b p) as Ho.
  destruct (store_secret l b p) as [[[]|e] p1]; [|split; [done|intros l' Hl'; apply Ho; congruence]].
  specialize (Hs eq_refl). cbn in Hs, Ho. set (g := {| og_grant_id := _ |}).
  pose proof (insert_oauth_grant_cases g s) as Hi.
  destruct (insert_oauth_grant g s) as [[[]|e] s1].
  - destruct Hi as [Hn ->]. split; [|intros l' Hl'; apply Ho; congruence].
    split_and!; try done.
    + by rewrite get_oauth_grant_row, Hn.
    + rewrite get_oauth_grant_row. unfold grant_row_at in *.
      cbn [oauth_grants set_oauth_grants]. rewrite select_first_app, Hn. cbn [select_first List.find].
      rewrite bool_decide_true by done.
      by rewrite (oauth_row_reads_back uuid now credential_id tokens) by done.
  - subst s1. split; [split; [done|]; intros _ Hd; apply deleted_is_gone, Hd|].
    intros l' Hl'. rewrite delete_other by congruence. apply Ho. congruence.
Qed.

(** Revoking a token grant takes the secret before the record. When the call
    says that the grant was revoked, a record was there, its secret is gone from
    the provider and the record from the database; when it says that there was
    none, nothing changed; when the provider refuses to delete, the record is
    kept, so that the revocation can be tried again. *)
Theorem token_grant_revoked_completely grant_id (p : P) (s : Store) :
  let '(r, p', s') := revoke_token_grant grant_id p s in
  match r with
  | Ok true =>
      exists g, get_oauth_grant s grant_id = Ok (Some g) /\
        secret_at (og_provider_locator g) p' = None /\ get_oauth_grant s' grant_id = Ok None
  | Ok false =>
      get_oauth_grant s' grant_id = Ok None /\
      (NoDup (map ogr_grant_id (oauth_grants s)) -> s' = s /\ p' = p)
  | Err _ => s' = s
  end.
Proof.
  unfold revoke_token_grant. destruct (get_oauth_grant s grant_id) as [[g|]|] eqn:Hg; [|done..].
  pose proof (deleted_is_gone (og_provider_locator g) p) as Hd.
  destruct (delete_secret _ _) as [[[]|e] p1]; [|done]. specialize (Hd eq_refl). cbn in Hd.
  cbn [delete_oauth_grant commit map_err].
  assert (Hgone : forall s', oauth_grants s' = delete_where
      (fun row => bool_decide (ogr_grant_id row = id_str grant_id)) (oauth_grants s) ->
    get_oauth_grant s' grant_id = Ok None).
  { intros s' Hs'. rewrite get_oauth_grant_row. unfold grant_row_at. rewrite Hs'.
    rewrite (proj2 (select_first_None _ _)); [done|]. intros row Hrow.
    unfold delete_where in Hrow. apply list_elem_of_In, filter_In in Hrow as [_ Hrow].
    by apply negb_true_iff. }
  destruct (_ =? 1) eqn:Hc; [exists g; split_and!; auto|]. split; [auto|]. intros Hnd. exfalso.
  rewrite get_oauth_grant_row in Hg. destruct (grant_row_at grant_id s) as [row|] eqn:Hrow; [|done].
  unfold grant_row_at in Hrow.
  pose proof (count_where_le ogr_grant_id (fun row => bool_decide (ogr_grant_id row = id_str grant_id))
    _ Hnd ltac:(intros a b Ha Hb; cbn in Ha, Hb; bool_to_prop; congruence)) as Hle.
  apply Z.eqb_neq in Hc. apply select_first_Some in Hrow as [Hin Hp].
  assert (Hz : count_where (fun row => bool_decide (ogr_grant_id row = id_str grant_id))
    (oauth_grants s) = 0) by lia.
  rewrite count_where_zero in Hz. rewrite (Hz row Hin) in Hp. done.
Qed.
End GrantProps.

(** ** The theorems at concrete inputs *)

Definition example_pending : PendingAuthorization :=
  pending_new (replicate 32 Byte.x01) "s1" "https://github.com/login" ["read"; "write"].
Definition example_tokens : TokenSet := {|
  ts_access_token := "at"; ts_refresh_token := Some "rt"; ts_scopes := ["read"];
  ts_expires_at := Some (example_now + 3600 * nanos_per_second) |}.
Definition example_credential_id : CredentialId := MkId "cred_1".

(** The client of the examples answers every request with the same tokens. *)
Definition example_http : HttpClient := {|
  http_post_form _ _ _ := Received 200 (Some {| tw_access_token := "at";
    tw_refresh_token := Some "rt"; tw_scope := Some " read "; tw_expires_in := Some 3600 |}) |}.

Example example_callback :
  fst (consume_callback example_pending "https://github.com/login?code=c0de&state=s1") = Ok "c0de".
Proof. vm_compute. reflexivity. Qed.

Lemma exchanged_tokens_stay_in_scope_witness :
  @exchange_code concrete_url example_http concrete_chrono 0 example_now
    "https://github.com/login" "client" example_pending "c0de" = Done example_tokens /\
  (forall scope, scope ∈ ts_scopes example_tokens -> scope ∈ pa_scopes example_pending).
Proof.
  assert (Hx : @exchange_code concrete_url example_http concrete_chrono 0 example_now
    "https://github.com/login" "client" example_pending "c0de" = Done example_tokens)
    by (vm_compute; reflexivity).
  split; [exact Hx|].
  exact (proj1 (proj2 (@exchanged_tokens_stay_in_scope concrete_url example_http concrete_chrono
    _ _ _ _ _ _ _ Hx))).
Defined.

Lemma token_grant_stored_or_rolled_back_witness :
  let '(r, p, _) := store_token_grant "9" example_now example_credential_id example_tokens
    memory_new empty_store in
  is_ok r = true /\ secret_at "unrelated" p = None.
Proof.
  assert (Hg : token_grant_readable "9" example_now example_credential_id example_tokens).
  { split; [done|reflexivity|by vm_compute|]. intros t [= <-]. by vm_compute. }
  pose proof (token_grant_stored_or_rolled_back "9" example_now example_credential_id
    example_tokens memory_new empty_store Hg) as Ht.
  destruct (store_token_grant "9" example_now example_credential_id example_tokens
    memory_new empty_store) as [[r p] s] eqn:Hr.
  vm_compute in Hr. injection Hr as <- <- <-. split; [reflexivity|].
  exact (proj2 Ht "unrelated" ltac:(discriminate)).
Defined.

Definition example_granted_database : Store :=
  snd (store_token_grant "9" example_now example_credential_id example_tokens memory_new empty_store).

Lemma token_grant_revoked_completely_witness :
  let '(r, _, s) := revoke_token_grant (id_new KGrant "8") memory_new example_granted_database in
  r = Ok false /\ s = example_granted_database.
Proof.
  pose proof (token_grant_revoked_completely (id_new KGrant "8") memory_new example_granted_database)
    as Ht.
  destruct (revoke_token_grant (id_new KGrant "8") memory_new example_granted_database)
    as [[r p] s] eqn:Hr.
  assert (Hok : r = Ok false).
  { change r with (fst (fst (r, p, s))). rewrite <-Hr. vm_compute. reflexivity. }
  split; [exact Hok|]. rewrite Hok in Ht.
  refine (proj1 (proj2 Ht _)).
  apply (bool_decide_unpack _). vm_compute. exact I.
Defined.
