(* ===== verification/Protocol.v ===== *)
(** * Protocol: the requests, results and errors of the broker's interface

    Models the types of [secretctl-protocol]: the error codes of [error.rs], the
    agent's requests of [agent.rs], the executor's of [executor.rs] and those
    that drive the browser of [browser.rs]. The JSON a type is written as is given where the code depends on it. *)

From S2P Require Import Prelude.
From S2P Require Import Externals.
From S2P Require Import Domain.
From S2P Require Import Crypto.

(** ** Errors ([error.rs]) *)

Module RpcErrorCode.
Definition PARSE_ERROR : Z := -32700.
Definition INVALID_REQUEST : Z := -32600.
Definition METHOD_NOT_FOUND : Z := -32601.
Definition INVALID_PARAMS : Z := -32602.
Definition INTERNAL_ERROR : Z := -32603.
Definition AUTH_POLICY_DENIED : Z := -32001.
Definition APPROVAL_REJECTED : Z := -32002.
Definition APPROVAL_TIMEOUT : Z := -32003.
Definition CAPABILITY_EXPIRED : Z := -32004.
Definition CAPABILITY_CONSUMED : Z := -32005.
Definition EPOCH_INVALIDATED : Z := -32006.
Definition ORIGIN_MISMATCH : Z := -32007.
Definition FRAME_VIOLATION : Z := -32008.
Definition SESSION_TERMINATED : Z := -32009.
Definition EXECUTOR_FAILED : Z := -32010.
Definition RECIPE_NOT_FOUND : Z := -32011.
Definition USER_PRESENCE_UNAVAILABLE : Z := -32012.
Definition OBSERVATION_BLOCKED : Z := -32013.
Definition STALE_REFERENCE : Z := -32014.
Definition LOCATOR_AMBIGUOUS : Z := -32015.
Definition LOCATOR_NOT_FOUND : Z := -32016.
Definition WAIT_TIMEOUT : Z := -32017.
Definition SECURITY_VIOLATION : Z := -32099.
End RpcErrorCode.

Record RpcError : Type := {
  rpc_code : Z;
  rpc_message : string;
  rpc_data : option Json
}.

(** [RpcError::new]. *)
Definition rpc_error (code : Z) (message : string) : RpcError :=
  {| rpc_code := code; rpc_message := message; rpc_data := None |}.

(** ** The agent's requests ([agent.rs]) *)

Record TargetOriginConstraint : Type := {
  to_origin : CanonicalOrigin;
  to_path_prefix : option string
}.

Record ActionRequestParams : Type := {
  rq_request_id : RequestId;
  rq_action : ActionKind;
  rq_identity : string;
  rq_target : TargetOriginConstraint;
  rq_browser_session_id : BrowserSessionId;
  rq_tab_hint : option Z;
  rq_reason : string;
  rq_wait : bool;
  rq_timeout_ms : Z;
  rq_client_context : option Json
}.

Record ActionAuthenticateParams : Type := {
  rn_request_id : option RequestId;
  rn_action : option ActionKind;
  rn_identity : string;
  rn_reason : string;
  rn_wait : bool;
  rn_timeout_ms : Z;
  rn_client_context : option Json
}.

Record ActionResponseResult : Type := {
  ar_request_id : RequestId;
  ar_state : ActionRequestState.t;
  ar_result_code : option string;
  ar_execution_id : option ExecutionId;
  ar_evidence_ref : option string;
  ar_grant_id : option GrantId;
  ar_completed_at : option string
}.

Record ActionAuthenticateResult : Type := {
  aa_response : ActionResponseResult;
  aa_action : ActionKind;
  aa_verified_origin : CanonicalOrigin;
  aa_browser_session_id : BrowserSessionId
}.

Record ActionStatusResult : Type := {
  st_request_id : RequestId;
  st_state : ActionRequestState.t;
  st_detail : option string
}.

Record ActionCancelResult : Type := { ac_cancel_request_id : RequestId; ac_cancelled : bool }.

(** The derived [Serialize] of a request: absent options are skipped. *)
Definition optional_field (name : string) (value : option Json) : list (string * Json) :=
  match value with Some v => [(name, v)] | None => [] end.

Definition target_to_json (t : TargetOriginConstraint) : Json :=
  JObject (("origin", JString (origin_as_str (to_origin t)))
    :: optional_field "path_prefix" (JString <$> to_path_prefix t)).

Definition request_to_json (p : ActionRequestParams) : Json :=
  JObject ([("request_id", JString (id_str (rq_request_id p)));
            ("action", JString (action_as_str (rq_action p)));
            ("identity", JString (rq_identity p));
            ("target", target_to_json (rq_target p));
            ("browser_session_id", JString (id_str (rq_browser_session_id p)))]
    ++ optional_field "tab_hint" (JNumber <$> rq_tab_hint p)
    ++ [("reason", JString (rq_reason p)); ("wait", JBool (rq_wait p));
        ("timeout_ms", JNumber (rq_timeout_ms p))]
    ++ optional_field "client_context" (rq_client_context p)).

(** ** Session authentication ([agent.rs]) *)

Record SessionHelloParams : Type := {
  sh_protocol_version : string;
  sh_role : string;
  sh_principal_id : string;
  sh_client_nonce : string;
  sh_supported_suites : list string
}.

Definition session_auth_transcript `{Hashes} (hello : SessionHelloParams) (server_nonce : string)
    (server_ephemeral_public_key client_ephemeral_public_key : list byte) : list byte :=
  compute_context_digest [
    as_bytes "secretctl-session-auth-v1"; as_bytes (sh_protocol_version hello);
    as_bytes (sh_role hello); as_bytes (sh_principal_id hello);
    as_bytes (sh_client_nonce hello); as_bytes server_nonce;
    server_ephemeral_public_key; client_ephemeral_public_key].

(** ** The executor's requests ([executor.rs]) *)

Definition MANAGED_EXTENSION_ID : string := "kepjngjifdbhbohpljaehekkkjdpecli".

Record ExecutorContextPayload : Type := {
  xc_browser_session_id : BrowserSessionId;
  xc_tab_id : Z;
  xc_frame_id : Z;
  xc_document_id : string;
  xc_navigation_epoch : Z;
  xc_top_origin : CanonicalOrigin;
  xc_frame_origin : CanonicalOrigin;
  xc_path : string;
  xc_path_sha256 : string;
  xc_tls : bool;
  xc_incognito : bool
}.

Record ExecutorPrepareResult : Type := {
  xp_prepared : bool;
  xp_challenge_nonce : string;
  xp_matching_recipes : list RecipeId
}.

Record BrowserRegisterParams : Type := {
  br_instance_id : BrowserInstanceId;
  br_launcher_nonce : string;
  br_profile_id : string;
  br_extension_id : string;
  br_extension_version : string;
  br_extension_key_id : string;
  br_browser_version : string
}.

Record BrowserRegisterResult : Type := {
  bg_browser_session_id : BrowserSessionId;
  bg_assurance : string;
  bg_heartbeat_interval_seconds : Z;
  bg_session_proof : string
}.

Record ExecutionFieldPlan : Type := {
  fp_role : string;
  fp_selector : string;
  fp_optional : bool;
  fp_clear_first : bool
}.

Record OAuthExecutionPlan : Type := {
  op_authorization_url : string;
  op_issuer_origin : CanonicalOrigin;
  op_redirect_uri : string
}.

Record ExecutionSuccessPlan : Type := {
  sp_navigation_origin : option string;
  sp_selector_present : option string;
  sp_selector_absent : option string;
  sp_timeout_ms : Z
}.

Record ExecutionOfferResult : Type := {
  eo_capability_token : string;
  eo_recipe_id : RecipeId;
  eo_tab_id : Z;
  eo_frame_id : Z;
  eo_document_id : string;
  eo_navigation_epoch : Z;
  eo_top_origin : CanonicalOrigin;
  eo_frame_origin : CanonicalOrigin;
  eo_fields : list ExecutionFieldPlan;
  eo_auto_submit_selector : option string;
  eo_success : option ExecutionSuccessPlan;
  eo_oauth : option OAuthExecutionPlan
}.

Record OAuthCallbackParams : Type := {
  oc_capability_token : string;
  oc_browser_session_id : BrowserSessionId;
  oc_tab_id : Z;
  oc_callback_uri : string
}.

Record OAuthCallbackResult : Type := {
  ocr_grant_id : GrantId;
  ocr_scopes : list string;
  ocr_expires_at : option string
}.

Record ExecutorConsumeParams : Type := {
  xs_capability_token : string;
  xs_session_signature : string;
  xs_current_context : ExecutorContextPayload
}.

Record ResolvedFieldInjection : Type := {
  rj_role : string;
  rj_selector : string;
  rj_optional : bool;
  rj_clear_first : bool;
  rj_encrypted_value : string
}.

Record ExecutorConsumeResult : Type := {
  xr_execution_id : ExecutionId;
  xr_recipe_id : RecipeId;
  xr_fields : list ResolvedFieldInjection;
  xr_auto_submit_selector : option string
}.

Record ExecutorResultParams : Type := {
  xe_execution_id : ExecutionId;
  xe_status : string;
  xe_result_code : string
}.

Record ExecutorHeartbeatParams : Type := {
  xh_browser_session_id : BrowserSessionId;
  xh_active_tab_count : Z;
  xh_timestamp : string
}.

(** ** The requests that drive the browser ([browser.rs]) *)

Record BrowserSessionParams : Type := { bs_params_session_id : BrowserSessionId }.

Record BrowserTabParams : Type := { bt_session_id : BrowserSessionId; bt_tab_id : string }.

Record BrowserNavigateParams : Type := {
  bn_session_id : BrowserSessionId; bn_tab_id : string; bn_url : string
}.

Record BrowserOpenTabParams : Type := { bo_session_id : BrowserSessionId; bo_url : string }.

Definition default_blank_url : string := "about:blank".

Inductive SafeLocator : Type :=
| LocatorCss (value : string)
| LocatorTestId (value : string)
| LocatorRef (value : string)
| LocatorRole (role name : string)
| LocatorText (value : string).

Record PageLocatorParams : Type := {
  pl_session_id : BrowserSessionId; pl_tab_id : string; pl_locator : SafeLocator
}.

Record PageTypePublicParams : Type := {
  pt_session_id : BrowserSessionId; pt_tab_id : string; pt_locator : SafeLocator;
  pt_text : string
}.

Record PageSelectParams : Type := {
  ps_session_id : BrowserSessionId; ps_tab_id : string; ps_locator : SafeLocator;
  ps_label : string
}.

Record PageReadTextParams : Type := {
  pd_session_id : BrowserSessionId; pd_tab_id : string; pd_locator : option SafeLocator;
  pd_max_chars : option Z
}.

Record PageSnapshotParams : Type := {
  sp_session_id : BrowserSessionId; sp_tab_id : string; sp_max_nodes : option Z;
  sp_check_visibility : option bool
}.

Inductive WaitCondition : Type :=
| LocatorPresent (locator : SafeLocator)
| LocatorAbsent (locator : SafeLocator)
| TextPresent (value : string)
| UrlPrefix (value : string)
| UrlChangedFrom (value : string).

Record PageWaitForParams : Type := {
  pw_session_id : BrowserSessionId; pw_tab_id : string; pw_condition : WaitCondition;
  pw_timeout_ms : option Z
}.

Definition is_css_based (l : SafeLocator) : bool :=
  match l with LocatorCss _ | LocatorTestId _ => true | _ => false end.

Definition is_ascii_alphanumeric (a : ascii) : bool :=
  let n := Z.of_N (N_of_ascii a) in
  ((48 <=? n) && (n <=? 57)) || ((65 <=? n) && (n <=? 90)) || ((97 <=? n) && (n <=? 122)).

Definition css_string (value : string) : result string string :=
  if bool_decide (value = "") || (128 <? slen value)
     || negb (forallb (fun a => is_ascii_alphanumeric a || bool_decide (a = "_"%char)
                                || bool_decide (a = "-"%char)) (String.list_ascii_of_string value))
  then Err "unsafe test ID"
  else Ok (String "034" value +:+ String "034" EmptyString).

(** [SafeLocator::css] *)
Definition locator_css (l : SafeLocator) : result string string :=
  value ← match l with
          | LocatorCss value => Ok value
          | LocatorTestId value =>
              quoted ← css_string value; Ok ("[data-testid=" +:+ quoted +:+ "]")
          | _ => Err "locator is not selector-based"
          end;
  if bool_decide (value = "") || (512 <? slen value) || contains value ":has("
     || contains value "input[type=password]" || contains value "[type=password]"
  then Err "unsafe locator" else Ok value.
