(* ===== verification/Framing.v ===== *)
(** * Framing: messages on a byte stream

    Models the length-prefixed codecs of [secretctl-protocol/src/framing.rs] and
    [secretctl-native-host/src/framing.rs], the strict JSON decoder of
    [strict_json.rs], the endpoints of [transport.rs] and the messages of
    [jsonrpc.rs]. *)

From S2P Require Import Prelude.
From S2P Require Import Externals.
From S2P Require Import Protocol.

(** ** Errors *)

Inductive ProtocolError : Type :=
| ProtocolIo (message : string)
| ProtocolFraming (message : string)
| MessageTooLarge (limit actual : Z)
| ProtocolJson (message : string)
| ProhibitedField (field : string)
| VersionMismatch (version : string)
| InvalidRpc (message : string).

Definition protocol_error_text (e : ProtocolError) : string :=
  match e with
  | ProtocolIo m => "I/O error: " +:+ m
  | ProtocolFraming m => "Framing error: " +:+ m
  | MessageTooLarge limit actual =>
      "Message exceeded maximum size: limit " +:+ format_unsigned limit +:+ ", actual "
      +:+ format_unsigned actual
  | ProtocolJson m => "JSON serialization/deserialization error: " +:+ m
  | ProhibitedField f => "Prohibited secret-bearing field detected in payload: " +:+ f
  | VersionMismatch v => "Protocol version mismatch: " +:+ v
  | InvalidRpc m => "Invalid JSON-RPC format: " +:+ m
  end.

(** ** The codecs

    A decoder is given the buffer of what was read so far and returns a message
    with the rest of the buffer, or that it needs more. *)

Definition DEFAULT_MAX_AGENT_PAYLOAD_BYTES : Z := 1024 * 1024.
Definition DEFAULT_MAX_EXECUTOR_PAYLOAD_BYTES : Z := 4 * 1024 * 1024.
Definition MAX_CHROME_MSG_BYTES : Z := 1024 * 1024.

Record LengthPrefixedCodec : Type := { max_payload_bytes : Z }.
Definition for_agent : LengthPrefixedCodec :=
  {| max_payload_bytes := DEFAULT_MAX_AGENT_PAYLOAD_BYTES |}.
Definition for_executor : LengthPrefixedCodec :=
  {| max_payload_bytes := DEFAULT_MAX_EXECUTOR_PAYLOAD_BYTES |}.

Definition le_bytes (n : nat) (z : Z) : list byte := rev (be_bytes n z).
Definition le_value (l : list byte) : Z := be_value (rev l).

Definition decode (c : LengthPrefixedCodec) (src : list byte) :
    result ProtocolError (option (list byte)) * list byte :=
  if blen src <? 4 then (Ok None, src) else
  let length := be_value (take 4 src) in
  if max_payload_bytes c <? length
  then (Err (MessageTooLarge (max_payload_bytes c) length), src) else
  if blen src <? 4 + length then (Ok None, src) else
  let src := drop 4 src in
  (Ok (Some (take (Z.to_nat length) src)), drop (Z.to_nat length) src).

Definition encode (c : LengthPrefixedCodec) (item dst : list byte) :
    result ProtocolError (list byte) :=
  if max_payload_bytes c <? blen item
  then Err (MessageTooLarge (max_payload_bytes c) (blen item))
  else Ok (dst ++ be_bytes 4 (wrap_u32 (blen item)) ++ item).

(** Chrome's side: the length in the byte order of the machine. *)
Definition chrome_error (length : Z) : string :=
  "Message length " +:+ format_unsigned length +:+ " exceeds max "
  +:+ format_unsigned MAX_CHROME_MSG_BYTES.

Definition chrome_decode (src : list byte) : result string (option (list byte)) * list byte :=
  if blen src <? 4 then (Ok None, src) else
  let length := le_value (take 4 src) in
  if MAX_CHROME_MSG_BYTES <? length then (Err (chrome_error length), src) else
  if blen src <? 4 + length then (Ok None, src) else
  let src := drop 4 src in
  (Ok (Some (take (Z.to_nat length) src)), drop (Z.to_nat length) src).

Definition chrome_encode (item dst : list byte) : result string (list byte) :=
  if MAX_CHROME_MSG_BYTES <? blen item then Err (chrome_error (blen item))
  else Ok (dst ++ le_bytes 4 (wrap_u32 (blen item)) ++ item).

(** ** The strict decoder

    What [serde_json] reads of a text, before duplicate keys are dropped, is a
    tree whose objects keep every entry; [json_read] fails on text that is not
    one JSON value. *)

Class JsonReader := { json_read : list byte -> result string Json }.

Definition MAX_JSON_DEPTH : Z := 32.

(** [StrictVisitor] under [StrictSeed]; the text of an error is [serde_json]'s. *)
Fixpoint strict_value (depth : Z) (v : Json) : result string Json :=
  if MAX_JSON_DEPTH <? depth then Err "JSON nesting exceeds 32" else
  match v with
  | JArray items =>
      values ← (fix visit_seq (items : list Json) : result string (list Json) :=
        match items with
        | [] => Ok []
        | item :: items =>
            value ← strict_value (depth + 1) item;
            values ← visit_seq items;
            Ok (value :: values)
        end) items;
      Ok (JArray values)
  | JObject fields =>
      values ← (fix visit_map (keys : gset string) (fields : list (string * Json)) :
          result string (list (string * Json)) :=
        match fields with
        | [] => Ok []
        | (key, item) :: fields =>
            if bool_decide (key ∈ keys) then Err ("duplicate JSON key: " +:+ key) else
            value ← strict_value (depth + 1) item;
            values ← visit_map ({[key]} ∪ keys) fields;
            Ok ((key, value) :: values)
        end) ∅ fields;
      Ok (JObject values)
  | v => Ok v
  end.

(** [from_slice_strict]; [from_value] is the derived deserializer of the type. *)
Definition from_slice_strict `{JsonReader} {T : Type} (from_value : Json -> result string T)
    (bytes : list byte) : result ProtocolError T :=
  map_err ProtocolJson (raw ← json_read bytes; value ← strict_value 0 raw; from_value value).

(** ** Endpoints *)

Inductive LocalChannel : Type := ChannelAgent | ChannelAdmin | ChannelExecutor.

Definition channel_name (c : LocalChannel) : string :=
  match c with
  | ChannelAgent => "agent"
  | ChannelAdmin => "admin"
  | ChannelExecutor => "executor"
  end.

Fixpoint string_filter (p : ascii -> bool) (s : string) : string :=
  match s with
  | EmptyString => EmptyString
  | String a s => if p a then String a (string_filter p s) else string_filter p s
  end.

(** The bytes of a character outside ASCII are all left out, as the character is. *)
Definition windows_endpoint (installation_id : string) (channel : LocalChannel) : string :=
  "\\.\pipe\secretctl-"
  +:+ string_filter (fun a => is_ascii_alphanumeric a || bool_decide (a = "-"%char)) installation_id
  +:+ "-" +:+ channel_name channel.

(** ** JSON-RPC messages *)

Inductive RpcId : Type := RpcString (s : string) | RpcNumber (z : Z) | RpcNull.

Record RpcRequest : Type := {
  request_jsonrpc : string; request_rpc_id : RpcId; request_method : string;
  request_params : option Json
}.
Record RpcResponse : Type := {
  response_jsonrpc : string; response_rpc_id : RpcId; response_result : option Json;
  response_error : option RpcError
}.

Definition rpc_request_new (id method : string) (params : option Json) : RpcRequest := {|
  request_jsonrpc := "2.0"; request_rpc_id := RpcString id; request_method := method;
  request_params := params |}.
Definition rpc_success (id : RpcId) (result : Json) : RpcResponse := {|
  response_jsonrpc := "2.0"; response_rpc_id := id; response_result := Some result;
  response_error := None |}.
Definition rpc_failure (id : RpcId) (error : RpcError) : RpcResponse := {|
  response_jsonrpc := "2.0"; response_rpc_id := id; response_result := None;
  response_error := Some error |}.
