(* ===== verification/FramingProps.v ===== *)
(** * FramingProps: what arrives is what was sent

    The two codecs promise a stream the same thing, [FrameCodecLaws]; the
    theorems about streams are proved from it. *)

From S2P Require Import Prelude.
From S2P Require Import Externals.
From S2P Require Import Protocol.
From S2P Require Import Framing.

(** ** What a codec promises *)

Class FrameCodec (E : Type) := {
  fc_decode : list byte -> result E (option (list byte)) * list byte;
  fc_encode : list byte -> list byte -> result E (list byte);
  fc_frame : list byte -> list byte;
  fc_limit : Z
}.
Definition fc_fits `{FrameCodec E} (m : list byte) : Prop := blen m <= fc_limit.
#[global] Instance fc_fits_dec `{FrameCodec E} m : Decision (fc_fits m).
Proof. unfold fc_fits. apply _. Defined.

(** A message that fits is written as its frame; a frame is read back whatever
    follows it, and nothing is read of a part of it; no other message is
    written. *)
Class FrameCodecLaws (E : Type) `{FrameCodec E} := {
  encode_fits m dst : fc_fits m -> fc_encode m dst = Ok (dst ++ fc_frame m);
  encode_refuses m dst : ~ fc_fits m -> exists e, fc_encode m dst = Err e;
  decode_frame m rest : fc_fits m -> fc_decode (fc_frame m ++ rest) = (Ok (Some m), rest);
  decode_partial m p q : fc_fits m -> fc_frame m = p ++ q -> q <> [] -> fc_decode p = (Ok None, p);
  frame_nonempty m : fc_frame m <> []
}.

(** ** Streams

    A reader of a stream appends each chunk that arrives to its buffer and takes
    messages out of the buffer until there is none, or an error, which ends the
    stream. *)

Section Streams.
Context {E : Type} {FC : FrameCodec E} {FL : FrameCodecLaws E}.

Fixpoint drain (fuel : nat) (buffer : list byte) : list (list byte) * option E * list byte :=
  match fuel with
  | O => ([], None, buffer)
  | S fuel =>
      match fc_decode buffer with
      | (Ok (Some m), rest) => let '(ms, e, rest) := drain fuel rest in (m :: ms, e, rest)
      | (Ok None, rest) => ([], None, rest)
      | (Err e, rest) => ([], Some e, rest)
      end
  end.

Fixpoint receive (chunks : list (list byte)) (buffer : list byte) :
    list (list byte) * option E * list byte :=
  match chunks with
  | [] => ([], None, buffer)
  | chunk :: chunks =>
      let buffer := buffer ++ chunk in
      match drain (S (length buffer)) buffer with
      | (ms, None, rest) => let '(ms', e, rest) := receive chunks rest in (ms ++ ms', e, rest)
      | (ms, Some e, rest) => (ms, Some e, rest)
      end
  end.

Fixpoint send_all (ms : list (list byte)) (out : list byte) : result E (list byte) :=
  match ms with
  | [] => Ok out
  | m :: ms => out ← fc_encode m out; send_all ms out
  end.

(** A part of what is still to come: nothing, or a part of the next frame. *)
Definition pending (p : list byte) (ms : list (list byte)) : Prop :=
  match ms with
  | [] => p = []
  | m :: _ => exists q, fc_frame m = p ++ q /\ q <> []
  end.

Lemma prefix_of_frames ms : forall b rest, Forall fc_fits ms ->
  concat (map fc_frame ms) = b ++ rest ->
  exists ms1 ms2 p, ms = ms1 ++ ms2 /\ b = concat (map fc_frame ms1) ++ p /\ pending p ms2.
Proof.
  induction ms as [|m ms IH]; intros b rest Hf Hb.
  - cbn in Hb. symmetry in Hb. apply app_eq_nil in Hb as [-> _]. by exists [], [], [].
  - apply Forall_cons_1 in Hf as [Hm Hf]. cbn in Hb.
    destruct (decide (length b < length (fc_frame m))%nat) as [Hl|Hl].
    + exists [], (m :: ms), b. split_and!; try done. exists (drop (length b) (fc_frame m)).
      assert (Ht : take (length b) (fc_frame m) = b).
      { apply (f_equal (take (length b))) in Hb.
        rewrite take_app_le, take_app_length in Hb by lia. done. }
      split; [by rewrite <-Ht at 1; rewrite take_drop|].
      intros Hn. apply (f_equal length) in Hn. rewrite length_drop in Hn. cbn in Hn. lia.
    + assert (Ht : b = fc_frame m ++ drop (length (fc_frame m)) b).
      { rewrite <-(take_drop (length (fc_frame m)) b) at 1. f_equal.
        apply (f_equal (take (length (fc_frame m)))) in Hb.
        rewrite take_app_length, take_app_le in Hb by lia. done. }
      rewrite Ht, <-app_assoc in Hb. apply app_inv_head in Hb.
      destruct (IH _ _ Hf Hb) as (ms1 & ms2 & p & -> & Hp & Hpend).
      exists (m :: ms1), ms2, p. split_and!; [done| |done]. rewrite Ht, Hp. cbn. by rewrite <-app_assoc.
Qed.

Lemma decode_pending p ms : Forall fc_fits ms -> pending p ms ->
  p <> [] \/ ms <> [] -> fc_decode p = (Ok None, p).
Proof.
  intros Hf Hp Hne. destruct ms as [|m ms]; cbn in Hp; [naive_solver|].
  apply Forall_cons_1 in Hf as [Hm _]. destruct Hp as (q & Hq & Hn). by eapply decode_partial.
Qed.

Lemma drain_frames ms1 : forall ms2 p fuel, Forall fc_fits (ms1 ++ ms2) -> pending p ms2 ->
  (length (concat (map fc_frame ms1) ++ p) < fuel)%nat -> fc_decode [] = (Ok None, []) ->
  drain fuel (concat (map fc_frame ms1) ++ p) = (ms1, None, p).
Proof.
  induction ms1 as [|m ms1 IH]; intros ms2 p [|fuel] Hf Hp Hl He; try lia.
  - cbn [concat map app drain]. destruct ms2 as [|m ms2].
    + cbn in Hp. subst p. by rewrite He.
    + by rewrite (decode_pending p (m :: ms2)) by (done || by right).
  - cbn [concat map drain]. rewrite <-app_comm_cons in Hf. apply Forall_cons_1 in Hf as [Hm Hf].
    rewrite <-app_assoc, decode_frame by done.
    assert (Hl' : (length (concat (map fc_frame ms1) ++ p) < fuel)%nat).
    { pose proof (frame_nonempty m) as Hne. cbn in Hl. rewrite <-app_assoc, length_app in Hl.
      destruct (fc_frame m); [done|]. cbn in Hl. lia. }
    by rewrite (IH ms2) by done.
Qed.

Lemma send_all_frames ms : forall out bytes, send_all ms out = Ok bytes ->
  Forall fc_fits ms /\ bytes = out ++ concat (map fc_frame ms).
Proof.
  induction ms as [|m ms IH]; intros out bytes Hs; cbn in Hs.
  - injection Hs as <-. split; [constructor|]. cbn. by rewrite app_nil_r.
  - destruct (fc_encode m out) as [out'|e] eqn:He; [|discriminate]. cbn in Hs.
    destruct (decide (fc_fits m)) as [Hm|Hm];
      [|destruct (encode_refuses m out Hm) as [e He']; congruence].
    rewrite encode_fits in He by done. injection He as <-. apply IH in Hs as [Hf ->].
    split; [by constructor|]. cbn. by rewrite <-app_assoc.
Qed.

Lemma decode_nothing : 0 <= fc_limit -> fc_decode [] = (Ok None, []).
Proof.
  intros Hl. destruct (decide (fc_fits [])) as [Hf|Hf]; [|unfold fc_fits, blen in Hf; cbn in Hf; lia].
  by apply (decode_partial [] [] (fc_frame [])); [|done|apply frame_nonempty].
Qed.

Lemma receive_frames chunks : forall ms b, 0 <= fc_limit -> Forall fc_fits ms -> pending b ms ->
  forall rest, b ++ concat chunks ++ rest = concat (map fc_frame ms) ->
  exists ms1 ms2 p, ms = ms1 ++ ms2 /\ receive chunks b = (ms1, None, p) /\ pending p ms2 /\
    p ++ rest = concat (map fc_frame ms2).
Proof.
  induction chunks as [|chunk chunks IH]; intros ms b Hl Hf Hp rest Hb.
  - exists [], ms, b. by split_and!.
  - cbn [concat] in Hb. rewrite <-app_assoc, app_assoc in Hb.
    destruct (prefix_of_frames ms (b ++ chunk) (concat chunks ++ rest) Hf (eq_sym Hb))
      as (ms1 & ms2 & p & -> & Hbuf & Hpend).
    assert (Hd : drain (S (length (b ++ chunk))) (b ++ chunk) = (ms1, None, p)).
    { rewrite Hbuf. apply (drain_frames ms1 ms2 p); [done..|lia|by apply decode_nothing]. }
    apply Forall_app in Hf as [_ Hf2].
    rewrite Hbuf, map_app, concat_app, <-app_assoc in Hb. apply app_inv_head in Hb.
    destruct (IH ms2 p Hl Hf2 Hpend rest Hb) as (ms3 & ms4 & q & -> & Hr & Hq & Hrest).
    exists (ms1 ++ ms3), ms4, q. rewrite app_assoc. split_and!; [done| |done|done].
    cbn [receive]. by rewrite Hd, Hr.
Qed.

Lemma receive_sent ms bytes chunks rest : 0 <= fc_limit -> send_all ms [] = Ok bytes ->
  concat chunks ++ rest = bytes ->
  exists ms1 ms2 p, ms = ms1 ++ ms2 /\ receive chunks [] = (ms1, None, p) /\
    p ++ rest = concat (map fc_frame ms2) /\ pending p ms2.
Proof.
  intros Hl Hs Hc. apply send_all_frames in Hs as [Hf ->].
  destruct (receive_frames chunks ms [] Hl Hf) with (rest := rest) as (ms1 & ms2 & p & -> & Hr & Hp & Hrest).
  - destruct ms as [|m ms]; [done|]. exists (fc_frame m). split; [done|apply frame_nonempty].
  - exact Hc.
  - by exists ms1, ms2, p.
Qed.
End Streams.

(** ** The two codecs *)

Section Codecs.

Lemma frame_lengths (m : list byte) : blen m < 2 ^ 32 ->
  be_value (be_bytes 4 (wrap_u32 (blen m))) = blen m.
Proof.
  intros Hm. rewrite be_value_be_bytes. unfold wrap_u32. change (2 ^ (8 * Z.of_nat 4)) with (2 ^ 32).
  rewrite Z.mod_mod by lia. apply Z.mod_small. unfold blen in *. lia.
Qed.

(** The decoder both codecs are, for a way to read the length. *)
Definition generic_decode {E : Type} (limit : Z) (too_long : Z -> E) (value : list byte -> Z)
    (src : list byte) : result E (option (list byte)) * list byte :=
  if blen src <? 4 then (Ok None, src) else
  let length := value (take 4 src) in
  if limit <? length then (Err (too_long length), src) else
  if blen src <? 4 + length then (Ok None, src) else
  let src := drop 4 src in
  (Ok (Some (take (Z.to_nat length) src)), drop (Z.to_nat length) src).

Lemma generic_decode_frame {E : Type} limit (too_long : Z -> E) value header m rest :
  length header = 4%nat -> value header = blen m -> blen m <= limit ->
  generic_decode limit too_long value ((header ++ m) ++ rest) = (Ok (Some m), rest).
Proof.
  intros Hh Hv Hm. unfold generic_decode. rewrite <-app_assoc.
  assert (Hb : blen (header ++ m ++ rest) = 4 + blen m + blen rest)
    by (unfold blen; rewrite !length_app, Hh; lia).
  assert (0 <= blen m /\ 0 <= blen rest) by (unfold blen; lia).
  rewrite Hb. destruct (Z.ltb_spec (4 + blen m + blen rest) 4); [lia|].
  rewrite take_app_length', drop_app_length' by done. rewrite Hv.
  destruct (Z.ltb_spec limit (blen m)); [lia|].
  destruct (Z.ltb_spec (4 + blen m + blen rest) (4 + blen m)); [lia|].
  unfold blen. rewrite Nat2Z.id. by rewrite take_app_length, drop_app_length.
Qed.

Lemma generic_decode_partial {E : Type} limit (too_long : Z -> E) value header m p q :
  length header = 4%nat -> value header = blen m -> blen m <= limit ->
  header ++ m = p ++ q -> q <> [] -> generic_decode limit too_long value p = (Ok None, p).
Proof.
  intros Hh Hv Hm He Hq. unfold generic_decode. destruct (Z.ltb_spec (blen p) 4) as [|Hp]; [done|].
  assert (Ht : take 4 p = header).
  { apply (f_equal (take 4)) in He. rewrite take_app_length' in He by done.
    rewrite take_app_le in He by (unfold blen in Hp; lia). done. }
  rewrite Ht, Hv. destruct (Z.ltb_spec limit (blen m)); [lia|].
  destruct (Z.ltb_spec (blen p) (4 + blen m)) as [|Hl]; [done|]. exfalso.
  apply (f_equal length) in He. rewrite !length_app in He. destruct q; [done|].
  unfold blen in *. cbn in He. lia.
Qed.

Definition length_prefixed_codec (c : LengthPrefixedCodec) : FrameCodec ProtocolError := {|
  fc_decode := decode c; fc_encode := encode c;
  fc_frame m := be_bytes 4 (wrap_u32 (blen m)) ++ m; fc_limit := max_payload_bytes c |}.

Definition chrome_codec : FrameCodec string := {|
  fc_decode := chrome_decode; fc_encode := chrome_encode;
  fc_frame m := le_bytes 4 (wrap_u32 (blen m)) ++ m; fc_limit := MAX_CHROME_MSG_BYTES |}.

Lemma length_prefixed_laws (c : LengthPrefixedCodec) : max_payload_bytes c < 2 ^ 32 ->
  @FrameCodecLaws ProtocolError (length_prefixed_codec c).
Proof.
  intros Hc. split; unfold fc_fits; cbn -[be_bytes].
  - intros m dst Hm. unfold encode. destruct (Z.ltb_spec (max_payload_bytes c) (blen m)); [lia|done].
  - intros m dst Hm. unfold encode. destruct (Z.ltb_spec (max_payload_bytes c) (blen m)); [by eexists|lia].
  - intros m rest Hm. apply (generic_decode_frame _ (fun l => MessageTooLarge (max_payload_bytes c) l));
      [apply length_be_bytes|apply frame_lengths; lia|done].
  - intros m p q Hm. apply (generic_decode_partial _ (fun l => MessageTooLarge (max_payload_bytes c) l));
      [apply length_be_bytes|apply frame_lengths; lia|done].
  - intros m Hn. apply (f_equal length) in Hn. rewrite length_app, length_be_bytes in Hn. cbn in Hn. lia.
Qed.

Lemma chrome_laws : @FrameCodecLaws string chrome_codec.
Proof.
  assert (Hlen : forall z, length (le_bytes 4 z) = 4%nat)
    by (intros z; unfold le_bytes; by rewrite length_rev, length_be_bytes).
  assert (Hval : forall m, blen m <= MAX_CHROME_MSG_BYTES ->
    le_value (le_bytes 4 (wrap_u32 (blen m))) = blen m).
  { intros m Hm. unfold le_value, le_bytes. rewrite rev_involutive. apply frame_lengths.
    unfold MAX_CHROME_MSG_BYTES in Hm. lia. }
  split; unfold fc_fits; cbn -[le_bytes MAX_CHROME_MSG_BYTES].
  - intros m dst Hm. unfold chrome_encode. destruct (Z.ltb_spec MAX_CHROME_MSG_BYTES (blen m)); [lia|done].
  - intros m dst Hm. unfold chrome_encode. destruct (Z.ltb_spec MAX_CHROME_MSG_BYTES (blen m)); [by eexists|lia].
  - intros m rest Hm. apply (generic_decode_frame _ chrome_error); auto.
  - intros m p q Hm. apply (generic_decode_partial _ chrome_error); auto.
  - intros m Hn. apply (f_equal length) in Hn. rewrite length_app, Hlen in Hn. cbn [length] in Hn. lia.
Qed.

(** C32: messages survive the stream. Whatever sequence of messages is written
    with one of the codecs, and however the bytes are cut into chunks on the
    way, the reader takes exactly these messages out, in order, and is left with
    an empty buffer; when only a part of the bytes has arrived it has taken out a
    beginning of the sequence, without an error. *)
Theorem frames_survive_chunking (c : LengthPrefixedCodec) (ms chunks : list (list byte)) bytes rest :
  0 <= max_payload_bytes c < 2 ^ 32 -> concat chunks ++ rest = bytes ->
  (send_all (FC := length_prefixed_codec c) ms [] = Ok bytes ->
     exists ms1 ms2 p, ms = ms1 ++ ms2 /\ receive (FC := length_prefixed_codec c) chunks [] = (ms1, None, p) /\
       (rest = [] -> ms2 = [] /\ p = [])) /\
  (send_all (FC := chrome_codec) ms [] = Ok bytes ->
     exists ms1 ms2 p, ms = ms1 ++ ms2 /\ receive (FC := chrome_codec) chunks [] = (ms1, None, p) /\
       (rest = [] -> ms2 = [] /\ p = [])).
Proof.
  intros [Hc0 Hc] Hb.
  assert (Hend : forall E (H : FrameCodec E) (HL : FrameCodecLaws E) ms2 p, pending p ms2 ->
    p ++ [] = concat (map fc_frame ms2) -> ms2 = [] /\ p = []).
  { intros E H HL [|m ms2] p Hp He; [done|]. exfalso. destruct Hp as (q & Hq & Hn).
    rewrite app_nil_r in He. cbn in He. rewrite Hq in He. apply (f_equal length) in He.
    rewrite !length_app in He. destruct q; [done|]. cbn in He. lia. }
  split; intros Hs.
  - pose proof (length_prefixed_laws c Hc) as HL.
    destruct (receive_sent (FC := length_prefixed_codec c) ms bytes chunks rest Hc0 Hs Hb) as (ms1 & ms2 & p & -> & Hr & Hp & Hpend).
    exists ms1, ms2, p. split_and!; [done..|]. intros ->. by eapply Hend.
  - pose proof chrome_laws as HL.
    destruct (receive_sent (FC := chrome_codec) ms bytes chunks rest) as (ms1 & ms2 & p & -> & Hr & Hp & Hpend); try done.
    exists ms1, ms2, p. split_and!; [done..|]. intros ->. by eapply Hend.
Qed.
End Codecs.

(** ** What a decoder accepts *)

Lemma be_bytes_be_value l : be_bytes (length l) (be_value l) = l.
Proof.
  induction l as [|b l IH] using rev_ind; [done|].
  rewrite length_app, Nat.add_1_r, be_value_app.
  change (be_bytes (length l) ((be_value l * 256 + byte_to_Z b) / 256)
    ++ [byte_of_Z (be_value l * 256 + byte_to_Z b)] = l ++ [b]).
  pose proof (byte_to_Z_range b).
  replace ((be_value l * 256 + byte_to_Z b) / 256) with (be_value l)
    by (rewrite Z.div_add_l, (Z.div_small (byte_to_Z b)) by lia; lia).
  rewrite IH. repeat f_equal. apply byte_to_Z_inj. rewrite byte_to_of_Z.
  rewrite Z.add_comm, Z.mod_add by lia. by apply Z.mod_small.
Qed.

Lemma be_value_nonneg l : 0 <= be_value l.
Proof.
  induction l as [|b l IH] using rev_ind; [done|]. rewrite be_value_app.
  pose proof (byte_to_Z_range b). lia.
Qed.

(** What the decoder takes out of its buffer. A message it returns is within
    the limit, and its frame is exactly the bytes that are gone; when it asks for
    more it has changed nothing and holds less than the longest frame, so that a
    peer cannot make the broker buffer more than the limit; and it refuses as
    soon as the header has arrived, and only then, when the length it declares is
    above the limit. *)
Theorem decode_bounded (c : LengthPrefixedCodec) src : 0 <= max_payload_bytes c ->
  match decode c src with
  | (Ok (Some m), rest) =>
      blen m <= max_payload_bytes c /\ src = be_bytes 4 (blen m) ++ m ++ rest
  | (Ok None, src') => src' = src /\ blen src < 4 + max_payload_bytes c
  | (Err e, src') => src' = src /\ 4 <= blen src /\ max_payload_bytes c < be_value (take 4 src) /\
      e = MessageTooLarge (max_payload_bytes c) (be_value (take 4 src))
  end.
Proof.
  intros Hc. unfold decode. destruct (Z.ltb_spec (blen src) 4) as [|H4]; [split; [done|lia]|].
  destruct (Z.ltb_spec (max_payload_bytes c) (be_value (take 4 src))) as [|Hl]; [by split_and!|].
  destruct (Z.ltb_spec (blen src) (4 + be_value (take 4 src))) as [|Hs]; [split; [done|lia]|].
  pose proof (be_value_nonneg (take 4 src)) as Hn. set (n := be_value (take 4 src)) in *.
  assert (Hm : blen (take (Z.to_nat n) (drop 4 src)) = n).
  { unfold blen in *. rewrite length_take, length_drop. lia. }
  split; [lia|]. rewrite Hm. unfold n.
  replace 4%nat with (length (take 4 src)) at 1 by (rewrite length_take; unfold blen in H4; lia).
  by rewrite be_bytes_be_value, take_drop, take_drop.
Qed.

(** ** The strict decoder *)

(** How many arrays and objects the deepest value is inside of. *)
Fixpoint json_depth (v : Json) : Z :=
  match v with
  | JArray items => fold_right (fun item d => Z.max (1 + json_depth item) d) 0 items
  | JObject fields => fold_right (fun '(_, item) d => Z.max (1 + json_depth item) d) 0 fields
  | _ => 0
  end.

Fixpoint keys_distinct (v : Json) : Prop :=
  match v with
  | JArray items => fold_right (fun item p => keys_distinct item /\ p) True items
  | JObject fields => NoDup (map fst fields) /\
      fold_right (fun '(_, item) p => keys_distinct item /\ p) True fields
  | _ => True
  end.

Lemma json_depth_nonneg v : 0 <= json_depth v.
Proof.
  destruct v as [| | | | |items|fields]; try done; cbn.
  - induction items; cbn; lia. - induction fields as [|[k x] fields IH]; cbn; lia.
Qed.

Lemma strict_value_Ok v : forall depth v', 0 <= depth ->
  strict_value depth v = Ok v' <->
  v' = v /\ depth + json_depth v <= MAX_JSON_DEPTH /\ keys_distinct v.
Proof.
  induction v as [| | | | |items IH|fields IH] using json_nested_ind; intros depth v' Hd;
    remember MAX_JSON_DEPTH as top eqn:Htop; cbn [strict_value json_depth keys_distinct];
    rewrite <-?Htop; destruct (Z.ltb_spec top depth) as [Hl|Hl];
    try (split; [intros [=]|intros (_ & ? & _); lia]);
    try (split; [intros [= <-]; split_and!; [done|lia|done]|intros (-> & _ & _); done]).
  - split; [intros [=]|]. intros (_ & Hb & _). pose proof (json_depth_nonneg (JArray items)) as Hn.
    cbn [json_depth] in Hn. lia.
  - match goal with |- (?visit items ≫= _) = _ <-> _ =>
      assert (Hs : forall values, visit items = Ok values <-> values = items /\
        depth + fold_right (fun item d => Z.max (1 + json_depth item) d) 0 items <= top /\
        fold_right (fun item p => keys_distinct item /\ p) True items) end.
    { induction IH as [|item items Hi _ IHi]; intros values; cbn -[strict_value].
      - split; [intros [= <-]; split_and!; [done|lia|done]|by intros (-> & _)].
      - match goal with |- context[?visit items] => set (rest := visit items) in * end.
        split.
        + destruct (strict_value (depth + 1) item) as [x|e] eqn:Hx; [|discriminate].
          apply Hi in Hx as (-> & Hd' & Hk); [|lia]. cbn.
          destruct rest as [vs|e]; [|discriminate]. destruct (proj1 (IHi vs) eq_refl) as (-> & Hb & Hks).
          intros [= <-]. split_and!; [done|lia|done|done].
        + intros (-> & Hb & Hk & Hks). rewrite (proj2 (Hi (depth + 1) item ltac:(lia))) by (split_and!; [done|lia|done]).
          cbn. rewrite (proj2 (IHi items)) by (split_and!; [done|lia|done]). done. }
    match goal with |- (?visit items ≫= _) = _ <-> _ => set (all := visit items) in * end.
    split.
    + destruct all as [vs|e]; [|discriminate]. destruct (proj1 (Hs vs) eq_refl) as (-> & ? & ?).
      intros [= <-]. by split_and!.
    + intros (-> & ? & ?). by rewrite (proj2 (Hs items)).
  - split; [intros [=]|]. intros (_ & Hb & _). pose proof (json_depth_nonneg (JObject fields)) as Hn.
    cbn [json_depth] in Hn. lia.
  - match goal with |- (?visit ∅ fields ≫= _) = _ <-> _ =>
      assert (Hs : forall keys values, visit keys fields = Ok values <-> values = fields /\
        depth + fold_right (fun '(_, item) d => Z.max (1 + json_depth item) d) 0 fields <= top /\
        (NoDup (map fst fields) /\ forall k, k ∈ map fst fields -> k ∉ keys) /\
        fold_right (fun '(_, item) p => keys_distinct item /\ p) True fields) end.
    { induction IH as [|[k item] fields Hi _ IHi]; intros keys values; cbn -[strict_value].
      - split; [intros [= <-]; split_and!; [done|lia|constructor|set_solver|done]|by intros (-> & _)].
      - cbn [snd] in Hi. match goal with |- context[?visit ({[k]} ∪ keys) fields] =>
          set (rest := visit ({[k]} ∪ keys) fields); specialize (IHi ({[k]} ∪ keys)); fold rest in IHi end.
        split.
        + case_bool_decide as Hkey; [discriminate|].
          destruct (strict_value (depth + 1) item) as [x|e] eqn:Hx; [|discriminate].
          apply Hi in Hx as (-> & Hd' & Hk); [|lia]. cbn.
          destruct rest as [vs|e]; [|discriminate].
          destruct (proj1 (IHi vs) eq_refl) as (-> & Hb & (Hnd & Hout) & Hks).
          intros [= <-]. split_and!; [done|lia| | |done|done].
          * constructor; [|done]. intros Hin. by apply Hout in Hin; set_solver.
          * intros k' [->|Hin]%elem_of_cons; [done|]. apply Hout in Hin. set_solver.
        + intros (-> & Hb & (Hnd & Hout) & Hk & Hks). inversion Hnd as [|? ? Hnk Hnd']; subst; clear Hnd; rename Hnd' into Hnd.
          rewrite bool_decide_false by (apply Hout; set_solver).
          rewrite (proj2 (Hi (depth + 1) item ltac:(lia))) by (split_and!; [done|lia|done]).
          cbn. rewrite (proj2 (IHi fields)); [done|]. split_and!; [done|lia|done| |done].
          intros k' Hin [->%elem_of_singleton|Hin']%elem_of_union; [done|].
          by apply (Hout k'); [set_solver|]. }
    specialize (Hs ∅).
    match goal with |- (?visit ∅ fields ≫= _) = _ <-> _ => set (all := visit ∅ fields) in * end.
    split.
    + destruct all as [vs|e]; [|discriminate]. destruct (proj1 (Hs vs) eq_refl) as (-> & ? & [? _] & ?).
      intros [= <-]. by split_and!.
    + intros (-> & ? & ? & ?). rewrite (proj2 (Hs fields)); [done|]. split_and!; done.
Qed.

(** The strict decoder reads what every reader agrees on. Given text that is
    one JSON value, it accepts it exactly when no object in it, at any depth, has
    a key twice and nothing is inside more than 32 arrays and objects; what it
    then hands to the deserializer of the expected type is that value, nothing
    dropped and nothing reordered. *)
Theorem strict_decoder_accepts_iff `{JsonReader} {T : Type} (from_value : Json -> result string T)
    bytes (t : T) :
  from_slice_strict from_value bytes = Ok t <->
  exists v, json_read bytes = Ok v /\ json_depth v <= 32 /\ keys_distinct v /\ from_value v = Ok t.
Proof.
  unfold from_slice_strict. destruct (json_read bytes) as [raw|e].
  2: { split; [intros [=]|]. by intros (v & [=] & _). }
  cbn [mbind result_bind]. pose proof (strict_value_Ok raw 0) as Hs. split.
  - intros Ht. destruct (strict_value 0 raw) as [v|e]; [|discriminate].
    destruct (proj1 (Hs v ltac:(lia)) eq_refl) as (-> & Hd & Hk). cbn in Ht.
    exists raw. destruct (from_value raw) eqn:Hf; [|discriminate]. injection Ht as ->.
    by split_and!.
  - intros (v & [= <-] & Hd & Hk & Hf).
    rewrite (proj2 (Hs raw ltac:(lia))) by (split_and!; [done|unfold MAX_JSON_DEPTH; lia|done]).
    cbn. by rewrite Hf.
Qed.

(** ** Witnesses *)

Definition example_messages : list (list byte) := [as_bytes "one"; []; as_bytes "three"].
(** The bytes of the agent's codec, cut where it hurts. *)
Definition example_chunks : list (list byte) :=
  [[Byte.x00; Byte.x00]; [Byte.x00; Byte.x03; Byte.x6f]; as_bytes "ne" ++ [Byte.x00];
   [Byte.x00; Byte.x00; Byte.x00; Byte.x00; Byte.x00; Byte.x00; Byte.x05; Byte.x74]; as_bytes "hree"].

Lemma frames_survive_chunking_witness :
  exists ms1 ms2 p, example_messages = ms1 ++ ms2 /\
    receive (FC := length_prefixed_codec for_agent) example_chunks [] = (ms1, None, p) /\
    ms2 = [] /\ p = [].
Proof.
  destruct (proj1 (frames_survive_chunking for_agent example_messages example_chunks
    (concat example_chunks) [] ltac:(vm_compute; split; [discriminate|reflexivity])
    ltac:(apply app_nil_r)) ltac:(vm_compute; reflexivity)) as (ms1 & ms2 & p & Hm & Hr & Hrest).
  exists ms1, ms2, p. split; [exact Hm|]. split; [exact Hr|]. exact (Hrest eq_refl).
Defined.

Definition oversize_header : list byte := [Byte.x01; Byte.x00; Byte.x00; Byte.x00].

Lemma decode_bounded_witness :
  decode for_agent oversize_header = (Err (MessageTooLarge 1048576 16777216), oversize_header) /\
  max_payload_bytes for_agent < be_value (take 4 oversize_header).
Proof.
  assert (Hd : decode for_agent oversize_header
    = (Err (MessageTooLarge 1048576 16777216), oversize_header)) by (vm_compute; reflexivity).
  split; [exact Hd|].
  pose proof (decode_bounded for_agent oversize_header ltac:(vm_compute; discriminate)) as H.
  rewrite Hd in H. exact (proj1 (proj2 (proj2 H))).
Defined.
