(* ===== verification/BrokerState.v ===== *)
(** * BrokerState: the broker's state and the effects of its handlers

    Models the types at the top of [secretctld/src/state.rs], the constructor
    [BrokerState::try_new_with_audit_key] and the audit helpers every handler
    goes through.

    A handler is a computation in the monad [Broker]: it reads and writes one
    [World], which holds the broker's shared state, the database, the secret
    provider and a counter of the values drawn from the environment (clock,
    identifiers, random bytes), and ends with a result, an error of the
    interface or a panic. What a handler did before an error stays done. A
    handler runs without interruption: the locks it takes and releases in
    between are not modelled, nor is the poisoning of a lock by a panic. *)

From S2P Require Import Prelude.
From S2P Require Import Externals.
From S2P Require Import Domain.
From S2P Require Import Policy.
From S2P Require Import Crypto.
From S2P Require Import Gateway.
From S2P Require Import AuditChain.
From S2P Require Import Capability.
From S2P Require Import Provider.
From S2P Require Import Table.
From S2P Require Import Store.
From S2P Require Import OAuth.
From S2P Require Import Protocol.

(** ** The state *)

Record ActiveBrowserSession : Type := {
  abs_session : BrowserSession;
  abs_active_tab_count : Z;
  abs_session_proof_hash : option (list byte)
}.

Record CapabilityEntry : Type := {
  ce_capability : Capability;
  ce_token : string;
  ce_claims : CapabilityClaims;
  ce_recipe_id : RecipeId;
  ce_provider_locator : string;
  ce_credential_metadata : string
}.

Record ActiveExecution : Type := {
  ae_execution : Execution;
  ae_request_id : RequestId;
  ae_agent_id : AgentId;
  ae_credential_id : CredentialId;
  ae_action : ActionKind;
  ae_browser_session_id : BrowserSessionId;
  ae_tab_id : Z
}.

Record PendingOAuthExecution : Type := {
  po_authorization : PendingAuthorization;
  po_recipe : OAuthRecipe;
  po_capability_id : CapabilityId;
  po_request_id : RequestId;
  po_credential_id : CredentialId;
  po_browser_session_id : BrowserSessionId;
  po_tab_id : Z
}.

(** The process of a launched Chrome is the gateway launcher's, and what it
    leaves in the handle is its interface: the pipe, past the requests of the
    launch, the instance and the diagnostics. *)
Record BrowserLaunchParams : Type := {
  bl_chrome_binary : string;
  bl_extension_path : string;
  bl_native_host_binary : string;
  bl_profile_dir : option string;
  bl_headless : bool
}.

Record BrowserLaunchResult : Type := {
  lr_instance_id : BrowserInstanceId;
  lr_profile_id : string;
  lr_browser_session_id : option BrowserSessionId;
  lr_gateway_endpoint : string;
  lr_diagnostics : list string
}.

Class ManagedChrome := {
  Launched : Type;
  launch_chrome : nat -> BrowserLaunchParams -> option Launched;
  launched_instance_id : Launched -> BrowserInstanceId;
  launched_cdp_pipe : Launched -> option CdpPipe;
  shutdown_chrome : Launched -> bool;
  startup_diagnostics : nat -> Launched -> list string
}.

Record ManagedBrowser `{ManagedChrome} : Type := {
  mb_launched : Launched;
  mb_cdp_pipe : option CdpPipe;
  mb_filter : CdpFilter
}.

Record AuthorizationContext : Type := {
  au_request_id : RequestId;
  au_agent_id : AgentId;
  au_agent_name : string;
  au_reason : string;
  au_identity_name : string;
  au_credential : CredentialDescriptor;
  au_action : ActionKind;
  au_browser_session_id : BrowserSessionId;
  au_extension_key_id : string;
  au_page_context : PageContext;
  au_recipe : SiteRecipe;
  au_decision : PolicyDecision;
  au_base_risk : RiskLevel
}.

Record PendingApprovalEntry : Type := {
  pn_approval : Approval;
  pn_authorization : AuthorizationContext
}.

Record AuditCursor : Type := { cu_next_sequence : Z; cu_latest_hash : list byte }.

Record BrokerState `{ManagedChrome} {P : Type} : Type := {
  broker_key : KeyPair;
  key_id : string;
  store : Store;
  provider : P;
  policy_evaluator : PolicyEvaluator;
  sessions : gmap BrowserSessionId ActiveBrowserSession;
  page_contexts : gmap BrowserSessionId (gmap Z PageContext);
  capabilities : gmap CapabilityId CapabilityEntry;
  pending_offers : gmap BrowserSessionId (list CapabilityId);
  executions : gmap ExecutionId ActiveExecution;
  oauth_executions : gmap CapabilityId PendingOAuthExecution;
  requests : gmap RequestId ActionResponseResult;
  request_agents : gmap RequestId AgentId;
  request_fingerprints : gmap RequestId (list byte);
  approvals : gmap ApprovalId PendingApprovalEntry;
  recipes : gmap RecipeId SiteRecipe;
  managed_browsers : gmap BrowserInstanceId ManagedBrowser;
  audit_key_version : Z;
  audit_key : SecretBytes;
  audit_cursor : AuditCursor
}.
Arguments BrokerState {_} P.

(** A field of the state replaced: the constructor applied to the other
    projections, with this one abstracted. *)
Ltac set_field s projection v :=
  let rebuilt := constr:(Build_BrokerState _ _ (broker_key s) (key_id s) (store s) (provider s)
    (policy_evaluator s) (sessions s) (page_contexts s) (capabilities s) (pending_offers s)
    (executions s) (oauth_executions s) (requests s) (request_agents s)
    (request_fingerprints s) (approvals s) (recipes s) (managed_browsers s)
    (audit_key_version s) (audit_key s) (audit_cursor s)) in
  let field := constr:(projection s) in
  let abstracted := eval pattern field in rebuilt in
  match abstracted with ?f _ => let r := eval cbv beta in (f v) in exact r end.

Section Setters.
Context `{ManagedChrome} {P : Type}.
Implicit Type s : BrokerState P.

Definition set_store s (v : Store) : BrokerState P := ltac:(set_field s (@store _ P) v).
Definition set_provider s (v : P) : BrokerState P := ltac:(set_field s (@provider _ P) v).
Definition set_policy_evaluator s v : BrokerState P := ltac:(set_field s (@policy_evaluator _ P) v).
Definition set_sessions s v : BrokerState P := ltac:(set_field s (@sessions _ P) v).
Definition set_page_contexts s v : BrokerState P := ltac:(set_field s (@page_contexts _ P) v).
Definition set_capabilities s v : BrokerState P := ltac:(set_field s (@capabilities _ P) v).
Definition set_pending_offers s v : BrokerState P := ltac:(set_field s (@pending_offers _ P) v).
Definition set_executions s v : BrokerState P := ltac:(set_field s (@executions _ P) v).
Definition set_oauth_executions s v : BrokerState P := ltac:(set_field s (@oauth_executions _ P) v).
Definition set_requests s v : BrokerState P := ltac:(set_field s (@requests _ P) v).
Definition set_request_agents s v : BrokerState P := ltac:(set_field s (@request_agents _ P) v).
Definition set_request_fingerprints s v : BrokerState P :=
  ltac:(set_field s (@request_fingerprints _ P) v).
Definition set_approvals s v : BrokerState P := ltac:(set_field s (@approvals _ P) v).
Definition set_recipes s v : BrokerState P := ltac:(set_field s (@recipes _ P) v).
Definition set_managed_browsers s v : BrokerState P := ltac:(set_field s (@managed_browsers _ P) v).
Definition set_audit_cursor s (v : AuditCursor) : BrokerState P :=
  ltac:(set_field s (@audit_cursor _ P) v).
End Setters.

(** ** The monad *)

Record World `{ManagedChrome} {P : Type} : Type := {
  w_broker : BrokerState P;
  w_tick : nat
}.
Arguments World {_} P.

Definition Broker `{ManagedChrome} (P A : Type) : Type :=
  World P -> outcome RpcError A * World P.

Section Monad.
Context `{ManagedChrome} {P : Type}.

#[global] Instance broker_ret : MRet (Broker P) := fun A a w => (Done a, w).
#[global] Instance broker_bind : MBind (Broker P) := fun A B f m w =>
  match m w with
  | (Done a, w) => f a w
  | (Fail e, w) => (Fail e, w)
  | (Panicked, w) => (Panicked, w)
  end.

Definition throw {A : Type} (e : RpcError) : Broker P A := fun w => (Fail e, w).
Definition fail_with {A : Type} (code : Z) (message : string) : Broker P A :=
  throw (rpc_error code message).
Definition panic {A : Type} : Broker P A := fun w => (Panicked, w).

(** [?] on a [Result] and on an [Option]. *)
Definition lift {E A : Type} (f : E -> RpcError) (r : result E A) : Broker P A :=
  match r with Ok a => mret a | Err e => throw (f e) end.
Definition require {A : Type} (code : Z) (message : string) (o : option A) : Broker P A :=
  match o with Some a => mret a | None => fail_with code message end.
Definition unwrap {A : Type} (o : option A) : Broker P A :=
  match o with Some a => mret a | None => panic end.

(** Runs a computation and hands its [Result] on, as a [match] on it would. *)
Definition attempt {A : Type} (m : Broker P A) : Broker P (result RpcError A) := fun w =>
  match m w with
  | (Done a, w) => (Done (Ok a), w)
  | (Fail e, w) => (Done (Err e), w)
  | (Panicked, w) => (Panicked, w)
  end.

Definition gets {A : Type} (f : BrokerState P -> A) : Broker P A :=
  fun w => (Done (f (w_broker w)), w).
Definition modify (f : BrokerState P -> BrokerState P) : Broker P unit :=
  fun w => (Done tt, {| w_broker := f (w_broker w); w_tick := w_tick w |}).

(** Reads of the environment. *)
Definition draw {A : Type} (f : nat -> A) : Broker P A :=
  fun w => (Done (f (w_tick w)), {| w_broker := w_broker w; w_tick := S (w_tick w) |}).
Definition Utc_now `{Environment} : Broker P Instant := draw env_now.
Definition new_uuid `{Environment} : Broker P string := draw env_uuid.
Definition fill_bytes `{Environment} : Broker P (list byte) := draw env_random.

(** A call of a method of the store, and of the provider. *)
Definition run_store {A : Type} (op : Store -> result StoreError A * Store) :
    Broker P (result StoreError A) := fun w =>
  let '(r, st) := op (store (w_broker w)) in
  (Done r, {| w_broker := set_store (w_broker w) st; w_tick := w_tick w |}).
Definition run_provider {A : Type} (op : P -> result ProviderError A * P) :
    Broker P (result ProviderError A) := fun w =>
  let '(r, p) := op (provider (w_broker w)) in
  (Done r, {| w_broker := set_provider (w_broker w) p; w_tick := w_tick w |}).
Definition read_store {A : Type} (f : Store -> A) : Broker P A := gets (fun b => f (store b)).
End Monad.

(** ** Opening the broker *)

Section Open.
Context `{ManagedChrome} {P : Type}.

(** [BrokerState::try_new_with_audit_key], with the clock the recovery reads. *)
Definition try_new_with_audit_key (now : Instant) (key : KeyPair) (kid : string)
    (akey : SecretBytes) (akey_version : Z) (st : Store) (p : P) (policy : PolicyEvaluator)
    `{Chrono} : result StoreError (BrokerState P) * Store :=
  let '(recovered, st) := recover_incomplete_state now st in
  (_ ← recovered;
   initial_hash ← get_latest_audit_hash st;
   latest_sequence ← get_latest_audit_sequence st;
   Ok {| broker_key := key; key_id := kid; store := st; provider := p;
         policy_evaluator := policy; sessions := ∅; page_contexts := ∅; capabilities := ∅;
         pending_offers := ∅; executions := ∅; oauth_executions := ∅; requests := ∅;
         request_agents := ∅; request_fingerprints := ∅; approvals := ∅; recipes := ∅;
         managed_browsers := ∅; audit_key_version := akey_version; audit_key := akey;
         audit_cursor := {| cu_next_sequence := latest_sequence + 1;
                            cu_latest_hash := initial_hash |} |}, st).

(** [BrokerState::new_with_audit_key]: an error of the store is a panic, [None]. *)
Definition new_with_audit_key (now : Instant) (key : KeyPair) (kid : string)
    (akey : SecretBytes) (akey_version : Z) (st : Store) (p : P) (policy : PolicyEvaluator)
    `{Chrono} : option (BrokerState P) * Store :=
  let '(opened, st) :=
    try_new_with_audit_key now key kid akey akey_version st p policy in
  (match opened with Ok b => Some b | Err _ => None end, st).

(** [BrokerState::new]: the key of the audit chain is the digest of the secret half
    of the key of the broker. *)
Definition broker_new `{Hashes} (now : Instant) (key : KeyPair) (kid : string)
    (st : Store) (p : P) (policy : PolicyEvaluator) `{Chrono} :
    option (BrokerState P) * Store :=
  let fallback_audit_key := {| secret_data := sha256_digest (keypair_to_bytes key) |} in
  new_with_audit_key now key kid fallback_audit_key 1 st p policy.
End Open.

(** ** The audit helpers *)

(** What [rusqlite] prints of an error. *)
Class SqliteText := { sqlite_error_text : SqliteError -> string }.

Definition audit_error_text (e : AuditError) : string :=
  match e with
  | ChainBroken sequence =>
      "Hash chain verification failed at sequence " +:+ format_unsigned sequence
  | AuditSerialization message => "Serialization error: " +:+ message
  | ProhibitedPayload key => "Prohibited key in audit payload: " +:+ key
  end.

Definition store_error_text `{SqliteText} (e : StoreError) : string :=
  match e with
  | Sqlite e => "Database error: " +:+ sqlite_error_text e
  | Migration m => "Migration error: " +:+ m
  | NotFound what => "Record not found: " +:+ what
  | StoreSerialization m => "Serialization error: " +:+ m
  | StateConflict what => "State conflict: " +:+ what
  end.

Definition internal_error (message : string) : RpcError :=
  rpc_error RpcErrorCode.INTERNAL_ERROR message.

Section Audit.
Context `{ManagedChrome, Chrono, Hashes, Signatures, JsonCodec, Environment, SqliteText} {P : Type}.

(** The block every audited operation is written as: under the cursor's lock,
    create the event after the latest one and run the store's transaction that
    carries it; the cursor moves only when the transaction succeeded. *)
Definition audited_try {A : Type} (audit_error : AuditError -> RpcError)
    (event_type actor_type : string) (actor_id : option string) (context : AuditContext)
    (op : AuditEvent -> Store -> result StoreError A * Store) :
    Broker P (result StoreError A) :=
  cursor ← gets audit_cursor;
  version ← gets audit_key_version;
  key ← gets audit_key;
  now ← Utc_now;
  uuid ← new_uuid;
  event ← lift audit_error
    (create_audit_event uuid (cu_next_sequence cursor) (cu_latest_hash cursor) version
       (secret_as_bytes key) event_type actor_type actor_id context now);
  r ← run_store (op event);
  (match r with
   | Ok _ => modify (fun b => set_audit_cursor b
       {| cu_next_sequence := cu_next_sequence cursor + 1;
          cu_latest_hash := ev_event_hash event |})
   | Err _ => mret tt
   end);;
  mret r.

Definition audited {A : Type} (audit_error : AuditError -> RpcError)
    (store_error : StoreError -> RpcError) (event_type actor_type : string)
    (actor_id : option string) (context : AuditContext)
    (op : AuditEvent -> Store -> result StoreError A * Store) : Broker P A :=
  r ← audited_try audit_error event_type actor_type actor_id context op;
  lift store_error r.

Definition audit_unavailable (_ : AuditError) : RpcError := internal_error "Audit unavailable".

Definition record_audit_event (event_type actor_type : string) (actor_id : option string)
    (context : AuditContext) : Broker P unit :=
  audited (fun e => internal_error (audit_error_text e))
    (fun e => internal_error (store_error_text e)) event_type actor_type actor_id context
    insert_audit_event.

Definition insert_standing_grant_audited (grant : StandingGrant) (context : AuditContext) :
    Broker P unit :=
  audited audit_unavailable (fun _ => internal_error "Grant storage unavailable")
    "grant.created" "admin" None context (insert_standing_grant_with_audit grant).

Definition decision_context (decision : string) : AuditContext :=
  Build_AuditContext None None None None None None (Some decision) None None.

Definition write_audit_checkpoint : Broker P unit :=
  record_audit_event "audit.checkpoint" "broker" None (decision_context "shutdown");;
  cursor ← gets audit_cursor;
  version ← gets audit_key_version;
  kid ← gets key_id;
  key ← gets broker_key;
  now ← Utc_now;
  r ← run_store (insert_audit_checkpoint (create_audit_checkpoint (cu_next_sequence cursor - 1)
        (cu_latest_hash cursor) version kid key now));
  lift (fun _ => internal_error "Checkpoint unavailable") r.

Definition verify_audit_integrity : Broker P unit :=
  events ← read_store list_audit_events;
  events ← lift (fun _ => internal_error "Audit unavailable") events;
  version ← gets audit_key_version;
  key ← gets audit_key;
  lift (fun _ => internal_error "Audit integrity failure")
    (verify_audit_chain events {[version := secret_as_bytes key]}).
End Audit.

(** ** Reasoning about handlers

    [steps R m]: every run of [m], whatever its outcome, ends in a world that
    [R] relates to the one it began in. For a preorder [R] this composes along
    the program. [quiet] are the writes that touch neither the database nor the
    audit cursor nor the keys, nor what request identifiers stand for. *)

Definition steps `{ManagedChrome} {P A : Type} (R : relation (World P)) (m : Broker P A) : Prop :=
  forall w, R w (snd (m w)).

Definition quiet `{ManagedChrome} {P : Type} (b b' : BrokerState P) : Prop :=
  store b' = store b /\ audit_cursor b' = audit_cursor b /\ audit_key b' = audit_key b /\
  audit_key_version b' = audit_key_version b /\ broker_key b' = broker_key b /\
  key_id b' = key_id b /\ request_fingerprints b' = request_fingerprints b /\
  request_agents b' = request_agents b.

Section Steps.
Context `{ManagedChrome} {P : Type} (R : relation (World P)) `{!PreOrder R}.

Lemma steps_ret {A : Type} (a : A) : steps R (mret a).
Proof. intros w. cbn. reflexivity. Qed.

Lemma steps_bind {A B : Type} (m : Broker P A) (f : A -> Broker P B) :
  steps R m -> (forall a, steps R (f a)) -> steps R (m ≫= f).
Proof.
  intros Hm Hf w. unfold mbind, broker_bind. specialize (Hm w).
  destruct (m w) as [[a|e|] w']; [|done..]. by transitivity w'; [|apply Hf].
Qed.

(** A run whose outcome is known. *)
Lemma steps_run {A : Type} (m : Broker P A) w r w' : steps R m -> m w = (r, w') -> R w w'.
Proof. intros Hm Hw. specialize (Hm w). by rewrite Hw in Hm. Qed.

Lemma steps_throw {A : Type} e : steps R (throw (A := A) e).
Proof. intros w. cbn. reflexivity. Qed.
Lemma steps_fail_with {A : Type} c m : steps R (fail_with (A := A) c m).
Proof. intros w. cbn. reflexivity. Qed.
Lemma steps_panic {A : Type} : steps R (panic (A := A)).
Proof. intros w. cbn. reflexivity. Qed.
Lemma steps_lift {E A : Type} (f : E -> RpcError) (r : result E A) : steps R (lift f r).
Proof. destruct r; intros w; cbn; reflexivity. Qed.
Lemma steps_require {A : Type} c m (o : option A) : steps R (require c m o).
Proof. destruct o; intros w; cbn; reflexivity. Qed.
Lemma steps_unwrap {A : Type} (o : option A) : steps R (unwrap o).
Proof. destruct o; intros w; cbn; reflexivity. Qed.
Lemma steps_gets {A : Type} (f : BrokerState P -> A) : steps R (gets f).
Proof. intros w. cbn. reflexivity. Qed.
Lemma steps_read_store {A : Type} (f : Store -> A) : steps R (read_store f).
Proof. intros w. cbn. reflexivity. Qed.

Lemma steps_attempt {A : Type} (m : Broker P A) : steps R m -> steps R (attempt m).
Proof. intros Hm w. unfold attempt. specialize (Hm w). by destruct (m w) as [[a|e|] w']. Qed.
End Steps.

#[export] Hint Resolve steps_ret steps_throw steps_fail_with steps_panic steps_lift
  steps_require steps_unwrap steps_gets steps_read_store steps_attempt : secretctl.

(** The results a run can have: each step of a successful run succeeded. *)
Section Runs.
Context `{ManagedChrome} {P : Type}.

Lemma bind_Done {A B : Type} (m : Broker P A) (f : A -> Broker P B) w b w' :
  (m ≫= f) w = (Done b, w') <->
  exists a w1, m w = (Done a, w1) /\ f a w1 = (Done b, w').
Proof.
  unfold mbind, broker_bind. split.
  - destruct (m w) as [[a|e|] w1]; [|done..]. eauto.
  - by intros (a & w1 & -> & Hf).
Qed.

Lemma lift_Done {E A : Type} (f : E -> RpcError) (r : result E A) (w w' : World P) a :
  lift f r w = (Done a, w') <-> r = Ok a /\ w' = w.
Proof. destruct r; cbn; split; [intros [= -> ->]|intros [[= ->] ->]|intros [=]|intros [[=] ?]]; done. Qed.
Lemma require_Done {A : Type} c m (o : option A) (w w' : World P) a :
  require c m o w = (Done a, w') <-> o = Some a /\ w' = w.
Proof. destruct o; cbn; split; [intros [= -> ->]|intros [[= ->] ->]|intros [=]|intros [[=] ?]]; done. Qed.
Lemma unwrap_Done {A : Type} (o : option A) (w w' : World P) a :
  unwrap o w = (Done a, w') <-> o = Some a /\ w' = w.
Proof. destruct o; cbn; split; [intros [= -> ->]|intros [[= ->] ->]|intros [=]|intros [[=] ?]]; done. Qed.
End Runs.

(** Takes a successful run apart into its steps. *)
Ltac run_step Hr :=
  match type of Hr with
  | (_ ≫= _) _ = (Done _, _) =>
      let a := fresh "a" in let w := fresh "w" in let Hs := fresh "Hs" in
      apply bind_Done in Hr as (a & w & Hs & Hr)
  | gets _ _ = (Done _, _) => cbn [gets] in Hr; injection Hr as <- <-
  | read_store _ _ = (Done _, _) => cbn [read_store gets] in Hr; injection Hr as <- <-
  | mret _ _ = (Done _, _) => cbn [mret broker_ret] in Hr; injection Hr as <- <-
  | lift _ _ _ = (Done _, _) => let Ho := fresh "Ho" in apply lift_Done in Hr as [Ho ->]
  | require _ _ _ _ = (Done _, _) => let Ho := fresh "Ho" in apply require_Done in Hr as [Ho ->]
  | unwrap _ _ = (Done _, _) => let Ho := fresh "Ho" in apply unwrap_Done in Hr as [Ho ->]
  | throw _ _ = (Done _, _) => discriminate Hr
  | fail_with _ _ _ = (Done _, _) => discriminate Hr
  | panic _ = (Done _, _) => discriminate Hr
  end.
