(* ===== verification/Broker.v ===== *)
(** * Broker: the handlers

    Models the handlers of [BrokerState] in [secretctld/src/state.rs] that the
    daemon's sockets dispatch to: registration and liveness of browser sessions,
    action requests and their approval, the execution of a capability, the OAuth
    callback, and the administrative operations. The handlers that drive the
    browser over its debugging protocol are in [Pages.v]. *)

From S2P Require Import Prelude.
From S2P Require Import Externals.
From S2P Require Import Domain.
From S2P Require Import Policy.
From S2P Require Import Crypto.
From S2P Require Import Gateway.
From S2P Require Import AuditChain.
From S2P Require Import Capability.
From S2P Require Import Provider.
From S2P Require Import Table.
From S2P Require Import Store.
From S2P Require Import OAuth.
From S2P Require Import Protocol.
From S2P Require Import BrokerState.

(** ** User presence ([presence.rs]) *)

Inductive HostPlatform : Type := Macos | Windows | Linux.
#[global] Instance HostPlatform_eq_dec : EqDecision HostPlatform.
Proof. solve_decision. Defined.

Definition assurance_available (platform : HostPlatform) (risk : RiskLevel) : bool :=
  negb (bool_decide (platform = Linux))
  || match risk with Low | Medium => true | _ => false end.

(** ** Small helpers *)

Definition set_session_state (a : ActiveBrowserSession) (st : BrowserSessionState.t) :
    ActiveBrowserSession := {|
  abs_session := {|
    bs_session_id := bs_session_id (abs_session a);
    bs_instance_id := bs_instance_id (abs_session a);
    bs_extension_key_id := bs_extension_key_id (abs_session a);
    bs_profile_id := bs_profile_id (abs_session a);
    bs_assurance := bs_assurance (abs_session a);
    bs_state := st;
    bs_last_heartbeat_at := bs_last_heartbeat_at (abs_session a) |};
  abs_active_tab_count := abs_active_tab_count a;
  abs_session_proof_hash := abs_session_proof_hash a |}.

Definition set_heartbeat (a : ActiveBrowserSession) (now : Instant) (tabs : Z) :
    ActiveBrowserSession := {|
  abs_session := {|
    bs_session_id := bs_session_id (abs_session a);
    bs_instance_id := bs_instance_id (abs_session a);
    bs_extension_key_id := bs_extension_key_id (abs_session a);
    bs_profile_id := bs_profile_id (abs_session a);
    bs_assurance := bs_assurance (abs_session a);
    bs_state := BrowserSessionState.Active;
    bs_last_heartbeat_at := now |};
  abs_active_tab_count := tabs;
  abs_session_proof_hash := abs_session_proof_hash a |}.

Definition set_entry_capability (e : CapabilityEntry) (c : Capability) : CapabilityEntry := {|
  ce_capability := c; ce_token := ce_token e; ce_claims := ce_claims e;
  ce_recipe_id := ce_recipe_id e; ce_provider_locator := ce_provider_locator e;
  ce_credential_metadata := ce_credential_metadata e |}.

(** The assignments of [state] and [revoked_reason] of a revocation. *)
Definition revoke_entry (reason : string) (e : CapabilityEntry) : CapabilityEntry :=
  set_entry_capability e (set_capability_status (ce_capability e) CapabilityState.Revoked
    (cap_used_count (ce_capability e)) (Some reason)).

Definition set_response (r : ActionResponseResult) (state : ActionRequestState.t)
    (result_code : option string) (execution_id : option ExecutionId)
    (completed_at : option string) : ActionResponseResult := {|
  ar_request_id := ar_request_id r; ar_state := state; ar_result_code := result_code;
  ar_execution_id := execution_id; ar_evidence_ref := ar_evidence_ref r;
  ar_grant_id := ar_grant_id r; ar_completed_at := completed_at |}.

(** A recipe's match rule on a page. *)
Definition match_rule_covers (m : RecipeMatch) (top_origin frame_origin : CanonicalOrigin)
    (path : string) : bool :=
  origin_matches (rm_top_origin m) top_origin
  && is_none_or (fun origin => origin_matches origin frame_origin) (rm_frame_origin m)
  && is_none_or (fun prefix => starts_with path prefix) (rm_path_prefix m).

Definition recipe_matches (r : SiteRecipe) (action : ActionKind) (context : PageContext) : bool :=
  rcp_enabled r && bool_decide (rcp_action r = action)
  && match_rule_covers (rcp_match_rule r) (pc_top_origin context) (pc_frame_origin context)
       (pc_path context).

(** [max_by_key]: the last of the greatest. *)
Definition latest_context (best : option PageContext) (context : PageContext) :
    option PageContext :=
  match best with
  | Some b => if pc_observed_at b <=? pc_observed_at context then Some context else best
  | None => Some context
  end.

Section Handlers.
Context `{ManagedChrome, Chrono, Hashes, Signatures, Base64, Cbor, WireCodec, UrlParser,
  JsonCodec, HashIter, Environment, HttpClient, SqliteText} {P : Type} `{SecretProvider P}.
Variable platform : HostPlatform.

(** ** Registration and sessions *)

Definition register_recipe (recipe : SiteRecipe) : Broker P unit :=
  modify (fun b => set_recipes b (<[rcp_recipe_id recipe := recipe]> (recipes b))).

Definition register_browser_session (session : BrowserSession) : Broker P unit :=
  modify (fun b => set_sessions b (<[bs_session_id session := {|
    abs_session := session; abs_active_tab_count := 1; abs_session_proof_hash := None |}]>
    (sessions b))).

Definition register_page_context (context : PageContext) (session_id : BrowserSessionId) :
    Broker P unit :=
  modify (fun b => set_page_contexts b
    (<[session_id := <[pc_tab_id context := context]>
         (default ∅ (page_contexts b !! session_id))]> (page_contexts b))).

Definition launch_managed_browser (params : BrowserLaunchParams) : Broker P BrowserLaunchResult :=
  launched ← draw (fun n => launch_chrome n params);
  launched ← require RpcErrorCode.INTERNAL_ERROR "Managed Chrome launch failed" launched;
  let instance_id := launched_instance_id launched in
  modify (fun b => set_managed_browsers b
    (<[instance_id := {| mb_launched := launched; mb_cdp_pipe := launched_cdp_pipe launched;
                         mb_filter := ∅ |}]> (managed_browsers b)));;
  record_audit_event "browser.launched" "admin" None (decision_context "managed_private_pipe");;
  mret {| lr_instance_id := instance_id; lr_profile_id := id_str instance_id;
          lr_browser_session_id := None; lr_gateway_endpoint := "agent-rpc:constrained-browser";
          lr_diagnostics := [] |}.

Definition close_managed_browser (instance_id : BrowserInstanceId) : Broker P unit :=
  browsers ← gets managed_browsers;
  browser ← require RpcErrorCode.INVALID_PARAMS "Unknown browser instance"
    (browsers !! instance_id);
  modify (fun b => set_managed_browsers b (delete instance_id (managed_browsers b)));;
  if negb (shutdown_chrome (mb_launched browser))
  then fail_with RpcErrorCode.INTERNAL_ERROR "Managed Chrome shutdown failed"
  else modify (fun b => set_sessions b
    ((fun a => if bool_decide (bs_instance_id (abs_session a) = instance_id)
               then set_session_state a BrowserSessionState.Terminated else a) <$> sessions b)).

Definition session_context (session_id decision : string) (error : option string) :
    AuditContext :=
  Build_AuditContext None None None (Some session_id) None None (Some decision) None error.

(** [split("Chrome/").nth(1)], up to the first dot, as a number. *)
Definition browser_major (version : string) : option Z :=
  text ← split_nth_1 "Chrome/" version; parse_u32 (fst (split_char "." text)).

Definition handle_browser_register (params : BrowserRegisterParams) :
    Broker P BrowserRegisterResult :=
  if bool_decide (br_extension_id params ≠ MANAGED_EXTENSION_ID)
     || negb (starts_with (br_extension_key_id params) "extkey_")
     || (slen (br_extension_key_id params) <? 24)
     || (slen (br_launcher_nonce params) <? 32)
     || (256 <? slen (br_launcher_nonce params))
     || bool_decide (br_profile_id params = "")
     || bool_decide (br_extension_version params ≠ "1.0.0")
     || is_none_or (fun major => major <? 120) (browser_major (br_browser_version params))
  then fail_with RpcErrorCode.SECURITY_VIOLATION "Browser attestation rejected"
  else
    uuid ← new_uuid;
    proof_bytes ← fill_bytes;
    now ← Utc_now;
    let session_id := id_new KBrowserSession uuid in
    let session_proof := b64_encode proof_bytes in
    let session := {|
      bs_session_id := session_id; bs_instance_id := br_instance_id params;
      bs_extension_key_id := br_extension_key_id params; bs_profile_id := br_profile_id params;
      bs_assurance := "managed"; bs_state := BrowserSessionState.Active;
      bs_last_heartbeat_at := now |} in
    modify (fun b => set_sessions b (<[session_id := {|
      abs_session := session; abs_active_tab_count := 1;
      abs_session_proof_hash := Some (sha256_digest (as_bytes session_proof)) |}]> (sessions b)));;
    record_audit_event "browser.registered" "executor" (Some (br_extension_id params))
      (session_context (id_str session_id) "attested" None);;
    mret {| bg_browser_session_id := session_id; bg_assurance := "managed";
            bg_heartbeat_interval_seconds := 5; bg_session_proof := session_proof |}.

Definition handle_executor_heartbeat (params : ExecutorHeartbeatParams) : Broker P unit :=
  ss ← gets sessions;
  entry ← require RpcErrorCode.SESSION_TERMINATED "Browser must register before heartbeat"
    (ss !! xh_browser_session_id params);
  now ← Utc_now;
  modify (fun b => set_sessions b (<[xh_browser_session_id params :=
    set_heartbeat entry now (xh_active_tab_count params)]> (sessions b))).

Definition handle_executor_prepare (context : ExecutorContextPayload) :
    Broker P ExecutorPrepareResult :=
  now ← Utc_now;
  register_page_context {|
    pc_tab_id := xc_tab_id context; pc_frame_id := xc_frame_id context;
    pc_top_origin := xc_top_origin context; pc_frame_origin := xc_frame_origin context;
    pc_navigation_epoch := xc_navigation_epoch context;
    pc_document_id := xc_document_id context; pc_path := xc_path context;
    pc_path_sha256 := xc_path_sha256 context; pc_tls := xc_tls context;
    pc_incognito := xc_incognito context; pc_observed_at := now |}
    (xc_browser_session_id context);;
  rs ← gets recipes;
  nonce ← new_uuid;
  mret {| xp_prepared := true; xp_challenge_nonce := nonce;
          xp_matching_recipes := map fst (List.filter (fun '(_, recipe) =>
            match_rule_covers (rcp_match_rule recipe) (xc_top_origin context)
              (xc_frame_origin context) (xc_path context)) (hash_iter rs)) |}.

(** ** Sensitive windows

    A filter is shared by its handle; here it is named by the browser instance
    that owns it. *)

Definition set_filter (instance_id : BrowserInstanceId) (f : CdpFilter -> CdpFilter)
    (b : BrokerState P) : BrokerState P :=
  set_managed_browsers b (alter (fun m =>
    {| mb_launched := mb_launched m; mb_cdp_pipe := mb_cdp_pipe m; mb_filter := f (mb_filter m) |})
    instance_id (managed_browsers b)).
Definition enter_sensitive_window (instance_id : BrowserInstanceId) (tab_id : Z)
    (b : BrokerState P) : BrokerState P := set_filter instance_id (enter_tab tab_id) b.
Definition exit_sensitive_window (instance_id : BrowserInstanceId) (tab_id : Z)
    (b : BrokerState P) : BrokerState P := set_filter instance_id (exit_tab tab_id) b.
Definition has_sensitive_window (m : ManagedBrowser) : bool := any_sensitive_window (mb_filter m).

Definition sensitive_filter_for_session (session_id : BrowserSessionId) (b : BrokerState P) :
    option BrowserInstanceId :=
  active ← sessions b !! session_id;
  let instance_id := bs_instance_id (abs_session active) in
  _ ← managed_browsers b !! instance_id;
  Some instance_id.

Definition execution_sensitive_filter (execution_id : ExecutionId) (b : BrokerState P) :
    option (BrowserInstanceId * Z) :=
  active ← executions b !! execution_id;
  filter ← sensitive_filter_for_session (ae_browser_session_id active) b;
  Some (filter, ae_tab_id active).

(** Closing the window of an execution, if it has one. *)
Definition close_execution_window (execution_id : ExecutionId) : Broker P unit :=
  modify (fun b => match execution_sensitive_filter execution_id b with
                   | Some (filter, tab_id) => exit_sensitive_window filter tab_id b
                   | None => b
                   end).

(** The scope of a [SensitiveWindowGuard]: the window is closed again when the
    scope is left by an error or a panic, and kept open by a success. *)
Definition with_sensitive_window {A : Type} (filter : option BrowserInstanceId) (tab_id : Z)
    (body : Broker P A) : Broker P A := fun w =>
  match filter with
  | None => body w
  | Some instance_id =>
      let w := {| w_broker := enter_sensitive_window instance_id tab_id (w_broker w);
                  w_tick := w_tick w |} in
      match body w with
      | (Done a, w) => (Done a, w)
      | (r, w) => (r, {| w_broker := exit_sensitive_window instance_id tab_id (w_broker w);
                         w_tick := w_tick w |})
      end
  end.

Definition guard_observation (session_id : BrowserSessionId) : Broker P unit :=
  b ← gets id;
  let blocked := is_some_and (fun instance_id =>
    is_some_and has_sensitive_window (managed_browsers b !! instance_id))
    (sensitive_filter_for_session session_id b) in
  if blocked
  then fail_with RpcErrorCode.OBSERVATION_BLOCKED
         "Observation is blocked while an authentication action is in progress"
  else mret tt.

Definition safe_navigation_url (raw : string) (allow_blank : bool) : result RpcError string :=
  if allow_blank && bool_decide (raw = "about:blank") then Ok raw else
  parsed ← map_err (fun _ => rpc_error RpcErrorCode.INVALID_PARAMS "Invalid navigation URL")
    (url_parse raw);
  let loopback_http := bool_decide (url_scheme parsed = "http")
    && bool_decide (url_host_str parsed ∈ [Some "localhost"; Some "127.0.0.1"; Some "[::1]"]) in
  if (bool_decide (url_scheme parsed ≠ "https") && negb loopback_http)
     || bool_decide (url_username parsed ≠ "") || bool_decide (url_password parsed ≠ None)
  then Err (rpc_error RpcErrorCode.SECURITY_VIOLATION
              "Navigation scheme or embedded credentials rejected")
  else Ok (url_text parsed).

(** ** Minting *)

Definition approval_context_digest (a : AuthorizationContext) : list byte :=
  let page := au_page_context a in
  compute_context_digest [
    as_bytes (id_str (au_agent_id a));
    as_bytes (id_str (cred_credential_id (au_credential a)));
    as_bytes (action_as_str (au_action a));
    as_bytes (origin_as_str (pc_top_origin page));
    as_bytes (origin_as_str (pc_frame_origin page));
    as_bytes (id_str (au_browser_session_id a));
    as_bytes (au_extension_key_id a);
    be_bytes 4 (pc_tab_id page);
    be_bytes 4 (pc_frame_id page);
    as_bytes (pc_document_id page);
    be_bytes 8 (pc_navigation_epoch page);
    rcp_content_hash (au_recipe a);
    pd_policy_hash (au_decision a)].

(** The audit context of a step of an authorization. *)
Definition authorization_audit (a : AuthorizationContext) (capability_id : option string)
    (decision risk : string) (error : option string) : AuditContext :=
  Build_AuditContext (Some (id_str (au_request_id a)))
    (Some (id_str (cred_credential_id (au_credential a)))) capability_id
    (Some (id_str (au_browser_session_id a)))
    (Some (origin_as_str (pc_top_origin (au_page_context a))))
    (Some (action_as_str (au_action a))) (Some decision) (Some risk) error.

Definition mint_args_of (a : AuthorizationContext) (kid : string) (now : Instant) : MintArgs := {|
  ma_issuer_key_id := kid;
  ma_request_id := au_request_id a; ma_agent_id := au_agent_id a;
  ma_credential_id := cred_credential_id (au_credential a); ma_action := au_action a;
  ma_top_origin := pc_top_origin (au_page_context a);
  ma_frame_origin := pc_frame_origin (au_page_context a);
  ma_browser_session_id := au_browser_session_id a;
  ma_extension_key_id := au_extension_key_id a;
  ma_tab_id := pc_tab_id (au_page_context a);
  ma_frame_id := pc_frame_id (au_page_context a);
  ma_document_id := pc_document_id (au_page_context a);
  ma_navigation_epoch := pc_navigation_epoch (au_page_context a);
  ma_recipe_id := rcp_recipe_id (au_recipe a);
  ma_recipe_hash := rcp_content_hash (au_recipe a);
  ma_policy_hash := pd_policy_hash (au_decision a);
  ma_issued_at := now;
  ma_deadlines := from_policy (au_decision a);
  ma_flow := None;
  ma_max_uses := 1 |}.

Definition offer_capability (session_id : BrowserSessionId) (capability_id : CapabilityId)
    (b : BrokerState P) : BrokerState P :=
  set_pending_offers b (<[session_id :=
    default [] (pending_offers b !! session_id) ++ [capability_id]]> (pending_offers b)).

Definition put_response (r : ActionResponseResult) : Broker P unit :=
  modify (fun b => set_requests b (<[ar_request_id r := r]> (requests b))).

Definition mint_authorized_capability (a : AuthorizationContext)
    (approval_id : option ApprovalId) : Broker P ActionResponseResult :=
  now ← Utc_now;
  key ← gets broker_key;
  kid ← gets key_id;
  cap_uuid ← new_uuid;
  '(capability, token) ← unwrap (mint_capability key cap_uuid (mint_args_of a kid now));
  claims ← lift (fun _ => internal_error "Capability mint failed")
    (parse_and_verify_token token (public_key_bytes key));
  audited audit_unavailable (fun _ => internal_error "Durable state unavailable")
    "capability.minted" "broker" None
    (Build_AuditContext (Some (id_str (au_request_id a)))
       (Some (id_str (cred_credential_id (au_credential a))))
       (Some (id_str (cap_capability_id capability)))
       (Some (id_str (au_browser_session_id a)))
       (Some (origin_as_str (cap_top_origin capability)))
       (Some (action_as_str (au_action a)))
       (Some (match approval_id with Some _ => "user_approved" | None => "auto_approved" end))
       (Some (risk_as_str (pd_risk_level (au_decision a)))) None)
    (insert_capability_with_audit capability kid);;
  modify (fun b => set_capabilities b (<[cap_capability_id capability := {|
    ce_capability := capability; ce_token := token; ce_claims := claims;
    ce_recipe_id := rcp_recipe_id (au_recipe a);
    ce_provider_locator := cred_provider_locator (au_credential a);
    ce_credential_metadata := cred_metadata_json (au_credential a) |}]> (capabilities b)));;
  modify (offer_capability (cap_browser_session_id capability) (cap_capability_id capability));;
  let response := {|
    ar_request_id := au_request_id a; ar_state := ActionRequestState.CapabilityIssued;
    ar_result_code := Some "CAPABILITY_ISSUED"; ar_execution_id := None;
    ar_evidence_ref := Some ("cap:" +:+ id_str (cap_capability_id capability));
    ar_grant_id := None; ar_completed_at := None |} in
  put_response response;;
  mret response.

(** ** Action requests *)

(** The insecure-origin and credential checks a request starts with. *)
Definition permitted_credential (params : ActionRequestParams) : Broker P CredentialDescriptor :=
  let target := to_origin (rq_target params) in
  if bool_decide (origin_scheme target = "http")
     && negb (bool_decide (origin_host target ∈ ["localhost"; "127.0.0.1"; "::1"]))
  then fail_with RpcErrorCode.ORIGIN_MISMATCH "Insecure non-loopback origins are denied"
  else
    found ← read_store (fun s => get_credential_by_name s (rq_identity params));
    credential ← lift (fun _ =>
      rpc_error RpcErrorCode.AUTH_POLICY_DENIED "Identity is unavailable") found;
    name ← gets (fun b => provider_name (provider b));
    if bool_decide (cred_disabled_at credential ≠ None)
       || negb (bool_decide (rq_action params ∈ cred_allowed_actions credential))
       || bool_decide (cred_provider credential ≠ name)
    then fail_with RpcErrorCode.AUTH_POLICY_DENIED "Identity is not permitted for this action"
    else mret credential.

(** The session of a request: its assurance and extension key. *)
Definition live_session (now : Instant) (session_id : BrowserSessionId) :
    Broker P (string * string) :=
  ss ← gets sessions;
  active ← require RpcErrorCode.SESSION_TERMINATED "Browser session not found or inactive"
    (ss !! session_id);
  let session := abs_session active in
  if bool_decide (bs_state session ≠ BrowserSessionState.Active)
  then fail_with RpcErrorCode.SESSION_TERMINATED "Browser session is not active"
  else if seconds 10 <? now - bs_last_heartbeat_at session
  then fail_with RpcErrorCode.SESSION_TERMINATED "Browser session heartbeat is stale"
  else mret (bs_assurance session, bs_extension_key_id session).

(** The page the browser runtime reported last: the hinted tab, or the latest
    fresh one on the target. *)
Definition measured_page (now : Instant) (params : ActionRequestParams) : Broker P PageContext :=
  contexts ← gets page_contexts;
  session_contexts ← require RpcErrorCode.ORIGIN_MISMATCH "Verified page context unavailable"
    (contexts !! rq_browser_session_id params);
  let target := to_origin (rq_target params) in
  let on_path context :=
    is_none_or (fun prefix => starts_with (pc_path context) prefix)
      (to_path_prefix (rq_target params)) in
  let hinted := rq_tab_hint params ≫= fun tab_id => session_contexts !! tab_id in
  let fresh := fold_left latest_context
    (List.filter (fun context =>
       (now - pc_observed_at context <=? seconds 2)
       && origin_matches (pc_top_origin context) target && on_path context)
     (map snd (hash_iter session_contexts))) None in
  context ← require RpcErrorCode.ORIGIN_MISMATCH "Verified tab context unavailable"
    (match hinted with Some context => Some context | None => fresh end);
  if seconds 2 <? now - pc_observed_at context
  then fail_with RpcErrorCode.ORIGIN_MISMATCH "Verified page context is stale"
  else if negb (origin_matches (pc_top_origin context) target)
  then fail_with RpcErrorCode.ORIGIN_MISMATCH
         "Requested origin does not match verified browser origin"
  else if negb (on_path context)
  then fail_with RpcErrorCode.ORIGIN_MISMATCH
         "Requested path constraint does not match verified browser path"
  else mret context.

(** The audit context of a step of a request that is not authorized yet. *)
Definition request_audit (params : ActionRequestParams) (credential : string)
    (decision risk error : option string) : AuditContext :=
  Build_AuditContext (Some (id_str (rq_request_id params))) (Some credential) None
    (Some (id_str (rq_browser_session_id params)))
    (Some (origin_as_str (to_origin (rq_target params))))
    (Some (action_as_str (rq_action params))) decision risk error.

(** The policy's decision, and the presence mechanism it may call for. *)
Definition policy_decision (agent_id : AgentId) (params : ActionRequestParams)
    (credential : CredentialDescriptor) (context : PageContext) (assurance : string) :
    Broker P PolicyDecision :=
  policy ← gets policy_evaluator;
  decision ←
    match evaluate policy agent_id (rq_identity params) (rq_action params)
            (to_origin (rq_target params)) (Some (pc_path context)) assurance with
    | Ok decision => mret decision
    | Err e =>
        _ ← attempt (record_audit_event "policy.evaluated" "broker" None
              (request_audit params (rq_identity params) (Some "deny") None
                 (Some "AUTH_POLICY_DENIED")));
        fail_with RpcErrorCode.AUTH_POLICY_DENIED (policy_error_text e)
    end;
  if bool_decide (pd_effect decision = Deny)
  then fail_with RpcErrorCode.AUTH_POLICY_DENIED "Policy denied action"
  else
    let evaluated_risk := calculate_risk_level (rq_action params)
      (pd_require_user_presence decision) assurance in
    if negb (assurance_available platform evaluated_risk)
    then
      record_audit_event "security.presence_unavailable" "broker" (Some (id_str agent_id))
        (request_audit params (id_str (cred_credential_id credential)) (Some "deny")
           (Some (risk_as_str evaluated_risk)) (Some "USER_PRESENCE_UNAVAILABLE"));;
      fail_with RpcErrorCode.USER_PRESENCE_UNAVAILABLE
        "Configured user-presence assurance is unavailable"
    else mret decision.

(** The recipe for the page, whose OAuth part is validated where it is used. *)
Definition matched_recipe (action : ActionKind) (context : PageContext) : Broker P SiteRecipe :=
  rs ← gets recipes;
  recipe ← require RpcErrorCode.RECIPE_NOT_FOUND "No enabled recipe matches verified context"
    (List.find (fun recipe => recipe_matches recipe action context) (map snd (hash_iter rs)));
  if bool_decide (action = OAuthAuthorize)
  then
    oauth ← require RpcErrorCode.SECURITY_VIOLATION "OAuth recipe configuration is required"
      (rcp_oauth recipe);
    lift (fun _ => rpc_error RpcErrorCode.SECURITY_VIOLATION
      "OAuth recipe configuration is invalid") (validate oauth);;
    mret recipe
  else mret recipe.

Definition matching_standing_grant (a : AuthorizationContext) (now : Instant) :
    Broker P (option StandingGrant) :=
  if risk_rank MAX_GRANTABLE_RISK <? risk_rank (au_base_risk a) then mret None else
  candidate ← read_store (fun s => find_matching_standing_grant s (au_agent_id a)
    (cred_name (au_credential a)) (au_action a) (pc_top_origin (au_page_context a)));
  candidate ← lift (fun _ => internal_error "Grant storage unavailable") candidate;
  mret (match candidate with
        | Some grant =>
            if covers grant (au_agent_id a) (cred_name (au_credential a)) (au_action a)
                 (pc_top_origin (au_page_context a)) (au_base_risk a) now
            then Some grant else None
        | None => None
        end).

(** The interactive branch: a pending approval that lives for a minute. *)
Definition request_approval (a : AuthorizationContext) (now : Instant) :
    Broker P ActionResponseResult :=
  uuid ← new_uuid;
  expires_at ← unwrap (add_seconds now 60);
  let approval_id := id_new KApproval uuid in
  let approval := {|
    apr_approval_id := approval_id; apr_request_id := au_request_id a;
    apr_decision := "pending"; apr_actor := None; apr_presence := None;
    apr_context_digest := approval_context_digest a; apr_decided_at := None;
    apr_expires_at := expires_at |} in
  audited audit_unavailable (fun _ => internal_error "Approval storage unavailable")
    "approval.requested" "broker" None
    (authorization_audit a None "pending" (risk_as_str (pd_risk_level (au_decision a))) None)
    (insert_approval_with_audit approval);;
  modify (fun b => set_approvals b (<[approval_id :=
    {| pn_approval := approval; pn_authorization := a |}]> (approvals b)));;
  let response := {|
    ar_request_id := au_request_id a; ar_state := ActionRequestState.AwaitingApproval;
    ar_result_code := Some "APPROVAL_REQUIRED"; ar_execution_id := None;
    ar_evidence_ref := Some ("approval:" +:+ id_str approval_id);
    ar_grant_id := None; ar_completed_at := None |} in
  put_response response;;
  mret response.

(** What an authorized request comes to: a capability at once, a capability
    under a standing grant, or a pending approval. *)
Definition grant_or_ask (a : AuthorizationContext) (now : Instant) :
    Broker P ActionResponseResult :=
  if pd_require_user_presence (au_decision a)
  then
    grant ← matching_standing_grant a now;
    match grant with
    | Some grant =>
        _ ← run_store (touch_standing_grant (sg_grant_id grant) now);
        record_audit_event "approval.auto_granted" "broker" (Some (id_str (au_agent_id a)))
          (authorization_audit a None "standing_grant" (risk_as_str (au_base_risk a)) None);;
        mint_authorized_capability a None
    | None => request_approval a now
    end
  else mint_authorized_capability a None.

Definition handle_new_action_request (agent_id : AgentId) (params : ActionRequestParams) :
    Broker P ActionResponseResult :=
  now ← Utc_now;
  credential ← permitted_credential params;
  record_audit_event "action.requested" "agent" (Some (id_str agent_id))
    (request_audit params (rq_identity params) None None None);;
  '(assurance, extension_key_id) ← live_session now (rq_browser_session_id params);
  measured ← measured_page now params;
  decision ← policy_decision agent_id params credential measured assurance;
  recipe ← matched_recipe (rq_action params) measured;
  principal ← read_store (fun s => get_enrolled_agent s (id_str agent_id));
  grant_or_ask {|
    au_request_id := rq_request_id params; au_agent_id := agent_id;
    au_agent_name := match principal with Ok p => ag_display_name p | Err _ => id_str agent_id end;
    au_reason := rq_reason params; au_identity_name := rq_identity params;
    au_credential := credential; au_action := rq_action params;
    au_browser_session_id := rq_browser_session_id params;
    au_extension_key_id := extension_key_id; au_page_context := measured; au_recipe := recipe;
    au_decision := decision;
    au_base_risk := calculate_risk_level (rq_action params) false assurance |} now.

Definition request_fingerprint (params : ActionRequestParams) : list byte :=
  sha256_digest (as_bytes (json_print (request_to_json params))).

Definition handle_action_request (agent_id : AgentId) (params : ActionRequestParams) :
    Broker P ActionResponseResult :=
  let request_id := rq_request_id params in
  if (500 <? chars_count (rq_reason params)) || (rq_timeout_ms params =? 0)
     || (60000 <? rq_timeout_ms params)
  then fail_with RpcErrorCode.INVALID_PARAMS "Action reason or timeout is outside allowed limits"
  else
  b ← gets id;
  match request_fingerprints b !! request_id with
  | Some existing =>
      if bool_decide (existing ≠ request_fingerprint params)
         || bool_decide (request_agents b !! request_id ≠ Some agent_id)
      then fail_with RpcErrorCode.INVALID_PARAMS "request_id_conflict"
      else require RpcErrorCode.INTERNAL_ERROR "Request state unavailable"
             (requests b !! request_id)
  | None =>
      modify (fun b => set_request_fingerprints b
        (<[request_id := request_fingerprint params]> (request_fingerprints b)));;
      modify (fun b => set_request_agents b (<[request_id := agent_id]> (request_agents b)));;
      put_response {|
        ar_request_id := request_id; ar_state := ActionRequestState.Requested;
        ar_result_code := Some "REQUESTED"; ar_execution_id := None; ar_evidence_ref := None;
        ar_grant_id := None; ar_completed_at := None |};;
      result ← attempt (handle_new_action_request agent_id params);
      match result with
      | Ok response => mret response
      | Err error =>
          now ← Utc_now;
          modify (fun b => set_requests b (alter (fun r =>
            set_response r ActionRequestState.Failed (Some (rpc_message error))
              (ar_execution_id r) (Some (to_rfc3339 now))) request_id (requests b)));;
          throw error
      end
  end.

(** The fresh pages of live sessions a recipe for the action matches. *)
Definition candidate_pages (now : Instant) (action : ActionKind) (b : BrokerState P) :
    list (BrowserSessionId * PageContext) :=
  flat_map (fun '(session_id, active) =>
    if bool_decide (bs_state (abs_session active) ≠ BrowserSessionState.Active)
       || (seconds 10 <? now - bs_last_heartbeat_at (abs_session active))
    then []
    else
      map (pair session_id) (List.filter (fun context =>
        negb (seconds 2 <? now - pc_observed_at context)
        && existsb (fun recipe => recipe_matches recipe action context)
             (map snd (hash_iter (recipes b))))
        (map snd (hash_iter (default ∅ (page_contexts b !! session_id))))))
    (hash_iter (sessions b)).

Definition handle_action_authenticate (agent_id : AgentId) (params : ActionAuthenticateParams) :
    Broker P ActionAuthenticateResult :=
  found ← read_store (fun s => get_credential_by_name s (rn_identity params));
  credential ← lift (fun _ =>
    rpc_error RpcErrorCode.AUTH_POLICY_DENIED "Identity is unavailable") found;
  name ← gets (fun b => provider_name (provider b));
  if bool_decide (cred_disabled_at credential ≠ None)
     || bool_decide (cred_provider credential ≠ name)
  then fail_with RpcErrorCode.AUTH_POLICY_DENIED "Identity is unavailable"
  else
  action ←
    match rn_action params, cred_allowed_actions credential with
    | Some action, allowed =>
        if bool_decide (action ∈ allowed) then mret action
        else fail_with RpcErrorCode.AUTH_POLICY_DENIED "Identity is not permitted for this action"
    | None, [action] => mret action
    | None, _ => fail_with RpcErrorCode.INVALID_PARAMS
                   "Credential has multiple actions; specify action"
    end;
  now ← Utc_now;
  b ← gets id;
  match candidate_pages now action b with
  | [(browser_session_id, context)] =>
      request_id ←
        match rn_request_id params with
        | Some request_id => mret request_id
        | None => uuid ← new_uuid; mret (id_new KRequest uuid)
        end;
      response ← handle_action_request agent_id {|
        rq_request_id := request_id; rq_action := action; rq_identity := rn_identity params;
        rq_target := {| to_origin := pc_top_origin context; to_path_prefix := None |};
        rq_browser_session_id := browser_session_id; rq_tab_hint := Some (pc_tab_id context);
        rq_reason := rn_reason params; rq_wait := rn_wait params;
        rq_timeout_ms := rn_timeout_ms params; rq_client_context := rn_client_context params |};
      mret {| aa_response := response; aa_action := action;
              aa_verified_origin := pc_top_origin context;
              aa_browser_session_id := browser_session_id |}
  | [] => fail_with RpcErrorCode.INVALID_PARAMS
            "No active managed page matches this credential action"
  | _ => fail_with RpcErrorCode.INVALID_PARAMS
           "Multiple active managed pages match; use execute with an explicit target"
  end.

(** ** Status and cancellation *)

Definition handle_action_status (agent_id : AgentId) (request_id : RequestId) :
    Broker P ActionStatusResult :=
  b ← gets id;
  if bool_decide (request_agents b !! request_id ≠ Some agent_id)
  then fail_with RpcErrorCode.INVALID_PARAMS "Unknown request ID"
  else
    request ← require RpcErrorCode.INVALID_PARAMS "Unknown request ID" (requests b !! request_id);
    mret {| st_request_id := ar_request_id request; st_state := ar_state request;
            st_detail := ar_result_code request |}.

(** The loops over [capabilities.values_mut()]: every entry that is not terminal
    and meets the condition is revoked in memory. *)
Definition revoke_entries (p : Capability -> bool) (reason : string) (b : BrokerState P) :
    BrokerState P :=
  set_capabilities b ((fun e =>
    if p (ce_capability e) && negb (CapabilityState.is_terminal (cap_state (ce_capability e)))
    then revoke_entry reason e else e) <$> capabilities b).

Definition handle_action_cancel (agent_id : AgentId) (request_id : RequestId) :
    Broker P ActionCancelResult :=
  b ← gets id;
  if bool_decide (request_agents b !! request_id ≠ Some agent_id)
  then fail_with RpcErrorCode.INVALID_PARAMS "Unknown request ID"
  else
    request ← require RpcErrorCode.INVALID_PARAMS "Unknown request ID" (requests b !! request_id);
    if ActionRequestState.is_terminal (ar_state request)
       || bool_decide (ar_state request = ActionRequestState.Executing)
    then mret {| ac_cancel_request_id := request_id; ac_cancelled := false |}
    else
      modify (fun b => set_requests b (<[request_id :=
        set_response request ActionRequestState.Cancelled (Some "CANCELLED")
          (ar_execution_id request) (ar_completed_at request)]> (requests b)));;
      modify (revoke_entries (fun c => bool_decide (cap_request_id c = request_id))
        "request_cancelled");;
      mret {| ac_cancel_request_id := request_id; ac_cancelled := true |}.

(** ** Approvals *)

Definition list_pending_approvals (b : BrokerState P) : list Approval :=
  map pn_approval (List.filter (fun entry => bool_decide (apr_decision (pn_approval entry) = "pending"))
    (map snd (hash_iter (approvals b)))).

Inductive ApprovalOutcome : Type := OutcomeApproved | OutcomeDenied | OutcomeExpired | OutcomeInvalidated.

Definition outcome_text (o : ApprovalOutcome) : string :=
  match o with
  | OutcomeApproved => "approved" | OutcomeDenied => "denied"
  | OutcomeExpired => "expired" | OutcomeInvalidated => "invalidated"
  end.

(** The page the approval was asked for is still the page of its tab. *)
Definition context_is_current (a : AuthorizationContext) (now : Instant) (b : BrokerState P) : bool :=
  let asked := au_page_context a in
  is_some_and (fun current =>
    bool_decide (pc_document_id current = pc_document_id asked)
    && (pc_navigation_epoch current =? pc_navigation_epoch asked)
    && bool_decide (pc_top_origin current = pc_top_origin asked)
    && bool_decide (pc_frame_origin current = pc_frame_origin asked)
    && (now - pc_observed_at current <=? seconds 2))
    (contexts ← page_contexts b !! au_browser_session_id a; contexts !! pc_tab_id asked).

Definition approval_outcome (pending : PendingApprovalEntry) (approve : bool)
    (context_digest : list byte) (presence_verified : bool) (now : Instant) (b : BrokerState P) :
    ApprovalOutcome :=
  if apr_expires_at (pn_approval pending) <=? now then OutcomeExpired
  else if bool_decide (context_digest ≠ apr_context_digest (pn_approval pending))
       || negb (context_is_current (pn_authorization pending) now b)
  then OutcomeInvalidated
  else if negb approve
       || (pd_require_user_presence (au_decision (pn_authorization pending)) && negb presence_verified)
  then OutcomeDenied
  else OutcomeApproved.

Definition decided (a : Approval) (o : ApprovalOutcome) (actor : string)
    (presence_verified : bool) (now : Instant) : Approval := {|
  apr_approval_id := apr_approval_id a; apr_request_id := apr_request_id a;
  apr_decision := outcome_text o; apr_actor := Some actor;
  apr_presence := Some (if presence_verified then "verified" else "absent");
  apr_context_digest := apr_context_digest a; apr_decided_at := Some now;
  apr_expires_at := apr_expires_at a |}.

Definition decide_approval_at (approval_id : ApprovalId) (approve : bool)
    (context_digest : list byte) (actor : string) (presence_verified : bool) (now : Instant) :
    Broker P ActionResponseResult :=
  b ← gets id;
  pending ← require RpcErrorCode.INVALID_PARAMS "Unknown approval ID" (approvals b !! approval_id);
  let a := pn_authorization pending in
  let o := approval_outcome pending approve context_digest presence_verified now b in
  audited audit_unavailable (fun _ => internal_error "Approval storage unavailable")
    ("approval." +:+ outcome_text o) "user" (Some actor)
    (authorization_audit a None (outcome_text o) (risk_as_str (pd_risk_level (au_decision a)))
       (match o with OutcomeApproved => None | _ => Some "APPROVAL_REJECTED" end))
    (update_approval_with_audit (decided (pn_approval pending) o actor presence_verified now));;
  modify (fun b => set_approvals b (delete approval_id (approvals b)));;
  match o with
  | OutcomeApproved => mint_authorized_capability a (Some approval_id)
  | _ =>
      let response := {|
        ar_request_id := au_request_id a;
        ar_state := match o with OutcomeExpired => ActionRequestState.Expired
                    | _ => ActionRequestState.Denied end;
        ar_result_code := Some (to_ascii_uppercase (outcome_text o)); ar_execution_id := None;
        ar_evidence_ref := None; ar_grant_id := None;
        ar_completed_at := Some (to_rfc3339 now) |} in
      put_response response;;
      mret response
  end.

Definition decide_approval (approval_id : ApprovalId) (approve : bool)
    (context_digest : list byte) (actor : string) (presence_verified : bool) :
    Broker P ActionResponseResult :=
  now ← Utc_now;
  decide_approval_at approval_id approve context_digest actor presence_verified now.

(** A [for] loop whose body may fail. *)
Fixpoint for_each {A : Type} (l : list A) (body : A -> Broker P unit) : Broker P unit :=
  match l with
  | [] => mret tt
  | a :: l => body a;; for_each l body
  end.

Definition expire_pending_approvals (now : Instant) : Broker P Z :=
  b ← gets id;
  let expired := List.filter (fun entry => apr_expires_at (pn_approval entry) <=? now)
    (map snd (hash_iter (approvals b))) in
  for_each expired (fun entry =>
    _ ← decide_approval_at (apr_approval_id (pn_approval entry)) false
          (apr_context_digest (pn_approval entry)) "broker-timeout" false now;
    mret tt);;
  mret (Z.of_nat (length expired)).

(** ** Offers to the executor *)

Definition success_plan (s : RecipeSuccessIndicators) : ExecutionSuccessPlan := {|
  sp_navigation_origin := ri_navigation_origin s; sp_selector_present := ri_selector_present s;
  sp_selector_absent := ri_selector_absent s;
  sp_timeout_ms := Z.min (default 5000 (ri_timeout_ms s)) 30000 |}.

Definition auto_submit_selector (r : SiteRecipe) : option string :=
  submit ← rcp_submit r;
  if rs_auto_submit submit then rs_selector submit else None.

(** The OAuth part of an offer: a new pending authorization for the capability. *)
Definition offer_oauth (capability_id : CapabilityId) (entry : CapabilityEntry)
    (recipe : SiteRecipe) : Broker P (option OAuthExecutionPlan) :=
  if negb (bool_decide (cl_action (ce_claims entry) = OAuthAuthorize)) then mret None else
  config ← require RpcErrorCode.SECURITY_VIOLATION "OAuth recipe is unavailable" (rcp_oauth recipe);
  lift (fun _ => rpc_error RpcErrorCode.SECURITY_VIOLATION "OAuth recipe is invalid")
    (validate config);;
  random ← fill_bytes;
  uuid ← new_uuid;
  let pending := pending_new random uuid (or_redirect_uri config) (or_allowed_scopes config) in
  url ← lift (fun _ => rpc_error RpcErrorCode.SECURITY_VIOLATION
      "OAuth authorization URL is invalid")
    (authorization_url pending (or_authorization_endpoint config) (or_client_id config));
  modify (fun b => set_oauth_executions b (<[capability_id := {|
    po_authorization := pending; po_recipe := config; po_capability_id := capability_id;
    po_request_id := cl_req_id (ce_claims entry);
    po_credential_id := cl_cred_id (ce_claims entry);
    po_browser_session_id := cl_browser_session_id (ce_claims entry);
    po_tab_id := cl_tab_id (ce_claims entry) |}]> (oauth_executions b)));;
  mret (Some {| op_authorization_url := url; op_issuer_origin := or_issuer config;
                op_redirect_uri := or_redirect_uri config |}).

Definition offer_of (entry : CapabilityEntry) (recipe : SiteRecipe)
    (oauth : option OAuthExecutionPlan) : ExecutionOfferResult :=
  let claims := ce_claims entry in {|
  eo_capability_token := ce_token entry; eo_recipe_id := ce_recipe_id entry;
  eo_tab_id := cl_tab_id claims; eo_frame_id := cl_frame_id claims;
  eo_document_id := cl_document_id claims;
  eo_navigation_epoch := cl_navigation_epoch claims;
  eo_top_origin := cl_top_origin claims; eo_frame_origin := cl_frame_origin claims;
  eo_fields := map (fun field => {|
    fp_role := rf_role field; fp_selector := rf_selector field;
    fp_optional := rf_optional field; fp_clear_first := rf_clear_first field |})
    (rcp_fields recipe);
  eo_auto_submit_selector := auto_submit_selector recipe;
  eo_success := success_plan <$> rcp_success_indicators recipe;
  eo_oauth := oauth |}.

(** The loop that pops the session's queue: entries that are gone, finished or
    past their deadline are skipped. *)
Fixpoint next_offer (session_id : BrowserSessionId) (queue : list CapabilityId) :
    Broker P (option ExecutionOfferResult) :=
  match queue with
  | [] =>
      modify (fun b => set_pending_offers b (<[session_id := []]> (pending_offers b)));;
      mret None
  | capability_id :: queue =>
      modify (fun b => set_pending_offers b (<[session_id := queue]> (pending_offers b)));;
      b ← gets id;
      match capabilities b !! capability_id with
      | None => next_offer session_id queue
      | Some entry =>
          now ← Utc_now;
          if CapabilityState.is_terminal (cap_state (ce_capability entry))
             || (cap_consume_deadline (ce_capability entry) <=? now)
          then next_offer session_id queue
          else
            recipe ← require RpcErrorCode.RECIPE_NOT_FOUND "Bound recipe is unavailable"
              (recipes b !! ce_recipe_id entry);
            oauth ← offer_oauth capability_id entry recipe;
            mret (Some (offer_of entry recipe oauth))
      end
  end.

Definition handle_execution_next (session_id : BrowserSessionId) :
    Broker P (option ExecutionOfferResult) :=
  b ← gets id;
  active ← require RpcErrorCode.SESSION_TERMINATED "Unknown browser session"
    (sessions b !! session_id);
  now ← Utc_now;
  if bool_decide (bs_state (abs_session active) ≠ BrowserSessionState.Active)
     || (seconds 10 <=? now - bs_last_heartbeat_at (abs_session active))
  then fail_with RpcErrorCode.SESSION_TERMINATED "Browser session is stale"
  else next_offer session_id (default [] (pending_offers b !! session_id)).

(** ** The OAuth callback *)

Definition oauth_audit (pending : PendingOAuthExecution) (capability_id : CapabilityId)
    (decision : string) (error : option string) : AuditContext :=
  Build_AuditContext (Some (id_str (po_request_id pending)))
    (Some (id_str (po_credential_id pending))) (Some (id_str capability_id))
    (Some (id_str (po_browser_session_id pending)))
    (Some (origin_as_str (or_issuer (po_recipe pending))))
    (Some (action_as_str OAuthAuthorize)) (Some decision) None error.

(** Returns the error it was given, as the caller returns it. *)
Definition fail_oauth_callback {A : Type} (pending : PendingOAuthExecution)
    (capability_id : CapabilityId) (error : RpcError) : Broker P A :=
  now ← Utc_now;
  put_response {|
    ar_request_id := po_request_id pending; ar_state := ActionRequestState.Failed;
    ar_result_code := Some (rpc_message error); ar_execution_id := None;
    ar_evidence_ref := None; ar_grant_id := None; ar_completed_at := Some (to_rfc3339 now) |};;
  _ ← attempt (record_audit_event "oauth.callback_failed" "broker" None
        (oauth_audit pending capability_id "failed" (Some (rpc_message error))));
  throw error.

Definition callback_error_code (e : OAuthCallbackError) : string :=
  match e with
  | StateMismatch => "OAUTH_STATE_MISMATCH"
  | RedirectMismatch => "OAUTH_REDIRECT_MISMATCH"
  | Duplicate => "OAUTH_CODE_REPLAY"
  | _ => "OAUTH_CALLBACK_REJECTED"
  end.

Definition exchange_error_code (e : TokenExchangeError) : string :=
  match e with
  | ScopeMismatch => "OAUTH_SCOPE_MISMATCH"
  | InsecureEndpoint => "OAUTH_TOKEN_ENDPOINT_REJECTED"
  | _ => "OAUTH_TOKEN_EXCHANGE_FAILED"
  end.

Definition security_violation (message : string) : RpcError :=
  rpc_error RpcErrorCode.SECURITY_VIOLATION message.

(** Taking the pending authorization and consuming its capability. *)
Definition take_oauth_execution (params : OAuthCallbackParams) :
    Broker P (CapabilityId * PendingOAuthExecution) :=
  b ← gets id;
  capability_id ← require RpcErrorCode.SECURITY_VIOLATION "OAuth capability rejected"
    (fst <$> List.find (fun '(_, entry) =>
       bool_decide (ce_token entry = oc_capability_token params)) (hash_iter (capabilities b)));
  pending ← require RpcErrorCode.SECURITY_VIOLATION "OAuth callback is unavailable"
    (oauth_executions b !! capability_id);
  modify (fun b => set_oauth_executions b (delete capability_id (oauth_executions b)));;
  if bool_decide (po_capability_id pending ≠ capability_id)
     || bool_decide (po_browser_session_id pending ≠ oc_browser_session_id params)
     || negb (po_tab_id pending =? oc_tab_id params)
  then fail_oauth_callback pending capability_id
         (security_violation "OAUTH_CALLBACK_BINDING_REJECTED")
  else
    r ← run_store (consume_oauth_capability capability_id);
    match r with
    | Err _ => fail_oauth_callback pending capability_id
        (rpc_error RpcErrorCode.CAPABILITY_CONSUMED "OAuth capability already consumed")
    | Ok _ =>
        modify (fun b => set_capabilities b (alter (fun e => set_entry_capability e
          (set_capability_status (ce_capability e) CapabilityState.Consumed
             (cap_used_count (ce_capability e) + 1) (cap_revoked_reason (ce_capability e))))
          capability_id (capabilities b)));;
        mret (capability_id, pending)
    end.

(** The exchange of the code, and the storage of the tokens it yields. *)
Definition exchange_and_store (capability_id : CapabilityId) (pending : PendingOAuthExecution)
    (code : string) : Broker P OAuthGrant :=
  tick ← draw id;
  now ← Utc_now;
  tokens ←
    match exchange_code tick now (or_token_endpoint (po_recipe pending))
            (or_client_id (po_recipe pending))
            (set_callback_consumed (po_authorization pending)) code with
    | Done tokens => mret tokens
    | Fail e => fail_oauth_callback pending capability_id (security_violation (exchange_error_code e))
    | Panicked => panic
    end;
  uuid ← new_uuid;
  created_at ← Utc_now;
  b ← gets id;
  let '(r, p, s) := store_token_grant uuid created_at (po_credential_id pending) tokens
                      (provider b) (store b) in
  modify (fun b => set_store (set_provider b p) s);;
  match r with
  | Ok grant => mret grant
  | Err _ => fail_oauth_callback pending capability_id
               (internal_error "OAuth token storage unavailable")
  end.

Definition handle_oauth_callback (params : OAuthCallbackParams) : Broker P OAuthCallbackResult :=
  '(capability_id, pending) ← take_oauth_execution params;
  code ←
    match fst (consume_callback (po_authorization pending) (oc_callback_uri params)) with
    | Ok code => mret code
    | Err e => fail_oauth_callback pending capability_id (security_violation (callback_error_code e))
    end;
  grant ← exchange_and_store capability_id pending code;
  completed_at ← Utc_now;
  put_response {|
    ar_request_id := po_request_id pending; ar_state := ActionRequestState.Completed;
    ar_result_code := Some "SUCCESS"; ar_execution_id := None;
    ar_evidence_ref := Some ("oauth:" +:+ id_str (og_grant_id grant));
    ar_grant_id := Some (og_grant_id grant);
    ar_completed_at := Some (to_rfc3339 completed_at) |};;
  record_audit_event "oauth.token_stored" "broker" None
    (oauth_audit pending capability_id "completed" None);;
  mret {| ocr_grant_id := og_grant_id grant; ocr_scopes := og_scopes grant;
          ocr_expires_at := to_rfc3339 <$> og_expires_at grant |}.

(** ** The execution of a capability *)

Definition totp_generator (metadata_json : string) : result RpcError TotpGenerator :=
  metadata ← map_err (fun _ => security_violation "Invalid TOTP metadata")
    (json_parse metadata_json);
  let algorithm := to_ascii_uppercase (default "SHA1" (json_get "algorithm" metadata ≫= json_as_str)) in
  if bool_decide (algorithm ≠ "SHA1")
  then Err (security_violation "Unsupported TOTP algorithm") else
  let digits := wrap_u32 (default 6 (json_get "digits" metadata ≫= json_as_u64)) in
  if negb ((digits =? 6) || (digits =? 8))
  then Err (security_violation "TOTP digits must be 6 or 8") else
  let period_value := match json_get "period_seconds" metadata with
                      | Some v => Some v
                      | None => json_get "period" metadata
                      end in
  let period := default 30 (period_value ≫= json_as_u64) in
  if negb ((5 <=? period) && (period <=? 300))
  then Err (security_violation "TOTP period is outside the supported range")
  else Ok (with_period_seconds (with_digits digits) period).

Definition unix_seconds (now : Instant) : Z := i64_as_u64 (timestamp now).

Definition entry_of_token (token : string) (b : BrokerState P) : option CapabilityEntry :=
  List.find (fun entry => bool_decide (ce_token entry = token)) (map snd (hash_iter (capabilities b))).

(** The clock the consumption uses: near the end of a TOTP step it is read
    again after the step is over. *)
Definition consume_clock (params : ExecutorConsumeParams) : Broker P Instant :=
  now ← Utc_now;
  b ← gets id;
  match entry_of_token (xs_capability_token params) b with
  | Some entry =>
      if bool_decide (cap_action (ce_capability entry) = AuthenticateTotp)
      then match totp_generator (ce_credential_metadata entry) with
           | Err _ => mret now
           | Ok generator =>
               '(_, seconds_remaining) ← unwrap (compute_time_step generator (unix_seconds now));
               if seconds_remaining <? 2 then Utc_now else mret now
           end
      else mret now
  | None => mret now
  end.

(** The executor's session proof; returns the session's extension key. *)
Definition check_session_proof (params : ExecutorConsumeParams) : Broker P string :=
  b ← gets id;
  active ← require RpcErrorCode.SESSION_TERMINATED "Unknown browser session"
    (sessions b !! xc_browser_session_id (xs_current_context params));
  if is_some_and (fun expected =>
       bool_decide (sha256_digest (as_bytes (xs_session_signature params)) ≠ expected))
       (abs_session_proof_hash active)
  then throw (security_violation "Executor session proof rejected")
  else mret (bs_extension_key_id (abs_session active)).

Definition capability_rpc_error (e : CapabilityError) : RpcError :=
  match e with
  | CapExpired _ => rpc_error RpcErrorCode.CAPABILITY_EXPIRED "Capability expired"
  | AlreadyConsumed _ _ =>
      rpc_error RpcErrorCode.CAPABILITY_CONSUMED "Capability already consumed"
  | EpochMismatch _ _ => rpc_error RpcErrorCode.EPOCH_INVALIDATED "Epoch mismatch"
  | BindingMismatch _ _ _ => rpc_error RpcErrorCode.ORIGIN_MISMATCH "Context binding mismatch"
  | _ => security_violation "Capability rejected"
  end.

Definition snapshot_of (context : ExecutorContextPayload) (extension_key_id : string) :
    ExecutionContextSnapshot := {|
  sn_top_origin := xc_top_origin context; sn_frame_origin := xc_frame_origin context;
  sn_browser_session_id := xc_browser_session_id context;
  sn_extension_key_id := extension_key_id; sn_tab_id := xc_tab_id context;
  sn_frame_id := xc_frame_id context; sn_document_id := xc_document_id context;
  sn_navigation_epoch := xc_navigation_epoch context |}.

Definition consume_audit (claims : CapabilityClaims) : AuditContext :=
  Build_AuditContext (Some (id_str (cl_req_id claims))) (Some (id_str (cl_cred_id claims)))
    (Some (id_str (cl_jti claims))) (Some (id_str (cl_browser_session_id claims)))
    (Some (origin_as_str (cl_top_origin claims))) (Some (action_as_str (cl_action claims)))
    None None None.

(** What a consumption has established when it turns to the secret. *)
Record Consumption : Type := {
  cs_claims : CapabilityClaims;
  cs_execution_id : ExecutionId;
  cs_entry : CapabilityEntry;
  cs_totp : option TotpGenerator;
  cs_now : Instant
}.

(** Up to the durable consumption: the token names an entry, the executor is the
    session's, the capability verifies in the current context, and the database
    has consumed it together with the execution and the event. *)
Definition consume_durably (params : ExecutorConsumeParams) : Broker P Consumption :=
  now ← consume_clock params;
  key ← gets broker_key;
  extension_key_id ← check_session_proof params;
  b ← gets id;
  entry ← require RpcErrorCode.CAPABILITY_CONSUMED "Invalid or unknown capability token"
    (entry_of_token (xs_capability_token params) b);
  totp ← lift id (transpose
    (if bool_decide (cap_action (ce_capability entry) = AuthenticateTotp)
     then Some (totp_generator (ce_credential_metadata entry)) else None));
  let '(verified, capability) := verify_and_consume_capability (ce_capability entry)
    (xs_capability_token params) (public_key_bytes key)
    (snapshot_of (xs_current_context params) extension_key_id) now in
  claims ← lift capability_rpc_error verified;
  uuid ← new_uuid;
  let execution := {|
    ex_execution_id := id_new KExecution uuid; ex_capability_id := cl_jti claims;
    ex_state := ExecutionState.Consuming; ex_prepared_context_digest := None;
    ex_started_at := Some now; ex_completed_at := None; ex_result_code := None |} in
  totp_step ←
    (if bool_decide (cl_action claims = AuthenticateTotp)
     then generator ← unwrap totp;
          '(step, _) ← unwrap (compute_time_step generator (unix_seconds now));
          mret (Some (cl_cred_id claims, step))
     else mret None);
  audited audit_unavailable
    (fun e => match e with
              | StateConflict _ =>
                  rpc_error RpcErrorCode.CAPABILITY_CONSUMED "Capability already consumed"
              | _ => internal_error "Durable consume unavailable"
              end)
    "capability.consumed" "executor" None (consume_audit claims)
    (fun event => consume_capability_with_execution_and_audit (cl_jti claims) execution event
       totp_step);;
  modify (fun b => set_capabilities b
    (alter (fun e => set_entry_capability e capability) (cl_jti claims) (capabilities b)));;
  modify (fun b => set_executions b (<[ex_execution_id execution := {|
    ae_execution := execution; ae_request_id := cl_req_id claims;
    ae_agent_id := cl_agent_id claims; ae_credential_id := cl_cred_id claims;
    ae_action := cl_action claims; ae_browser_session_id := cl_browser_session_id claims;
    ae_tab_id := cl_tab_id claims |}]> (executions b)));;
  mret {| cs_claims := claims; cs_execution_id := ex_execution_id execution;
          cs_entry := entry; cs_totp := totp; cs_now := now |}.

Definition injection (field : RecipeField) (value : string) : ResolvedFieldInjection := {|
  rj_role := rf_role field; rj_selector := rf_selector field; rj_optional := rf_optional field;
  rj_clear_first := rf_clear_first field; rj_encrypted_value := value |}.

(** [serde_json::from_slice::<HashMap<String, String>>(..).ok()]. *)
Fixpoint insert_roles (values : gmap string string) (fields : list (string * Json)) :
    option (gmap string string) :=
  match fields with
  | [] => Some values
  | (key, JString value) :: fields => insert_roles (<[key := value]> values) fields
  | _ :: _ => None
  end.
Definition role_values (secret : list byte) : option (gmap string string) :=
  match json_parse (from_bytes secret) with
  | Ok (JObject fields) => insert_roles ∅ fields
  | _ => None
  end.

(** The value of a field of a sensitive form. *)
Definition form_value (secret : list byte) (fields : list RecipeField) (field : RecipeField) :
    result RpcError ResolvedFieldInjection :=
  let whole := match fields with [_] => Some (from_utf8_lossy secret) | _ => None end in
  let value := match role_values secret ≫= fun values => values !! rf_role field with
               | Some value => Some value
               | None => whole
               end in
  value ← ok_or (security_violation "Sensitive form provider item is missing a recipe role") value;
  Ok (injection field value).

Definition secret_bytes (locator : string) : Broker P (list byte) :=
  r ← run_provider (get_secret locator);
  secret ← lift (fun _ => internal_error "Secret provider unavailable") r;
  mret (secret_as_bytes secret).

(** The secret, as the fields the action fills in. *)
Definition resolve_fields (c : Consumption) (recipe : SiteRecipe) :
    Broker P (list ResolvedFieldInjection) :=
  let locator := ce_provider_locator (cs_entry c) in
  match cl_action (cs_claims c) with
  | OAuthAuthorize => throw (security_violation "OAuth callback executor is not available")
  | AuthenticateTotp =>
      seed ← secret_bytes locator;
      generator ← unwrap (cs_totp c);
      match generate generator seed (unix_seconds (cs_now c)) with
      | Done (code, _) => mret (map (fun field => injection field code) (rcp_fields recipe))
      | Fail _ => fail_with RpcErrorCode.CAPABILITY_EXPIRED
                    "TOTP time step expired or margin too close"
      | Panicked => panic
      end
  | FormSensitiveFill =>
      secret ← secret_bytes locator;
      lift id (collect (form_value secret (rcp_fields recipe)) (rcp_fields recipe))
  | AuthenticatePassword =>
      secret ← secret_bytes locator;
      mret (map (fun field => injection field (from_utf8_lossy secret))
        (List.filter (fun field => bool_decide (rf_role field = "password")) (rcp_fields recipe)))
  end.

(** From the consumption to the fields: the window is open from just before the
    provider is asked. *)
Definition release_secret (c : Consumption) : Broker P ExecutorConsumeResult :=
  b ← gets id;
  let claims := cs_claims c in
  recipe ← require RpcErrorCode.RECIPE_NOT_FOUND "Bound recipe is unavailable"
    (recipes b !! ce_recipe_id (cs_entry c));
  if negb (bool_decide (cl_action claims = OAuthAuthorize))
     && (bool_decide (rcp_fields recipe = [])
         || (5 <? Z.of_nat (length (rcp_fields recipe))))
  then throw (security_violation "Recipe field count is outside the supported security limit")
  else
  with_sensitive_window (sensitive_filter_for_session (cl_browser_session_id claims) b)
    (cl_tab_id claims) (
      fields ← resolve_fields c recipe;
      if bool_decide (fields = [])
      then throw (security_violation "Recipe does not declare a field for this action")
      else
        record_audit_event "secret.retrieve_succeeded" "broker" None (consume_audit claims);;
        mret {| xr_execution_id := cs_execution_id c; xr_recipe_id := ce_recipe_id (cs_entry c);
                xr_fields := fields; xr_auto_submit_selector := auto_submit_selector recipe |}).

Definition handle_executor_consume (params : ExecutorConsumeParams) :
    Broker P ExecutorConsumeResult :=
  c ← consume_durably params;
  release_secret c.

(** ** The result of an execution *)

Definition finished (e : Execution) (state : ExecutionState.t) (now : Instant) (code : string) :
    Execution := {|
  ex_execution_id := ex_execution_id e; ex_capability_id := ex_capability_id e;
  ex_state := state; ex_prepared_context_digest := ex_prepared_context_digest e;
  ex_started_at := ex_started_at e; ex_completed_at := Some now; ex_result_code := Some code |}.

Definition set_active_execution (a : ActiveExecution) (e : Execution) : ActiveExecution := {|
  ae_execution := e; ae_request_id := ae_request_id a; ae_agent_id := ae_agent_id a;
  ae_credential_id := ae_credential_id a; ae_action := ae_action a;
  ae_browser_session_id := ae_browser_session_id a; ae_tab_id := ae_tab_id a |}.

(** The writes that follow the report: the execution, the request it was for,
    and the window. *)
Definition settle_execution (execution_id : ExecutionId) (active : ActiveExecution)
    (e : Execution) (state : ActionRequestState.t) (code : string) : Broker P unit :=
  modify (fun b => set_executions b
    (<[execution_id := set_active_execution active e]> (executions b)));;
  now ← Utc_now;
  modify (fun b => set_requests b (alter (fun r =>
    set_response r state (Some code) (Some execution_id) (Some (to_rfc3339 now)))
    (ae_request_id active) (requests b)));;
  close_execution_window execution_id.

Definition handle_executor_result (params : ExecutorResultParams) : Broker P unit :=
  let execution_id := xe_execution_id params in
  b ← gets id;
  active ← require RpcErrorCode.INVALID_PARAMS "Unknown execution ID" (executions b !! execution_id);
  let completed := bool_decide (xe_status params = "completed") in
  now ← Utc_now;
  let state := if completed then ExecutionState.Completed else ExecutionState.Failed in
  let e := finished (ae_execution active) state now (xe_result_code params) in
  durable ← audited_try audit_unavailable
    (if completed then "execution.completed" else "execution.failed") "executor" None
    (Build_AuditContext (Some (id_str (ae_request_id active)))
       (Some (id_str (ae_credential_id active)))
       (Some (id_str (ex_capability_id (ae_execution active)))) None None
       (Some (action_as_str (ae_action active))) None None
       (if bool_decide (xe_status params = "failed") then Some (xe_result_code params) else None))
    (finish_execution_with_audit e);
  match durable with
  | Ok _ =>
      settle_execution execution_id active e
        (if completed then ActionRequestState.Completed else ActionRequestState.Failed)
        (xe_result_code params)
  | Err _ =>
      if completed
      then settle_execution execution_id active
        (finished e ExecutionState.CompletedEvidenceLost now "COMPLETED_EVIDENCE_LOST")
        ActionRequestState.CompletedEvidenceLost "COMPLETED_EVIDENCE_LOST"
      else throw (internal_error "Durable execution result unavailable")
  end.

(** ** Liveness and administration *)

Definition session_is_stale (now : Instant) (a : ActiveBrowserSession) : bool :=
  bool_decide (bs_state (abs_session a) = BrowserSessionState.Active)
  && (seconds 10 <=? now - bs_last_heartbeat_at (abs_session a)).

Definition expire_stale_sessions (now : Instant) : Broker P Z :=
  b ← gets id;
  let stale := map fst (List.filter (fun '(_, a) => session_is_stale now a)
    (hash_iter (sessions b))) in
  modify (fun b => set_sessions b ((fun a =>
    if session_is_stale now a then set_session_state a BrowserSessionState.Stale else a)
    <$> sessions b));;
  if bool_decide (stale = []) then mret 0 else
  b ← gets id;
  for_each (map fst (List.filter (fun '(_, active) =>
    bool_decide (ae_browser_session_id active ∈ stale)) (hash_iter (executions b))))
    close_execution_window;;
  modify (revoke_entries (fun c => bool_decide (cap_browser_session_id c ∈ stale))
    "session_stale");;
  for_each stale (fun session_id =>
    record_audit_event "browser.stale" "broker" None
      (session_context (id_str session_id) "revoke_session_capabilities" (Some "SESSION_STALE")));;
  mret (Z.of_nat (length stale)).

Definition replace_policy (evaluator : PolicyEvaluator) : Broker P Z :=
  let new_hash := pe_policy_hash evaluator in
  revoked ← audited audit_unavailable (fun _ => internal_error "Policy reload unavailable")
    "policy.reloaded" "admin" None (decision_context "policy_hash_changed")
    (revoke_capabilities_not_policy_with_audit new_hash);
  modify (fun b => set_policy_evaluator b evaluator);;
  modify (revoke_entries (fun c => bool_decide (cap_policy_hash c ≠ new_hash)) "policy_changed");;
  mret revoked.

Definition list_capabilities_admin (state : option string) : Broker P (list CapabilitySummary) :=
  l ← read_store (fun s => list_capabilities s state);
  lift (fun _ => internal_error "Capability storage unavailable") l.

Definition revoke_capability_admin (capability_id : CapabilityId) (reason : string) :
    Broker P unit :=
  audited audit_unavailable
    (fun _ => rpc_error RpcErrorCode.INVALID_PARAMS "Capability is not active")
    "capability.revoked" "admin" None
    (Build_AuditContext None None (Some (id_str capability_id)) None None None
       (Some "admin_revoked") None None)
    (revoke_capability_with_audit capability_id reason);;
  modify (fun b => set_capabilities b
    (alter (revoke_entry reason) capability_id (capabilities b))).
End Handlers.
