(* ===== verification/Admin.v ===== *)
(** * Admin: the records of the administrative channel

    Models [secretctl-protocol/src/admin.rs]: what the desktop interface is
    shown, and the parameters of the administrative calls. The records of the
    browser launch are with the broker state, which keeps the launched browser. *)

From S2P Require Import Prelude.
From S2P Require Import Externals.
From S2P Require Import Domain.
From S2P Require Import Protocol.

(** ** What the interface shows *)

Inductive ReasonSource : Type := AgentProvided.

Record UiFlowStep : Type := { fs_role : string; fs_label : string; fs_optional : bool }.

(** [UiFlowStep::label_for] *)
Definition label_for (role : string) : string :=
  if bool_decide (role = "password") then "Password"
  else if bool_decide (role = "totp") then "TOTP"
  else if bool_decide (role = "username") then "Username"
  else if bool_decide (role = "email") then "Email"
  else role.

Record UiAuthorizationRequest : Type := {
  ua_approval_id : string;
  ua_request_id : string;
  ua_agent_name : string;
  ua_agent_id : string;
  ua_credential_name : string;
  ua_provider : string;
  ua_origin : string;
  ua_action : ActionKind;
  ua_action_label : string;
  ua_flow_steps : list UiFlowStep;
  ua_risk : RiskLevel;
  ua_reason : option string;
  ua_reason_source : ReasonSource;
  ua_context_digest : string;
  ua_expires_at : Instant;
  ua_requires_presence : bool;
  ua_is_first_for_agent : bool;
  ua_grantable : bool
}.

Module UiProtectionState.
Inductive t : Type :=
| Protected | ApprovalRequired | SensitiveOperation | Completed | Blocked
| ProtectionInterrupted | OutcomeUncertain | CompletedEvidenceLost | Disconnected.
#[global] Instance t_eq_dec : EqDecision t.
Proof. solve_decision. Defined.
End UiProtectionState.

Module UiStepState.
Inductive t : Type := Pending | Active | Done | Failed.
End UiStepState.

Record UiOperationStep : Type := { os_label : string; os_state : UiStepState.t }.

Record UiActiveOperation : Type := {
  uo_request_id : string;
  uo_agent_name : string;
  uo_credential_name : string;
  uo_origin : string;
  uo_action_label : string;
  uo_steps : list UiOperationStep;
  uo_confirmed_protections : list string;
  uo_protection_verified : bool
}.

Record UiStatus : Type := {
  us_protection : UiProtectionState.t;
  us_pending_approvals : Z;
  us_active_operation : option UiActiveOperation;
  us_browser_sessions_connected : Z;
  us_agents_enrolled : Z;
  us_agents_active : Z;
  us_active_grants : Z;
  us_providers : list string;
  us_policy_fingerprint : string;
  us_audit_chain_intact : bool
}.

Record UiGrant : Type := {
  ug_grant_id : string;
  ug_agent_name : string;
  ug_credential_name : string;
  ug_origin : string;
  ug_action : ActionKind;
  ug_action_label : string;
  ug_risk_ceiling : RiskLevel;
  ug_require_presence : bool;
  ug_created_at : Instant;
  ug_expires_at : Instant;
  ug_revoked_at : option Instant;
  ug_revoked_reason : option string;
  ug_last_used_at : option Instant;
  ug_use_count : Z;
  ug_active : bool
}.

Record UiAgent : Type := {
  ui_agent_id : string;
  ui_display_name : string;
  ui_role : string;
  ui_state : string;
  ui_created_at : Instant;
  ui_active_grants : Z;
  ui_recent_event_count : Z;
  ui_last_activity_at : option Instant
}.

Record UiCredential : Type := {
  uc_name : string;
  uc_kind : string;
  uc_provider : string;
  uc_allowed_actions : list ActionKind;
  uc_approved_origins : list string;
  uc_used_by : list string;
  uc_last_used_at : option Instant;
  uc_disabled : bool
}.

Record UiBrowserSession : Type := {
  ub_session_id : string;
  ub_profile : string;
  ub_state : string;
  ub_assurance : string;
  ub_last_heartbeat_at : Instant;
  ub_active_tab_count : Z;
  ub_current_origins : list string
}.

Module UiEventOutcome.
Inductive t : Type := Success | Denied | Pending | Interrupted | Info.
#[global] Instance t_eq_dec : EqDecision t.
Proof. solve_decision. Defined.
End UiEventOutcome.

Record UiActivityEvent : Type := {
  ue_sequence : Z;
  ue_event_id : string;
  ue_event_type : string;
  ue_summary : string;
  ue_outcome : UiEventOutcome.t;
  ue_actor_type : string;
  ue_actor_name : option string;
  ue_origin : option string;
  ue_action : option ActionKind;
  ue_risk : option RiskLevel;
  ue_error_code : option string;
  ue_created_at : Instant
}.

Definition action_label (action : ActionKind) : string :=
  match action with
  | AuthenticatePassword => "Sign in"
  | AuthenticateTotp => "Complete TOTP"
  | FormSensitiveFill => "Fill sensitive form"
  | OAuthAuthorize => "Authorize OAuth access"
  end.

(** ** Parameters of the administrative calls *)

Record BrowserCloseParams : Type := { bc_instance_id : BrowserInstanceId }.

Record ApprovalDecideParams : Type := {
  ad_approval_id : ApprovalId;
  ad_decision : string;
  ad_context_digest : list byte;
  ad_presence_verified : bool
}.

Record UiActivityParams : Type := { ap_limit : Z }.
Definition default_activity_limit : Z := 50.

Record GrantListParams : Type := { gl_include_revoked : bool }.

Record GrantCreateParams : Type := {
  gc_approval_id : ApprovalId;
  gc_context_digest : list byte;
  gc_ttl_days : Z;
  gc_presence_verified : bool
}.

Record GrantCreateResult : Type := {
  gc_grant : UiGrant;
  gc_decision : ActionResponseResult
}.

Record GrantRevokeParams : Type := { gv_selector : string; gv_reason : string }.
Definition default_revoke_reason : string := "revoked by user".

Record GrantRevokeResult : Type := { gv_revoked : Z }.

Record AgentDisableParams : Type := { da_agent_id : string }.

Record CapabilityListParams : Type := { cl_params_state : option string }.

Record CapabilityRevokeParams : Type := {
  cv_capability_id : CapabilityId;
  cv_reason : string
}.

Record PolicyReloadParams : Type := { pl_policy_yaml : string; pl_expected_hash : string }.
