(* ===== verification/Ui.v ===== *)
(** * Ui: what the desktop interface sees and may do

    Models [secretctld/src/ui.rs]: the projections of the broker's state onto the
    records of [Admin], and the three operations the interface has of its own,
    creating and revoking standing grants and disabling an agent. The filters on
    text walk code points; where the code collects into a hash set and sorts, the
    model removes the repetitions and sorts. *)

From S2P Require Import Prelude.
From S2P Require Import Externals.
From S2P Require Import Domain.
From S2P Require Import DomView.
From S2P Require Import Policy.
From S2P Require Import Gateway.
From S2P Require Import Crypto.
From S2P Require Import AuditChain.
From S2P Require Import Capability.
From S2P Require Import Provider.
From S2P Require Import Table.
From S2P Require Import Store.
From S2P Require Import OAuth.
From S2P Require Import Protocol.
From S2P Require Import Admin.
From S2P Require Import BrokerState.
From S2P Require Import Broker.

(** ** Text *)

Definition MAX_AGENT_TEXT_CHARS : Z := 500.
Definition TERMINAL_STATE_LINGER_SECONDS : Z := 8.

Definition is_bidi_override (c : Z) : bool :=
  ((8234 <=? c) && (c <=? 8238)) || ((8294 <=? c) && (c <=? 8297)).

Definition agent_text (text : list Z) : list Z :=
  trim (take (Z.to_nat MAX_AGENT_TEXT_CHARS)
    (List.filter (fun c => negb (is_control c) && negb (is_bidi_override c)) text)).

Definition sanitize_agent_text (text : string) : string :=
  from_bytes (encode_text (agent_text (chars text))).

Definition provider_label (provider : string) : string :=
  if bool_decide (provider ∈ ["macos-keychain"; "macos"; "keychain"]) then "macOS Keychain"
  else if bool_decide (provider ∈ ["1password"; "onepassword"]) then "1Password"
  else if bool_decide (provider ∈ ["vault"; "hashicorp-vault"]) then "HashiCorp Vault"
  else provider.

(** [collect::<HashSet<_>>()], then a vector of it, sorted. *)
Definition sorted_set (l : list string) : list string :=
  order_by (text_le id) (remove_dups l).

Definition count_u32 {A : Type} (l : list A) : Z := wrap_u32 (Z.of_nat (length l)).

(** [trim_end_matches(pattern)] for a pattern that is not empty. *)
Definition ends_with (pattern s : string) : bool :=
  (String.length pattern <=? String.length s)%nat
  && bool_decide (String.substring (String.length s - String.length pattern)
       (String.length pattern) s = pattern).
Fixpoint trim_end_from (fuel : nat) (pattern s : string) : string :=
  match fuel with
  | O => s
  | S fuel =>
      if ends_with pattern s
      then trim_end_from fuel pattern (String.substring 0 (String.length s - String.length pattern) s)
      else s
  end.
Definition trim_end_matches (pattern s : string) : string :=
  trim_end_from (String.length s) pattern s.

(** [split_once(':')] *)
Definition split_once_colon (s : string) : option (string * string) :=
  (fun rest => (before_first ":" s, rest)) <$> after_first ":" s.

Fixpoint dots_to_spaces (s : string) : string :=
  match s with
  | EmptyString => EmptyString
  | String a s => String (if bool_decide (a = "."%char) then " "%char else a) (dots_to_spaces s)
  end.

(** ** Audit events as rows of the activity list *)

Definition summarize_event (event_type : string) (origin : option string) : string :=
  let site := trim_end_matches ":443" <$> (origin ≫= split_nth_1 "://") in
  let named s := bool_decide (event_type = s) in
  if named "action.requested" then "Credential action requested"
  else if named "approval.requested" then "Authorization requested"
  else if named "approval.approved" then "Authorization approved"
  else if named "approval.auto_granted" then "Approved by standing authorization"
  else if named "approval.denied" then "Authorization denied"
  else if named "approval.expired" then "Authorization request expired"
  else if named "approval.invalidated" then "Page changed before authorization completed"
  else if named "capability.minted" then "Capability issued"
  else if named "capability.consumed" then "Credential delivered to the browser"
  else if named "capability.revoked" then "Capability revoked"
  else if named "secret.retrieve_succeeded" then "Credential retrieved from provider"
  else if named "execution.completed" then
    match site with
    | Some host => host +:+ " authentication completed"
    | None => "Authentication completed"
    end
  else if named "execution.failed" then "Authentication blocked"
  else if named "policy.evaluated" then "Policy evaluated"
  else if named "policy.reloaded" then "Policy reloaded"
  else if named "browser.registered" then "Browser session connected"
  else if named "browser.stale" then "Protection interrupted"
  else if named "agent.enrolled" then "Agent enrolled"
  else if named "agent.disabled" then "Agent disabled"
  else if named "grant.created" then "Standing authorization created"
  else if named "grant.revoked" then "Standing authorization revoked"
  else if named "audit.checkpoint" then "Audit checkpoint written"
  else dots_to_spaces event_type.

Definition classify_event (event_type : string) (decision : option string) : UiEventOutcome.t :=
  if bool_decide (event_type ∈ ["execution.completed"; "approval.approved";
                                "approval.auto_granted"; "grant.created"])
  then UiEventOutcome.Success
  else if bool_decide (event_type ∈ ["approval.denied"; "approval.expired"; "execution.failed";
                                     "capability.revoked"; "agent.disabled"; "grant.revoked"])
  then UiEventOutcome.Denied
  else if bool_decide (event_type = "approval.requested") then UiEventOutcome.Pending
  else if bool_decide (event_type ∈ ["browser.stale"; "approval.invalidated"])
  then UiEventOutcome.Interrupted
  else if is_some_and (fun d => bool_decide (d ∈ ["deny"; "denied"; "invalidated"; "expired"]))
            decision
  then UiEventOutcome.Denied
  else UiEventOutcome.Info.

Definition empty_audit_context : AuditContext :=
  Build_AuditContext None None None None None None None None None.

(** The derived [Deserialize] of an optional text field, and of the record. *)
Definition optional_text (key : string) (v : Json) : result string (option string) :=
  match json_get key v with
  | None | Some JNull => Ok None
  | Some (JString s) => Ok (Some s)
  | Some _ => Err ("invalid type: " +:+ key)
  end.
Definition context_from_json (v : Json) : result string AuditContext :=
  match v with
  | JObject _ =>
      request_id ← optional_text "request_id" v;
      credential_id ← optional_text "credential_id" v;
      capability_id ← optional_text "capability_id" v;
      browser_session_id ← optional_text "browser_session_id" v;
      target_origin ← optional_text "target_origin" v;
      action ← optional_text "action" v;
      decision ← optional_text "decision" v;
      risk_level ← optional_text "risk_level" v;
      error_code ← optional_text "error_code" v;
      Ok (Build_AuditContext request_id credential_id capability_id browser_session_id
            target_origin action decision risk_level error_code)
  | _ => Err "invalid type"
  end.

(** The record is read from an object, the form it is written in. *)
Definition event_context `{JsonCodec} (event : AuditEvent) : result string AuditContext :=
  v ← json_parse (ev_event_json event);
  context_from_json v.

(** The first branch of the loop in [agents_with_prior_authorization]: which
    agent asked for which request; and the second: which requests got a
    capability. *)
Definition prior_step `{JsonCodec} (acc : gmap string AgentId * gset string) (event : AuditEvent) :
    gmap string AgentId * gset string :=
  match event_context event with
  | Err _ => acc
  | Ok context =>
      match ac_request_id context with
      | None => acc
      | Some request_id =>
          let '(request_agents, authorized_requests) := acc in
          if bool_decide (ev_event_type event = "action.requested") then
            match ev_actor_id event ≫= (fun actor => result_ok (id_parse KAgent actor)) with
            | Some agent => (<[request_id := agent]> request_agents, authorized_requests)
            | None => acc
            end
          else if bool_decide (ev_event_type event = "capability.minted")
          then (request_agents, {[request_id]} ∪ authorized_requests)
          else acc
      end
  end.
Definition prior_agents `{JsonCodec} (events : list AuditEvent) : gset AgentId :=
  let '(request_agents, authorized_requests) := fold_left prior_step events (∅, ∅) in
  list_to_set (omap (fun request_id => request_agents !! request_id)
                 (elements authorized_requests)).

(** ** Projections of one record *)

Definition ui_grant (grant : StandingGrant) (now : Instant) : UiGrant := {|
  ug_grant_id := id_str (sg_grant_id grant);
  ug_agent_name := sanitize_agent_text (sg_agent_name grant);
  ug_credential_name := sg_credential_name grant;
  ug_origin := origin_as_str (sg_origin grant);
  ug_action := sg_action grant; ug_action_label := action_label (sg_action grant);
  ug_risk_ceiling := sg_risk_ceiling grant; ug_require_presence := sg_require_presence grant;
  ug_created_at := sg_created_at grant; ug_expires_at := sg_expires_at grant;
  ug_revoked_at := sg_revoked_at grant; ug_revoked_reason := sg_revoked_reason grant;
  ug_last_used_at := sg_last_used_at grant; ug_use_count := sg_use_count grant;
  ug_active := is_active_at grant now |}.

Definition authorization_request `{Base64} (known : gset AgentId) (entry : PendingApprovalEntry) :
    UiAuthorizationRequest :=
  let authorization := pn_authorization entry in
  let risk := au_base_risk authorization in {|
  ua_approval_id := id_str (apr_approval_id (pn_approval entry));
  ua_request_id := id_str (apr_request_id (pn_approval entry));
  ua_agent_name := sanitize_agent_text (au_agent_name authorization);
  ua_agent_id := id_str (au_agent_id authorization);
  ua_credential_name := cred_name (au_credential authorization);
  ua_provider := provider_label (cred_provider (au_credential authorization));
  ua_origin := origin_as_str (pc_top_origin (au_page_context authorization));
  ua_action := au_action authorization;
  ua_action_label := action_label (au_action authorization);
  ua_flow_steps := map (fun field => {|
    fs_role := rf_role field; fs_label := label_for (rf_role field);
    fs_optional := rf_optional field |}) (rcp_fields (au_recipe authorization));
  ua_risk := risk;
  ua_reason :=
    (let text := sanitize_agent_text (au_reason authorization) in
     if bool_decide (text = "") then None else Some text);
  ua_reason_source := AgentProvided;
  ua_context_digest := b64_encode (apr_context_digest (pn_approval entry));
  ua_expires_at := apr_expires_at (pn_approval entry);
  ua_requires_presence := pd_require_user_presence (au_decision authorization);
  ua_is_first_for_agent := negb (bool_decide (au_agent_id authorization ∈ known));
  ua_grantable := risk_rank risk <=? risk_rank MAX_GRANTABLE_RISK |}.

Definition ui_agent (now : Instant) (grants : list StandingGrant) (events : list AuditEvent)
    (agent : AgentPrincipal) : UiAgent :=
  let agent_key := id_str (ag_agent_id agent) in
  let agent_events := List.filter (fun event =>
    bool_decide (ev_actor_id event = Some agent_key)) events in {|
  ui_active_grants := count_u32 (List.filter (fun grant =>
    bool_decide (sg_agent_id grant = ag_agent_id agent) && is_active_at grant now) grants);
  ui_recent_event_count := count_u32 agent_events;
  ui_last_activity_at := ev_created_at <$> head (rev agent_events);
  ui_agent_id := agent_key;
  ui_display_name := sanitize_agent_text (ag_display_name agent);
  ui_role := ag_role agent; ui_state := ag_state agent; ui_created_at := ag_created_at agent |}.

(** [Iterator::max] of instants. *)
Definition latest (l : list Instant) : option Instant :=
  fold_left (fun best t => Some (default t (Z.max t <$> best))) l None.

Definition ui_credential (now : Instant) (grants : list StandingGrant)
    (credential : CredentialDescriptor) : UiCredential :=
  let related := List.filter (fun grant =>
    bool_decide (sg_credential_name grant = cred_name credential)) grants in {|
  uc_name := cred_name credential; uc_kind := cred_kind credential;
  uc_provider := provider_label (cred_provider credential);
  uc_allowed_actions := cred_allowed_actions credential;
  uc_approved_origins := sorted_set (map (fun grant => origin_as_str (sg_origin grant))
    (List.filter (fun grant => is_active_at grant now) related));
  uc_used_by := sorted_set (map (fun grant => sanitize_agent_text (sg_agent_name grant)) related);
  uc_last_used_at := latest (omap sg_last_used_at related);
  uc_disabled := bool_decide (is_Some (cred_disabled_at credential)) |}.

Definition activity_row `{JsonCodec} (agent_names : gmap string string) (event : AuditEvent) :
    UiActivityEvent :=
  let context := match event_context event with Ok c => c | Err _ => empty_audit_context end in {|
  ue_sequence := ev_sequence event; ue_event_id := id_str (ev_event_id event);
  ue_event_type := ev_event_type event;
  ue_summary := summarize_event (ev_event_type event) (ac_target_origin context);
  ue_outcome := classify_event (ev_event_type event) (ac_decision context);
  ue_actor_type := ev_actor_type event;
  ue_actor_name := (fun actor => default actor (agent_names !! actor)) <$> ev_actor_id event;
  ue_origin := ac_target_origin context;
  ue_action := ac_action context ≫= (fun v => result_ok (action_from_str v));
  ue_risk := ac_risk_level context ≫= (fun v => result_ok (risk_from_str v));
  ue_error_code := ac_error_code context;
  ue_created_at := ev_created_at event |}.

(** The calls of the interface. *)
Inductive UiCall : Type :=
| UiPending
| UiPendingOne (approval_id : ApprovalId)
| UiStatusCall
| UiActivityCall (limit : Z)
| UiAgents
| UiCredentials
| UiBrowserSessions
| UiGrants (include_revoked : bool)
| UiCreateGrant (params : GrantCreateParams)
| UiRevokeGrants (selector reason : string)
| UiDisableAgent (agent_id : AgentId).

Section Interface.
Context `{ManagedChrome, Chrono, Hashes, Signatures, Base64, Cbor, WireCodec, UrlParser,
  JsonCodec, HashIter, Environment, HttpClient, SqliteText} {P : Type} `{SecretProvider P}.

(** [map_err(|_| internal(message))?] on a read of the store. *)
Definition reads {A : Type} (message : string) (f : Store -> result StoreError A) : Broker P A :=
  r ← read_store f;
  lift (fun _ => internal_error message) r.
Definition logged_events : Broker P (list AuditEvent) :=
  reads "Audit storage unavailable" list_audit_events.
Definition live_grants : Broker P (list StandingGrant) :=
  reads "Grant storage unavailable" (fun s => list_standing_grants s false).
Definition enrolled_agents : Broker P (list AgentPrincipal) :=
  reads "Agent storage unavailable" list_agents.
Definition stored_credentials : Broker P (list CredentialDescriptor) :=
  reads "Credential storage unavailable" list_credentials.

(** ** Pending authorization *)

Definition agents_with_prior_authorization : Broker P (gset AgentId) :=
  events ← logged_events;
  mret (prior_agents events).

Definition pending_entries (now : Instant) (b : BrokerState P) : list PendingApprovalEntry :=
  order_by (fun a b => apr_expires_at (pn_approval a) <=? apr_expires_at (pn_approval b))
    (List.filter (fun entry => bool_decide (apr_decision (pn_approval entry) = "pending")
                               && (now <? apr_expires_at (pn_approval entry)))
       (map snd (hash_iter (approvals b)))).

Definition ui_pending_approvals : Broker P (list UiAuthorizationRequest) :=
  now ← Utc_now;
  pending ← gets (pending_entries now);
  known ← agents_with_prior_authorization;
  mret (map (authorization_request known) pending).

Definition ui_pending_approval (approval_id : ApprovalId) : Broker P UiAuthorizationRequest :=
  pending ← ui_pending_approvals;
  require RpcErrorCode.INVALID_PARAMS "Approval is no longer pending"
    (List.find (fun request => bool_decide (ua_approval_id request = id_str approval_id)) pending).

(** ** The operation in flight *)

Definition step_state (index used_count max_uses : Z) : UiStepState.t :=
  if wrap_u32 index <? used_count then UiStepState.Done
  else if (wrap_u32 index =? used_count) && (used_count <? max_uses) then UiStepState.Active
  else UiStepState.Pending.

Definition operation_steps (recipe : option SiteRecipe) (used_count max_uses : Z) :
    list UiOperationStep :=
  match recipe with
  | Some recipe => imap (fun index field => {|
      os_label := label_for (rf_role field);
      os_state := step_state (Z.of_nat index) used_count max_uses |}) (rcp_fields recipe)
  | None => []
  end.

Definition live_execution (execution : ActiveExecution) : bool :=
  negb (ExecutionState.is_terminal (ex_state (ae_execution execution)))
  && bool_decide (is_Some (ex_started_at (ae_execution execution))).

Definition protection_verified_at (now : Instant) (a : ActiveBrowserSession) : bool :=
  bool_decide (bs_state (abs_session a) = BrowserSessionState.Active)
  && (now - bs_last_heartbeat_at (abs_session a) <? seconds 10).

Definition CONFIRMED_PROTECTIONS : list string :=
  ["Screenshots blocked"; "Screen capture blocked"; "DOM extraction blocked";
   "Accessibility extraction blocked"; "Credential isolated"].

Definition operation_view (now : Instant) (b : BrokerState P) : option UiActiveOperation :=
  active ← List.find live_execution (map snd (hash_iter (executions b)));
  entry ← capabilities b !! ex_capability_id (ae_execution active);
  let c := ce_capability entry in
  let verified := is_some_and (protection_verified_at now)
    (sessions b !! cap_browser_session_id c) in
  Some {|
    uo_request_id := id_str (ae_request_id active);
    uo_agent_name :=
      match get_enrolled_agent (store b) (id_str (ae_agent_id active)) with
      | Ok principal => sanitize_agent_text (ag_display_name principal)
      | Err _ => id_str (ae_agent_id active)
      end;
    uo_credential_name := default "credential"
      (credentials ← result_ok (list_credentials (store b));
       cred_name <$> List.find (fun credential =>
         bool_decide (cred_credential_id credential = ae_credential_id active)) credentials);
    uo_origin := origin_as_str (cap_top_origin c);
    uo_action_label := action_label (ae_action active);
    uo_steps := operation_steps (recipes b !! ce_recipe_id entry) (cap_used_count c)
      (cap_max_uses c);
    uo_confirmed_protections := if verified then CONFIRMED_PROTECTIONS else [];
    uo_protection_verified := verified |}.

Definition ui_active_operation : Broker P (option UiActiveOperation) :=
  now ← Utc_now;
  gets (operation_view now).

(** ** Status *)

Definition lingers (now at_ : Instant) : bool :=
  now - at_ <=? seconds TERMINAL_STATE_LINGER_SECONDS.

Definition recently_ended (now : Instant) (state : ExecutionState.t) (b : BrokerState P) : bool :=
  existsb (fun active =>
    bool_decide (ex_state (ae_execution active) = state)
    && is_some_and (lingers now) (ex_completed_at (ae_execution active)))
    (map snd (hash_iter (executions b))).

Definition event_outcome (event_type : string) : option UiProtectionState.t :=
  if bool_decide (event_type = "execution.completed") then Some UiProtectionState.Completed
  else if bool_decide (event_type ∈ ["execution.failed"; "approval.denied"; "approval.expired";
                                     "capability.revoked"])
  then Some UiProtectionState.Blocked
  else if bool_decide (event_type = "approval.invalidated")
  then Some UiProtectionState.ProtectionInterrupted
  else None.

Definition most_recent_terminal_outcome (now : Instant) : Broker P (option UiProtectionState.t) :=
  uncertain ← gets (recently_ended now ExecutionState.Indeterminate);
  evidence_lost ← gets (recently_ended now ExecutionState.CompletedEvidenceLost);
  if uncertain : bool then mret (Some UiProtectionState.OutcomeUncertain)
  else if evidence_lost : bool then mret (Some UiProtectionState.CompletedEvidenceLost)
  else
    events ← logged_events;
    mret (event ← head (rev events);
          if lingers now (ev_created_at event) then event_outcome (ev_event_type event) else None).

Definition recently_interrupted (now : Instant) (b : BrokerState P) : bool :=
  existsb (fun entry =>
    bool_decide (cap_state (ce_capability entry) = CapabilityState.Revoked)
    && bool_decide (cap_revoked_reason (ce_capability entry) = Some "session_stale")
    && lingers now (cap_issued_at (ce_capability entry)))
    (map snd (hash_iter (capabilities b))).

Definition ui_protection_state (pending : list UiAuthorizationRequest)
    (active : option UiActiveOperation) (now : Instant) : Broker P UiProtectionState.t :=
  match active with
  | Some operation =>
      mret (if negb (uo_protection_verified operation)
            then UiProtectionState.ProtectionInterrupted
            else UiProtectionState.SensitiveOperation)
  | None =>
      interrupted ← gets (recently_interrupted now);
      if interrupted : bool then mret UiProtectionState.ProtectionInterrupted
      else if negb (bool_decide (pending = [])) then mret UiProtectionState.ApprovalRequired
      else
        recent ← most_recent_terminal_outcome now;
        mret (default UiProtectionState.Protected recent)
  end.

Definition recent_actor (latest : gmap string Instant) (event : AuditEvent) : gmap string Instant :=
  match ev_actor_id event with
  | Some actor =>
      <[actor := match latest !! actor with
                 | Some existing => if existing <? ev_created_at event then ev_created_at event
                                    else existing
                 | None => ev_created_at event
                 end]> latest
  | None => latest
  end.
Definition recent_actor_ids (window : Z) : Broker P (gmap string Instant) :=
  now ← Utc_now;
  events ← logged_events;
  mret (fold_left recent_actor
    (List.filter (fun event => now - ev_created_at event <=? window) events) ∅).

Definition ui_policy_fingerprint (b : BrokerState P) : string :=
  from_bytes (encode_text (take 12 (chars (b64_encode (pe_policy_hash (policy_evaluator b)))))).

Definition ui_status : Broker P UiStatus :=
  now ← Utc_now;
  pending ← ui_pending_approvals;
  active_operation ← ui_active_operation;
  browsers ← gets (fun b => count_u32 (List.filter (fun active =>
    bool_decide (bs_state (abs_session active) = BrowserSessionState.Active))
    (map snd (hash_iter (sessions b)))));
  agents ← enrolled_agents;
  grants ← live_grants;
  credentials ← stored_credentials;
  recent_actors ← recent_actor_ids (seconds (30 * 60));
  protection ← ui_protection_state pending active_operation now;
  fingerprint ← gets ui_policy_fingerprint;
  intact ← attempt verify_audit_integrity;
  mret {|
    us_protection := protection;
    us_pending_approvals := count_u32 pending;
    us_active_operation := active_operation;
    us_browser_sessions_connected := browsers;
    us_agents_enrolled := count_u32 agents;
    us_agents_active := count_u32 (List.filter (fun agent =>
      bool_decide (is_Some (recent_actors !! id_str (ag_agent_id agent)))) agents);
    us_active_grants := count_u32 (List.filter (fun grant => is_active_at grant now) grants);
    us_providers := sorted_set (map (fun credential => provider_label (cred_provider credential))
      (List.filter (fun credential => bool_decide (cred_disabled_at credential = None))
         credentials));
    us_policy_fingerprint := fingerprint;
    us_audit_chain_intact := is_ok intact |}.

(** ** Activity, agents, credentials, browser sessions *)

(** Later agents of the list overwrite earlier ones. *)
Definition agent_display_names (s : Store) : gmap string string :=
  match list_agents s with
  | Ok agents => fold_left (fun names agent =>
      <[id_str (ag_agent_id agent) := sanitize_agent_text (ag_display_name agent)]> names) agents ∅
  | Err _ => ∅
  end.

Definition ui_activity (limit : Z) : Broker P (list UiActivityEvent) :=
  events ← logged_events;
  agent_names ← read_store agent_display_names;
  mret (order_by (fun a b => ue_sequence b <=? ue_sequence a)
    (map (activity_row agent_names) (take (Z.to_nat (clamp 1 500 limit)) (rev events)))).

Definition ui_agents : Broker P (list UiAgent) :=
  now ← Utc_now;
  agents ← enrolled_agents;
  grants ← live_grants;
  events ← logged_events;
  mret (map (ui_agent now grants events) agents).

Definition ui_credentials : Broker P (list UiCredential) :=
  now ← Utc_now;
  credentials ← stored_credentials;
  grants ← live_grants;
  mret (map (ui_credential now grants) credentials).

Definition browser_row (b : BrokerState P) (active : ActiveBrowserSession) : UiBrowserSession :=
  let session := abs_session active in {|
  ub_session_id := id_str (bs_session_id session); ub_profile := bs_profile_id session;
  ub_state := BrowserSessionState.as_str (bs_state session); ub_assurance := bs_assurance session;
  ub_last_heartbeat_at := bs_last_heartbeat_at session;
  ub_active_tab_count := abs_active_tab_count active;
  ub_current_origins := sorted_set
    match page_contexts b !! bs_session_id session with
    | Some tabs => map (fun entry => origin_as_str (pc_top_origin (snd entry))) (hash_iter tabs)
    | None => []
    end |}.
Definition ui_browser_sessions : Broker P (list UiBrowserSession) :=
  gets (fun b => order_by (text_le ub_profile)
    (map (fun entry => browser_row b (snd entry)) (hash_iter (sessions b)))).

(** ** Standing grants *)

Definition ui_grants (include_revoked : bool) : Broker P (list UiGrant) :=
  now ← Utc_now;
  grants ← reads "Grant storage unavailable" (fun s => list_standing_grants s include_revoked);
  mret (map (fun grant => ui_grant grant now) grants).

(** The grant an approval is turned into. *)
Definition grant_for (a : AuthorizationContext) (grant_id : GrantId) (now expires_at : Instant) :
    StandingGrant := {|
  sg_grant_id := grant_id; sg_agent_id := au_agent_id a; sg_agent_name := au_agent_name a;
  sg_credential_id := cred_credential_id (au_credential a);
  sg_credential_name := cred_name (au_credential a);
  sg_origin := pc_top_origin (au_page_context a); sg_action := au_action a;
  sg_risk_ceiling := au_base_risk a; sg_require_presence := false;
  sg_created_at := now; sg_expires_at := expires_at; sg_revoked_at := None;
  sg_revoked_reason := None; sg_last_used_at := None; sg_use_count := 0 |}.

Definition grant_created_context (a : AuthorizationContext) : AuditContext :=
  Build_AuditContext (Some (id_str (au_request_id a)))
    (Some (id_str (cred_credential_id (au_credential a)))) None
    (Some (id_str (au_browser_session_id a)))
    (Some (origin_as_str (pc_top_origin (au_page_context a))))
    (Some (action_as_str (au_action a))) (Some "grant_created")
    (Some (risk_as_str (au_base_risk a))) None.

Definition ui_create_grant (params : GrantCreateParams) : Broker P GrantCreateResult :=
  now ← Utc_now;
  if (gc_ttl_days params <=? 0) || (MAX_GRANT_TTL_DAYS <? gc_ttl_days params)
  then fail_with RpcErrorCode.INVALID_PARAMS "Grant lifetime is outside the permitted range"
  else
    b ← gets id;
    pending ← require RpcErrorCode.INVALID_PARAMS "Unknown approval ID"
                (approvals b !! gc_approval_id params);
    let a := pn_authorization pending in
    if risk_rank MAX_GRANTABLE_RISK <? risk_rank (au_base_risk a)
    then fail_with RpcErrorCode.AUTH_POLICY_DENIED
           "This risk level can never be covered by a standing authorization"
    else if pd_require_user_presence (au_decision a) && negb (gc_presence_verified params)
    then fail_with RpcErrorCode.APPROVAL_REJECTED
           "Creating this authorization requires verified user presence"
    else
      decision ← decide_approval (gc_approval_id params) true (gc_context_digest params)
                   "local-admin" (gc_presence_verified params);
      uuid ← new_uuid;
      expires_at ← unwrap (add_seconds now (gc_ttl_days params * 86400));
      let grant := grant_for a (id_new KGrant uuid) now expires_at in
      insert_standing_grant_audited grant (grant_created_context a);;
      mret {| gc_grant := ui_grant grant now; gc_decision := decision |}.

Definition selector_of (selector : string) : result DomainError GrantSelector :=
  match split_once_colon selector with
  | Some ("agent", name) => Ok (SelectAgent name)
  | Some ("credential", name) => Ok (SelectCredential name)
  | _ => grant_id ← id_parse KGrant selector; Ok (SelectId grant_id)
  end.

Definition grant_revoked_context (grant : StandingGrant) : AuditContext :=
  Build_AuditContext None (Some (id_str (sg_credential_id grant))) None None
    (Some (origin_as_str (sg_origin grant))) (Some (action_as_str (sg_action grant)))
    (Some "grant_revoked") (Some (risk_as_str (sg_risk_ceiling grant))) None.

Definition ui_revoke_grants (selector reason : string) : Broker P GrantRevokeResult :=
  selector ← lift (fun _ => rpc_error RpcErrorCode.INVALID_PARAMS "Unknown grant")
    (selector_of selector);
  now ← Utc_now;
  revoked ← run_store (revoke_standing_grants selector reason now);
  revoked ← lift (fun _ => internal_error "Grant storage unavailable") revoked;
  for_each revoked (fun grant =>
    record_audit_event "grant.revoked" "admin" None (grant_revoked_context grant));;
  mret {| gv_revoked := count_u32 revoked |}.

Definition ui_disable_agent (agent_id : AgentId) : Broker P GrantRevokeResult :=
  agent ← read_store (fun s => get_enrolled_agent s (id_str agent_id));
  agent ← lift (fun _ => rpc_error RpcErrorCode.INVALID_PARAMS "Unknown agent") agent;
  revoked ← ui_revoke_grants ("agent:" +:+ ag_display_name agent) "agent disabled by user";
  modify (revoke_entries (fun c => bool_decide (cap_agent_id c = agent_id)) "agent_disabled");;
  record_audit_event "agent.disabled" "admin" (Some (id_str agent_id))
    (decision_context "agent_disabled");;
  mret revoked.

(** ** The calls of the interface, as steps of a run of the broker *)

Definition view {A : Type} (m : Broker P A) : Broker P unit := _ ← m; mret tt.

Definition run_ui_call (c : UiCall) : Broker P unit :=
  match c with
  | UiPending => view ui_pending_approvals
  | UiPendingOne approval_id => view (ui_pending_approval approval_id)
  | UiStatusCall => view ui_status
  | UiActivityCall limit => view (ui_activity limit)
  | UiAgents => view ui_agents
  | UiCredentials => view ui_credentials
  | UiBrowserSessions => view ui_browser_sessions
  | UiGrants include_revoked => view (ui_grants include_revoked)
  | UiCreateGrant params => view (ui_create_grant params)
  | UiRevokeGrants selector reason => view (ui_revoke_grants selector reason)
  | UiDisableAgent agent_id => view (ui_disable_agent agent_id)
  end.
End Interface.
