(* ===== verification/Pages.v ===== *)
(** * Pages: driving the browser for an agent

    Models the handlers of [secretctld/src/state.rs] that send commands to the
    managed Chrome: tabs and navigation, reading a page and acting on it, and
    waiting for a condition.

    A sequence of commands on one pipe is a computation in the monad [Cdp]; a
    handler looks up the pipe and the filter of a session and runs its commands
    on them. The handles the code clones are shared with the browser's entry in
    the broker's state, so the pipe is written back there. *)

From Stdlib Require Import SpecFloat.
From S2P Require Import Prelude.
From S2P Require Import Externals.
From S2P Require Import Domain.
From S2P Require Import Policy.
From S2P Require Import Crypto.
From S2P Require Import DomView.
From S2P Require Import Gateway.
From S2P Require Import AuditChain.
From S2P Require Import Capability.
From S2P Require Import Provider.
From S2P Require Import Table.
From S2P Require Import Store.
From S2P Require Import OAuth.
From S2P Require Import Protocol.
From S2P Require Import BrokerState.
From S2P Require Import Broker.

(** ** Commands on a pipe *)

Definition Cdp (A : Type) : Type := CdpFilter -> CdpPipe -> result RpcError A * CdpPipe.

#[global] Instance cdp_ret : MRet Cdp := fun A a filter pipe => (Ok a, pipe).
#[global] Instance cdp_bind : MBind Cdp := fun A B f m filter pipe =>
  match m filter pipe with
  | (Ok a, pipe) => f a filter pipe
  | (Err e, pipe) => (Err e, pipe)
  end.

(** [?] on a [Result] and on an [Option] inside such a sequence, and a result
    handed on as it is. *)
Definition cdp_lift {A : Type} (r : result RpcError A) : Cdp A := fun _ pipe => (r, pipe).
Definition cdp_attempt {A : Type} (m : Cdp A) : Cdp (result RpcError A) := fun filter pipe =>
  let '(r, pipe) := m filter pipe in (Ok r, pipe).

Definition cdp_failure : RpcError :=
  rpc_error RpcErrorCode.SECURITY_VIOLATION "Browser operation rejected".
Definition or_failure {A : Type} (o : option A) : Cdp A := cdp_lift (ok_or cdp_failure o).

Definition locator_failure (error : ResolveError) : RpcError :=
  match error with
  | RNotFound => rpc_error RpcErrorCode.LOCATOR_NOT_FOUND "Locator matched no element"
  | RAmbiguous => rpc_error RpcErrorCode.LOCATOR_AMBIGUOUS "Locator must resolve exactly once"
  | RStale => rpc_error RpcErrorCode.STALE_REFERENCE
      "Reference no longer names the same element; take a new snapshot"
  | RProtected => rpc_error RpcErrorCode.SECURITY_VIOLATION "Protected field rejected"
  end.

(** The bytes of a text cut to its first characters. *)
Definition text_string (t : Text) : string := from_bytes (encode_text t).

Definition MAX_VISIBILITY_PROBES : nat := 40.
Definition DEFAULT_WAIT_TIMEOUT_MS : Z := 10000.
Definition MAX_WAIT_TIMEOUT_MS : Z := 30000.
Definition WAIT_POLL_INTERVAL_MS : Z := 200.

(** [str::contains] on texts. *)
Fixpoint text_starts_with (t prefix : Text) : bool :=
  match prefix, t with
  | [], _ => true
  | c :: prefix, d :: t => (c =? d) && text_starts_with t prefix
  | _ :: _, [] => false
  end.
Fixpoint text_contains (t needle : Text) : bool :=
  text_starts_with t needle || match t with [] => false | _ :: t => text_contains t needle end.

(** The serialized form of an element: the fields that are not skipped. *)
Definition node_json (n : ProjectedNode) : Json :=
  JObject ([("reference", JString (nd_reference n)); ("tag", JString (nd_tag n));
            ("role", JString (nd_role n)); ("name", JString (text_string (nd_name n)))]
    ++ match nd_input_type n with Some t => [("input_type", JString t)] | None => [] end
    ++ [("protected", JBool (nd_protected n)); ("disabled", JBool (nd_disabled n))]
    ++ match nd_visible n with Some v => [("visible", JBool v)] | None => [] end).

Definition set_visible (n : ProjectedNode) (v : bool) : ProjectedNode := {|
  nd_reference := nd_reference n; nd_tag := nd_tag n; nd_role := nd_role n; nd_name := nd_name n;
  nd_input_type := nd_input_type n; nd_protected := nd_protected n;
  nd_disabled := nd_disabled n; nd_visible := Some v; nd_node_id := nd_node_id n;
  nd_structurally_hidden := nd_structurally_hidden n |}.

(** The clock of [std::time::Instant], in nanoseconds, and the read of the
    environment after which a sleep that began at a read is over. *)
Class Monotonic := {
  instant_now : nat -> Z;
  sleep_until : nat -> Z -> nat
}.
Class MonotonicLaws `{Monotonic} := {
  instant_monotone i j : (i <= j)%nat -> instant_now i <= instant_now j;
  sleep_later i d : (i <= sleep_until i d)%nat;
  sleep_lasts i d : 0 <= d -> instant_now i + d <= instant_now (sleep_until i d)
}.

Section Commands.
Context `{Hashes, UnicodeCase, JsonCodec, JsonFloats, UrlParser}.

Definition cdp_command (method : string) (session : option string) (params : Json) : Cdp Json :=
  fun filter pipe =>
    let '(r, pipe) := request_with_session filter method None session params pipe in
    (map_err (fun _ => cdp_failure) r, pipe).

Definition attach_tab (tab_id : string) : Cdp string :=
  result ← cdp_command "Target.attachToTarget" None
    (JObject [("targetId", JString tab_id); ("flatten", JBool true)]);
  or_failure (json_get "sessionId" result ≫= json_as_str).

Definition locate_node (cdp_session selector : string) : Cdp Z :=
  document ← cdp_command "DOM.getDocument" (Some cdp_session) (JObject [("depth", JNumber 0)]);
  root_id ← or_failure (json_pointer ["root"; "nodeId"] document ≫= json_as_u64);
  result ← cdp_command "DOM.querySelectorAll" (Some cdp_session)
    (JObject [("nodeId", JNumber root_id); ("selector", JString selector)]);
  match json_get "nodeIds" result with
  | Some (JArray [node]) => or_failure (json_as_u64 node)
  | Some (JArray _) =>
      cdp_lift (Err (rpc_error RpcErrorCode.SECURITY_VIOLATION "Locator must resolve exactly once"))
  | _ => cdp_lift (Err cdp_failure)
  end.

Definition project_document (cdp_session : string) (limits : ViewLimits) : Cdp PageProjection :=
  document ← cdp_command "DOM.getDocument" (Some cdp_session)
    (JObject [("depth", JNumber (-1)); ("pierce", JBool false)]);
  root ← or_failure (json_get "root" document);
  mret (from_node root limits).

Definition project_subtree (cdp_session : string) (node_id : Z) (limits : ViewLimits) :
    Cdp PageProjection :=
  described ← cdp_command "DOM.describeNode" (Some cdp_session)
    (JObject [("nodeId", JNumber node_id); ("depth", JNumber (-1)); ("pierce", JBool false)]);
  node ← or_failure (json_get "node" described);
  mret (from_node node limits).

(** What a locator that is not a selector resolves to in a projection. *)
Definition resolve_in (projection : PageProjection) (locator : SafeLocator) :
    result ResolveError ProjectedNode :=
  match locator with
  | LocatorRef value => resolve_reference projection value
  | LocatorRole role name => resolve_role projection role (chars name)
  | LocatorText value => resolve_text projection (chars value)
  | LocatorCss _ | LocatorTestId _ => Err RNotFound
  end.

Definition resolve_locator (cdp_session : string) (locator : SafeLocator) : Cdp Z :=
  if is_css_based locator then
    selector ← cdp_lift (map_err (fun _ => cdp_failure) (locator_css locator));
    locate_node cdp_session selector
  else
    projection ← project_document cdp_session (clamped (Some 250) None);
    node ← cdp_lift (map_err locator_failure (resolve_in projection locator));
    if nd_node_id node =? 0 then cdp_lift (Err cdp_failure) else mret (nd_node_id node).

Definition average4 (a b c d : spec_float) : spec_float :=
  SFdiv 53 1024 (SFadd 53 1024 (SFadd 53 1024 (SFadd 53 1024 a b) c) d)
    (binary_normalize 53 1024 4 0 false).
Definition not_positive (f : spec_float) : bool :=
  match SFcompare f (S754_zero false) with Some Gt | None => false | _ => true end.

Definition box_model_center (cdp_session : string) (node_id : Z) : Cdp (spec_float * spec_float) :=
  model ← cdp_command "DOM.getBoxModel" (Some cdp_session) (JObject [("nodeId", JNumber node_id)]);
  content ← or_failure (match json_pointer ["model"; "content"] model with
                        | Some (JArray items) => Some items
                        | _ => None
                        end);
  match omap json_as_f64 content with
  | [c0; c1; c2; c3; c4; c5; c6; c7] =>
      let width := default (S754_zero false) (json_pointer ["model"; "width"] model ≫= json_as_f64) in
      let height := default (S754_zero false) (json_pointer ["model"; "height"] model ≫= json_as_f64) in
      if not_positive width || not_positive height
      then cdp_lift (Err (rpc_error RpcErrorCode.SECURITY_VIOLATION
                            "Target element has no visible layout"))
      else mret (average4 c0 c2 c4 c6, average4 c1 c3 c5 c7)
  | _ => cdp_lift (Err cdp_failure)
  end.

Definition history_of (cdp_session : string) : Cdp Json :=
  cdp_command "Page.getNavigationHistory" (Some cdp_session) (JObject []).

Definition tab_url (cdp_session : string) : Cdp string :=
  history ← history_of cdp_session;
  index ← or_failure (json_get "currentIndex" history ≫= json_as_u64);
  entries ← or_failure (match json_get "entries" history with
                        | Some (JArray entries) => Some entries
                        | _ => None
                        end);
  raw ← or_failure ((entries !! Z.to_nat index ≫= json_get "url") ≫= json_as_str);
  parsed ← cdp_lift (map_err (fun _ => cdp_failure) (url_parse raw));
  mret (url_text (url_clear_fragment (url_clear_query parsed))).

(** The elements with their visibility: a probe for each one that is not hidden
    by its markup, up to the limit of probes. *)
Fixpoint probe_visibility (cdp_session : string) (probes : nat) (nodes : list ProjectedNode) :
    Cdp (list ProjectedNode) :=
  match nodes with
  | [] => mret []
  | node :: rest =>
      if nd_structurally_hidden node
      then rest ← probe_visibility cdp_session probes rest; mret (set_visible node false :: rest)
      else match probes with
           | O => mret nodes
           | S probes =>
               center ← cdp_attempt (box_model_center cdp_session (nd_node_id node));
               rest ← probe_visibility cdp_session probes rest;
               mret (set_visible node (is_ok center) :: rest)
           end
  end.

(** One entry of [browser.tabs]; other targets and schemes are left out. *)
Definition tab_json (target : Json) : option Json :=
  if bool_decide ((json_get "type" target ≫= json_as_str) = Some "page") then
    id ← json_get "targetId" target ≫= json_as_str;
    raw_url ← json_get "url" target ≫= json_as_str;
    url ← result_ok (url_parse raw_url);
    if bool_decide (url_scheme url ∈ ["https"; "http"]) then
      let title := default "" (json_get "title" target ≫= json_as_str) in
      Some (JObject [("tab_id", JString id);
        ("url", JString (url_text (url_clear_fragment (url_clear_query url))));
        ("title", JString (text_string (take 200 (chars title))))])
    else None
  else None.

(** The element of an agent's locator, if it may be typed into. *)
Definition public_field (cdp_session : string) (locator : SafeLocator) : Cdp Z :=
  node_id ← resolve_locator cdp_session locator;
  node ← cdp_command "DOM.describeNode" (Some cdp_session) (JObject [("nodeId", JNumber node_id)]);
  if node_is_protected node then cdp_lift (Err (locator_failure RProtected)) else mret node_id.

Definition focus_and_insert (cdp_session : string) (node_id : Z) (text : string) : Cdp unit :=
  cdp_command "DOM.focus" (Some cdp_session) (JObject [("nodeId", JNumber node_id)]);;
  cdp_command "Input.insertText" (Some cdp_session) (JObject [("text", JString text)]);;
  mret tt.

Definition mouse_event (cdp_session kind : string) (at_point : spec_float * spec_float) : Cdp Json :=
  cdp_command "Input.dispatchMouseEvent" (Some cdp_session)
    (JObject [("type", JString kind); ("x", json_of_f64 (fst at_point));
      ("y", json_of_f64 (snd at_point)); ("button", JString "left"); ("clickCount", JNumber 1)]).

Definition enter_key (cdp_session kind : string) : Cdp Json :=
  cdp_command "Input.dispatchKeyEvent" (Some cdp_session)
    (JObject [("type", JString kind); ("key", JString "Enter"); ("code", JString "Enter")]).

(** Text an agent may send: bounded, and without NUL. *)
Definition public_text_ok (limit : Z) (text : string) : bool :=
  (slen text <=? limit) && negb (contains text (String "000" EmptyString)).
End Commands.

(** ** The handlers *)

Section Handlers.
Context `{ManagedChrome, Hashes, UnicodeCase, JsonCodec, JsonFloats, UrlParser, HashIter} {P : Type}.

Definition set_pipe (m : ManagedBrowser) (pipe : CdpPipe) : ManagedBrowser := {|
  mb_launched := mb_launched m; mb_cdp_pipe := Some pipe; mb_filter := mb_filter m |}.

(** [browser_transport], and the commands that are run on what it returns. *)
Definition browser_transport (session_id : BrowserSessionId) :
    Broker P (BrowserInstanceId * ManagedBrowser * CdpPipe) :=
  ss ← gets sessions;
  active ← require RpcErrorCode.SESSION_TERMINATED "Unknown browser session" (ss !! session_id);
  if bool_decide (bs_state (abs_session active) ≠ BrowserSessionState.Active)
  then fail_with RpcErrorCode.SESSION_TERMINATED "Browser session is not active" else
  let instance_id := bs_instance_id (abs_session active) in
  browsers ← gets managed_browsers;
  browser ← require RpcErrorCode.SESSION_TERMINATED "Managed browser is unavailable"
    (browsers !! instance_id);
  pipe ← require RpcErrorCode.SESSION_TERMINATED "Private browser transport is unavailable"
    (mb_cdp_pipe browser);
  mret (instance_id, browser, pipe).

Definition with_transport {A : Type} (session_id : BrowserSessionId) (m : Cdp A) : Broker P A :=
  '(instance_id, browser, pipe) ← browser_transport session_id;
  let '(r, pipe) := m (mb_filter browser) pipe in
  modify (fun b => set_managed_browsers b
    (<[instance_id := set_pipe browser pipe]> (managed_browsers b)));;
  lift id r.

(** The same on an attached tab. *)
Definition on_tab {A : Type} (session_id : BrowserSessionId) (tab_id : string)
    (m : string -> Cdp A) : Broker P A :=
  with_transport session_id (cdp_session ← attach_tab tab_id; m cdp_session).

Definition browser_launch_status (instance_id : BrowserInstanceId) : Broker P BrowserLaunchResult :=
  browsers ← gets managed_browsers;
  browser ← require RpcErrorCode.INVALID_PARAMS "Unknown browser instance" (browsers !! instance_id);
  ss ← gets sessions;
  diagnostics ← draw (fun n => startup_diagnostics n (mb_launched browser));
  mret {| lr_instance_id := instance_id; lr_profile_id := id_str instance_id;
          lr_browser_session_id := (fun a => bs_session_id (abs_session a)) <$>
            List.find (fun a => bool_decide (bs_instance_id (abs_session a) = instance_id))
              (map snd (hash_iter ss));
          lr_gateway_endpoint := "agent-rpc:constrained-browser";
          lr_diagnostics := diagnostics |}.

Definition handle_browser_tabs (params : BrowserSessionParams) : Broker P Json :=
  with_transport (bs_params_session_id params) (
    result ← cdp_command "Target.getTargets" None (JObject []);
    let targets := match json_get "targetInfos" result with Some (JArray l) => l | _ => [] end in
    mret (JObject [("tabs", JArray (omap tab_json targets))])).

Definition handle_browser_open_tab (params : BrowserOpenTabParams) : Broker P Json :=
  url ← lift id (safe_navigation_url (bo_url params) true);
  with_transport (bo_session_id params) (
    result ← cdp_command "Target.createTarget" None (JObject [("url", JString url)]);
    mret (JObject [("tab_id", default JNull (json_get "targetId" result))])).

Definition handle_browser_close_tab (params : BrowserTabParams) : Broker P Json :=
  with_transport (bt_session_id params) (
    cdp_command "Target.closeTarget" None (JObject [("targetId", JString (bt_tab_id params))]);;
    mret (JObject [("closed", JBool true)])).

Definition handle_browser_navigate (params : BrowserNavigateParams) : Broker P Json :=
  url ← lift id (safe_navigation_url (bn_url params) false);
  on_tab (bn_session_id params) (bn_tab_id params) (fun cdp_session =>
    cdp_command "Page.navigate" (Some cdp_session) (JObject [("url", JString url)]);;
    mret (JObject [("navigated", JBool true)])).

Definition handle_browser_reload (params : BrowserTabParams) : Broker P Json :=
  on_tab (bt_session_id params) (bt_tab_id params) (fun cdp_session =>
    cdp_command "Page.reload" (Some cdp_session) (JObject [("ignoreCache", JBool false)]);;
    mret (JObject [("reloaded", JBool true)])).

(** The addition wraps, as in a release build. *)
Definition history_step (offset : Z) (cdp_session : string) : Cdp Json :=
  history ← history_of cdp_session;
  current ← or_failure (json_get "currentIndex" history ≫= json_as_i64);
  entries ← or_failure (match json_get "entries" history with
                        | Some (JArray entries) => Some entries
                        | _ => None
                        end);
  let target_index := u64_as_i64 (i64_as_u64 (current + offset)) in
  if (target_index <? 0) || (Z.of_nat (length entries) <=? target_index)
  then cdp_lift (Err (rpc_error RpcErrorCode.INVALID_PARAMS "No such history entry")) else
  let entry := nth (Z.to_nat target_index) entries JNull in
  raw_url ← or_failure (json_get "url" entry ≫= json_as_str);
  cdp_lift (safe_navigation_url raw_url true);;
  entry_id ← or_failure (json_get "id" entry ≫= json_as_i64);
  cdp_command "Page.navigateToHistoryEntry" (Some cdp_session)
    (JObject [("entryId", JNumber entry_id)]);;
  mret (JObject [("navigated", JBool true)]).

Definition navigate_history (session_id : BrowserSessionId) (tab_id : string) (offset : Z) :
    Broker P Json := on_tab session_id tab_id (history_step offset).
Definition handle_browser_back (params : BrowserTabParams) : Broker P Json :=
  navigate_history (bt_session_id params) (bt_tab_id params) (-1).
Definition handle_browser_forward (params : BrowserTabParams) : Broker P Json :=
  navigate_history (bt_session_id params) (bt_tab_id params) 1.

Definition handle_page_read_text (params : PageReadTextParams) : Broker P Json :=
  guard_observation (pd_session_id params);;
  on_tab (pd_session_id params) (pd_tab_id params) (fun cdp_session =>
    let limits := clamped None (pd_max_chars params) in
    projection ← match pd_locator params with
                 | Some locator =>
                     node_id ← resolve_locator cdp_session locator;
                     project_subtree cdp_session node_id limits
                 | None => project_document cdp_session limits
                 end;
    mret (JObject [("text", JString (text_string (pp_text projection)));
                   ("truncated", JBool (pp_text_truncated projection))])).

Definition handle_page_snapshot_safe (params : PageSnapshotParams) : Broker P Json :=
  guard_observation (sp_session_id params);;
  on_tab (sp_session_id params) (sp_tab_id params) (fun cdp_session =>
    projection ← project_document cdp_session (clamped (sp_max_nodes params) None);
    nodes ← (if default true (sp_check_visibility params)
             then probe_visibility cdp_session MAX_VISIBILITY_PROBES (pp_nodes projection)
             else mret (pp_nodes projection));
    url ← tab_url cdp_session;
    mret (JObject [("url", JString url); ("elements", JArray (map node_json nodes));
                   ("truncated", JBool (pp_nodes_truncated projection))])).

Definition evaluate_wait_condition (params : PageWaitForParams) : Broker P bool :=
  on_tab (pw_session_id params) (pw_tab_id params) (fun cdp_session =>
    match pw_condition params with
    | LocatorPresent locator =>
        r ← cdp_attempt (resolve_locator cdp_session locator); mret (is_ok r)
    | LocatorAbsent locator =>
        r ← cdp_attempt (resolve_locator cdp_session locator); mret (negb (is_ok r))
    | TextPresent value =>
        projection ← project_document cdp_session (clamped None None);
        mret (text_contains (to_lowercase (pp_text projection)) (to_lowercase (trim (chars value))))
    | UrlPrefix value => current ← tab_url cdp_session; mret (starts_with current value)
    | UrlChangedFrom value =>
        current ← tab_url cdp_session; mret (negb (bool_decide (current = value)))
    end).

Section Waiting.
Context `{Monotonic}.

Definition sleep (duration : Z) : Broker P unit := fun w : World P =>
  (Done tt, {| w_broker := w_broker w; w_tick := sleep_until (w_tick w) duration |}).

Definition nanos_per_milli : Z := 1000000.

(** The polls; [None] when the fuel is used up. *)
Fixpoint wait_loop (fuel : nat) (params : PageWaitForParams) (deadline : Z) :
    Broker P (option Json) :=
  match fuel with
  | O => mret None
  | S fuel =>
      guard_observation (pw_session_id params);;
      satisfied ← evaluate_wait_condition params;
      if (satisfied : bool) then mret (Some (JObject [("satisfied", JBool true)])) else
      now ← draw instant_now;
      if deadline <=? now
      then fail_with RpcErrorCode.WAIT_TIMEOUT "Condition was not satisfied before the deadline"
      else
        sleep (WAIT_POLL_INTERVAL_MS * nanos_per_milli);;
        wait_loop fuel params deadline
  end.

Definition wait_timeout_ms (params : PageWaitForParams) : Z :=
  clamp 1 MAX_WAIT_TIMEOUT_MS (default DEFAULT_WAIT_TIMEOUT_MS (pw_timeout_ms params)).
(** A poll every 200 ms until the deadline, and one at or after it. *)
Definition wait_polls (params : PageWaitForParams) : nat :=
  S (S (Z.to_nat (wait_timeout_ms params / WAIT_POLL_INTERVAL_MS))).

Definition handle_page_wait_for (params : PageWaitForParams) : Broker P (option Json) :=
  start ← draw instant_now;
  wait_loop (wait_polls params) params (start + wait_timeout_ms params * nanos_per_milli).
End Waiting.

Definition handle_page_click (params : PageLocatorParams) : Broker P Json :=
  on_tab (pl_session_id params) (pl_tab_id params) (fun cdp_session =>
    node_id ← resolve_locator cdp_session (pl_locator params);
    center ← box_model_center cdp_session node_id;
    mouse_event cdp_session "mousePressed" center;;
    mouse_event cdp_session "mouseReleased" center;;
    mret (JObject [("clicked", JBool true)])).

Definition handle_page_type_public (params : PageTypePublicParams) : Broker P Json :=
  if negb (public_text_ok (16 * 1024) (pt_text params))
  then fail_with RpcErrorCode.INVALID_PARAMS "Public text rejected" else
  on_tab (pt_session_id params) (pt_tab_id params) (fun cdp_session =>
    node_id ← public_field cdp_session (pt_locator params);
    focus_and_insert cdp_session node_id (pt_text params);;
    mret (JObject [("typed", JBool true)])).

Definition handle_page_select (params : PageSelectParams) : Broker P Json :=
  if bool_decide (ps_label params = "") || negb (public_text_ok 1024 (ps_label params))
  then fail_with RpcErrorCode.INVALID_PARAMS "Public option rejected" else
  on_tab (ps_session_id params) (ps_tab_id params) (fun cdp_session =>
    node_id ← public_field cdp_session (ps_locator params);
    focus_and_insert cdp_session node_id (ps_label params);;
    enter_key cdp_session "keyDown";;
    enter_key cdp_session "keyUp";;
    mret (JObject [("selected", JBool true)])).
End Handlers.
