(* ===== verification/Wire.v ===== *)
(** * Wire: messages as JSON

    How the messages of [secretctl-protocol/src/jsonrpc.rs] and the handshake
    records of [agent.rs] are written and read, as serde derives it: a record is
    an object with its fields in order, an absent option is left out, and it is
    read by the names of the fields (or as an array, by position). The other
    parameters and results have an interface, [Serde]. *)

From S2P Require Import Prelude.
From S2P Require Import Externals.
From S2P Require Import Domain.
From S2P Require Import Protocol.
From S2P Require Import Admin.
From S2P Require Import BrokerState.
From S2P Require Import Framing.
From S2P Require Import FramingProps.

(** ** Reading a record *)

(** The values of the named fields; [deny] refuses other names. *)
Definition struct_fields (deny : bool) (names : list string) (v : Json) :
    result string (list (option Json)) :=
  match v with
  | JObject fields =>
      if deny && existsb (fun '(k, _) => bool_decide (k ∉ names)) fields
      then Err "unknown field" else Ok (map (fun name => json_get name v) names)
  | JArray items =>
      if bool_decide (length items = length names) then Ok (map Some items) else Err "invalid length"
  | _ => Err "invalid type"
  end.

Definition missing {A : Type} : result string A := Err "missing field".
Definition invalid {A : Type} : result string A := Err "invalid type".

Definition read_text (o : option Json) : result string string :=
  match o with Some (JString s) => Ok s | Some _ => invalid | None => missing end.
Definition read_bool (o : option Json) : result string bool :=
  match o with Some (JBool b) => Ok b | Some _ => invalid | None => missing end.
Definition read_integer (low high : Z) (o : option Json) : result string Z :=
  match o with
  | Some (JNumber z) => if (low <=? z) && (z <=? high) then Ok z else invalid
  | Some _ => invalid
  | None => missing
  end.
Definition read_texts (o : option Json) : result string (list string) :=
  match o with
  | Some (JArray items) => collect (fun item => read_text (Some item)) items
  | Some _ => invalid
  | None => missing
  end.
(** An [Option]: absent and [null] are [None]. *)
Definition read_option {A : Type} (read : option Json -> result string A) (o : option Json) :
    result string (option A) :=
  match o with
  | None | Some JNull => Ok None
  | o => a ← read o; Ok (Some a)
  end.
Definition read_value (o : option Json) : result string Json :=
  match o with Some v => Ok v | None => missing end.

(** ** JSON-RPC *)

Definition id_to_value (id : RpcId) : Json :=
  match id with RpcString s => JString s | RpcNumber z => JNumber z | RpcNull => JNull end.
(** The variants are tried in order. *)
Definition read_id (o : option Json) : result string RpcId :=
  match o with
  | Some (JString s) => Ok (RpcString s)
  | Some (JNumber z) => if (- 2 ^ 63 <=? z) && (z <? 2 ^ 63) then Ok (RpcNumber z) else invalid
  | Some JNull => Ok RpcNull
  | Some _ => invalid
  | None => missing
  end.

Definition request_to_value (r : RpcRequest) : Json :=
  JObject ([("jsonrpc", JString (request_jsonrpc r)); ("id", id_to_value (request_rpc_id r));
            ("method", JString (request_method r))]
    ++ optional_field "params" (request_params r)).
Definition request_from_value (v : Json) : result string RpcRequest :=
  fields ← struct_fields false ["jsonrpc"; "id"; "method"; "params"] v;
  match fields with
  | [jsonrpc; id; method; params] =>
      jsonrpc ← read_text jsonrpc;
      id ← read_id id;
      method ← read_text method;
      params ← read_option read_value params;
      Ok {| request_jsonrpc := jsonrpc; request_rpc_id := id; request_method := method;
            request_params := params |}
  | _ => invalid
  end.

Definition error_to_value (e : RpcError) : Json :=
  JObject ([("code", JNumber (rpc_code e)); ("message", JString (rpc_message e))]
    ++ optional_field "data" (rpc_data e)).
Definition error_from_value (o : option Json) : result string RpcError :=
  v ← read_value o;
  fields ← struct_fields false ["code"; "message"; "data"] v;
  match fields with
  | [code; message; data] =>
      code ← read_integer (- 2 ^ 31) (2 ^ 31 - 1) code;
      message ← read_text message;
      data ← read_option read_value data;
      Ok {| rpc_code := code; rpc_message := message; rpc_data := data |}
  | _ => invalid
  end.

Definition response_to_value (r : RpcResponse) : Json :=
  JObject ([("jsonrpc", JString (response_jsonrpc r)); ("id", id_to_value (response_rpc_id r))]
    ++ optional_field "result" (response_result r)
    ++ optional_field "error" (error_to_value <$> response_error r)).
Definition response_from_value (v : Json) : result string RpcResponse :=
  fields ← struct_fields false ["jsonrpc"; "id"; "result"; "error"] v;
  match fields with
  | [jsonrpc; id; res; error] =>
      jsonrpc ← read_text jsonrpc;
      id ← read_id id;
      res ← read_option read_value res;
      error ← read_option error_from_value error;
      Ok {| response_jsonrpc := jsonrpc; response_rpc_id := id; response_result := res;
            response_error := error |}
  | _ => invalid
  end.

(** ** The handshake *)

Record SessionHelloResult : Type := {
  hr_protocol_version : string;
  hr_server_nonce : string;
  hr_ephemeral_public_key : string;
  hr_server_key_id : string;
  hr_signature : string
}.
Record SessionAuthenticateParams : Type := {
  sa_client_ephemeral_public_key : string;
  sa_signature : string
}.
Record SessionAuthenticateResult : Type := {
  sr_authenticated : bool;
  sr_rekey_after_seconds : Z
}.
Record SessionInfoResult : Type := {
  si_protocol_version : string;
  si_principal_id : string;
  si_role : string;
  si_rekey_after_seconds : Z
}.
Record ActionSubscribeParams : Type := {
  sb_request_id : RequestId;
  sb_after_state : option ActionRequestState.t;
  sb_after_detail : option string;
  sb_timeout_ms : Z
}.

Definition hello_to_value (h : SessionHelloParams) : Json :=
  JObject [("protocol_version", JString (sh_protocol_version h)); ("role", JString (sh_role h));
    ("principal_id", JString (sh_principal_id h)); ("client_nonce", JString (sh_client_nonce h));
    ("supported_suites", JArray (map JString (sh_supported_suites h)))].
Definition hello_from_value (v : Json) : result string SessionHelloParams :=
  fields ← struct_fields true
    ["protocol_version"; "role"; "principal_id"; "client_nonce"; "supported_suites"] v;
  match fields with
  | [version; role; principal; nonce; suites] =>
      version ← read_text version;
      role ← read_text role;
      principal ← read_text principal;
      nonce ← read_text nonce;
      suites ← read_texts suites;
      Ok {| sh_protocol_version := version; sh_role := role; sh_principal_id := principal;
            sh_client_nonce := nonce; sh_supported_suites := suites |}
  | _ => invalid
  end.

Definition hello_result_to_value (r : SessionHelloResult) : Json :=
  JObject [("protocol_version", JString (hr_protocol_version r));
    ("server_nonce", JString (hr_server_nonce r));
    ("ephemeral_public_key", JString (hr_ephemeral_public_key r));
    ("server_key_id", JString (hr_server_key_id r)); ("signature", JString (hr_signature r))].
Definition hello_result_from_value (v : Json) : result string SessionHelloResult :=
  fields ← struct_fields false
    ["protocol_version"; "server_nonce"; "ephemeral_public_key"; "server_key_id"; "signature"] v;
  match fields with
  | [version; nonce; key; key_id; signature] =>
      version ← read_text version;
      nonce ← read_text nonce;
      key ← read_text key;
      key_id ← read_text key_id;
      signature ← read_text signature;
      Ok {| hr_protocol_version := version; hr_server_nonce := nonce;
            hr_ephemeral_public_key := key; hr_server_key_id := key_id; hr_signature := signature |}
  | _ => invalid
  end.

Definition authenticate_to_value (p : SessionAuthenticateParams) : Json :=
  JObject [("client_ephemeral_public_key", JString (sa_client_ephemeral_public_key p));
    ("signature", JString (sa_signature p))].
Definition authenticate_from_value (v : Json) : result string SessionAuthenticateParams :=
  fields ← struct_fields true ["client_ephemeral_public_key"; "signature"] v;
  match fields with
  | [key; signature] =>
      key ← read_text key;
      signature ← read_text signature;
      Ok {| sa_client_ephemeral_public_key := key; sa_signature := signature |}
  | _ => invalid
  end.

Definition authenticated_to_value (r : SessionAuthenticateResult) : Json :=
  JObject [("authenticated", JBool (sr_authenticated r));
    ("rekey_after_seconds", JNumber (sr_rekey_after_seconds r))].
Definition authenticated_from_value (v : Json) : result string SessionAuthenticateResult :=
  fields ← struct_fields false ["authenticated"; "rekey_after_seconds"] v;
  match fields with
  | [authenticated; rekey] =>
      authenticated ← read_bool authenticated;
      rekey ← read_integer 0 u64_max rekey;
      Ok {| sr_authenticated := authenticated; sr_rekey_after_seconds := rekey |}
  | _ => invalid
  end.

(** [serde_json::to_vec], and what [serde_json] reads back of it. *)
Definition to_vec `{JsonCodec} (v : Json) : list byte := as_bytes (json_print v).

Class JsonReaderLaws `{JsonCodec, JsonReader} := {
  json_read_print v : json_read (to_vec v) = Ok v
}.

Definition info_to_value (r : SessionInfoResult) : Json :=
  JObject [("protocol_version", JString (si_protocol_version r));
    ("principal_id", JString (si_principal_id r)); ("role", JString (si_role r));
    ("rekey_after_seconds", JNumber (si_rekey_after_seconds r))].

(** ** The other records

    One constructor per type that crosses the sockets; reading and writing them
    is the code serde derives. *)

Inductive Wire : Type -> Type :=
| WActionRequest : Wire ActionRequestParams
| WActionAuthenticate : Wire ActionAuthenticateParams
| WActionStatus : Wire RequestId
| WActionSubscribe : Wire ActionSubscribeParams
| WActionCancel : Wire RequestId
| WActionResponse : Wire ActionResponseResult
| WActionAuthenticated : Wire ActionAuthenticateResult
| WActionStatusResult : Wire ActionStatusResult
| WActionCancelResult : Wire ActionCancelResult
| WBrowserSession : Wire BrowserSessionParams
| WBrowserOpenTab : Wire BrowserOpenTabParams
| WBrowserTab : Wire BrowserTabParams
| WBrowserNavigate : Wire BrowserNavigateParams
| WPageLocator : Wire PageLocatorParams
| WPageTypePublic : Wire PageTypePublicParams
| WPageSelect : Wire PageSelectParams
| WPageReadText : Wire PageReadTextParams
| WPageSnapshot : Wire PageSnapshotParams
| WPageWaitFor : Wire PageWaitForParams
| WBrowserRegister : Wire BrowserRegisterParams
| WBrowserRegistered : Wire BrowserRegisterResult
| WExecutionNext : Wire BrowserSessionId
| WExecutionOffer : Wire (option ExecutionOfferResult)
| WExecutorPrepare : Wire ExecutorContextPayload
| WExecutorPrepared : Wire ExecutorPrepareResult
| WExecutorConsume : Wire ExecutorConsumeParams
| WExecutorConsumed : Wire ExecutorConsumeResult
| WOAuthCallback : Wire OAuthCallbackParams
| WOAuthCallbackResult : Wire OAuthCallbackResult
| WExecutorResult : Wire ExecutorResultParams
| WExecutorHeartbeat : Wire ExecutorHeartbeatParams
| WAcknowledged : Wire unit
| WBrowserLaunch : Wire BrowserLaunchParams
| WBrowserLaunched : Wire BrowserLaunchResult
| WBrowserClose : Wire BrowserCloseParams
| WApprovals : Wire (list Approval)
| WApprovalDecide : Wire ApprovalDecideParams
| WCapabilityList : Wire CapabilityListParams
| WCapabilities : Wire (list CapabilitySummary)
| WCapabilityRevoke : Wire CapabilityRevokeParams
| WUiStatus : Wire UiStatus
| WUiRequests : Wire (list UiAuthorizationRequest)
| WApprovalLookup : Wire ApprovalId
| WUiRequest : Wire UiAuthorizationRequest
| WUiActivity : Wire UiActivityParams
| WUiEvents : Wire (list UiActivityEvent)
| WUiAgents : Wire (list UiAgent)
| WUiCredentials : Wire (list UiCredential)
| WUiSessions : Wire (list UiBrowserSession)
| WGrantList : Wire GrantListParams
| WUiGrants : Wire (list UiGrant)
| WGrantCreate : Wire GrantCreateParams
| WGrantCreated : Wire GrantCreateResult
| WGrantRevoke : Wire GrantRevokeParams
| WGrantRevoked : Wire GrantRevokeResult
| WAgentDisable : Wire AgentDisableParams
| WPolicyReload : Wire PolicyReloadParams.

Class Serde := {
  from_value : forall {T : Type}, Wire T -> Json -> result string T;
  to_value : forall {T : Type}, Wire T -> T -> result string Json
}.

(** ** Round trips *)

(** Identifiers that are numbers are [i64]. *)
Definition id_in_range (i : RpcId) : Prop :=
  match i with RpcNumber z => - 2 ^ 63 <= z < 2 ^ 63 | _ => True end.

(** A value all of whose parts can be read strictly. *)
Definition strictly_readable (v : Json) : Prop := json_depth v <= 32 /\ keys_distinct v.

Section RoundTrips.
Context `{JsonCodec, !JsonReader, !JsonReaderLaws}.

Lemma read_back {T : Type} (from : Json -> result string T) v :
  strictly_readable v -> from_slice_strict from (to_vec v) = map_err ProtocolJson (from v).
Proof.
  intros [Hd Hk]. unfold from_slice_strict. rewrite json_read_print. cbn [mbind result_bind].
  replace (strict_value 0 v) with (Ok (E := string) v); [done|]. symmetry.
  apply strict_value_Ok; [lia|]. by split_and!.
Qed.
End RoundTrips.

Lemma read_id_to_value i :
  id_in_range i ->
  read_id (Some (id_to_value i)) = Ok i.
Proof.
  destruct i as [s|z|]; [done| |done]. intros Hz. cbn [id_in_range id_to_value read_id] in *.
  rewrite (proj2 (Z.leb_le _ _)), (proj2 (Z.ltb_lt _ _)) by lia. done.
Qed.

Lemma collect_texts l : collect (fun item => read_text (Some item)) (map JString l) = Ok l.
Proof. induction l as [|s l IH]; [done|]. simpl in *. by rewrite IH. Qed.

Lemma hello_round_trip h : hello_from_value (hello_to_value h) = Ok h.
Proof.
  destruct h as [version role principal nonce suites]. unfold hello_from_value, hello_to_value.
  pose proof (collect_texts suites) as Hc. simpl in *. by rewrite Hc.
Qed.

Lemma hello_result_round_trip r : hello_result_from_value (hello_result_to_value r) = Ok r.
Proof. by destruct r. Qed.

Lemma authenticate_round_trip p : authenticate_from_value (authenticate_to_value p) = Ok p.
Proof. by destruct p. Qed.

Lemma authenticated_round_trip r :
  0 <= sr_rekey_after_seconds r <= u64_max ->
  authenticated_from_value (authenticated_to_value r) = Ok r.
Proof.
  destruct r as [a z]. intros Hz. cbn [sr_rekey_after_seconds] in Hz.
  assert (Hr : read_integer 0 u64_max (Some (JNumber z)) = Ok z).
  { cbn [read_integer]. by rewrite !(proj2 (Z.leb_le _ _)) by lia. }
  transitivity (rekey ← read_integer 0 u64_max (Some (JNumber z));
    Ok (E := string) {| sr_authenticated := a; sr_rekey_after_seconds := rekey |}); [done|].
  by rewrite Hr.
Qed.

Lemma read_some_value v : v <> JNull -> read_option read_value (Some v) = Ok (Some v).
Proof. by destruct v. Qed.

Lemma request_round_trip r :
  id_in_range (request_rpc_id r) -> request_params r <> Some JNull ->
  request_from_value (request_to_value r) = Ok r.
Proof.
  destruct r as [version i method params]. cbn [request_rpc_id request_params]. intros Hi Hp.
  transitivity (j ← read_id (Some (id_to_value i));
    args ← read_option read_value params;
    Ok (E := string) {| request_jsonrpc := version; request_rpc_id := j;
                        request_method := method; request_params := args |});
    [by destruct params|].
  rewrite read_id_to_value by done. destruct params as [params|]; [|done].
  cbn [mbind result_bind]. by rewrite read_some_value by congruence.
Qed.

Lemma success_round_trip i v :
  id_in_range i -> v <> JNull ->
  response_from_value (response_to_value (rpc_success i v)) = Ok (rpc_success i v).
Proof.
  intros Hi Hv. transitivity (j ← read_id (Some (id_to_value i));
    r ← read_option read_value (Some v);
    Ok (E := string) {| response_jsonrpc := "2.0"; response_rpc_id := j; response_result := r;
                        response_error := None |}); [done|].
  rewrite read_id_to_value by done. cbn [mbind result_bind]. by rewrite read_some_value.
Qed.
