(* ===== verification/Handshake.v ===== *)
(** * Handshake: the signed key exchange of every connection

    The messages by which the sockets of [secretctld/src/server.rs] and the
    native messaging host ([secretctl-native-host/src/bridge.rs]) agree on the
    keys of a channel: hello, the broker's ephemeral key under its signature,
    the client's ephemeral key under the principal's. *)

From S2P Require Import Prelude.
From S2P Require Import Externals.
From S2P Require Import Domain.
From S2P Require Import Crypto.
From S2P Require Import Protocol.
From S2P Require Import Framing.
From S2P Require Import Wire.

Definition SUITE : string := "X25519-HKDF-SHA256-CHACHA20POLY1305".

Definition offers_suite (hello : SessionHelloParams) : bool :=
  existsb (fun suite => bool_decide (suite = SUITE)) (sh_supported_suites hello).

(** What the broker signs in its answer to a hello. *)
Definition hello_transcript `{Hashes} (client_nonce server_nonce principal_id : string)
    (server_public : list byte) : list byte :=
  compute_context_digest [
    as_bytes "secretctl-session-hello-v1"; as_bytes client_nonce; as_bytes server_nonce;
    as_bytes principal_id; server_public].

(** The broker's answer to a hello. *)
Definition hello_answer `{Hashes, Signatures, Base64, X25519} (broker_key : KeyPair)
    (key_id : string) (hello : SessionHelloParams) (server_nonce : string)
    (server_ephemeral : StaticX25519) : SessionHelloResult :=
  let server_public := ephemeral_public server_ephemeral in {|
  hr_protocol_version := "1.0";
  hr_server_nonce := server_nonce;
  hr_ephemeral_public_key := b64_encode server_public;
  hr_server_key_id := key_id;
  hr_signature := b64_encode (sign broker_key
    (hello_transcript (sh_client_nonce hello) server_nonce (sh_principal_id hello)
       server_public)) |}.

(** [try_into] of a vector into [[u8; 32]]. *)
Definition key_of_slice (bytes : list byte) : option (list byte) :=
  if bool_decide (length bytes = 32%nat) then Some bytes else None.

Inductive HandshakeError : Type :=
| BadEncoding (message : string)
| InvalidEphemeralKey
| SignatureRejected.

(** The broker's check of [session.authenticate], under the key the principal
    has: the secret both sides now share. *)
Definition check_authentication `{Hashes, Signatures, Base64, X25519}
    (public_key : list byte) (hello : SessionHelloParams) (server_nonce : string)
    (server_ephemeral : StaticX25519) (params : SessionAuthenticateParams) :
    result HandshakeError (list byte) :=
  client_public ← map_err BadEncoding (b64_decode (sa_client_ephemeral_public_key params));
  client_public ← ok_or InvalidEphemeralKey (key_of_slice client_public);
  signature ← map_err BadEncoding (b64_decode (sa_signature params));
  _ ← map_err (fun _ => SignatureRejected)
    (verify_signature public_key
       (session_auth_transcript hello server_nonce (ephemeral_public server_ephemeral)
          client_public) signature);
  Ok (diffie_hellman server_ephemeral client_public).

Definition authentication_result : SessionAuthenticateResult :=
  {| sr_authenticated := true; sr_rekey_after_seconds := 600 |}.

(** The client's check of the broker's answer, under the key it pins. *)
Definition check_hello_answer `{Hashes, Signatures, Base64} (broker_public_key : list byte)
    (hello : SessionHelloParams) (server : SessionHelloResult) :
    result HandshakeError (list byte) :=
  server_public ← map_err BadEncoding (b64_decode (hr_ephemeral_public_key server));
  server_public ← ok_or InvalidEphemeralKey (key_of_slice server_public);
  signature ← map_err BadEncoding (b64_decode (hr_signature server));
  _ ← map_err (fun _ => SignatureRejected)
    (verify_signature broker_public_key
       (hello_transcript (sh_client_nonce hello) (hr_server_nonce server)
          (sh_principal_id hello) server_public) signature);
  Ok server_public.

(** The client's half of [session.authenticate]. *)
Definition authentication `{Hashes, Signatures, Base64, X25519} (signing_key : KeyPair)
    (hello : SessionHelloParams) (server_nonce : string) (server_public : list byte)
    (client_ephemeral : StaticX25519) : SessionAuthenticateParams :=
  let client_public := ephemeral_public client_ephemeral in {|
  sa_client_ephemeral_public_key := b64_encode client_public;
  sa_signature := b64_encode (sign signing_key
    (session_auth_transcript hello server_nonce server_public client_public)) |}.

(** ** Properties *)

Section Properties.
Context `{Hashes, Signatures, Base64, X25519, !SignatureLaws, !Base64Laws, !X25519Laws}.

Lemma key_of_slice_Some b k : key_of_slice b = Some k <-> k = b /\ length b = 32%nat.
Proof. unfold key_of_slice. case_bool_decide; naive_solver. Qed.

Lemma key_of_ephemeral e :
  length (x_secret e) = 32%nat -> key_of_slice (ephemeral_public e) = Some (ephemeral_public e).
Proof.
  intros He. apply key_of_slice_Some. split; [done|]. unfold ephemeral_public.
  by rewrite length_x_public.
Qed.

Lemma verify_sign (k : KeyPair) m :
  length (signing_key k) = 32%nat -> verify_signature (public_key_bytes k) m (sign k m) = Ok tt.
Proof.
  intros Hk. unfold verify_signature, public_key_bytes, sign, blen.
  rewrite length_ed_public, length_ed_sign, ed_public_valid, ed_verify_sign by done. done.
Qed.

(** An honest answer passes the client's check, and an honest authentication
    the broker's; both sides then have the same secret. *)
Lemma honest_hello_answer (k : KeyPair) kid hello nonce e :
  length (signing_key k) = 32%nat -> length (x_secret e) = 32%nat ->
  check_hello_answer (public_key_bytes k) hello (hello_answer k kid hello nonce e)
  = Ok (ephemeral_public e).
Proof.
  intros Hk He. unfold check_hello_answer, hello_answer.
  cbn [hr_ephemeral_public_key hr_signature hr_server_nonce].
  rewrite !b64_round_trip. cbn [map_err mbind result_bind].
  rewrite key_of_ephemeral by done.
  cbn [ok_or mbind result_bind]. by rewrite verify_sign.
Qed.

Lemma honest_authentication (k : KeyPair) hello nonce server client :
  length (signing_key k) = 32%nat ->
  length (x_secret server) = 32%nat -> length (x_secret client) = 32%nat ->
  check_authentication (public_key_bytes k) hello nonce server
    (authentication k hello nonce (ephemeral_public server) client)
  = Ok (diffie_hellman client (ephemeral_public server)).
Proof.
  intros Hk Hs Hc. unfold check_authentication, authentication.
  cbn [sa_client_ephemeral_public_key sa_signature].
  rewrite !b64_round_trip. cbn [map_err mbind result_bind].
  rewrite key_of_ephemeral by done.
  cbn [ok_or mbind result_bind]. rewrite verify_sign by done. cbn [map_err mbind result_bind].
  unfold diffie_hellman, ephemeral_public. by rewrite x_agree.
Qed.
End Properties.

(** What an accepted authentication carried. *)
Lemma check_authentication_Ok `{Hashes, Signatures, Base64, X25519} pk hello nonce e params s :
  check_authentication pk hello nonce e params = Ok s ->
  exists client_public signature,
    b64_decode (sa_client_ephemeral_public_key params) = Ok client_public /\
    length client_public = 32%nat /\ b64_decode (sa_signature params) = Ok signature /\
    verify_signature pk (session_auth_transcript hello nonce (ephemeral_public e) client_public)
      signature = Ok tt /\
    s = diffie_hellman e client_public.
Proof.
  unfold check_authentication. destruct (b64_decode (sa_client_ephemeral_public_key params))
    as [client_public|] eqn:Hc; [|done]. cbn [map_err mbind result_bind].
  destruct (key_of_slice client_public) as [k|] eqn:Hk; [|done].
  apply key_of_slice_Some in Hk as [-> Hk]. cbn [ok_or mbind result_bind].
  destruct (b64_decode (sa_signature params)) as [signature|] eqn:Hs; [|done].
  cbn [map_err mbind result_bind].
  destruct (verify_signature pk _ signature) as [[]|] eqn:Hv; [|done].
  intros [= <-]. eauto 10.
Qed.


(** ** What a signature of the handshake is good for *)

Definition collision `{Hashes} : Prop := exists a b, a <> b /\ sha256 a = sha256 b.

Section Binding.
Context `{Hashes}.

Lemma digest_binds a b :
  Forall slice_ok a -> Forall slice_ok b ->
  compute_context_digest a = compute_context_digest b -> a = b \/ collision.
Proof.
  intros Ha Hb Hd. destruct (context_digest_binds_components a b Ha Hb Hd) as [?|[Hn He]];
    [by left|right]. by do 2 eexists.
Qed.

Definition auth_parts (hello : SessionHelloParams) (nonce : string) (server client : list byte) :
    list (list byte) := [
  as_bytes "secretctl-session-auth-v1"; as_bytes (sh_protocol_version hello);
  as_bytes (sh_role hello); as_bytes (sh_principal_id hello); as_bytes (sh_client_nonce hello);
  as_bytes nonce; server; client].
Definition hello_parts (client_nonce server_nonce principal_id : string)
    (server : list byte) : list (list byte) := [
  as_bytes "secretctl-session-hello-v1"; as_bytes client_nonce; as_bytes server_nonce;
  as_bytes principal_id; server].

(** A signature of the handshake is good for one session. Unless SHA-256
    collides: what a principal signs to authenticate determines the protocol
    version, the role, the principal, both nonces and both ephemeral keys, so it
    is of no use in another session or another role; and what the broker signs
    when it answers a hello is never what the administrator, whose key is the
    broker's, signs to authenticate: the broker cannot be asked for it. *)
Theorem signatures_are_for_one_session hello nonce server client :
  Forall slice_ok (auth_parts hello nonce server client) ->
  (forall hello' nonce' server' client',
     Forall slice_ok (auth_parts hello' nonce' server' client') ->
     session_auth_transcript hello nonce server client
     = session_auth_transcript hello' nonce' server' client' ->
     (sh_protocol_version hello = sh_protocol_version hello' /\ sh_role hello = sh_role hello' /\
      sh_principal_id hello = sh_principal_id hello' /\
      sh_client_nonce hello = sh_client_nonce hello' /\
      nonce = nonce' /\ server = server' /\ client = client') \/ collision) /\
  (forall client_nonce server_nonce principal_id server',
     Forall slice_ok (hello_parts client_nonce server_nonce principal_id server') ->
     session_auth_transcript hello nonce server client
     = hello_transcript client_nonce server_nonce principal_id server' -> collision).
Proof.
  intros Hs. split.
  - intros hello' nonce' server' client' Hs' Hd.
    destruct (digest_binds _ _ Hs Hs' Hd) as [He|?]; [left|by right].
    unfold auth_parts in He. injection He as Hv Hr Hp Hc Hn -> ->.
    repeat match goal with Ha : as_bytes _ = as_bytes _ |- _ => apply as_bytes_inj in Ha end.
    by split_and!.
  - intros cn sn pid server' Hs' Hd. by destruct (digest_binds _ _ Hs Hs' Hd) as [?|?].
Qed.
End Binding.
