(* ===== verification/Bridge.v ===== *)
(** * Bridge: the native messaging host between extension and broker

    Models [run_stdio_bridge] of [secretctl-native-host/src/bridge.rs] as the
    sequence of what it sends and what it makes of each message it receives: the
    handshake with the broker, and then one request of the extension after the
    other. A step that fails ends the process. The random bytes and identifiers a
    step uses, and the environment variables, are its arguments; the sockets, and
    the write of the enrollment file, are not modelled. *)

From S2P Require Import Prelude.
From S2P Require Import Externals.
From S2P Require Import Domain.
From S2P Require Import Crypto.
From S2P Require Import Enrollment.
From S2P Require Import Protocol.
From S2P Require Import Framing.
From S2P Require Import BrokerState.
From S2P Require Import Wire.
From S2P Require Import Handshake.

(** ** Objects in insertion order: [serde_json::Map]

    [insert] replaces the value of a key in its place, or appends; [remove] puts
    the last entry in the place of the removed one. *)

Fixpoint map_insert (key : string) (v : Json) (fields : list (string * Json)) :
    list (string * Json) :=
  match fields with
  | [] => [(key, v)]
  | (k, x) :: fields =>
      if bool_decide (k = key) then (k, v) :: fields else (k, x) :: map_insert key v fields
  end.

Fixpoint key_position (key : string) (fields : list (string * Json)) : option nat :=
  match fields with
  | [] => None
  | (k, _) :: fields => if bool_decide (k = key) then Some O else S <$> key_position key fields
  end.

Definition map_remove (key : string) (fields : list (string * Json)) :
    option Json * list (string * Json) :=
  match key_position key fields, List.rev fields with
  | Some i, final :: _ => (snd <$> fields !! i, removelast (<[i := final]> fields))
  | _, _ => (None, fields)
  end.

(** ** Interfaces: the envelope cipher, the environment of the process, and the
    derived reader of a proof *)

Class EnvelopeCipher := {
  aes256_gcm_encrypt : list byte -> list byte -> list byte -> list byte -> option (list byte);
  aes256_gcm_decrypt : list byte -> list byte -> list byte -> list byte -> option (list byte)
}.
Class EnvelopeCipherLaws `{EnvelopeCipher} := {
  aes256_gcm_round_trip key nonce aad m c :
    aes256_gcm_encrypt key nonce aad m = Some c -> aes256_gcm_decrypt key nonce aad c = Some m
}.
Class ProcessVariables := { env_var : string -> option string }.
Class ProofReader := { proof_from_value : Json -> result string ExtensionProof }.

(** ** What ends the bridge *)

Inductive BridgeError : Type :=
| BridgeFailure (message : string)
| BridgeProtocol (e : ProtocolError)
| BridgeCrypto (e : CryptoError)
| BridgeHandshake (e : HandshakeError)
| BridgeEnrollment (e : EnrollmentError)
| BridgeSerde (message : string).

Definition need {A : Type} (message : string) (o : option A) : result BridgeError A :=
  ok_or (BridgeFailure message) o.
Definition insist (condition : bool) (message : string) : result BridgeError unit :=
  if condition then Ok tt else Err (BridgeFailure message).

Section Bridge.
Context `{Hashes, Signatures, Aead, X25519, Base64, JsonCodec, !JsonReader, EnvelopeCipher,
  ProcessVariables, ProofReader}.

(** ** The handshake *)

Definition bridge_hello (principal_id client_nonce : string) : SessionHelloParams := {|
  sh_protocol_version := "1.0"; sh_role := "executor"; sh_principal_id := principal_id;
  sh_client_nonce := client_nonce; sh_supported_suites := [SUITE] |}.

Definition bridge_request_of (id method : string) (params : Json) : RpcRequest := {|
  request_jsonrpc := "2.0"; request_rpc_id := RpcString id; request_method := method;
  request_params := Some params |}.

(** The first message. *)
Definition bridge_start (hello : SessionHelloParams) : list byte :=
  to_vec (request_to_value (bridge_request_of "native-hello" "session.hello" (hello_to_value hello))).

(** [RpcResponse<T>] with the result read as a [T]. *)
Definition read_result {A : Type} (from : Json -> result string A) (message : string)
    (wire : list byte) : result BridgeError A :=
  response ← map_err BridgeProtocol (from_slice_strict (fun v =>
    r ← response_from_value v;
    match response_result r with Some v => a ← from v; Ok (Some a) | None => Ok None end) wire);
  need message response.

(** The answer to the hello, checked against the pinned key: the shared secret's
    other half, and the second message. *)
Definition bridge_authenticate (broker_public_key : list byte) (signing_key : KeyPair)
    (hello : SessionHelloParams) (client_ephemeral : StaticX25519) (hello_wire : list byte) :
    result BridgeError (SessionHelloResult * list byte * list byte) :=
  server ← read_result hello_result_from_value "broker rejected executor hello" hello_wire;
  _ ← insist (bool_decide (hr_protocol_version server = "1.0")) "protocol downgrade rejected";
  server_public ← map_err BridgeHandshake (check_hello_answer broker_public_key hello server);
  let auth := authentication signing_key hello (hr_server_nonce server) server_public
                client_ephemeral in
  Ok (server, server_public, to_vec (request_to_value
    (bridge_request_of "native-auth" "session.authenticate" (authenticate_to_value auth)))).

Definition BRIDGE_INFO : list byte := as_bytes "secretctl-executor-session-v1".

Definition bridge_establish (server : SessionHelloResult) (server_public : list byte)
    (client_ephemeral : StaticX25519) (auth_wire : list byte) : result BridgeError SecureChannel :=
  auth ← read_result authenticated_from_value "broker rejected executor authentication" auth_wire;
  _ ← insist (sr_authenticated auth) "broker rejected executor authentication";
  Ok (new_client (diffie_hellman client_ephemeral server_public)
        (as_bytes (hr_server_nonce server)) BRIDGE_INFO).

(** ** The bridge between extension and broker *)

Record Bridge : Type := {
  nb_channel : SecureChannel;
  nb_session_material : list byte;
  nb_executor_session_proof : option string;
  nb_enrollment : ExtensionEnrollment;
  nb_extension_challenge : option ExtensionChallenge
}.

Definition new_bridge (channel : SecureChannel) (session_material : list byte)
    (enrollment : ExtensionEnrollment) : Bridge := {|
  nb_channel := channel; nb_session_material := session_material;
  nb_executor_session_proof := None; nb_enrollment := enrollment;
  nb_extension_challenge := None |}.

Definition challenge_to_value (c : ExtensionChallenge) : Json :=
  JObject [("nonce", JString (challenge_nonce c));
    ("pairing_code", match challenge_pairing_code c with Some s => JString s | None => JNull end);
    ("paired", JBool (challenge_paired c))].

Definition object_params (message : string) (request : RpcRequest) :
    result BridgeError (list (string * Json)) :=
  need message match request_params request with Some (JObject fields) => Some fields | _ => None end.

Definition with_params (request : RpcRequest) (fields : list (string * Json)) : RpcRequest := {|
  request_jsonrpc := request_jsonrpc request; request_rpc_id := request_rpc_id request;
  request_method := request_method request; request_params := Some (JObject fields) |}.

(** [browser.register]: the identity of the browser is the launcher's, and the
    extension's key is the one that signed the challenge. *)
Definition register_request (b : Bridge) (request : RpcRequest) :
    result BridgeError (RpcRequest * Bridge) :=
  fields ← object_params "browser.register parameters missing" request;
  instance_id ← need "browser was not launched by secretctl"
    (env_var "SECRETCTL_BROWSER_INSTANCE_ID");
  launcher_nonce ← need "browser launch nonce unavailable"
    (env_var "SECRETCTL_BROWSER_LAUNCH_NONCE");
  profile_id ← need "managed profile attestation unavailable"
    (env_var "SECRETCTL_BROWSER_PROFILE_ID");
  let fields := map_insert "instance_id" (JString instance_id) fields in
  let fields := map_insert "launcher_nonce" (JString launcher_nonce) fields in
  let fields := map_insert "profile_id" (JString profile_id) fields in
  let '(proof, fields) := map_remove "extension_proof" fields in
  proof ← need "extension proof missing" proof;
  proof ← map_err BridgeSerde (proof_from_value proof);
  challenge ← need "extension challenge missing" (nb_extension_challenge b);
  let '(key_id, enrollment) :=
    verify_and_enroll (challenge_nonce challenge) proof (nb_enrollment b) in
  key_id ← map_err BridgeEnrollment key_id;
  Ok (with_params request (map_insert "extension_key_id" (JString key_id) fields),
      {| nb_channel := nb_channel b; nb_session_material := nb_session_material b;
         nb_executor_session_proof := nb_executor_session_proof b;
         nb_enrollment := enrollment; nb_extension_challenge := None |}).

Definition consume_request_of (b : Bridge) (request : RpcRequest) : result BridgeError RpcRequest :=
  fields ← object_params "executor.consume parameters missing" request;
  proof ← need "browser session is not registered" (nb_executor_session_proof b);
  Ok (with_params request (map_insert "session_signature" (JString proof) fields)).

Definition set_bridge_channel (b : Bridge) (channel : SecureChannel) : Bridge := {|
  nb_channel := channel; nb_session_material := nb_session_material b;
  nb_executor_session_proof := nb_executor_session_proof b;
  nb_enrollment := nb_enrollment b; nb_extension_challenge := nb_extension_challenge b |}.

(** A frame of the extension: answered here, or sealed for the broker. *)
Inductive BridgeAction : Type :=
| AnswerExtension (payload : list byte)
| ForwardRequest (request : RpcRequest) (wire : list byte).

(** What the broker is sent of the extension's request. *)
Definition forwarded (b : Bridge) (request : RpcRequest) :
    result BridgeError (RpcRequest * Bridge) :=
  if bool_decide (request_method request = "browser.register") then register_request b request
  else if bool_decide (request_method request = "executor.consume") then
    request ← consume_request_of b request; Ok (request, b)
  else Ok (request, b).

Definition extension_frame (random : list byte) (b : Bridge) (frame : list byte) :
    result BridgeError (BridgeAction * Bridge) :=
  request ← map_err BridgeProtocol (from_slice_strict request_from_value frame);
  if bool_decide (request_method request = "extension.challenge") then
    let given := challenge (nb_enrollment b) random in
    Ok (AnswerExtension (to_vec (response_to_value
          (rpc_success (request_rpc_id request) (challenge_to_value given)))),
        {| nb_channel := nb_channel b; nb_session_material := nb_session_material b;
           nb_executor_session_proof := nb_executor_session_proof b;
           nb_enrollment := nb_enrollment b; nb_extension_challenge := Some given |})
  else
    '(request, b) ← forwarded b request;
    let '(wire, channel) := encrypt (nb_channel b) (to_vec (request_to_value request)) in
    wire ← map_err BridgeCrypto wire;
    Ok (ForwardRequest request wire, set_bridge_channel b channel).

(** [response.result.as_mut().and_then(as_object_mut)], with what replaces it. *)
Definition with_result (response : RpcResponse) (fields : list (string * Json)) : RpcResponse := {|
  response_jsonrpc := response_jsonrpc response; response_rpc_id := response_rpc_id response;
  response_result := Some (JObject fields); response_error := response_error response |}.

Definition register_response (b : Bridge) (response : RpcResponse) :
    result BridgeError (RpcResponse * Bridge) :=
  match response_result response with
  | Some (JObject fields) =>
      let '(proof, fields) := map_remove "session_proof" fields in
      proof ← need "browser registration omitted executor session proof" (proof ≫= json_as_str);
      Ok (with_result response (map_insert "session_material"
            (JString (b64_encode (nb_session_material b))) fields),
          {| nb_channel := nb_channel b; nb_session_material := nb_session_material b;
             nb_executor_session_proof := Some proof; nb_enrollment := nb_enrollment b;
             nb_extension_challenge := nb_extension_challenge b |})
  | _ => Ok (response, b)
  end.

Definition envelope (nonce ciphertext : list byte) : Json :=
  JObject [("nonce", JString (b64_encode nonce)); ("ciphertext", JString (b64_encode ciphertext))].

(** The plaintext of the envelope. *)
Definition fields_plaintext (fields : Json) : list byte := to_vec (JObject [("fields", fields)]).

Definition consume_response (nonce : list byte) (b : Bridge) (response : RpcResponse) :
    result BridgeError RpcResponse :=
  match response_result response with
  | Some (JObject fields) =>
      execution_id ← need "consume result missing execution ID"
        (json_get "execution_id" (JObject fields) ≫= json_as_str);
      let '(secret, fields) := map_remove "fields" fields in
      secret ← need "consume result missing fields" secret;
      ciphertext ← need "extension envelope encryption failed"
        (aes256_gcm_encrypt (nb_session_material b) nonce (as_bytes execution_id)
           (fields_plaintext secret));
      Ok (with_result response (map_insert "secret_envelope" (envelope nonce ciphertext) fields))
  | _ => Ok response
  end.

(** The broker's answer to a forwarded request, as the extension is given it. *)
Definition broker_frame (nonce : list byte) (b : Bridge) (request : RpcRequest)
    (encrypted : list byte) : result BridgeError (list byte * Bridge) :=
  let '(message, channel) := decrypt (nb_channel b) encrypted in
  message ← map_err BridgeCrypto message;
  response ← map_err BridgeProtocol (from_slice_strict response_from_value message);
  let b := set_bridge_channel b channel in
  '(response, b) ←
    (if bool_decide (request_method request = "browser.register") then register_response b response
     else if bool_decide (request_method request = "executor.consume") then
       response ← consume_response nonce b response; Ok (response, b)
     else Ok (response, b));
  Ok (to_vec (response_to_value response), b).
End Bridge.
