(* ===== verification/BridgeProps.v ===== *)
(** * BridgeProps: what passes between the extension and the broker

    The extension has no say in who it is, sees no secret but in its envelope,
    and an honest bridge and broker end their handshake with matching keys. *)

From S2P Require Import Prelude.
From S2P Require Import Externals.
From S2P Require Import Domain.
From S2P Require Import Crypto.
From S2P Require Import Enrollment.
From S2P Require Import Protocol.
From S2P Require Import Framing.
From S2P Require Import FramingProps.
From S2P Require Import BrokerState.
From S2P Require Import Wire.
From S2P Require Import Handshake.
From S2P Require Import Bridge.

(** ** Objects *)

Definition keys (fields : list (string * Json)) : list string := map fst fields.

Lemma get_insert key v fields : json_get key (JObject (map_insert key v fields)) = Some v.
Proof.
  cbn [json_get]. induction fields as [|[k x] fields IH]; cbn [map_insert List.find].
  - by rewrite bool_decide_true.
  - case_bool_decide; cbn [List.find].
    + subst. by rewrite bool_decide_true.
    + by rewrite bool_decide_false.
Qed.

Lemma get_insert_ne key k v fields :
  k <> key -> json_get k (JObject (map_insert key v fields)) = json_get k (JObject fields).
Proof.
  intros Hk. cbn [json_get]. induction fields as [|[k' x] fields IH]; cbn [map_insert List.find].
  - by rewrite bool_decide_false.
  - case_bool_decide; cbn [List.find]; case_bool_decide; subst; try done.
Qed.

Lemma keys_insert key v fields k :
  k ∈ keys (map_insert key v fields) <-> k = key \/ k ∈ keys fields.
Proof.
  induction fields as [|[k' x] fields IH]; cbn [map_insert keys map fst]; [set_solver|].
  case_bool_decide; cbn [map fst]; unfold keys in IH; set_solver.
Qed.

Lemma NoDup_insert key v fields : NoDup (keys fields) -> NoDup (keys (map_insert key v fields)).
Proof.
  induction fields as [|[k' x] fields IH]; cbn [map_insert keys map fst].
  - intros _. apply NoDup_singleton.
  - intros [Hk Hn]%list.NoDup_cons. case_bool_decide; cbn [map fst]; [by apply list.NoDup_cons|].
    apply list.NoDup_cons. split; [|by apply IH]. intros Hin%keys_insert. destruct Hin; [done|]. done.
Qed.

(** With distinct keys, looking up is being an entry. *)
Lemma get_elem k v fields :
  NoDup (keys fields) -> json_get k (JObject fields) = Some v <-> (k, v) ∈ fields.
Proof.
  cbn [json_get]. induction fields as [|[k' x] fields IH]; cbn [keys map fst List.find].
  - intros _. split; [done|set_solver].
  - intros [Hk Hn]%list.NoDup_cons. case_bool_decide as He.
    + subst. cbn. split; [intros [= ->]; by left|]. intros [[= ->]|Hin]%elem_of_cons; [done|].
      exfalso. apply Hk. apply list_elem_of_In, in_map_iff. exists (k, v).
      by rewrite <-list_elem_of_In.
    + rewrite (IH Hn), elem_of_cons. split; [by right|]. intros [[= ? ?]|?]; [congruence|done].
Qed.

Lemma get_Permutation k fields fields' :
  NoDup (keys fields) -> fields ≡ₚ fields' ->
  json_get k (JObject fields) = json_get k (JObject fields').
Proof.
  intros Hn Hp. assert (Hn' : NoDup (keys fields')).
  { unfold keys in *. by rewrite <-Hp. }
  apply option_eq. intros v. by rewrite !get_elem, Hp.
Qed.

Lemma key_position_lookup key fields i :
  key_position key fields = Some i -> exists v, fields !! i = Some (key, v).
Proof.
  revert i. induction fields as [|[k v] fields IH]; intros i; [done|]. cbn [key_position].
  case_bool_decide; [intros [= <-]; subst; by exists v|].
  destruct (key_position key fields) as [j|]; [|done]. intros [= <-]. by apply IH.
Qed.
Lemma key_position_None key fields : key_position key fields = None -> key ∉ keys fields.
Proof.
  induction fields as [|[k v] fields IH]; cbn [key_position keys map fst]; [set_solver|].
  case_bool_decide; [done|]. destruct (key_position key fields); [done|]. intros _.
  apply not_elem_of_cons. split; [congruence|by apply IH].
Qed.

Lemma map_remove_spec key fields v rest :
  map_remove key fields = (v, rest) ->
  match v with
  | Some v => fields ≡ₚ (key, v) :: rest
  | None => rest = fields /\ key ∉ keys fields
  end.
Proof.
  unfold map_remove. destruct (key_position key fields) as [i|] eqn:Hi.
  2: { intros [= <- <-]. split; [done|]. by apply key_position_None. }
  apply key_position_lookup in Hi as (x & Hx).
  destruct (rev fields) as [|final prefix] eqn:Hr.
  { apply (f_equal (@rev _)) in Hr. rewrite rev_involutive in Hr. by subst. }
  assert (Hf : fields = rev prefix ++ [final]).
  { by rewrite <-(rev_involutive fields), Hr. }
  intros [= <- <-]. rewrite Hx. cbn. subst fields. clear Hr.
  set (l := rev prefix) in *. clearbody l.
  destruct (decide (i < length l)%nat) as [Hlt|Hge].
  - rewrite insert_app_l, removelast_last by done. rewrite lookup_app_l in Hx by done.
    rewrite <-(take_drop_middle l i (key, x) Hx) at 1.
    rewrite insert_take_drop by done. rewrite <-!Permutation_middle.
    by rewrite Permutation_swap, Permutation_app_comm.
  - rewrite lookup_app_r in Hx by lia.
    destruct (i - length l)%nat as [|n] eqn:Hn; [|done]. injection Hx as ->.
    replace i with (length l + 0)%nat by lia. rewrite insert_app_r. cbn.
    rewrite removelast_last. by rewrite Permutation_app_comm.
Qed.

(** ** What is read strictly has distinct keys, at every depth *)

Lemma strict_read `{JsonReader} {T : Type} (from : Json -> result string T) bytes t :
  from_slice_strict from bytes = Ok t -> exists v, keys_distinct v /\ from v = Ok t.
Proof.
  unfold from_slice_strict. destruct (json_read bytes) as [raw|e]; [|done]. cbn [mbind result_bind].
  destruct (strict_value 0 raw) as [v|e] eqn:Hs; [|done].
  apply strict_value_Ok in Hs as (-> & _ & Hk); [|lia]. cbn [mbind result_bind].
  destruct (from raw) as [t'|] eqn:Hf; [|done]. intros [= <-]. by exists raw.
Qed.

Lemma distinct_get key v x : keys_distinct v -> json_get key v = Some x -> keys_distinct x.
Proof.
  destruct v as [| | | | | |fields]; try done. intros [_ Hk]. cbn [json_get].
  induction fields as [|[k y] fields IH]; [done|]. cbn [List.find]. destruct Hk as [Hy Hk].
  case_bool_decide; [by intros [= <-]|by apply IH].
Qed.
Lemma distinct_item items i x :
  keys_distinct (JArray items) -> items !! i = Some x -> keys_distinct x.
Proof.
  revert i. induction items as [|y items IH]; intros i; [done|]. intros [Hy Hk].
  destruct i as [|i]; [by intros [= <-]|]. by apply IH.
Qed.

(** Every field that is read of a value is a part of it. *)
Lemma struct_fields_distinct deny names v fields x :
  keys_distinct v -> struct_fields deny names v = Ok fields -> Some x ∈ fields -> keys_distinct x.
Proof.
  intros Hv. destruct v as [| | | | |items|entries]; try done; unfold struct_fields.
  - case_bool_decide; [|done]. intros [= <-] Hin.
    apply list_elem_of_fmap in Hin as (y & [= <-] & Hy).
    apply list_elem_of_lookup in Hy as (i & Hi). by eapply distinct_item.
  - destruct (_ && _); [done|]. intros [= <-] Hin.
    apply list_elem_of_fmap in Hin as (k & Hx & _). by eapply distinct_get.
Qed.

Lemma read_option_value o r : read_option read_value o = Ok (Some r) -> o = Some r.
Proof. by destruct o as [[]|]; intros [= <-]. Qed.

(** Takes apart the reading of a record. *)
Ltac read_fields Hr :=
  repeat match type of Hr with
  | (match ?x with _ => _ end) = Ok _ => destruct x eqn:?; try discriminate Hr
  | (?m ≫= ?f) = Ok _ => destruct m eqn:?; [|discriminate Hr]; cbn [mbind result_bind] in Hr
  end.

Lemma request_params_distinct v r params :
  keys_distinct v -> request_from_value v = Ok r -> request_params r = Some params ->
  keys_distinct params.
Proof.
  unfold request_from_value. intros Hv Hr Hp.
  destruct (struct_fields _ _ v) as [fields|] eqn:Hf; [|done]. cbn [mbind result_bind] in Hr.
  read_fields Hr. injection Hr as <-. cbn [request_params] in Hp. subst.
  match goal with Hx : read_option read_value _ = _ |- _ => apply read_option_value in Hx; subst end.
  eapply struct_fields_distinct; [exact Hv|exact Hf|]. set_solver.
Qed.
Lemma response_result_distinct v r res :
  keys_distinct v -> response_from_value v = Ok r -> response_result r = Some res ->
  keys_distinct res.
Proof.
  unfold response_from_value. intros Hv Hr Hp.
  destruct (struct_fields _ _ v) as [fields|] eqn:Hf; [|done]. cbn [mbind result_bind] in Hr.
  read_fields Hr. injection Hr as <-. cbn [response_result] in Hp. subst.
  match goal with Hx : read_option read_value _ = _ |- _ => apply read_option_value in Hx; subst end.
  eapply struct_fields_distinct; [exact Hv|exact Hf|]. set_solver.
Qed.

Lemma need_Ok {A : Type} m (o : option A) a : need m o = Ok a -> o = Some a.
Proof. destruct o; [|done]. by intros [= ->]. Qed.

Section Properties.
Context `{Hashes, Signatures, Aead, X25519, Base64, JsonCodec, !JsonReader, EnvelopeCipherLaws,
  ProcessVariables, ProofReader}.

Lemma register_request_Ok b request request' b' :
  register_request b request = Ok (request', b') ->
  exists instance_id launcher_nonce profile_id proof challenge key_id enrollment fields' ,
    env_var "SECRETCTL_BROWSER_INSTANCE_ID" = Some instance_id /\
    env_var "SECRETCTL_BROWSER_LAUNCH_NONCE" = Some launcher_nonce /\
    env_var "SECRETCTL_BROWSER_PROFILE_ID" = Some profile_id /\
    nb_extension_challenge b = Some challenge /\
    verify_and_enroll (challenge_nonce challenge) proof (nb_enrollment b) = (Ok key_id, enrollment) /\
    nb_enrollment b' = enrollment /\ nb_extension_challenge b' = None /\
    nb_channel b' = nb_channel b /\
    request' = with_params request fields' /\
    (forall fields, request_params request = Some (JObject fields) -> NoDup (keys fields) ->
      json_get "instance_id" (JObject fields') = Some (JString instance_id) /\
      json_get "launcher_nonce" (JObject fields') = Some (JString launcher_nonce) /\
      json_get "profile_id" (JObject fields') = Some (JString profile_id) /\
      json_get "extension_key_id" (JObject fields') = Some (JString key_id)).
Proof.
  unfold register_request, object_params. intros Hr.
  destruct (request_params request) as [[| | | | | |fields]|] eqn:Hp; try discriminate Hr.
  cbn [need ok_or mbind result_bind] in Hr.
  destruct (env_var "SECRETCTL_BROWSER_INSTANCE_ID") as [i|]; [|discriminate Hr].
  destruct (env_var "SECRETCTL_BROWSER_LAUNCH_NONCE") as [n|]; [|discriminate Hr].
  destruct (env_var "SECRETCTL_BROWSER_PROFILE_ID") as [pr|]; [|discriminate Hr].
  cbn [need ok_or mbind result_bind] in Hr.
  set (f1 := map_insert "profile_id" _ _) in Hr.
  destruct (map_remove "extension_proof" f1) as [v rest] eqn:Hrem.
  destruct v as [v|]; [|discriminate Hr]. cbn [need ok_or mbind result_bind] in Hr.
  destruct (proof_from_value v) as [proof|]; [|discriminate Hr]. cbn [map_err mbind result_bind] in Hr.
  destruct (nb_extension_challenge b) as [ch|]; [|discriminate Hr].
  cbn [need ok_or mbind result_bind] in Hr.
  destruct (verify_and_enroll _ proof _) as [[key_id|] enr] eqn:Hv; [|discriminate Hr].
  injection Hr as <- <-.
  exists i, n, pr, proof, ch, key_id, enr, (map_insert "extension_key_id" (JString key_id) rest).
  split_and!; try done. intros ? [= <-] Hn. rewrite !get_insert_ne, get_insert by done.
  apply map_remove_spec in Hrem.
  assert (Hf1 : NoDup (keys f1)) by (subst f1; by repeat apply NoDup_insert).
  assert (Hget : forall k, k <> "extension_proof" ->
    json_get k (JObject rest) = json_get k (JObject f1)).
  { intros k Hk. rewrite (get_Permutation k f1 _ Hf1 Hrem). cbn [json_get List.find].
    by rewrite bool_decide_false. }
  rewrite !Hget by done. subst f1. rewrite !get_insert, !get_insert_ne, get_insert by done.
  by rewrite get_insert_ne, get_insert by done.
Qed.

(** C18: the extension has no say in who it is. Whatever frame it sends, what the
    bridge forwards is a request of the same method and identifier, sealed for
    the broker; a registration names the instance, launch nonce and profile of
    the process's environment, and the key that signed the challenge last given
    out, which is spent by that; a consumption carries the session proof the
    bridge keeps. *)
Theorem extension_cannot_choose_its_identity random b frame request wire b' :
  extension_frame random b frame = Ok (ForwardRequest request wire, b') ->
  exists original,
    from_slice_strict request_from_value frame = Ok original /\
    request_method request = request_method original /\
    request_rpc_id request = request_rpc_id original /\
    fst (encrypt (nb_channel b) (to_vec (request_to_value request))) = Ok wire /\
    (request_method original = "browser.register" ->
       exists instance_id launcher_nonce profile_id proof challenge key_id fields,
         env_var "SECRETCTL_BROWSER_INSTANCE_ID" = Some instance_id /\
         env_var "SECRETCTL_BROWSER_LAUNCH_NONCE" = Some launcher_nonce /\
         env_var "SECRETCTL_BROWSER_PROFILE_ID" = Some profile_id /\
         nb_extension_challenge b = Some challenge /\ nb_extension_challenge b' = None /\
         verify_and_enroll (challenge_nonce challenge) proof (nb_enrollment b)
         = (Ok key_id, nb_enrollment b') /\
         request_params request = Some (JObject fields) /\
         json_get "instance_id" (JObject fields) = Some (JString instance_id) /\
         json_get "launcher_nonce" (JObject fields) = Some (JString launcher_nonce) /\
         json_get "profile_id" (JObject fields) = Some (JString profile_id) /\
         json_get "extension_key_id" (JObject fields) = Some (JString key_id)) /\
    (request_method original = "executor.consume" ->
       exists proof fields, nb_executor_session_proof b = Some proof /\
         request_params request = Some (JObject fields) /\
         json_get "session_signature" (JObject fields) = Some (JString proof)) /\
    (request_method original <> "browser.register" ->
     request_method original <> "executor.consume" -> request = original).
Proof.
  unfold extension_frame. intros Hr.
  destruct (from_slice_strict request_from_value frame) as [original|] eqn:Hf; [|done].
  cbn [map_err mbind result_bind] in Hr. case_bool_decide; [done|].
  destruct (forwarded b original) as [[request1 b1]|] eqn:Hfw; [|done]. cbn [mbind result_bind] in Hr.
  destruct (encrypt (nb_channel b1) _) as [[w|] ch] eqn:He; [|done].
  cbn [map_err mbind result_bind] in Hr. injection Hr as <- <- <-.
  destruct (strict_read _ _ _ Hf) as (v & Hv & Hread).
  exists original. split; [done|]. unfold forwarded in Hfw. case_bool_decide as Hreg.
  - destruct original as [jv rid method params]. cbn [request_method] in *. subst method.
    apply register_request_Ok in Hfw as Hreg.
    destruct Hreg as (i & n & pr & proof & c & kid & enr & fields & Hi & Hn & Hpr & Hc & Hve & <- & Hc' & Hch & -> & Hfields).
    rewrite Hch in He. rewrite He. split_and!; try done. intros _.
    unfold register_request, object_params in Hfw. cbn [request_params] in Hfw.
    destruct params as [[| | | | | |fs]|]; try discriminate Hfw.
    destruct (Hfields fs eq_refl) as (H1' & H2' & H3' & H4').
    { apply (request_params_distinct _ _ (JObject fs) Hv Hread eq_refl). }
    exists i, n, pr, proof, c, kid, fields. by split_and!.
  - case_bool_decide as Hcon.
    + destruct (consume_request_of b original) as [r|] eqn:Hcr; [|done].
      cbn [mbind result_bind] in Hfw. injection Hfw as <- <-. rewrite He.
      unfold consume_request_of, object_params in Hcr.
      destruct (request_params original) as [[| | | | | |fs]|]; try discriminate Hcr.
      cbn [need ok_or mbind result_bind] in Hcr.
      destruct (nb_executor_session_proof b) as [proof|]; [|discriminate Hcr].
      injection Hcr as <-. split_and!; try done. intros _.
      exists proof. eexists. split_and!; [done..|]. apply get_insert.
    + injection Hfw as <- <-. rewrite He. by split_and!.
Qed.

Lemma get_removed key fields v rest k :
  NoDup (keys fields) -> map_remove key fields = (Some v, rest) ->
  NoDup (keys rest) /\ json_get key (JObject fields) = Some v /\
  json_get key (JObject rest) = None /\
  (k <> key -> json_get k (JObject rest) = json_get k (JObject fields)).
Proof.
  intros Hn Hr. apply map_remove_spec in Hr.
  assert (Hn' : NoDup (keys ((key, v) :: rest))) by (unfold keys in *; by rewrite <-Hr).
  pose proof Hn' as [Hk Hrest]%list.NoDup_cons. split_and!; [done| | |].
  - rewrite (get_Permutation key _ _ Hn Hr). cbn. by rewrite bool_decide_true.
  - destruct (json_get key (JObject rest)) as [x|] eqn:Hx; [|done].
    apply (get_elem _ _ _ Hrest) in Hx. exfalso. apply Hk.
    apply list_elem_of_fmap. by exists (key, x).
  - intros Hne. rewrite (get_Permutation k _ _ Hn Hr). cbn [json_get List.find].
    by rewrite bool_decide_false.
Qed.

(** What [map_remove] and [map_insert] together leave of an object. *)
Lemma replace_entry fields removed v rest added x :
  NoDup (keys fields) -> map_remove removed fields = (Some v, rest) -> added <> removed ->
  json_get removed (JObject fields) = Some v /\
  json_get removed (JObject (map_insert added x rest)) = None /\
  json_get added (JObject (map_insert added x rest)) = Some x /\
  (forall k, k <> removed -> k <> added ->
     json_get k (JObject (map_insert added x rest)) = json_get k (JObject fields)).
Proof.
  intros Hn Hr Hne. destruct (get_removed _ _ _ _ added Hn Hr) as (_ & Hv & Hnone & _).
  split_and!; [done|by rewrite get_insert_ne|by rewrite get_insert|].
  intros k Hk Ha. rewrite get_insert_ne by done.
  by destruct (get_removed _ _ _ _ k Hn Hr) as (_ & _ & _ & ->).
Qed.

(** C17: the secret reaches the extension in its envelope only. What the extension
    is given of the broker's answer is that answer, unless it is the result of a
    consumption or registration: of a consumption's, the fields are taken out and
    put in as a ciphertext bound to the execution, which the session's key opens
    to those fields; of a registration's, the session proof is taken out and kept,
    and the key put in. Every other entry is as the broker sent it. *)
Theorem secrets_reach_the_extension_only_sealed nonce b request encrypted payload b' :
  broker_frame nonce b request encrypted = Ok (payload, b') ->
  exists message response response',
    fst (decrypt (nb_channel b) encrypted) = Ok message /\
    from_slice_strict response_from_value message = Ok response /\
    payload = to_vec (response_to_value response') /\
    response_rpc_id response' = response_rpc_id response /\
    response_error response' = response_error response /\
    (request_method request = "executor.consume" -> forall fields,
       response_result response = Some (JObject fields) ->
       exists fields' secret execution_id ciphertext,
         response_result response' = Some (JObject fields') /\
         json_get "fields" (JObject fields) = Some secret /\
         json_get "execution_id" (JObject fields) = Some (JString execution_id) /\
         aes256_gcm_decrypt (nb_session_material b) nonce (as_bytes execution_id) ciphertext
         = Some (fields_plaintext secret) /\
         json_get "fields" (JObject fields') = None /\
         json_get "secret_envelope" (JObject fields') = Some (envelope nonce ciphertext) /\
         forall k, k <> "fields" -> k <> "secret_envelope" ->
           json_get k (JObject fields') = json_get k (JObject fields)) /\
    (request_method request = "browser.register" -> forall fields,
       response_result response = Some (JObject fields) ->
       exists fields' proof,
         response_result response' = Some (JObject fields') /\
         json_get "session_proof" (JObject fields) = Some (JString proof) /\
         nb_executor_session_proof b' = Some proof /\
         json_get "session_proof" (JObject fields') = None /\
         forall k, k <> "session_proof" -> k <> "session_material" ->
           json_get k (JObject fields') = json_get k (JObject fields)) /\
    (request_method request <> "executor.consume" ->
     request_method request <> "browser.register" -> response' = response).
Proof.
  unfold broker_frame. intros Hr.
  destruct (decrypt (nb_channel b) encrypted) as [[message|] ch] eqn:Hd; [|done].
  cbn [map_err mbind result_bind fst] in *.
  destruct (from_slice_strict response_from_value message) as [response|] eqn:Hf; [|done].
  cbn [map_err mbind result_bind] in Hr. destruct (strict_read _ _ _ Hf) as (v & Hv & Hread).
  assert (Hn : forall fields, response_result response = Some (JObject fields) -> NoDup (keys fields)).
  { intros fields Hres. apply (response_result_distinct _ _ (JObject fields) Hv Hread Hres). }
  exists message, response. case_bool_decide as Hreg; [|case_bool_decide as Hcon].
  - unfold register_response in Hr.
    destruct (response_result response) as [res|] eqn:Hres.
    2: { injection Hr as <- <-. exists response. rewrite Hreg. by split_and!. }
    destruct res as [| | | | | |fields];
      try (injection Hr as <- <-; exists response; rewrite Hreg; by split_and!).
    destruct (map_remove "session_proof" fields) as [x rest] eqn:Hrem.
    destruct x as [x|]; [|discriminate Hr]. cbn [mbind option_bind] in Hr.
    destruct (json_as_str x) as [proof|] eqn:Hx; [|discriminate Hr]. injection Hr as <- <-.
    destruct x; try discriminate Hx. injection Hx as ->.
    eexists. split_and!; [done..| | |]; rewrite Hreg; try done.
    intros _ ? [= <-].
    destruct (replace_entry fields "session_proof" _ rest "session_material"
      (JString (b64_encode (nb_session_material (set_bridge_channel b ch)))) (Hn _ eq_refl) Hrem ltac:(done))
      as (Hg1 & Hg2 & _ & Hg4).
    eexists _, proof. by split_and!.
  - destruct (consume_response nonce _ response) as [response1|] eqn:Hc; [|done].
    injection Hr as <- <-. exists response1. unfold consume_response in Hc.
    destruct (response_result response) as [res|] eqn:Hres.
    2: { injection Hc as <-. rewrite Hcon. by split_and!. }
    destruct res as [| | | | | |fields]; try (injection Hc as <-; rewrite Hcon; by split_and!).
    destruct (json_get "execution_id" (JObject fields) ≫= json_as_str) as [eid|] eqn:He; [|discriminate Hc].
    cbn [need ok_or mbind result_bind] in Hc.
    destruct (map_remove "fields" fields) as [x rest] eqn:Hrem.
    destruct x as [secret|]; [|discriminate Hc]. cbn [need ok_or mbind result_bind] in Hc.
    destruct (aes256_gcm_encrypt _ _ _ _) as [ct|] eqn:Ha; [|discriminate Hc]. injection Hc as <-.
    split_and!; [done..| | |]; rewrite Hcon; try done.
    intros _ ? [= <-].
    destruct (replace_entry fields "fields" _ rest "secret_envelope" (envelope nonce ct)
      (Hn _ eq_refl) Hrem ltac:(done)) as (Hg1 & Hg2 & Hg3 & Hg4).
    destruct (json_get "execution_id" (JObject fields)) as [j|] eqn:Hj; [|discriminate He].
    destruct j; try discriminate He. injection He as ->.
    exists (map_insert "secret_envelope" (envelope nonce ct) rest), secret, eid, ct.
    split_and!; try done. by apply aes256_gcm_round_trip.
  - injection Hr as <- <-. exists response. by split_and!.
Qed.
End Properties.
