(* ===== verification/Server.v ===== *)
(** * Server: the daemon's sockets

    Models [secretctld/src/server.rs]: one connection of an agent, of an
    executor, or of the administrator, as the loop over its messages handles
    it. A message is the payload of one frame; [Framing.v] has the frames.

    A connection runs in the monad [Task]: it reads and writes the same [World]
    as the handlers and ends with a value or with the error that closes the
    connection. While a task sleeps, the broker's other tasks run: what they do
    to the world is the parameter [other_tasks]. Accepting connections, the
    permissions of the sockets and logging are left out. *)

From S2P Require Import Prelude.
From S2P Require Import Externals.
From S2P Require Import Domain.
From S2P Require Import Policy.
From S2P Require Import Crypto.
From S2P Require Import DomView.
From S2P Require Import Capability.
From S2P Require Import Provider.
From S2P Require Import Store.
From S2P Require Import OAuth.
From S2P Require Import Protocol.
From S2P Require Import Framing.
From S2P Require Import BrokerState.
From S2P Require Import Broker.
From S2P Require Import Admin.
From S2P Require Import Ui.
From S2P Require Import Pages.
From S2P Require Import Wire.
From S2P Require Import Handshake.

(** ** The errors that close a connection, and the monad *)

Inductive AnyhowError : Type :=
| Anyhow (message : string)
| AnyhowProtocol (e : ProtocolError)
| AnyhowCrypto (e : CryptoError)
| AnyhowStore (e : StoreError)
| AnyhowSerde (message : string)
| AnyhowHandshake (e : HandshakeError)
| AnyhowPolicy (e : PolicyError)
| AnyhowIo.

Definition Task `{ManagedChrome} (P A : Type) : Type :=
  World P -> outcome AnyhowError A * World P.

Section Tasks.
Context `{ManagedChrome} {P : Type}.

#[global] Instance task_ret : MRet (Task P) := fun A a w => (Done a, w).
#[global] Instance task_bind : MBind (Task P) := fun A B f m w =>
  match m w with
  | (Done a, w) => f a w
  | (Fail e, w) => (Fail e, w)
  | (Panicked, w) => (Panicked, w)
  end.

Definition bail {A : Type} (e : AnyhowError) : Task P A := fun w => (Fail e, w).
Definition ensure (condition : bool) (message : string) : Task P unit :=
  if condition then mret tt else bail (Anyhow message).
Definition try_ {E A : Type} (f : E -> AnyhowError) (r : result E A) : Task P A :=
  match r with Ok a => mret a | Err e => bail (f e) end.
Definition asks {A : Type} (f : BrokerState P -> A) : Task P A :=
  fun w => (Done (f (w_broker w)), w).
Definition drawing {A : Type} (f : nat -> A) : Task P A :=
  fun w => (Done (f (w_tick w)), {| w_broker := w_broker w; w_tick := S (w_tick w) |}).

(** A call of a handler, whose [Result] is then matched on; a panic in it ends
    the connection. *)
Definition serve {A : Type} (m : Broker P A) : Task P (result RpcError A) := fun w =>
  match m w with
  | (Done a, w) => (Done (Ok a), w)
  | (Fail e, w) => (Done (Err e), w)
  | (Panicked, w) => (Panicked, w)
  end.
End Tasks.

(** What the other tasks of the broker do to the world while this one sleeps. *)
Class OtherTasks `{ManagedChrome} (P : Type) := { other_tasks : World P -> World P }.
Class OtherTasksLaws `{OtherTasks} := {
  other_tasks_later w : (w_tick w <= w_tick (other_tasks w))%nat
}.

(** ** The peer of a socket *)

Record UCred : Type := { peer_uid : Z; peer_pid : option Z }.

(** The executable of a process, a file's bytes, and equality of paths, as the
    operating system and [std::path] give them. *)
Class PeerProcess := {
  executable_of : nat -> Z -> option string;
  read_file : nat -> string -> option (list byte);
  path_eqb : string -> string -> bool
}.

Section Peer.
Context `{ManagedChrome, Hashes, PeerProcess} {P : Type}.

Definition io {A : Type} (f : nat -> option A) : Task P A :=
  r ← drawing f; match r with Some a => mret a | None => bail AnyhowIo end.

Definition verify_peer_identity (principal : AgentPrincipal) (peer_cred : UCred) : Task P bool :=
  if is_some_and (fun uid => negb (uid =? peer_uid peer_cred)) (ag_peer_uid principal)
  then mret false
  else match ag_executable_hash principal with
  | None => mret true
  | Some expected_hash =>
      match peer_pid peer_cred with
      | None => mret false
      | Some pid =>
          executable_path ← io (fun n => executable_of n pid);
          if is_some_and (fun path => negb (path_eqb path executable_path))
               (ag_executable_path principal)
          then mret false
          else
            bytes ← io (fun n => read_file n executable_path);
            mret (bool_decide (sha256_digest bytes = expected_hash))
      end
  end.
End Peer.

(** ** Methods

    A method takes the identifier and the parameters of the request, and makes
    the response. [answer] is the block every arm of the dispatch repeats. *)

Definition Method `{ManagedChrome} (P : Type) : Type :=
  RpcId -> option Json -> Task P RpcResponse.

Fixpoint find_method {A : Type} (name : string) (methods : list (string * A)) : option A :=
  match methods with
  | [] => None
  | (n, m) :: methods => if bool_decide (name = n) then Some m else find_method name methods
  end.

Section Methods.
Context `{ManagedChrome, Serde} {P : Type}.

Definition from_params {A : Type} (from : Json -> result string A) (params : option Json) :
    Task P A := try_ AnyhowSerde (from (default JNull params)).

Definition respond {A : Type} (to_json : A -> result string Json) (id : RpcId)
    (r : result RpcError A) : Task P RpcResponse :=
  match r with
  | Ok a => value ← try_ AnyhowSerde (to_json a); mret (rpc_success id value)
  | Err e => mret (rpc_failure id e)
  end.

Definition answer_with {A B : Type} (from : Json -> result string A)
    (to_json : B -> result string Json) (handler : A -> Broker P B) : Method P :=
  fun id params =>
    params ← from_params from params;
    r ← serve (handler params);
    respond to_json id r.

Definition answer {A B : Type} (p : Wire A) (r : Wire B) (handler : A -> Broker P B) : Method P :=
  answer_with (from_value p) (to_value r) handler.
Definition answer_json {A : Type} (p : Wire A) (handler : A -> Broker P Json) : Method P :=
  answer_with (from_value p) Ok handler.

(** The arms that do not look at the parameters. *)
Definition answer_view {B : Type} (r : Wire B) (handler : Broker P B) : Method P :=
  fun id _ => r' ← serve handler; respond (to_value r) id r'.

Definition method_not_found (id : RpcId) : RpcResponse :=
  rpc_failure id (rpc_error RpcErrorCode.METHOD_NOT_FOUND "Method not found").
Definition hello_required (id : RpcId) : RpcResponse :=
  rpc_failure id (security_violation "session.hello required").
End Methods.

(** ** Sending and receiving *)

Section Channel.
Context `{ManagedChrome, Aead, JsonCodec, JsonReader, Monotonic} {P : Type}.

Definition REKEY_SECONDS : Z := 600.

(** [elapsed().as_secs()] of an [Instant]; an earlier clock reads as zero. *)
Definition elapsed_seconds (since now : Z) : Z := Z.max 0 (now - since) / nanos_per_second.

(** [framed.send]: the codec refuses what is too long. *)
Definition send (codec : LengthPrefixedCodec) (payload : list byte) : Task P (list byte) :=
  _ ← try_ AnyhowProtocol (encode codec payload []); mret payload.

Definition read_request (message : list byte) : Task P RpcRequest :=
  try_ AnyhowProtocol (from_slice_strict request_from_value message).

Definition unseal (channel : SecureChannel) (wire : list byte) :
    Task P (list byte * SecureChannel) :=
  let '(r, channel) := decrypt channel wire in
  message ← try_ AnyhowCrypto r; mret (message, channel).
Definition seal (channel : SecureChannel) (message : list byte) :
    Task P (list byte * SecureChannel) :=
  let '(r, channel) := encrypt channel message in
  wire ← try_ AnyhowCrypto r; mret (wire, channel).
End Channel.

(** ** The broker's half of the handshake *)

Record StartedHandshake : Type := {
  hs_hello : SessionHelloParams;
  hs_server_nonce : string;
  hs_server_ephemeral : StaticX25519
}.

Definition AGENT_INFO : list byte := as_bytes "secretctl-agent-session-v1".
Definition EXECUTOR_INFO : list byte := as_bytes "secretctl-executor-session-v1".
Definition ADMIN_INFO : list byte := as_bytes "secretctl-admin-session-v1".

Section Handshakes.
Context `{ManagedChrome, Hashes, Signatures, Aead, X25519, Base64, Environment} {P : Type}.

Definition start_handshake (hello : SessionHelloParams) :
    Task P (SessionHelloResult * StartedHandshake) :=
  server_nonce ← drawing env_uuid;
  secret ← drawing env_random;
  let server_ephemeral := {| x_secret := secret |} in
  key ← asks broker_key;
  kid ← asks key_id;
  mret (hello_answer key kid hello server_nonce server_ephemeral,
        {| hs_hello := hello; hs_server_nonce := server_nonce;
           hs_server_ephemeral := server_ephemeral |}).

Definition finish_handshake (public_key info : list byte) (started : StartedHandshake)
    (params : SessionAuthenticateParams) : Task P SecureChannel :=
  shared_secret ← try_ AnyhowHandshake
    (check_authentication public_key (hs_hello started) (hs_server_nonce started)
       (hs_server_ephemeral started) params);
  mret (new_server shared_secret (as_bytes (hs_server_nonce started)) info).
End Handshakes.

(** ** The agent's methods *)

Section Agent.
Context `{ManagedChrome, Chrono, Hashes, Signatures, Aead, X25519, Base64, Cbor, WireCodec,
  UrlParser, JsonCodec, !JsonReader, HashIter, Environment, HttpClient, SqliteText, UnicodeCase,
  JsonFloats, Monotonic, PeerProcess, Serde} {P : Type} `{SecretProvider P, !OtherTasks P}.
Variable platform : HostPlatform.

Definition POLL_MS : Z := 25.

(** [tokio::time::sleep]: the other tasks run, and the time has passed. *)
Definition suspend (duration : Z) : Task P unit := fun w =>
  let w := other_tasks w in
  (Done tt, {| w_broker := w_broker w; w_tick := sleep_until (w_tick w) duration |}).

(** A poll every 25 ms until the deadline, and one at or after it. *)
Definition polls (timeout_ms : Z) : nat := S (S (Z.to_nat (timeout_ms / POLL_MS))).
Definition deadline_after (timeout_ms : Z) : Task P Z :=
  now ← drawing instant_now; mret (now + timeout_ms * nanos_per_milli).

(** A loop of polls; [None] when the fuel is used up. *)
Definition poll_again {A : Type} (deadline : Z) (timed_out : A) (again : Task P (option A)) :
    Task P (option A) :=
  now ← drawing instant_now;
  if deadline <=? now then mret (Some timed_out)
  else suspend (POLL_MS * nanos_per_milli);; again.

Fixpoint await_request (fuel : nat) (request_id : RequestId) (deadline : Z)
    (result : ActionResponseResult) : Task P (option ActionResponseResult) :=
  match fuel with
  | O => mret None
  | S fuel =>
      current ← asks (fun b => requests b !! request_id);
      let result := default result current in
      if is_some_and (fun r => ActionRequestState.is_terminal (ar_state r)) current
      then mret (Some result)
      else poll_again deadline result (await_request fuel request_id deadline result)
  end.

Definition changed_since (params : ActionSubscribeParams) (status : ActionStatusResult) : bool :=
  bool_decide (sb_after_state params <> Some (st_state status))
  || bool_decide (sb_after_detail params <> st_detail status).

Fixpoint await_change (fuel : nat) (agent_id : AgentId) (params : ActionSubscribeParams)
    (deadline : Z) : Task P (option (result RpcError ActionStatusResult)) :=
  match fuel with
  | O => mret None
  | S fuel =>
      r ← serve (handle_action_status agent_id (sb_request_id params));
      match r with
      | Err e => mret (Some (Err e))
      | Ok status =>
          if changed_since params status || ActionRequestState.is_terminal (st_state status)
          then mret (Some (Ok status))
          else poll_again deadline (Ok status) (await_change fuel agent_id params deadline)
      end
  end.

(** What a loop left; it never is out of fuel, see [ServerProps]. *)
Definition finished_loop {A : Type} (o : option A) : Task P A := fun w =>
  match o with Some a => (Done a, w) | None => (Panicked, w) end.

(** [if should_wait && !result.state.is_terminal()] with its loop. *)
Definition wait_for_end (wait : bool) (timeout_ms : Z) (request_id : RequestId)
    (result : ActionResponseResult) : Task P ActionResponseResult :=
  if wait && negb (ActionRequestState.is_terminal (ar_state result))
  then
    deadline ← deadline_after timeout_ms;
    r ← await_request (polls timeout_ms) request_id deadline result;
    finished_loop r
  else mret result.

Definition action_request (agent_id : AgentId) : Method P := fun id params =>
  params ← from_params (from_value WActionRequest) params;
  r ← serve (handle_action_request platform agent_id params);
  match r with
  | Ok result =>
      result ← wait_for_end (rq_wait params) (rq_timeout_ms params) (rq_request_id params) result;
      respond (to_value WActionResponse) id (Ok result)
  | Err e => respond (to_value WActionResponse) id (Err e)
  end.

Definition set_authenticated_response (r : ActionAuthenticateResult)
    (response : ActionResponseResult) : ActionAuthenticateResult := {|
  aa_response := response; aa_action := aa_action r;
  aa_verified_origin := aa_verified_origin r;
  aa_browser_session_id := aa_browser_session_id r |}.

Definition action_authenticate (agent_id : AgentId) : Method P := fun id params =>
  params ← from_params (from_value WActionAuthenticate) params;
  r ← serve (handle_action_authenticate platform agent_id params);
  match r with
  | Ok result =>
      response ← wait_for_end (rn_wait params) (Z.min (rn_timeout_ms params) 60000)
        (ar_request_id (aa_response result)) (aa_response result);
      respond (to_value WActionAuthenticated) id (Ok (set_authenticated_response result response))
  | Err e => respond (to_value WActionAuthenticated) id (Err e)
  end.

Definition action_subscribe (agent_id : AgentId) : Method P := fun id params =>
  params ← from_params (from_value WActionSubscribe) params;
  let timeout_ms := Z.min (sb_timeout_ms params) 30000 in
  deadline ← deadline_after timeout_ms;
  r ← await_change (polls timeout_ms) agent_id params deadline;
  r ← finished_loop r;
  respond (to_value WActionStatusResult) id r.

Definition session_info (agent_id : AgentId) (authenticated_at : option Z) : Method P :=
  fun id _ =>
  rekey_after ← match authenticated_at with
    | Some started =>
        now ← drawing instant_now; mret (Z.max 0 (REKEY_SECONDS - elapsed_seconds started now))
    | None => mret 0
    end;
  respond (fun r => Ok (info_to_value r)) id (Ok {|
    si_protocol_version := "1.0"; si_principal_id := id_str agent_id; si_role := "agent";
    si_rekey_after_seconds := rekey_after |}).

Definition agent_methods (agent_id : AgentId) (authenticated_at : option Z) :
    list (string * Method P) := [
  ("action.request", action_request agent_id);
  ("action.authenticate", action_authenticate agent_id);
  ("session.info", session_info agent_id authenticated_at);
  ("action.status", answer WActionStatus WActionStatusResult (handle_action_status agent_id));
  ("action.subscribe", action_subscribe agent_id);
  ("action.cancel", answer WActionCancel WActionCancelResult (handle_action_cancel agent_id))].

Definition AGENT_METHODS : list string := [
  "action.request"; "action.authenticate"; "session.info"; "action.status"; "action.subscribe";
  "action.cancel"].

(** The arms with the guard [authenticated_agent.is_some()]. *)
Definition page_methods : list (string * Method P) := [
  ("browser.tabs", answer_json WBrowserSession handle_browser_tabs);
  ("browser.open_tab", answer_json WBrowserOpenTab handle_browser_open_tab);
  ("browser.close_tab", answer_json WBrowserTab handle_browser_close_tab);
  ("browser.navigate", answer_json WBrowserNavigate handle_browser_navigate);
  ("browser.reload", answer_json WBrowserTab handle_browser_reload);
  ("page.click", answer_json WPageLocator handle_page_click);
  ("page.type_public", answer_json WPageTypePublic handle_page_type_public);
  ("page.select", answer_json WPageSelect handle_page_select);
  ("page.read_text", answer_json WPageReadText handle_page_read_text);
  ("page.snapshot_safe", answer_json WPageSnapshot handle_page_snapshot_safe);
  ("page.wait_for", answer_json WPageWaitFor (fun params =>
     r ← handle_page_wait_for params; unwrap r));
  ("browser.back", answer_json WBrowserTab handle_browser_back);
  ("browser.forward", answer_json WBrowserTab handle_browser_forward)].

(** ** The agent's connection *)

Record AgentConnection : Type := {
  authenticated_agent : option AgentId;
  pending_handshake : option (AgentPrincipal * StartedHandshake);
  secure_channel : option SecureChannel;
  authenticated_at : option Z
}.

Definition new_agent_connection : AgentConnection := {|
  authenticated_agent := None; pending_handshake := None; secure_channel := None;
  authenticated_at := None |}.

Definition set_secure_channel (c : AgentConnection) (channel : SecureChannel) :
    AgentConnection := {|
  authenticated_agent := authenticated_agent c; pending_handshake := pending_handshake c;
  secure_channel := Some channel; authenticated_at := authenticated_at c |}.

(** The methods other than the handshake's. *)
Definition agent_dispatch (c : AgentConnection) (method : string) : Method P := fun id params =>
  match authenticated_agent c with
  | Some agent_id =>
      match find_method method (agent_methods agent_id (authenticated_at c) ++ page_methods) with
      | Some m => m id params
      | None => mret (method_not_found id)
      end
  | None =>
      if bool_decide (method ∈ AGENT_METHODS) then mret (hello_required id)
      else mret (method_not_found id)
  end.

(** An error of the database counts as no enrollment. *)
Definition session_hello (peer_cred : UCred) (c : AgentConnection) (id : RpcId)
    (params : option Json) : Task P (RpcResponse * AgentConnection) :=
  if bool_decide (is_Some (secure_channel c)) || bool_decide (is_Some (pending_handshake c))
  then mret (rpc_failure id (security_violation "Handshake already started"), c)
  else
    hello ← from_params hello_from_value params;
    enrolled ← asks (fun b => result_ok (get_enrolled_agent (store b) (sh_principal_id hello)));
    if negb (bool_decide (sh_protocol_version hello = "1.0"))
       || negb (bool_decide (sh_role hello = "agent"))
       || negb (offers_suite hello)
       || is_none_or (fun agent => negb (bool_decide (ag_role agent = "agent"))) enrolled
    then mret (rpc_failure id (security_violation "Agent enrollment rejected"), c)
    else
      enrolled ← finished_loop enrolled;
      same_peer ← verify_peer_identity enrolled peer_cred;
      ensure same_peer "agent OS peer identity changed";;
      '(response, started) ← start_handshake hello;
      mret (rpc_success id (hello_result_to_value response),
            {| authenticated_agent := authenticated_agent c;
               pending_handshake := Some (enrolled, started);
               secure_channel := secure_channel c; authenticated_at := authenticated_at c |}).

(** The response on the channel the request came on. *)
Definition reply (c : AgentConnection) (response : RpcResponse) :
    Task P (list byte * AgentConnection) :=
  let response_bytes := to_vec (response_to_value response) in
  match secure_channel c with
  | None => wire ← send for_agent response_bytes; mret (wire, c)
  | Some channel =>
      '(wire, channel) ← seal channel response_bytes;
      wire ← send for_agent wire;
      mret (wire, set_secure_channel c channel)
  end.

(** The channel becomes active after the response is sent. Without a handshake
    the refusal is sent as it is, whatever the channel. *)
Definition session_authenticate (c : AgentConnection) (id : RpcId) (params : option Json) :
    Task P (list byte * AgentConnection) :=
  params ← from_params authenticate_from_value params;
  match pending_handshake c with
  | None =>
      wire ← send for_agent (to_vec (response_to_value (hello_required id)));
      mret (wire, c)
  | Some (enrolled, started) =>
      channel ← finish_handshake (ag_public_key enrolled) AGENT_INFO started params;
      '(wire, c) ← reply
        {| authenticated_agent := Some (ag_agent_id enrolled);
           pending_handshake := None; secure_channel := secure_channel c;
           authenticated_at := authenticated_at c |}
        (rpc_success id (authenticated_to_value authentication_result));
      now ← drawing instant_now;
      mret (wire,
        {| authenticated_agent := authenticated_agent c; pending_handshake := pending_handshake c;
           secure_channel := Some channel; authenticated_at := Some now |})
  end.

(** Receiving: the rekey deadline, and the decryption. *)
Definition receive (c : AgentConnection) (wire : list byte) :
    Task P (list byte * AgentConnection) :=
  match secure_channel c with
  | None => mret (wire, c)
  | Some channel =>
      (match authenticated_at c with
       | Some time =>
           now ← drawing instant_now;
           ensure (elapsed_seconds time now <? REKEY_SECONDS) "agent session rekey required"
       | None => mret tt
       end);;
      '(message, channel) ← unseal channel wire;
      mret (message, set_secure_channel c channel)
  end.

(** One turn of the loop of [handle_agent_connection]: a frame in, a frame out. *)
Definition agent_message (peer_cred : UCred) (c : AgentConnection) (wire : list byte) :
    Task P (list byte * AgentConnection) :=
  '(message, c) ← receive c wire;
  request ← read_request message;
  let id := request_rpc_id request in
  let method := request_method request in
  let params := request_params request in
  if bool_decide (method = "session.hello") then
    '(response, c) ← session_hello peer_cred c id params; reply c response
  else if bool_decide (method = "session.authenticate") then
    session_authenticate c id params
  else
    response ← agent_dispatch c method id params; reply c response.

(** The whole connection, over the frames that arrive; the other tasks run
    before each. *)
Fixpoint agent_connection (peer_cred : UCred) (c : AgentConnection) (frames : list (list byte)) :
    Task P (list (list byte) * AgentConnection) :=
  match frames with
  | [] => mret ([], c)
  | wire :: frames => fun w =>
      ('(sent, c) ← agent_message peer_cred c wire;
       '(rest, c) ← agent_connection peer_cred c frames;
       mret (sent :: rest, c)) (other_tasks w)
  end.
End Agent.

(** ** The connections of the executor and of the administrator

    Both demand the handshake first, and then answer on the channel alone. They
    differ in who is accepted, whose key must have signed, and the methods. *)

Inductive SocketConnection (K : Type) : Type :=
| AwaitHello
| AwaitAuthentication (principal : K) (started : StartedHandshake)
| Established (principal : K) (channel : SecureChannel) (authenticated_at : Z).
Arguments AwaitHello {K}.
Arguments AwaitAuthentication {K} principal started.
Arguments Established {K} principal channel authenticated_at.

Record SocketKind `{ManagedChrome} (P K : Type) : Type := {
  k_codec : LengthPrefixedCodec;
  k_info : list byte;
  k_accept : SessionHelloParams -> Task P K;
  k_public_key : K -> Task P (list byte);
  k_rekey : string;
  k_methods : list (string * Method P)
}.
Arguments k_codec {_ P K} _.
Arguments k_info {_ P K} _.
Arguments k_accept {_ P K} _ _.
Arguments k_public_key {_ P K} _ _.
Arguments k_rekey {_ P K} _.
Arguments k_methods {_ P K} _.

(** [serde_yaml]: the text of a policy. *)
Class PolicyYaml := { from_yaml : string -> result string PolicyDocument }.

Section Sockets.
Context `{ManagedChrome, Chrono, Hashes, Signatures, Aead, X25519, Base64, Cbor, WireCodec,
  UrlParser, JsonCodec, !JsonReader, HashIter, Environment, HttpClient, SqliteText,
  Monotonic, PeerProcess, PolicySerializer, PolicyYaml, Serde} {P : Type}
  `{SecretProvider P, !OtherTasks P}.

(** One turn: a frame in, a frame out. *)
Definition socket_message {K : Type} (kind : SocketKind P K) (c : SocketConnection K)
    (wire : list byte) : Task P (list byte * SocketConnection K) :=
  match c with
  | AwaitHello =>
      request ← read_request wire;
      ensure (bool_decide (request_method request = "session.hello")) "session.hello required";;
      hello ← from_params hello_from_value (request_params request);
      principal ← k_accept kind hello;
      '(response, started) ← start_handshake hello;
      sent ← send (k_codec kind) (to_vec (response_to_value
        (rpc_success (request_rpc_id request) (hello_result_to_value response))));
      mret (sent, AwaitAuthentication principal started)
  | AwaitAuthentication principal started =>
      request ← read_request wire;
      ensure (bool_decide (request_method request = "session.authenticate"))
        "session.authenticate required";;
      auth ← from_params authenticate_from_value (request_params request);
      public_key ← k_public_key kind principal;
      channel ← finish_handshake public_key (k_info kind) started auth;
      sent ← send (k_codec kind) (to_vec (response_to_value
        (rpc_success (request_rpc_id request) (authenticated_to_value authentication_result))));
      now ← drawing instant_now;
      mret (sent, Established principal channel now)
  | Established principal channel authenticated_at =>
      now ← drawing instant_now;
      ensure (elapsed_seconds authenticated_at now <? REKEY_SECONDS) (k_rekey kind);;
      '(message, channel) ← unseal channel wire;
      request ← read_request message;
      let id := request_rpc_id request in
      response ← match find_method (request_method request) (k_methods kind) with
        | Some method => method id (request_params request)
        | None => mret (method_not_found id)
        end;
      '(sealed, channel) ← seal channel (to_vec (response_to_value response));
      sent ← send (k_codec kind) sealed;
      mret (sent, Established principal channel authenticated_at)
  end.

(** *** The executor *)

Definition executor_accept (peer_cred : UCred) (hello : SessionHelloParams) :
    Task P AgentPrincipal :=
  ensure (bool_decide (sh_protocol_version hello = "1.0")
          && bool_decide (sh_role hello = "executor") && offers_suite hello)
    "executor handshake rejected";;
  enrolled ← asks (fun b => get_enrolled_agent (store b) (sh_principal_id hello));
  enrolled ← try_ AnyhowStore enrolled;
  accepted ← (if bool_decide (ag_role enrolled = "executor")
              then verify_peer_identity enrolled peer_cred else mret false);
  ensure accepted "executor enrollment rejected";;
  mret enrolled.

Definition executor_methods : list (string * Method P) := [
  ("browser.register", answer WBrowserRegister WBrowserRegistered handle_browser_register);
  ("execution.next", answer WExecutionNext WExecutionOffer handle_execution_next);
  ("executor.prepare", answer WExecutorPrepare WExecutorPrepared handle_executor_prepare);
  ("executor.consume", answer WExecutorConsume WExecutorConsumed handle_executor_consume);
  ("oauth.callback", answer WOAuthCallback WOAuthCallbackResult handle_oauth_callback);
  ("executor.result", answer WExecutorResult WAcknowledged handle_executor_result);
  ("executor.heartbeat", answer WExecutorHeartbeat WAcknowledged handle_executor_heartbeat)].

Definition executor_socket (peer_cred : UCred) : SocketKind P AgentPrincipal := {|
  k_codec := for_executor; k_info := EXECUTOR_INFO; k_accept := executor_accept peer_cred;
  k_public_key enrolled := mret (ag_public_key enrolled);
  k_rekey := "executor rekey required"; k_methods := executor_methods |}.

(** *** The administrator *)

Definition admin_accept (hello : SessionHelloParams) : Task P unit :=
  ensure (bool_decide (sh_protocol_version hello = "1.0")
          && bool_decide (sh_role hello = "admin")
          && bool_decide (sh_principal_id hello = "local-admin") && offers_suite hello)
    "admin handshake rejected".

Definition flag (name : string) : Json := JObject [(name, JBool true)].

(** A text that is no agent's identifier is answered like an unknown agent. *)
Definition disable_agent (params : AgentDisableParams) : Broker P GrantRevokeResult :=
  match id_parse KAgent (da_agent_id params) with
  | Ok agent_id => ui_disable_agent agent_id
  | Err _ => fail_with RpcErrorCode.INVALID_PARAMS "Unknown agent"
  end.

(** A text that is not a policy closes the connection. *)
Definition policy_reload : Method P := fun id params =>
  params ← from_params (from_value WPolicyReload) params;
  document ← try_ AnyhowSerde (from_yaml (pl_policy_yaml params));
  let evaluator := evaluator_new document in
  if negb (bool_decide (b64_encode (pe_policy_hash evaluator) = pl_expected_hash params))
  then mret (rpc_failure id (rpc_error RpcErrorCode.INVALID_PARAMS "Policy hash mismatch"))
  else
    r ← serve (replace_policy evaluator);
    respond (fun revoked => Ok (JObject [("reloaded", JBool true); ("revoked", JNumber revoked)]))
      id r.

Definition admin_methods : list (string * Method P) := [
  ("admin.ping", fun id _ => mret (rpc_success id (JObject [("status", JString "ok")])));
  ("browser.launch", answer WBrowserLaunch WBrowserLaunched launch_managed_browser);
  ("browser.launch_status", answer WBrowserClose WBrowserLaunched (fun params =>
     browser_launch_status (bc_instance_id params)));
  ("browser.close", answer_with (from_value WBrowserClose) (fun _ => Ok (flag "closed"))
     (fun params => close_managed_browser (bc_instance_id params)));
  ("approval.list", answer_view WApprovals (gets list_pending_approvals));
  ("approval.decide", answer WApprovalDecide WActionResponse (fun params =>
     decide_approval (ad_approval_id params) (bool_decide (ad_decision params = "approve"))
       (ad_context_digest params) "local-admin" (ad_presence_verified params)));
  ("capability.list", answer WCapabilityList WCapabilities (fun params =>
     list_capabilities_admin (cl_params_state params)));
  ("capability.revoke", answer_with (from_value WCapabilityRevoke) (fun _ => Ok (flag "revoked"))
     (fun params => revoke_capability_admin (cv_capability_id params) (cv_reason params)));
  ("ui.status", answer_view WUiStatus ui_status);
  ("ui.pending", answer_view WUiRequests ui_pending_approvals);
  ("ui.pending_one", answer WApprovalLookup WUiRequest ui_pending_approval);
  ("ui.activity", answer WUiActivity WUiEvents (fun params => ui_activity (ap_limit params)));
  ("ui.agents", answer_view WUiAgents ui_agents);
  ("ui.credentials", answer_view WUiCredentials ui_credentials);
  ("ui.browser_sessions", answer_view WUiSessions ui_browser_sessions);
  ("grant.list", answer WGrantList WUiGrants (fun params => ui_grants (gl_include_revoked params)));
  ("grant.create", answer WGrantCreate WGrantCreated ui_create_grant);
  ("grant.revoke", answer WGrantRevoke WGrantRevoked (fun params =>
     ui_revoke_grants (gv_selector params) (gv_reason params)));
  ("agent.disable", answer WAgentDisable WGrantRevoked disable_agent);
  ("policy.reload", policy_reload)].

Definition admin_socket : SocketKind P unit := {|
  k_codec := for_agent; k_info := ADMIN_INFO; k_accept := admin_accept;
  k_public_key _ := asks (fun b => public_key_bytes (broker_key b));
  k_rekey := "admin rekey required"; k_methods := admin_methods |}.

(** The check before the first message, with the owner of the socket's file. *)
Definition admin_connect (socket_uid : Z) (peer_cred : UCred) :
    Task P (SocketConnection unit) :=
  ensure (socket_uid =? peer_uid peer_cred) "admin peer UID rejected";;
  mret AwaitHello.

(** The whole connection, over the frames that arrive. *)
Fixpoint socket_connection {K : Type} (kind : SocketKind P K) (c : SocketConnection K)
    (frames : list (list byte)) : Task P (list (list byte) * SocketConnection K) :=
  match frames with
  | [] => mret ([], c)
  | wire :: frames => fun w =>
      ('(sent, c) ← socket_message kind c wire;
       '(rest, c) ← socket_connection kind c frames;
       mret (sent :: rest, c)) (other_tasks w)
  end.

(** ** The periodic task *)

Definition maintenance : Broker P unit :=
  now ← Utc_now;
  attempt (expire_stale_sessions now);;
  now ← Utc_now;
  attempt (expire_pending_approvals now);;
  mret tt.
End Sockets.
