(* ===== verification/BrokerSteps.v ===== *)
(** * BrokerSteps: what a handler can do to the shared state

    Every handler of the broker is made of four kinds of steps: reads of the
    environment, quiet writes of the in-memory maps, calls of the repository
    outside the audit chain, and audited transactions of the repository. The
    section shows, handler by handler, that a preorder respected by these four
    is respected by the handler. The theorems about whole runs of the broker
    take the preorder that they need. *)

From S2P Require Import Prelude.
From S2P Require Import Externals.
From S2P Require Import Domain.
From S2P Require Import Policy.
From S2P Require Import Crypto.
From S2P Require Import AuditChain.
From S2P Require Import Capability.
From S2P Require Import Provider.
From S2P Require Import Table.
From S2P Require Import Store.
From S2P Require Import StoreProps.
From S2P Require Import OAuth.
From S2P Require Import Protocol.
From S2P Require Import BrokerState.
From S2P Require Import Broker.
From S2P Require Import Admin.
From S2P Require Import Ui.

Section Steps.
Context `{ManagedChrome, Chrono, Hashes, Signatures, Base64, Cbor, WireCodec, UP : UrlParser,
  JsonCodec, HashIter, !Environment, HttpClient, SqliteText} {P : Type} `{SecretProvider P}
  `{!EnvironmentLaws}.
Variable platform : HostPlatform.
Variable R : relation (World P).
Context `{!PreOrder R}.

Definition with_broker (w : World P) (b : BrokerState P) : World P :=
  {| w_broker := b; w_tick := w_tick w |}.

(** What [R] has to allow. *)
Hypothesis quiet_step : forall w b, quiet (w_broker w) b -> R w (with_broker w b).
Hypothesis draw_step : forall w, R w {| w_broker := w_broker w; w_tick := S (w_tick w) |}.
Hypothesis store_step : forall w op, audited_by op = None ->
  R w (with_broker w (set_store (w_broker w) (snd (run_op op (store (w_broker w)))))).
Hypothesis audit_step : forall w op e uuid now ty aty actor cx s',
  let b := w_broker w in
  uuid <> EmptyString -> four_digit_year now ->
  create_audit_event uuid (cu_next_sequence (audit_cursor b)) (cu_latest_hash (audit_cursor b))
    (audit_key_version b) (secret_as_bytes (audit_key b)) ty aty actor cx now = Ok e ->
  audited_by op = Some e -> run_op op (store b) = (Ok tt, s') ->
  R w (with_broker w (set_audit_cursor (set_store b s')
    {| cu_next_sequence := cu_next_sequence (audit_cursor b) + 1;
       cu_latest_hash := ev_event_hash e |})).

(** Only a new request writes what its identifier stands for. *)
Hypothesis enroll_step : forall w fingerprints,
  R w (with_broker w (set_request_fingerprints (w_broker w) fingerprints)).
Hypothesis enroll_agent_step : forall w agents,
  R w (with_broker w (set_request_agents (w_broker w) agents)).

Lemma steps_modify f : (forall b, quiet b (f b)) -> steps R (modify f).
Proof. intros Hf w. apply (quiet_step w (f (w_broker w))), Hf. Qed.

Lemma steps_enroll f : steps R (modify (fun b => set_request_fingerprints b (f b))).
Proof. intros w. apply enroll_step. Qed.
Lemma steps_enroll_agent f : steps R (modify (fun b => set_request_agents b (f b))).
Proof. intros w. apply enroll_agent_step. Qed.

Lemma steps_draw {A : Type} (f : nat -> A) : steps R (draw f).
Proof. intros w. apply draw_step. Qed.

Lemma steps_provider {A : Type} (op : P -> result ProviderError A * P) : steps R (run_provider op).
Proof.
  intros w. unfold run_provider. destruct (op _) as [r p]. by apply (quiet_step w (set_provider _ p)).
Qed.

Lemma steps_run_store {A : Type} (op : Store -> result StoreError A * Store) sop :
  (forall s, snd (op s) = snd (run_op sop s)) -> audited_by sop = None -> steps R (run_store op).
Proof.
  intros Hop Ha w. unfold run_store. specialize (Hop (store (w_broker w))).
  destruct (op _) as [r s]. cbn in *. subst s. by apply store_step.
Qed.

(** An operation of the repository that carries the event it is given. *)
Definition carries {A : Type} (op : AuditEvent -> Store -> result StoreError A * Store)
    (sop : AuditEvent -> StoreOp) : Prop :=
  forall e, audited_by (sop e) = Some e /\ forall s, discard (op e s) = run_op (sop e) s.

Lemma steps_audited_try {A : Type} err ty aty actor cx
    (op : AuditEvent -> Store -> result StoreError A * Store) sop :
  carries op sop -> steps R (audited_try err ty aty actor cx op).
Proof.
  intros Hop w. set (b := w_broker w).
  assert (Hd : R w {| w_broker := b; w_tick := S (S (w_tick w)) |}).
  { transitivity {| w_broker := b; w_tick := S (w_tick w) |}; apply draw_step. }
  unfold audited_try, mbind, broker_bind, gets, Utc_now, new_uuid, draw. cbn [w_broker w_tick fst snd].
  fold b. destruct (create_audit_event _ _ _ _ _ _ _ _ _ _) as [e|e] eqn:He; [|done].
  cbn [lift mret broker_ret]. unfold run_store. cbn [w_broker w_tick].
  destruct (Hop e) as [Ha Hrun]. specialize (Hrun (store b)).
  transitivity {| w_broker := b; w_tick := S (S (w_tick w)) |}; [done|].
  destruct (op e (store b)) as [r s'] eqn:Hop'. unfold discard in Hrun. cbn [fst snd] in Hrun.
  destruct r as [a|err']; cbn.
  - refine (audit_step {| w_broker := b; w_tick := S (S (w_tick w)) |} (sop e) e _ _ _ _ _ _ s'
      _ _ He Ha (eq_sym Hrun)); [apply env_uuid_nonempty|apply env_now_range].
  - destruct (audited_or_unchanged (sop e) e (store b) Ha) as [(s1 & Hs1 & _)|(er & Hs1)];
      rewrite Hs1 in Hrun; [discriminate|]. injection Hrun as _ ->.
    apply (quiet_step {| w_broker := b; w_tick := _ |}). done.
Qed.

Lemma steps_audited {A : Type} err serr ty aty actor cx
    (op : AuditEvent -> Store -> result StoreError A * Store) sop :
  carries op sop -> steps R (audited err serr ty aty actor cx op).
Proof.
  intros Hop. apply steps_bind; [done|by eapply steps_audited_try|].
  intros r. by apply steps_lift.
Qed.

Lemma discard_unit (r : result StoreError unit * Store) : discard r = r.
Proof. by destruct r as [[[]|e] s]. Qed.

Lemma carries_unit (op : AuditEvent -> Store -> result StoreError unit * Store) sop :
  (forall e, audited_by (sop e) = Some e /\ forall s, op e s = run_op (sop e) s) -> carries op sop.
Proof. intros Hop e. destruct (Hop e) as [Ha Hr]. split; [done|]. intros s. by rewrite discard_unit. Qed.

Lemma steps_record ty aty actor cx : steps R (record_audit_event ty aty actor cx).
Proof. apply (steps_audited _ _ _ _ _ _ _ OpInsertAuditEvent). apply carries_unit. done. Qed.

Lemma steps_for_each {A : Type} (l : list A) body :
  (forall a, steps R (body a)) -> steps R (for_each l body).
Proof.
  intros Hb. induction l as [|a l IH]; cbn; [by apply steps_ret|]. by apply steps_bind.
Qed.

(** Follows the program; what is left are the calls it makes. *)
Ltac follow :=
  repeat match goal with
  | |- steps _ (_ ≫= _) => apply steps_bind; [done| |intros ?]
  | |- steps _ (if ?x then _ else _) => destruct x
  | |- steps _ (match ?x with _ => _ end) => destruct x
  | |- steps _ (let '(_, _) := ?x in _) => destruct x
  | |- steps _ (let x := _ in _) => intros x
  | H : forall f, steps _ (modify _) |- steps _ (modify _) => apply H
  | |- steps _ (modify _) => apply steps_modify; intros ?; repeat case_match; done
  | |- steps _ (draw _) => apply steps_draw
  | |- steps _ Utc_now => apply steps_draw
  | |- steps _ new_uuid => apply steps_draw
  | |- steps _ fill_bytes => apply steps_draw
  | |- steps _ (record_audit_event _ _ _ _) => apply steps_record
  | |- steps _ (run_provider _) => apply steps_provider
  | |- steps _ (attempt _) => apply steps_attempt
  | |- steps _ (for_each _ _) => apply steps_for_each; intros ?
  | |- steps _ _ => solve [eauto with secretctl]
  end.

Lemma steps_register_recipe r : steps R (register_recipe r).
Proof. unfold register_recipe. follow. Qed.
Lemma steps_register_browser_session s : steps R (register_browser_session s).
Proof. unfold register_browser_session. follow. Qed.
Lemma steps_launch ps : steps R (launch_managed_browser ps).
Proof. unfold launch_managed_browser. follow. Qed.
Lemma steps_close i : steps R (close_managed_browser i).
Proof. unfold close_managed_browser. follow. Qed.
Lemma steps_browser_register ps : steps R (handle_browser_register ps).
Proof. unfold handle_browser_register. follow. Qed.
Lemma steps_heartbeat ps : steps R (handle_executor_heartbeat ps).
Proof. unfold handle_executor_heartbeat. follow. Qed.
Lemma steps_prepare cx : steps R (handle_executor_prepare cx).
Proof. unfold handle_executor_prepare, register_page_context. follow. Qed.
Lemma steps_close_window i : steps R (close_execution_window i).
Proof. unfold close_execution_window. follow. Qed.

Lemma steps_window {A : Type} filter tab (body : Broker P A) :
  steps R body -> steps R (with_sensitive_window filter tab body).
Proof.
  intros Hb w. unfold with_sensitive_window. destruct filter as [i|]; [|apply Hb].
  set (w1 := {| w_broker := enter_sensitive_window i tab (w_broker w); w_tick := w_tick w |}).
  assert (Hw : R w w1) by by apply (quiet_step w).
  specialize (Hb w1). destruct (body w1) as [[a|e|] w2]; cbn in *.
  - by transitivity w1.
  - transitivity w1; [done|]. transitivity w2; [done|]. by apply (quiet_step w2).
  - transitivity w1; [done|]. transitivity w2; [done|]. by apply (quiet_step w2).
Qed.

Lemma steps_mint a i : steps R (mint_authorized_capability a i).
Proof.
  unfold mint_authorized_capability, put_response, offer_capability. follow.
  eapply (steps_audited _ _ _ _ _ _ _ (OpInsertCapability c a2)). by apply carries_unit.
Qed.

Lemma steps_permitted ps : steps R (permitted_credential ps).
Proof. unfold permitted_credential. follow. Qed.
Lemma steps_live_session now i : steps R (live_session now i).
Proof. unfold live_session. follow. Qed.
Lemma steps_measured now ps : steps R (measured_page now ps).
Proof. unfold measured_page. follow. Qed.
Lemma steps_policy i ps c cx s : steps R (policy_decision platform i ps c cx s).
Proof. unfold policy_decision. follow. Qed.
Lemma steps_recipe act cx : steps R (matched_recipe act cx).
Proof. unfold matched_recipe. follow. Qed.
Lemma steps_grant a now : steps R (matching_standing_grant a now).
Proof. unfold matching_standing_grant. follow. Qed.

Lemma steps_request_approval a now : steps R (request_approval a now).
Proof.
  unfold request_approval, put_response. follow.
  eapply (steps_audited _ _ _ _ _ _ _ (OpInsertApprovalAudit _)). by apply carries_unit.
Qed.

Lemma steps_grant_or_ask a now : steps R (grant_or_ask a now).
Proof.
  pose proof (steps_mint a). pose proof (steps_grant a now). pose proof (steps_request_approval a now).
  unfold grant_or_ask. follow.
  by eapply (steps_run_store _ (OpTouchGrant _ now)).
Qed.

Lemma steps_new_action i ps : steps R (handle_new_action_request platform i ps).
Proof.
  pose proof steps_permitted. pose proof steps_live_session. pose proof steps_measured.
  pose proof steps_policy. pose proof steps_recipe. pose proof steps_grant_or_ask.
  unfold handle_new_action_request. follow.
Qed.

Lemma steps_action i ps : steps R (handle_action_request platform i ps).
Proof.
  pose proof steps_new_action. pose proof steps_enroll. pose proof steps_enroll_agent.
  unfold handle_action_request, put_response. follow.
Qed.

Lemma steps_authenticate i ps : steps R (handle_action_authenticate platform i ps).
Proof. pose proof steps_action. unfold handle_action_authenticate. follow. Qed.

Lemma steps_status i r : steps R (handle_action_status i r).
Proof. unfold handle_action_status. follow. Qed.
Lemma steps_list st : steps R (list_capabilities_admin st).
Proof. unfold list_capabilities_admin. follow. Qed.
Lemma steps_cancel i r : steps R (handle_action_cancel i r).
Proof. unfold handle_action_cancel, revoke_entries. follow. Qed.

Lemma steps_decide_at i ap d actor pv now : steps R (decide_approval_at i ap d actor pv now).
Proof.
  pose proof steps_mint. unfold decide_approval_at, put_response. follow.
  all: eapply (steps_audited _ _ _ _ _ _ _ (OpUpdateApprovalAudit _)); by apply carries_unit.
Qed.

Lemma steps_decide i ap d actor pv : steps R (decide_approval i ap d actor pv).
Proof. pose proof steps_decide_at. unfold decide_approval. follow. Qed.
Lemma steps_expire_approvals now : steps R (expire_pending_approvals now).
Proof. pose proof steps_decide_at. unfold expire_pending_approvals. follow. Qed.

Lemma steps_next_offer i q : steps R (next_offer i q).
Proof. induction q as [|c q IH]; cbn [next_offer]; unfold offer_oauth; follow. Qed.
Lemma steps_next i : steps R (handle_execution_next i).
Proof. pose proof steps_next_offer. unfold handle_execution_next. follow. Qed.

Lemma steps_fail_oauth {A : Type} pending c e : steps R (fail_oauth_callback (A := A) pending c e).
Proof. unfold fail_oauth_callback, put_response. follow. Qed.

Lemma steps_take_oauth ps : steps R (take_oauth_execution ps).
Proof.
  pose proof (fun T => @steps_fail_oauth T). unfold take_oauth_execution. follow.
  by eapply (steps_run_store _ (OpConsumeOAuth _)).
Qed.

(** The two writes of [store_token_grant]: the provider's, and at most one row. *)
Lemma store_token_grant_store uuid now c tokens (p : P) s :
  let '(_, _, s') := store_token_grant uuid now c tokens p s in
  s' = s \/ exists g, s' = snd (run_op (OpInsertOAuthGrant g) s).
Proof.
  unfold store_token_grant. destruct (store_secret _ _ _) as [[[]|] p']; [|by left].
  cbn [run_op]. destruct (insert_oauth_grant _ s) as [[[]|] s1] eqn:Hi; right; eexists;
    by rewrite Hi.
Qed.

Lemma steps_token_grant_write w uuid now c tokens :
  let '(_, p, s) := store_token_grant uuid now c tokens (provider (w_broker w)) (store (w_broker w)) in
  R w (with_broker w (set_store (set_provider (w_broker w) p) s)).
Proof.
  pose proof (store_token_grant_store uuid now c tokens (provider (w_broker w)) (store (w_broker w))) as Hs.
  destruct (store_token_grant _ _ _ _ _ _) as [[r p] s].
  transitivity (with_broker w (set_provider (w_broker w) p)); [by apply quiet_step|].
  destruct Hs as [->|(g & ->)].
  - by apply (quiet_step (with_broker w (set_provider (w_broker w) p))).
  - by apply (store_step (with_broker w (set_provider (w_broker w) p)) (OpInsertOAuthGrant g)).
Qed.

Lemma steps_exchange c pending code : steps R (exchange_and_store c pending code).
Proof.
  unfold exchange_and_store.
  apply steps_bind; [done|apply steps_draw|intros tick].
  apply steps_bind; [done|apply steps_draw|intros now].
  apply steps_bind; [done| |intros tokens].
  { destruct (exchange_code _ _ _ _ _ _);
      [by apply steps_ret|apply steps_fail_oauth|by apply steps_panic]. }
  apply steps_bind; [done|apply steps_draw|intros uuid].
  apply steps_bind; [done|apply steps_draw|intros created_at].
  intros w. unfold mbind at 1, broker_bind at 1, gets. cbn.
  pose proof (steps_token_grant_write w uuid created_at (po_credential_id pending) tokens) as Hw.
  destruct (store_token_grant _ _ _ _ _ _) as [[r p] s]. cbn.
  unfold with_broker in Hw. etransitivity; [exact Hw|].
  destruct r; [reflexivity|exact (steps_fail_oauth pending c _ _)].
Qed.

Lemma steps_oauth_callback ps : steps R (handle_oauth_callback ps).
Proof.
  pose proof (fun T => @steps_fail_oauth T). pose proof steps_take_oauth. pose proof steps_exchange.
  unfold handle_oauth_callback, put_response. follow.
Qed.

Lemma steps_consume_clock ps : steps R (consume_clock ps).
Proof. unfold consume_clock. follow. Qed.
Lemma steps_session_proof ps : steps R (check_session_proof ps).
Proof. unfold check_session_proof. follow. Qed.

Lemma steps_consume_durably ps : steps R (consume_durably ps).
Proof.
  pose proof steps_consume_clock. pose proof steps_session_proof.
  unfold consume_durably. follow.
  all: eapply (steps_audited _ _ _ _ _ _ _ (fun e => OpConsume _ _ e _)); by apply carries_unit.
Qed.

Lemma steps_release c : steps R (release_secret c).
Proof.
  unfold release_secret. apply steps_bind; [done|by apply steps_gets|intros b].
  apply steps_bind; [done|by apply steps_require|intros recipe].
  destruct (_ && _); [by apply steps_throw|]. apply steps_window.
  unfold resolve_fields, secret_bytes. follow.
Qed.

Lemma steps_executor_consume ps : steps R (handle_executor_consume ps).
Proof.
  pose proof steps_consume_durably. pose proof steps_release.
  unfold handle_executor_consume. follow.
Qed.

Lemma steps_settle i a e st code : steps R (settle_execution i a e st code).
Proof. pose proof steps_close_window. unfold settle_execution. follow. Qed.

Lemma steps_executor_result ps : steps R (handle_executor_result ps).
Proof.
  pose proof steps_settle. unfold handle_executor_result. follow.
  all: eapply (steps_audited_try _ _ _ _ _ _ (OpFinish _)); by apply carries_unit.
Qed.

Lemma steps_expire_sessions now : steps R (expire_stale_sessions now).
Proof.
  pose proof steps_close_window. unfold expire_stale_sessions, revoke_entries. follow.
Qed.

Lemma steps_replace_policy ev : steps R (replace_policy ev).
Proof.
  unfold replace_policy, revoke_entries. follow.
  by eapply (steps_audited _ _ _ _ _ _ _ (OpRevokePolicy _)).
Qed.

Lemma steps_revoke_admin i reason : steps R (revoke_capability_admin i reason).
Proof.
  unfold revoke_capability_admin. follow.
  eapply (steps_audited _ _ _ _ _ _ _ (OpRevokeAudit _ _)). by apply carries_unit.
Qed.

Lemma steps_checkpoint : steps R write_audit_checkpoint.
Proof.
  unfold write_audit_checkpoint. follow. by eapply (steps_run_store _ (OpInsertCheckpoint _)).
Qed.

Lemma steps_grant_audited g cx : steps R (insert_standing_grant_audited g cx).
Proof.
  eapply (steps_audited _ _ _ _ _ _ _ (OpInsertGrant _)). by apply carries_unit.
Qed.

(** The calls of the desktop interface: all but three only read. *)
Lemma steps_reads {A : Type} m (f : Store -> result StoreError A) : steps R (reads m f).
Proof. unfold reads. follow. Qed.

Lemma steps_ui_pending : steps R ui_pending_approvals.
Proof. pose proof @steps_reads. unfold ui_pending_approvals, agents_with_prior_authorization. follow. Qed.

Lemma steps_ui_status : steps R ui_status.
Proof.
  pose proof @steps_reads. pose proof steps_ui_pending.
  unfold ui_status, ui_active_operation, recent_actor_ids, ui_protection_state,
    most_recent_terminal_outcome, verify_audit_integrity. follow.
Qed.

Lemma steps_create_grant ps : steps R (ui_create_grant ps).
Proof.
  pose proof steps_decide. pose proof steps_grant_audited. unfold ui_create_grant. follow.
Qed.

Lemma steps_revoke_grants selector reason : steps R (ui_revoke_grants selector reason).
Proof.
  unfold ui_revoke_grants. follow.
  by eapply (steps_run_store _ (OpRevokeGrants _ _ _)).
Qed.

Lemma steps_disable_agent i : steps R (ui_disable_agent i).
Proof.
  pose proof steps_revoke_grants. unfold ui_disable_agent, revoke_entries. follow.
Qed.

Lemma steps_ui_call c : steps R (run_ui_call c).
Proof.
  pose proof @steps_reads. pose proof steps_ui_pending. pose proof steps_ui_status.
  pose proof steps_create_grant. pose proof steps_revoke_grants. pose proof steps_disable_agent.
  destruct c; cbn [run_ui_call]; unfold view, ui_pending_approval, ui_activity, ui_agents,
    ui_credentials, ui_browser_sessions, ui_grants; follow.
Qed.
End Steps.
