(* ===== verification/ServerProps.v ===== *)
(** * ServerProps: what a connection has to show before it is served

    Theorems about single turns of the connections of [Server.v]: a peer that
    has not authenticated changes nothing, an agent that is served has proved
    who it is, and every answer goes through the channel. *)

From S2P Require Import Prelude.
From S2P Require Import Externals.
From S2P Require Import Domain.
From S2P Require Import Policy.
From S2P Require Import Crypto.
From S2P Require Import DomView.
From S2P Require Import Capability.
From S2P Require Import Provider.
From S2P Require Import Store.
From S2P Require Import OAuth.
From S2P Require Import Protocol.
From S2P Require Import Framing.
From S2P Require Import BrokerState.
From S2P Require Import Broker.
From S2P Require Import Pages.
From S2P Require Import Wire.
From S2P Require Import Handshake.
From S2P Require Import Server.

(** ** Tasks that leave the broker alone *)

Definition keeps `{ManagedChrome} {P A : Type} (m : Task P A) : Prop :=
  forall w, w_broker (snd (m w)) = w_broker w.

Section Keeps.
Context `{ManagedChrome} {P : Type}.

Lemma keeps_ret {A : Type} (a : A) : keeps (P := P) (mret a).
Proof. done. Qed.
Lemma keeps_bail {A : Type} e : keeps (P := P) (bail (A := A) e).
Proof. done. Qed.
Lemma keeps_bind {A B : Type} (m : Task P A) (f : A -> Task P B) :
  keeps m -> (forall a, keeps (f a)) -> keeps (m ≫= f).
Proof.
  intros Hm Hf w. unfold mbind, task_bind. specialize (Hm w).
  destruct (m w) as [[a|e|] w1]; [|done..]. cbn [snd] in Hm. by rewrite Hf.
Qed.
Lemma keeps_ensure b t : keeps (P := P) (ensure b t).
Proof. by destruct b. Qed.
Lemma keeps_try {E A : Type} (f : E -> AnyhowError) (r : result E A) : keeps (P := P) (try_ f r).
Proof. by destruct r. Qed.
Lemma keeps_asks {A : Type} (f : BrokerState P -> A) : keeps (asks f).
Proof. done. Qed.
Lemma keeps_drawing {A : Type} (f : nat -> A) : keeps (P := P) (drawing f).
Proof. done. Qed.
Lemma keeps_finished_loop {A : Type} (o : option A) : keeps (P := P) (finished_loop o).
Proof. by destruct o. Qed.
End Keeps.

Create HintDb keeps.
#[export] Hint Resolve keeps_ret keeps_bail keeps_ensure keeps_try keeps_asks keeps_drawing
  keeps_finished_loop : keeps.

(** Follows a task down to what [keeps] is known of. *)
Ltac keep :=
  repeat match goal with
  | |- keeps (_ ≫= _) => apply keeps_bind; [|intros ?]
  | |- keeps (if ?x then _ else _) => destruct x
  | |- keeps (match ?x with _ => _ end) => destruct x
  | |- keeps (let '(_, _) := ?x in _) => destruct x
  | |- keeps (let x := _ in _) => intros x
  end; eauto with keeps.

(** A successful run of a bind, taken apart. *)
Lemma task_bind_Done `{ManagedChrome} {P A B : Type} (m : Task P A) (f : A -> Task P B) w b w' :
  (m ≫= f) w = (Done b, w') <-> exists a w1, m w = (Done a, w1) /\ f a w1 = (Done b, w').
Proof.
  unfold mbind, task_bind. split.
  - destruct (m w) as [[a|e|] w1]; [|done..]. eauto.
  - by intros (a & w1 & -> & Hf).
Qed.
Lemma try_Done `{ManagedChrome} {P E A : Type} (f : E -> AnyhowError) (r : result E A)
    (w w' : World P) a : try_ f r w = (Done a, w') <-> r = Ok a /\ w' = w.
Proof. destruct r; cbn; split; [intros [= -> ->]|intros [[= ->] ->]|intros [=]|intros [[=] ?]]; done. Qed.
Lemma ensure_Done `{ManagedChrome} {P : Type} b t (w w' : World P) u :
  ensure b t w = (Done u, w') <-> b = true /\ w' = w.
Proof. destruct b, u; cbn; split; [by intros [= ->]|intros [_ ->]|intros [=]|intros [[=] ?]]; done. Qed.
Lemma finished_Done `{ManagedChrome} {P A : Type} (o : option A) (w w' : World P) a :
  finished_loop o w = (Done a, w') <-> o = Some a /\ w' = w.
Proof. destruct o; cbn; split; [intros [= -> ->]|intros [[= ->] ->]|intros [=]|intros [[=] ?]]; done. Qed.

(** Takes a successful run of a task apart into its steps. *)
Ltac task_step Hr :=
  match type of Hr with
  | (_ ≫= _) _ = (Done _, _) =>
      let a := fresh "a" in let w := fresh "w" in let Hs := fresh "Hs" in
      apply task_bind_Done in Hr as (a & w & Hs & Hr)
  | asks _ _ = (Done _, _) => unfold asks in Hr; injection Hr as <- <-
  | drawing _ _ = (Done _, _) => unfold drawing in Hr; injection Hr as <- <-
  | mret _ _ = (Done _, _) => cbn [mret task_ret] in Hr; injection Hr as <- <-
  | try_ _ _ _ = (Done _, _) => let Ho := fresh "Ho" in apply try_Done in Hr as [Ho ->]
  | from_params _ _ _ = (Done _, _) =>
      let Ho := fresh "Ho" in apply try_Done in Hr as [Ho ->]
  | read_request _ _ = (Done _, _) =>
      let Ho := fresh "Ho" in apply try_Done in Hr as [Ho ->]
  | ensure _ _ _ = (Done _, _) => let Ho := fresh "Ho" in apply ensure_Done in Hr as [Ho ->]
  | finished_loop _ _ = (Done _, _) =>
      let Ho := fresh "Ho" in apply finished_Done in Hr as [Ho ->]
  | bail _ _ = (Done _, _) => discriminate Hr
  end.

Section Turns.
Context `{ManagedChrome, Chrono, Hashes, Signatures, Aead, X25519, Base64, Cbor, WireCodec,
  UrlParser, JsonCodec, !JsonReader, HashIter, Environment, HttpClient, SqliteText, UnicodeCase,
  JsonFloats, Monotonic, PeerProcess, PolicySerializer, PolicyYaml, Serde} {P : Type}
  `{SecretProvider P, !OtherTasks P}.
Variable platform : HostPlatform.

Lemma keeps_from_params {A : Type} (from : Json -> result string A) params :
  keeps (P := P) (from_params from params).
Proof. apply keeps_try. Qed.
Lemma keeps_io {A : Type} (f : nat -> option A) : keeps (P := P) (io f).
Proof. unfold io. keep. Qed.
Lemma keeps_peer principal cred : keeps (P := P) (verify_peer_identity principal cred).
Proof. unfold verify_peer_identity. keep; apply keeps_io. Qed.
Lemma keeps_start hello : keeps (P := P) (start_handshake hello).
Proof. unfold start_handshake. keep. Qed.
Lemma keeps_finish pk info started params :
  keeps (P := P) (finish_handshake pk info started params).
Proof. unfold finish_handshake. keep. Qed.
Lemma keeps_send codec payload : keeps (P := P) (send codec payload).
Proof. unfold send. keep. Qed.
Lemma keeps_read message : keeps (P := P) (read_request message).
Proof. apply keeps_try. Qed.
Lemma keeps_unseal channel wire : keeps (P := P) (unseal channel wire).
Proof. unfold unseal. keep. Qed.
Lemma keeps_seal channel message : keeps (P := P) (seal channel message).
Proof. unfold seal. keep. Qed.
#[local] Hint Resolve keeps_from_params keeps_io keeps_peer keeps_start keeps_finish keeps_send
  keeps_read keeps_unseal keeps_seal : keeps.

Lemma keeps_reply c response : keeps (P := P) (reply c response).
Proof. unfold reply. keep. Qed.
Lemma keeps_receive c wire : keeps (P := P) (receive c wire).
Proof. unfold receive. keep. Qed.
Lemma keeps_hello cred c id params : keeps (P := P) (session_hello cred c id params).
Proof. unfold session_hello. keep. Qed.
#[local] Hint Resolve keeps_reply keeps_receive keeps_hello : keeps.
Lemma keeps_session_authenticate c id params : keeps (P := P) (session_authenticate c id params).
Proof. unfold session_authenticate. keep. Qed.
#[local] Hint Resolve keeps_session_authenticate : keeps.

Lemma keeps_executor_accept cred hello : keeps (P := P) (executor_accept cred hello).
Proof. unfold executor_accept. keep. Qed.
Lemma keeps_admin_accept hello : keeps (P := P) (admin_accept hello).
Proof. unfold admin_accept. keep. Qed.

(** The part of a connection before the handshake is over. *)
Definition unestablished {K : Type} (c : SocketConnection K) : bool :=
  match c with Established _ _ _ => false | _ => true end.

Lemma keeps_socket {K : Type} (kind : SocketKind P K) c wire :
  (forall hello, keeps (k_accept kind hello)) -> (forall k, keeps (k_public_key kind k)) ->
  unestablished c = true -> keeps (socket_message kind c wire).
Proof. intros Ha Hk Hc. destruct c; [| |discriminate]; unfold socket_message; keep. Qed.

(** ** Before authentication *)

Lemma receive_Done c wire (w w' : World P) m c' :
  receive c wire w = (Done (m, c'), w') ->
  authenticated_agent c' = authenticated_agent c /\
  pending_handshake c' = pending_handshake c /\
  authenticated_at c' = authenticated_at c /\ w_broker w' = w_broker w /\
  match secure_channel c with
  | None => m = wire /\ c' = c /\ w' = w
  | Some channel => exists channel',
      decrypt channel wire = (Ok m, channel') /\ secure_channel c' = Some channel' /\
      match authenticated_at c with
      | Some since => elapsed_seconds since (instant_now (w_tick w)) < REKEY_SECONDS
      | None => True
      end
  end.
Proof.
  intros Hr. pose proof (keeps_receive c wire w) as Hk. rewrite Hr in Hk. cbn [snd] in Hk.
  unfold receive in Hr. destruct (secure_channel c) as [channel|]; [|by task_step Hr].
  task_step Hr. task_step Hr. destruct a0 as [message channel']. task_step Hr.
  unfold unseal in Hs0. destruct (decrypt channel wire) as [r ch] eqn:Hd.
  task_step Hs0. task_step Hs1. task_step Hs0. subst r. split_and!; [done..|].
  exists ch. split_and!; [done..|]. destruct (authenticated_at c) as [since|]; [|done].
  task_step Hs. task_step Hs0. task_step Hs. by apply Z.ltb_lt.
Qed.

Lemma keeps_agent_message cred c wire :
  authenticated_agent c = None -> keeps (P := P) (agent_message platform cred c wire).
Proof.
  intros Hc w. unfold agent_message, mbind at 1, task_bind at 1.
  pose proof (keeps_receive c wire w) as Hk.
  destruct (receive c wire w) as [[[m c1]|e|] w1] eqn:Hr; [|done..].
  apply receive_Done in Hr as (Ha & _). rewrite Hc in Ha. cbn [snd] in Hk. rewrite <-Hk.
  revert w1 Hk. intros w1 _. revert w1.
  match goal with |- forall w1, w_broker (snd (?f w1)) = _ => change (keeps (P := P) f) end.
  keep. unfold agent_dispatch. rewrite Ha. keep.
Qed.

Lemma find_method_elem {A : Type} name (methods : list (string * A)) m :
  find_method name methods = Some m -> (name, m) ∈ methods.
Proof.
  induction methods as [|[n x] methods IH]; [done|]. cbn [find_method]. case_bool_decide.
  - intros [= ->]. subst. by left.
  - right. by apply IH.
Qed.

(** C11: a peer that has not authenticated is not served. Whatever a connection
    receives before its handshake is over, on the agent's, the executor's or
    the administrator's socket, the broker's state and database stay as they
    are, also when the message ends the connection; and an agent that asks for
    anything but the handshake is refused with an error under the identifier of
    its request. *)
Theorem unauthenticated_peers_change_nothing cred wire (w : World P) :
  (forall c, authenticated_agent c = None ->
     w_broker (snd (agent_message platform cred c wire w)) = w_broker w) /\
  (forall c, unestablished c = true ->
     w_broker (snd (socket_message (executor_socket cred) c wire w)) = w_broker w) /\
  (forall c, unestablished c = true ->
     w_broker (snd (socket_message admin_socket c wire w)) = w_broker w) /\
  (forall c method id params, authenticated_agent c = None ->
     exists code message,
       agent_dispatch platform c method id params w
       = (Done (rpc_failure id (rpc_error code message)), w)).
Proof.
  split_and!.
  - intros c Hc. by apply keeps_agent_message.
  - intros c Hc. apply keeps_socket; [|done|done]. intros hello. apply keeps_executor_accept.
  - intros c Hc. apply keeps_socket; [|done|done]. intros hello. apply keeps_admin_accept.
  - intros c method id params Hc. unfold agent_dispatch. rewrite Hc.
    case_bool_decide; unfold hello_required, method_not_found; by do 2 eexists.
Qed.

(** ** The turns of an agent's connection *)

Lemma send_Done codec payload (w w' : World P) sent :
  send codec payload w = (Done sent, w') <->
  blen payload <= max_payload_bytes codec /\ sent = payload /\ w' = w.
Proof.
  unfold send, encode. destruct (max_payload_bytes codec <? blen payload) eqn:Hl; bool_to_prop.
  - split; [intros Hr; do 2 task_step Hr; done|lia].
  - split.
    + intros Hr. task_step Hr. task_step Hs. task_step Hr. done.
    + by intros (_ & -> & ->).
Qed.

Lemma reply_Done c response (w w' : World P) sent c' :
  reply c response w = (Done (sent, c'), w') ->
  authenticated_agent c' = authenticated_agent c /\
  pending_handshake c' = pending_handshake c /\
  authenticated_at c' = authenticated_at c /\ w_broker w' = w_broker w /\
  match secure_channel c with
  | None => sent = to_vec (response_to_value response) /\ c' = c
  | Some channel => exists channel',
      encrypt channel (to_vec (response_to_value response)) = (Ok sent, channel') /\
      secure_channel c' = Some channel'
  end.
Proof.
  intros Hr. pose proof (keeps_reply c response w) as Hk. rewrite Hr in Hk. cbn [snd] in Hk.
  unfold reply in Hr. destruct (secure_channel c) as [channel|].
  - task_step Hr. destruct a as [wire channel']. task_step Hr. task_step Hr.
    apply send_Done in Hs0 as (_ & -> & ->). unfold seal in Hs.
    destruct (encrypt channel _) as [r ch]. task_step Hs. task_step Hs0. task_step Hs. subst r.
    split_and!; [done..|]. by exists ch.
  - task_step Hr. task_step Hr. by apply send_Done in Hs as (_ & -> & ->).
Qed.

(** A hello the broker accepted, from what it read in that turn. *)
Record hello_accepted (cred : UCred) (turn : World P * list byte) (enrolled : AgentPrincipal)
    (started : StartedHandshake) : Prop := {
  ha_version : sh_protocol_version (hs_hello started) = "1.0";
  ha_role : sh_role (hs_hello started) = "agent";
  ha_suite : offers_suite (hs_hello started) = true;
  ha_request : exists request,
    from_slice_strict request_from_value turn.2 = Ok request /\
    request_method request = "session.hello" /\
    hello_from_value (default JNull (request_params request)) = Ok (hs_hello started);
  ha_enrolled : get_enrolled_agent (store (w_broker turn.1)) (sh_principal_id (hs_hello started))
    = Ok enrolled;
  ha_enrolled_role : ag_role enrolled = "agent";
  ha_peer : fst (verify_peer_identity enrolled cred turn.1) = Done true;
  ha_fresh : exists n, hs_server_nonce started = env_uuid n /\
    x_secret (hs_server_ephemeral started) = env_random (S n)
}.

Lemma session_hello_Done cred c id params (w w' : World P) response c' :
  session_hello cred c id params w = (Done (response, c'), w') ->
  c' = c \/
  (secure_channel c = None /\ exists enrolled started,
    c' = {| authenticated_agent := authenticated_agent c;
            pending_handshake := Some (enrolled, started);
            secure_channel := None; authenticated_at := authenticated_at c |} /\
    forall wire request, from_slice_strict request_from_value wire = Ok request ->
      request_method request = "session.hello" -> request_params request = params ->
      hello_accepted cred (w, wire) enrolled started).
Proof.
  unfold session_hello. intros Hr.
  destruct (bool_decide (is_Some (secure_channel c)) || _) eqn:Hb; [left; by task_step Hr|].
  apply orb_false_iff in Hb as [Hb _]. apply bool_decide_eq_false, eq_None_not_Some in Hb.
  task_step Hr. task_step Hs. rename a into hello, Ho into Hhello.
  task_step Hr. task_step Hs.
  destruct (negb (bool_decide (sh_protocol_version hello = "1.0")) || _ || _ || _) eqn:Hrej;
    [left; by task_step Hr|].
  repeat (apply orb_false_iff in Hrej as [Hrej ?]).
  task_step Hr. task_step Hs. rename a into enrolled. task_step Hr. task_step Hr.
  task_step Hs0. subst a. task_step Hr. destruct a as [answer started]. task_step Hr.
  right. split; [done|]. exists enrolled, started. split; [by rewrite Hb|].
  intros wire request Hw Hm Hp. destruct (get_enrolled_agent _ _) as [e|] eqn:He; [|done].
  injection Ho as ->. unfold start_handshake in Hs0. repeat task_step Hs0.
  repeat match goal with Hx : drawing _ _ = _ |- _ => task_step Hx end.
  repeat match goal with Hx : asks _ _ = _ |- _ => task_step Hx end.
  bool_to_prop. split; cbn [hs_hello hs_server_nonce hs_server_ephemeral x_secret fst snd]; try done.
  - exists request. by rewrite Hp.
  - match goal with Hx : is_none_or _ _ = false |- _ => cbn in Hx; by bool_to_prop end.
  - by rewrite Hs.
  - by eexists.
Qed.

(** An authentication the broker accepted: the signature, under the key of the
    principal, over both nonces and both ephemeral keys. *)
Record authentication_accepted (wire : list byte) (public_key : list byte)
    (started : StartedHandshake) (client_public : list byte) : Prop := {
  ta_request : exists request auth signature,
    from_slice_strict request_from_value wire = Ok request /\
    request_method request = "session.authenticate" /\
    authenticate_from_value (default JNull (request_params request)) = Ok auth /\
    b64_decode (sa_client_ephemeral_public_key auth) = Ok client_public /\
    b64_decode (sa_signature auth) = Ok signature /\
    verify_signature public_key
      (session_auth_transcript (hs_hello started) (hs_server_nonce started)
         (ephemeral_public (hs_server_ephemeral started)) client_public) signature = Ok tt;
  ta_key : length client_public = 32%nat
}.

(** The channel that a handshake agreed on, whatever was sent through it. *)
Definition agreed_channel (info : list byte) (started : StartedHandshake)
    (client_public : list byte) (channel : SecureChannel) : Prop :=
  let fresh := new_server (diffie_hellman (hs_server_ephemeral started) client_public)
    (as_bytes (hs_server_nonce started)) info in
  ch_tx_key channel = ch_tx_key fresh /\ ch_rx_key channel = ch_rx_key fresh.

Lemma finish_Done pk info started auth (w w' : World P) channel wire request :
  finish_handshake pk info started auth w = (Done channel, w') ->
  from_slice_strict request_from_value wire = Ok request ->
  request_method request = "session.authenticate" ->
  authenticate_from_value (default JNull (request_params request)) = Ok auth ->
  w' = w /\ exists client_public,
    authentication_accepted wire pk started client_public /\
    agreed_channel info started client_public channel.
Proof.
  intros Hr Hw Hm Hp. unfold finish_handshake in Hr. task_step Hr. task_step Hs. task_step Hr.
  apply check_authentication_Ok in Ho as (client_public & signature & Hc & Hl & Hs & Hv & ->).
  split; [done|]. exists client_public. split; [|done]. split; [|done].
  by exists request, auth, signature.
Qed.

Lemma session_authenticate_Done c id params (w w' : World P) sent c' :
  session_authenticate c id params w = (Done (sent, c'), w') ->
  (pending_handshake c = None /\ c' = c) \/
  exists enrolled started auth channel since,
    pending_handshake c = Some (enrolled, started) /\
    authenticate_from_value (default JNull params) = Ok auth /\
    finish_handshake (ag_public_key enrolled) AGENT_INFO started auth w = (Done channel, w) /\
    authenticated_agent c' = Some (ag_agent_id enrolled) /\ pending_handshake c' = None /\
    secure_channel c' = Some channel /\ authenticated_at c' = Some since.
Proof.
  unfold session_authenticate. intros Hr. task_step Hr. task_step Hs.
  destruct (pending_handshake c) as [[enrolled started]|] eqn:Hp.
  2: { left. split; [done|]. task_step Hr. by task_step Hr. }
  right. task_step Hr. destruct (finish_handshake _ _ _ _ _) as [o w1] eqn:Hf.
  injection Hs as -> ->. task_step Hr. destruct a1 as [wire c1]. task_step Hr. task_step Hs0.
  task_step Hr. apply reply_Done in Hs as (Ha & Hpe & _). cbn in Ha, Hpe.
  assert (w0 = w) as ->.
  { unfold finish_handshake in Hf. task_step Hf. task_step Hs. by task_step Hf. }
  exists enrolled, started, a, a0. eexists. by split_and!.
Qed.

Lemma agent_message_Done cred c wire (w w' : World P) sent c' :
  agent_message platform cred c wire w = (Done (sent, c'), w') ->
  exists message c1 w1 request,
    receive c wire w = (Done (message, c1), w1) /\
    from_slice_strict request_from_value message = Ok request /\
    ((request_method request = "session.hello" /\ exists response c2 w2,
        session_hello cred c1 (request_rpc_id request) (request_params request) w1
        = (Done (response, c2), w2) /\ reply c2 response w2 = (Done (sent, c'), w')) \/
     (request_method request = "session.authenticate" /\
        session_authenticate c1 (request_rpc_id request) (request_params request) w1
        = (Done (sent, c'), w')) \/
     (request_method request <> "session.hello" /\
      request_method request <> "session.authenticate" /\ exists response w2,
        agent_dispatch platform c1 (request_method request) (request_rpc_id request)
          (request_params request) w1 = (Done response, w2) /\
        reply c1 response w2 = (Done (sent, c'), w'))).
Proof.
  unfold agent_message. intros Hr. task_step Hr. destruct a as [message c1].
  task_step Hr. task_step Hs0. rename a into request.
  exists message, c1, w0, request. split; [done|]. split; [done|].
  case_bool_decide as Hh; [left|right; case_bool_decide as Ha; [left|right]].
  - split; [done|]. task_step Hr. destruct a as [response c2]. eauto 10.
  - done.
  - split_and!; [done..|]. task_step Hr. eauto.
Qed.

(** The connections an agent can have brought about: every turn found the
    broker in whatever state the other connections left it. *)
Inductive agent_run (cred : UCred) : list (World P * list byte) -> AgentConnection -> Prop :=
| run_new : agent_run cred [] new_agent_connection
| run_frame turns c w wire sent c' w' :
    agent_run cred turns c ->
    agent_message platform cred c wire w = (Done (sent, c'), w') ->
    agent_run cred (turns ++ [(w, wire)]) c'.

(** The two turns of the handshake that made an agent's connection. *)
Definition vouched (cred : UCred) (turns : list (World P * list byte)) (agent : AgentId)
    (channel : SecureChannel) : Prop :=
  exists before hello between auth after enrolled started client_public,
    turns = before ++ hello :: between ++ auth :: after /\
    hello_accepted cred hello enrolled started /\
    authentication_accepted auth.2 (ag_public_key enrolled) started client_public /\
    ag_agent_id enrolled = agent /\ agreed_channel AGENT_INFO started client_public channel.

Definition connection_inv (cred : UCred) (turns : list (World P * list byte))
    (c : AgentConnection) : Prop :=
  match pending_handshake c with
  | Some (enrolled, started) => secure_channel c = None /\ authenticated_agent c = None /\
      exists before hello after, turns = before ++ hello :: after /\
        hello_accepted cred hello enrolled started
  | None => True
  end /\
  match authenticated_agent c, secure_channel c, authenticated_at c with
  | Some agent, Some channel, Some _ => vouched cred turns agent channel
  | None, None, None => True
  | _, _, _ => False
  end.

(** Two states of a connection with messages sealed or opened in between. *)
Record alike_connections (c c' : AgentConnection) : Prop := {
  ac_agent : authenticated_agent c' = authenticated_agent c;
  ac_pending : pending_handshake c' = pending_handshake c;
  ac_at : authenticated_at c' = authenticated_at c;
  ac_channel : match secure_channel c, secure_channel c' with
    | Some ch, Some ch' => ch_tx_key ch' = ch_tx_key ch /\ ch_rx_key ch' = ch_rx_key ch
    | None, None => True
    | _, _ => False
    end
}.

Lemma alike_refl c : alike_connections c c.
Proof. split; [done..|]. by destruct (secure_channel c). Qed.

Lemma encrypt_keys ch m r ch' :
  encrypt ch m = (r, ch') -> ch_tx_key ch' = ch_tx_key ch /\ ch_rx_key ch' = ch_rx_key ch.
Proof. unfold encrypt. by case_match; intros [= _ <-]. Qed.
Lemma decrypt_keys ch m r ch' :
  decrypt ch m = (r, ch') -> ch_tx_key ch' = ch_tx_key ch /\ ch_rx_key ch' = ch_rx_key ch.
Proof. unfold decrypt. by repeat case_match; intros [= _ <-]. Qed.

Lemma receive_alike c wire (w w' : World P) m c' :
  receive c wire w = (Done (m, c'), w') -> alike_connections c c'.
Proof.
  intros Hr. apply receive_Done in Hr as (Ha & Hp & Ht & _ & Hc).
  destruct (secure_channel c) as [ch|] eqn:Hch.
  - destruct Hc as (ch' & Hd & Hc' & _). split; [done..|]. rewrite Hch, Hc'.
    by eapply decrypt_keys.
  - destruct Hc as (_ & -> & _). apply alike_refl.
Qed.
Lemma reply_alike c response (w w' : World P) sent c' :
  reply c response w = (Done (sent, c'), w') -> alike_connections c c'.
Proof.
  intros Hr. apply reply_Done in Hr as (Ha & Hp & Ht & _ & Hc).
  destruct (secure_channel c) as [ch|] eqn:Hch.
  - destruct Hc as (ch' & Hd & Hc'). split; [done..|]. rewrite Hch, Hc'. by eapply encrypt_keys.
  - destruct Hc as (_ & ->). apply alike_refl.
Qed.

Lemma vouched_alike cred turns agent ch ch' :
  ch_tx_key ch' = ch_tx_key ch -> ch_rx_key ch' = ch_rx_key ch ->
  vouched cred turns agent ch -> vouched cred turns agent ch'.
Proof.
  intros Ht Hr (b & h & bt & a & af & e & s & cp & Heq & Hh & Ha & Hag & Hk1 & Hk2).
  exists b, h, bt, a, af, e, s, cp. split_and!; try done. split; congruence.
Qed.

Lemma vouched_later cred turns agent ch turn :
  vouched cred turns agent ch -> vouched cred (turns ++ [turn]) agent ch.
Proof.
  intros (b & h & bt & a & af & e & s & cp & -> & Hrest).
  exists b, h, bt, a, (af ++ [turn]), e, s, cp. split; [|done].
  by rewrite <-!app_assoc, <-!app_comm_cons, <-!app_assoc, <-!app_comm_cons.
Qed.

Lemma inv_alike cred turns c c' :
  alike_connections c c' -> connection_inv cred turns c -> connection_inv cred turns c'.
Proof.
  intros [Ha Hp Ht Hc] [Hpend Hserved]. unfold connection_inv. rewrite Ha, Hp, Ht. split.
  - destruct (pending_handshake c) as [[e s]|]; [|done]. destruct Hpend as (Hn & ? & ?).
    rewrite Hn in Hc. by destruct (secure_channel c').
  - destruct (authenticated_agent c), (secure_channel c), (secure_channel c'),
      (authenticated_at c); try done. destruct Hc. by eapply vouched_alike.
Qed.

Lemma inv_later cred turns c turn :
  connection_inv cred turns c -> connection_inv cred (turns ++ [turn]) c.
Proof.
  intros [Hpend Hserved]. split.
  - destruct (pending_handshake c) as [[e s]|]; [|done].
    destruct Hpend as (? & ? & b & h & af & -> & Hh). split_and!; [done..|].
    exists b, h, (af ++ [turn]). by rewrite <-app_assoc.
  - destruct (authenticated_agent c), (secure_channel c), (authenticated_at c); try done.
    by apply vouched_later.
Qed.

Lemma inv_turn cred turns c w wire sent c' w' :
  agent_message platform cred c wire w = (Done (sent, c'), w') ->
  connection_inv cred turns c -> connection_inv cred (turns ++ [(w, wire)]) c'.
Proof.
  intros Hm Hinv. apply agent_message_Done in Hm as (m & c1 & w1 & request & Hrc & Hreq & Hm).
  pose proof (inv_alike _ _ _ _ (receive_alike _ _ _ _ _ _ Hrc) Hinv) as Hinv1.
  apply receive_Done in Hrc as (Ha & Hp & Ht & _ & Hch). destruct Hm as [(Hmeth & Hm)|[(Hmeth & Hm)|Hm]].
  - destruct Hm as (response & c2 & w2 & Hh & Hrp). apply reply_alike in Hrp.
    eapply inv_alike; [exact Hrp|].
    apply session_hello_Done in Hh as [->|(Hn & e & s & -> & Hacc)]; [by apply inv_later|].
    assert (secure_channel c = None) as Hcn.
    { destruct (secure_channel c); [|done]. destruct Hch as (? & ? & ? & _). congruence. }
    rewrite Hcn in Hch. destruct Hch as (-> & -> & ->). destruct Hinv1 as [_ Hserved].
    rewrite Hn in Hserved. destruct (authenticated_agent c) eqn:Hau, (authenticated_at c) eqn:Hat; try done.
    split; cbn; [|done]. split_and!; [done..|]. exists turns, (w, wire), []. split; [done|].
    by eapply Hacc.
  - apply session_authenticate_Done in Hm as [(_ & ->)|Hm]; [by apply inv_later|].
    destruct Hm as (e & s & auth & ch & since & Hpe & Hauth & Hf & Hag & Hp' & Hc' & Hs').
    destruct Hinv as [Hpend _]. rewrite <-Hp, Hpe in Hpend. destruct Hpend as (Hn & _ & b & h & af & -> & Hh).
    rewrite Hn in Hch. destruct Hch as (-> & -> & ->).
    eapply finish_Done in Hf as (_ & cp & Hacc & Hagr); [|done..].
    split; [by rewrite Hp'|]. rewrite Hag, Hc', Hs'.
    exists b, h, af, (w, wire), [], e, s, cp. split_and!; try done.
    by rewrite <-app_assoc.
  - destruct Hm as (_ & _ & response & w2 & _ & Hrp). apply reply_alike in Hrp.
    eapply inv_alike; [exact Hrp|]. by apply inv_later.
Qed.

Lemma agent_run_inv cred turns c : agent_run cred turns c -> connection_inv cred turns c.
Proof. induction 1 as [|turns c w wire sent c' w' _ IH Hm]; [done|]. by eapply inv_turn. Qed.

(** C2: an agent that is served is who it says. On a connection that has come
    to be authenticated, whatever was sent on it and whatever the rest of the
    broker did in between, there were two turns, in this order: a hello of the
    current version for the role of an agent and with the suite, naming an
    enrolled principal of that role, whose user and executable the peer of the
    socket matched at that moment, which the broker answered with a fresh nonce
    and ephemeral key; and an authentication signed by that principal's key over
    exactly these and the client's own. The agent is that principal, and the
    channel in use has the keys these two turns agreed on. *)
Theorem served_agent_is_vouched cred turns c agent :
  agent_run cred turns c -> authenticated_agent c = Some agent ->
  exists channel, secure_channel c = Some channel /\ vouched cred turns agent channel.
Proof.
  intros Hrun Ha. destruct (agent_run_inv _ _ _ Hrun) as [_ Hserved]. rewrite Ha in Hserved.
  destruct (secure_channel c) as [channel|], (authenticated_at c); try done. by exists channel.
Qed.
End Turns.
