(* ===== verification/ServerSessions.v ===== *)
(** * ServerSessions: what happens on an established connection

    Every answer names its request and goes through the channel, each under its
    own nonce; nothing is handled ten minutes after the handshake; and an agent
    that waits for the end of its request is answered in the end. *)

From S2P Require Import Prelude.
From S2P Require Import Externals.
From S2P Require Import Domain.
From S2P Require Import Policy.
From S2P Require Import Crypto.
From S2P Require Import DomView.
From S2P Require Import Capability.
From S2P Require Import Provider.
From S2P Require Import OAuth.
From S2P Require Import Protocol.
From S2P Require Import Framing.
From S2P Require Import BrokerState.
From S2P Require Import Broker.
From S2P Require Import Pages.
From S2P Require Import Wire.
From S2P Require Import Handshake.
From S2P Require Import Server.
From S2P Require Import ServerProps.

(** ** A response names its request *)

Definition names_request `{ManagedChrome} {P : Type} (m : Method P) : Prop :=
  forall id params w r w', m id params w = (Done r, w') -> response_rpc_id r = id.

Section Names.
Context `{ManagedChrome, Serde} {P : Type}.

Lemma respond_names {A : Type} (to_json : A -> result string Json) id r (w w' : World P) res :
  respond to_json id r w = (Done res, w') -> response_rpc_id res = id.
Proof.
  unfold respond. destruct r as [a|e]; intros Hr; [|by task_step Hr].
  task_step Hr. task_step Hs. by task_step Hr.
Qed.
Lemma answer_with_names {A B : Type} from to_json (handler : A -> Broker P B) :
  names_request (answer_with from to_json handler).
Proof.
  intros id params w r w' Hr. unfold answer_with in Hr. task_step Hr. task_step Hr.
  by eapply respond_names.
Qed.
Lemma answer_names {A B : Type} (p : Wire A) (r : Wire B) (handler : A -> Broker P B) :
  names_request (answer p r handler).
Proof. apply answer_with_names. Qed.
Lemma answer_json_names {A : Type} (p : Wire A) (handler : A -> Broker P Json) :
  names_request (answer_json p handler).
Proof. apply answer_with_names. Qed.
Lemma answer_view_names {B : Type} (r : Wire B) (handler : Broker P B) :
  names_request (answer_view r handler).
Proof.
  intros id params w res w' Hr. unfold answer_view in Hr. task_step Hr. by eapply respond_names.
Qed.

Lemma find_method_names name (methods : list (string * Method P)) m :
  Forall (fun entry => names_request entry.2) methods ->
  find_method name methods = Some m -> names_request m.
Proof.
  intros Hall Hf. apply find_method_elem in Hf. rewrite list.Forall_forall in Hall.
  apply (Hall _ Hf).
Qed.
End Names.

Create HintDb names.
#[export] Hint Resolve answer_with_names answer_names answer_json_names answer_view_names : names.

Section Sessions.
Context `{ManagedChrome, Chrono, Hashes, Signatures, Aead, X25519, Base64, Cbor, WireCodec,
  UrlParser, JsonCodec, !JsonReader, HashIter, Environment, HttpClient, SqliteText, UnicodeCase,
  JsonFloats, Monotonic, PeerProcess, PolicySerializer, PolicyYaml, Serde} {P : Type}
  `{SecretProvider P, !OtherTasks P}.
Variable platform : HostPlatform.

(** Follows a method to the response it makes. *)
Ltac named Hr :=
  repeat first
    [ eapply respond_names; exact Hr
    | match type of Hr with
      | (match ?x with _ => _ end) _ = _ => destruct x
      | (if ?x then _ else _) _ = _ => destruct x
      end
    | task_step Hr ]; try done.

Lemma request_names agent : names_request (action_request platform agent).
Proof. intros id ps w r w' Hr. unfold action_request in Hr. named Hr. Qed.
Lemma authenticate_names agent : names_request (action_authenticate platform agent).
Proof. intros id ps w r w' Hr. unfold action_authenticate in Hr. named Hr. Qed.
Lemma subscribe_names agent : names_request (P := P) (action_subscribe agent).
Proof. intros id ps w r w' Hr. unfold action_subscribe in Hr. named Hr. Qed.
Lemma info_names agent since : names_request (P := P) (session_info agent since).
Proof. intros id ps w r w' Hr. unfold session_info in Hr. named Hr. Qed.
Lemma reload_names : names_request (P := P) policy_reload.
Proof. intros id ps w r w' Hr. unfold policy_reload in Hr. named Hr. Qed.
#[local] Hint Resolve request_names authenticate_names subscribe_names info_names reload_names
  : names.

Lemma agent_methods_name agent since :
  Forall (fun entry => names_request entry.2) (agent_methods platform agent since ++ page_methods).
Proof. unfold agent_methods, page_methods. cbn [app]. repeat constructor; cbn [snd]; auto with names. Qed.
Lemma executor_methods_name : Forall (fun entry => names_request (P := P) entry.2) executor_methods.
Proof. unfold executor_methods. repeat constructor; cbn [snd]; auto with names. Qed.
Lemma admin_methods_name : Forall (fun entry => names_request (P := P) entry.2) admin_methods.
Proof.
  unfold admin_methods. repeat (constructor; [cbn [snd]; auto with names|]).
  all: try constructor. intros id ps w r w' Hr. by task_step Hr.
Qed.

Lemma dispatch_names c method : names_request (agent_dispatch platform c method).
Proof.
  intros id params w r w' Hr. unfold agent_dispatch in Hr.
  destruct (authenticated_agent c) as [agent|].
  - destruct (find_method _ _) as [m|] eqn:Hf; [|by task_step Hr].
    by eapply (find_method_names _ _ _ (agent_methods_name _ _) Hf).
  - destruct (bool_decide _); by task_step Hr.
Qed.

(** ** One turn on a channel *)

Lemma unseal_Done channel wire (w w' : World P) m ch :
  unseal channel wire w = (Done (m, ch), w') <-> decrypt channel wire = (Ok m, ch) /\ w' = w.
Proof.
  unfold unseal. destruct (decrypt channel wire) as [r c]. split.
  - intros Hr. task_step Hr. task_step Hs. task_step Hr. by subst.
  - by intros ([= -> ->] & ->).
Qed.
Lemma seal_Done channel m (w w' : World P) wire ch :
  seal channel m w = (Done (wire, ch), w') <-> encrypt channel m = (Ok wire, ch) /\ w' = w.
Proof.
  unfold seal. destruct (encrypt channel m) as [r c]. split.
  - intros Hr. task_step Hr. task_step Hs. task_step Hr. by subst.
  - by intros ([= -> ->] & ->).
Qed.

Lemma decrypt_Ok ch wire m ch' :
  decrypt ch wire = (Ok m, ch') ->
  aead_decrypt (ch_rx_key ch) (format_nonce (ch_rx_nonce ch)) wire = Some m /\
  ch' = set_rx_nonce ch (ch_rx_nonce ch + 1).
Proof.
  unfold decrypt, checked_succ. destruct (aead_decrypt _ _ _) as [m'|]; [|done].
  destruct (_ =? _); [done|]. by intros [= -> <-].
Qed.
Lemma encrypt_Ok ch m wire ch' :
  encrypt ch m = (Ok wire, ch') ->
  aead_encrypt (ch_tx_key ch) (format_nonce (ch_tx_nonce ch)) m = Some wire /\
  ch' = set_tx_nonce ch (ch_tx_nonce ch + 1).
Proof.
  unfold encrypt, checked_succ. destruct (_ =? _); [done|]. intros [= He <-].
  destruct (aead_encrypt _ _ _) as [c|]; [|done]. cbn in He. by injection He as ->.
Qed.

(** The [i]-th frame after a state of a channel, and its answer. *)
Definition sealed_exchange (ch : SecureChannel) (i : Z) (wire sent : list byte) : Prop :=
  exists message request response,
    aead_decrypt (ch_rx_key ch) (format_nonce (ch_rx_nonce ch + i)) wire = Some message /\
    from_slice_strict request_from_value message = Ok request /\
    response_rpc_id response = request_rpc_id request /\
    aead_encrypt (ch_tx_key ch) (format_nonce (ch_tx_nonce ch + i))
      (to_vec (response_to_value response)) = Some sent.

Lemma established_turn {K : Type} (kind : SocketKind P K) p ch since wire w sent c' w' :
  Forall (fun entry => names_request entry.2) (k_methods kind) ->
  socket_message kind (Established p ch since) wire w = (Done (sent, c'), w') ->
  elapsed_seconds since (instant_now (w_tick w)) < REKEY_SECONDS /\
  sealed_exchange ch 0 wire sent /\
  c' = Established p (set_tx_nonce (set_rx_nonce ch (ch_rx_nonce ch + 1)) (ch_tx_nonce ch + 1)) since.
Proof.
  intros Hall Hr. unfold socket_message in Hr.
  task_step Hr. task_step Hs. task_step Hr. task_step Hs. bool_to_prop. split; [done|]. clear a.
  task_step Hr. destruct a as [message ch1]. apply unseal_Done in Hs as [Hd ->].
  apply decrypt_Ok in Hd as [Hd ->].
  task_step Hr. task_step Hs. rename a into request. task_step Hr. rename a into response.
  task_step Hr. destruct a as [sealed ch2]. apply seal_Done in Hs0 as [He ->].
  apply encrypt_Ok in He as [He ->]. task_step Hr. apply send_Done in Hs0 as (_ & -> & ->).
  task_step Hr. split; [|done]. exists message, request, response.
  rewrite !Z.add_0_r. split_and!; try done.
  destruct (find_method _ _) as [m|] eqn:Hf; [|by task_step Hs].
  eapply (find_method_names _ _ _ Hall Hf), Hs.
Qed.

Lemma sealed_exchange_shift ch i wire sent :
  sealed_exchange (set_tx_nonce (set_rx_nonce ch (ch_rx_nonce ch + 1)) (ch_tx_nonce ch + 1)) i wire sent
  <-> sealed_exchange ch (1 + i) wire sent.
Proof. unfold sealed_exchange. cbn. by rewrite <-!Z.add_assoc. Qed.

Lemma established_turns {K : Type} (kind : SocketKind P K) frames :
  Forall (fun entry => names_request entry.2) (k_methods kind) ->
  forall p ch since w sent c' w',
  socket_connection kind (Established p ch since) frames w = (Done (sent, c'), w') ->
  length sent = length frames /\
  forall i wire out, frames !! i = Some wire -> sent !! i = Some out ->
    sealed_exchange ch (Z.of_nat i) wire out.
Proof.
  intros Hall. induction frames as [|wire frames IH]; intros p ch since w sent c' w' Hr.
  { cbn [socket_connection] in Hr. by task_step Hr. }
  cbn [socket_connection] in Hr. task_step Hr. destruct a as [out c1].
  apply established_turn in Hs as (_ & Hx & ->); [|done].
  task_step Hr. destruct a as [rest c2]. task_step Hr.
  apply IH in Hs as [Hl Hs]. split; [cbn; lia|]. intros [|i] wr o Hw Ho.
  - injection Hw as <-. by injection Ho as <-.
  - specialize (Hs i wr o Hw Ho). rewrite sealed_exchange_shift in Hs.
    by replace (Z.of_nat (S i)) with (1 + Z.of_nat i) by lia.
Qed.

(** C19: on an established connection of an executor or of the administrator every
    frame is handled on the channel, in order. Over any sequence of frames that
    the connection survives, the i-th one opens under the client's key and the
    i-th nonce, holds one strict JSON request, and is answered by one frame: the
    encryption, under the broker's key and the i-th nonce, of a response with
    that request's identifier. A frame that is dropped, repeated or out of place
    therefore ends the connection. *)
Theorem session_frames_are_sealed_in_order cred frames (w : World P) :
  (forall p ch since sent c' w',
     socket_connection (executor_socket cred) (Established p ch since) frames w
     = (Done (sent, c'), w') ->
     length sent = length frames /\
     forall i wire out, frames !! i = Some wire -> sent !! i = Some out ->
       sealed_exchange ch (Z.of_nat i) wire out) /\
  (forall p ch since sent c' w',
     socket_connection admin_socket (Established p ch since) frames w = (Done (sent, c'), w') ->
     length sent = length frames /\
     forall i wire out, frames !! i = Some wire -> sent !! i = Some out ->
       sealed_exchange ch (Z.of_nat i) wire out).
Proof.
  split; intros p ch since sent c' w' Hr.
  - eapply (established_turns (executor_socket cred)); [apply executor_methods_name|exact Hr].
  - eapply (established_turns admin_socket); [apply admin_methods_name|exact Hr].
Qed.

(** ** The rekey deadline *)

(** Nothing is served ten minutes after the handshake. A frame that arrives
    600 seconds or more after a connection was established, on any of the three
    sockets, is not even decrypted: the connection ends with the demand for a
    new handshake, and the broker's state is as it was. *)
Theorem nothing_is_served_after_the_deadline cred wire (w : World P) :
  let after w := {| w_broker := w_broker w; w_tick := S (w_tick w) |} in
  (forall c channel since, secure_channel c = Some channel -> authenticated_at c = Some since ->
     REKEY_SECONDS <= elapsed_seconds since (instant_now (w_tick w)) ->
     agent_message platform cred c wire w
     = (Fail (Anyhow "agent session rekey required"), after w)) /\
  (forall p channel since, REKEY_SECONDS <= elapsed_seconds since (instant_now (w_tick w)) ->
     socket_message (executor_socket cred) (Established p channel since) wire w
     = (Fail (Anyhow "executor rekey required"), after w)) /\
  (forall p channel since, REKEY_SECONDS <= elapsed_seconds since (instant_now (w_tick w)) ->
     socket_message admin_socket (Established p channel since) wire w
     = (Fail (Anyhow "admin rekey required"), after w)).
Proof.
  intros after. split_and!.
  - intros c channel since Hc Ha Hd. unfold agent_message, receive. rewrite Hc, Ha.
    unfold mbind, task_bind, drawing, ensure. by rewrite (proj2 (Z.ltb_ge _ _) Hd).
  - intros p channel since Hd. unfold socket_message, mbind, task_bind, drawing, ensure.
    by rewrite (proj2 (Z.ltb_ge _ _) Hd).
  - intros p channel since Hd. unfold socket_message, mbind, task_bind, drawing, ensure.
    by rewrite (proj2 (Z.ltb_ge _ _) Hd).
Qed.

(** ** The answers of an agent's connection *)

(** C21: the answers to an agent. On an authenticated connection each frame that is
    answered opens to one strict JSON request, and the answer names it and is
    sealed; but a repeated [session.authenticate] is answered as plain text,
    although the request came, and everything else goes, through the channel. *)
Theorem agent_answers_are_sealed_except_one cred turns c agent wire w sent c' w' :
  agent_run platform cred turns c -> authenticated_agent c = Some agent ->
  agent_message platform cred c wire w = (Done (sent, c'), w') ->
  exists channel channel1 message request,
    secure_channel c = Some channel /\ decrypt channel wire = (Ok message, channel1) /\
    from_slice_strict request_from_value message = Ok request /\
    (request_method request = "session.authenticate" ->
       sent = to_vec (response_to_value (hello_required (request_rpc_id request)))) /\
    (request_method request <> "session.authenticate" ->
       exists response channel2, response_rpc_id response = request_rpc_id request /\
         encrypt channel1 (to_vec (response_to_value response)) = (Ok sent, channel2)).
Proof.
  intros Hrun Ha Hm. destruct (agent_run_inv _ _ _ _ Hrun) as [Hpend Hserved].
  rewrite Ha in Hserved. destruct (secure_channel c) as [channel|] eqn:Hc; [|done].
  destruct (pending_handshake c) as [[e s]|] eqn:Hp; [by destruct Hpend|].
  apply agent_message_Done in Hm as (m & c1 & w1 & request & Hrc & Hreq & Hm).
  apply receive_Done in Hrc as (Ha1 & Hp1 & _ & _ & Hch). rewrite Hc in Hch.
  destruct Hch as (channel1 & Hd & Hc1 & _). exists channel, channel1, m, request.
  split_and!; [done..| |]; intros Hmeth; destruct Hm as [(Hm & Hx)|[(Hm & Hx)|Hx]];
    try congruence; try (destruct Hx as (? & ? & _); congruence).
  - unfold session_authenticate in Hx. rewrite Hp1, Hp in Hx.
    task_step Hx. task_step Hx. task_step Hx. by apply send_Done in Hs0 as (_ & -> & _).
  - destruct Hx as (response & c2 & w2 & Hh & Hrp). unfold session_hello in Hh.
    rewrite Hc1 in Hh. cbn in Hh. task_step Hh. apply reply_Done in Hrp as (_ & _ & _ & _ & Hrp).
    rewrite Hc1 in Hrp. destruct Hrp as (ch2 & He & _). by exists (rpc_failure (request_rpc_id request)
      (security_violation "Handshake already started")), ch2.
  - destruct Hx as (_ & _ & response & w2 & Hdi & Hrp). apply dispatch_names in Hdi.
    apply reply_Done in Hrp as (_ & _ & _ & _ & Hrp). rewrite Hc1 in Hrp.
    destruct Hrp as (ch2 & He & _). by exists response, ch2.
Qed.
End Sessions.

(** ** Waiting ends *)

Section Waiting.
Context `{ManagedChrome, MonotonicLaws} {P : Type} `{OT : !OtherTasks P, !OtherTasksLaws}.

Definition poll_step : Z := POLL_MS * nanos_per_milli.

(** A loop each turn of which has its answer, or polls again for the next turn
    with what it has so far. *)
Lemma polling_ends {A S : Type} (loop : nat -> S -> Task P (option A)) (good : A -> Prop) deadline :
  (forall n s w, (exists r w', loop (Datatypes.S n) s w = (Done (Some r), w') /\ good r) \/
     (exists r s', loop (Datatypes.S n) s w = poll_again deadline r (loop n s') w)) ->
  forall n s w, deadline <= instant_now (w_tick w) + Z.of_nat n * poll_step ->
  exists r w', loop (Datatypes.S n) s w = (Done (Some r), w') /\
    (good r \/ deadline <= instant_now (w_tick w')).
Proof.
  intros Hturn. induction n as [|n IH]; intros s w Hd.
  - destruct (Hturn O s w) as [(r & w' & Hr & Hg)|(r & s' & Hr)]; [by exists r, w'; eauto|].
    rewrite Hr. unfold poll_again, mbind, task_bind, drawing; cbn [w_tick].
    rewrite (proj2 (Z.leb_le _ _)) by lia. eexists _, _. split; [done|]. right. cbn [w_tick].
    pose proof (instant_monotone (w_tick w) (Datatypes.S (w_tick w)) ltac:(lia)). lia.
  - destruct (Hturn (Datatypes.S n) s w) as [(r & w' & Hr & Hg)|(r & s' & Hr)];
      [by exists r, w'; eauto|].
    rewrite Hr. unfold poll_again, mbind, task_bind, drawing; cbn [w_tick].
    destruct (deadline <=? instant_now (w_tick w)) eqn:Hle; bool_to_prop.
    + eexists _, _. split; [done|]. right. cbn [w_tick].
      pose proof (instant_monotone (w_tick w) (Datatypes.S (w_tick w)) ltac:(lia)). lia.
    + unfold suspend. apply IH. cbn [w_tick].
      set (w1 := {| w_broker := w_broker w; w_tick := Datatypes.S (w_tick w) |}).
      pose proof (other_tasks_later w1) as Ho.
      pose proof (sleep_lasts (w_tick (other_tasks w1)) poll_step ltac:(vm_compute; discriminate)).
      pose proof (instant_monotone (w_tick w) (w_tick (other_tasks w1)) ltac:(cbn in Ho; lia)).
      fold poll_step. lia.
Qed.

Lemma await_request_ends request_id deadline n result w :
  deadline <= instant_now (w_tick w) + Z.of_nat n * poll_step ->
  exists r w', await_request (S n) request_id deadline result w = (Done (Some r), w') /\
    (ActionRequestState.is_terminal (ar_state r) = true \/ deadline <= instant_now (w_tick w')).
Proof.
  apply (polling_ends (fun n result => await_request n request_id deadline result)
    (fun r => ActionRequestState.is_terminal (ar_state r) = true)).
  clear n result w. intros n result w. cbn [await_request].
  unfold mbind, task_bind, asks.
  destruct (requests (w_broker w) !! request_id) as [r|]; cbn [default is_some_and]; [|by right; eauto].
  destruct (ActionRequestState.is_terminal (ar_state r)) eqn:Ht; [left|by right; eauto].
  by exists r, w.
Qed.

Lemma serve_status agent request_id w : exists r,
  serve (P := P) (handle_action_status agent request_id) w = (Done r, w).
Proof.
  unfold serve, handle_action_status, mbind, broker_bind, gets.
  case_bool_decide; [by eexists|]. destruct (requests (id (w_broker w)) !! request_id); by eexists.
Qed.

Definition tells (params : ActionSubscribeParams) (r : result RpcError ActionStatusResult) : Prop :=
  match r with
  | Ok status => changed_since params status = true \/
      ActionRequestState.is_terminal (st_state status) = true
  | Err _ => True
  end.

Lemma await_change_ends agent params deadline n w :
  deadline <= instant_now (w_tick w) + Z.of_nat n * poll_step ->
  exists r w', await_change (P := P) (S n) agent params deadline w = (Done (Some r), w') /\
    (tells params r \/ deadline <= instant_now (w_tick w')).
Proof.
  apply (polling_ends (fun n (_ : unit) => await_change n agent params deadline) (tells params)
    deadline) with (s := tt).
  clear n w. intros n [] w. cbn [await_change]. unfold mbind, task_bind.
  destruct (serve_status agent (sb_request_id params) w) as ([status|e] & Hs); rewrite Hs.
  - destruct (changed_since params status || _) eqn:Hc; [left|right; by exists (Ok status), tt].
    exists (Ok status), w. split; [done|]. apply orb_true_iff in Hc. exact Hc.
  - left. by exists (Err e), w.
Qed.

Lemma polls_enough (w : World P) timeout_ms :
  0 <= timeout_ms ->
  instant_now (w_tick w) + timeout_ms * nanos_per_milli
  <= instant_now (S (w_tick w)) + Z.of_nat (pred (polls timeout_ms)) * poll_step.
Proof.
  intros Ht. pose proof (instant_monotone (w_tick w) (S (w_tick w)) ltac:(lia)).
  unfold polls, poll_step. cbn [pred]. change POLL_MS with 25. change nanos_per_milli with 1000000.
  pose proof (Z.div_mod timeout_ms 25 ltac:(lia)). pose proof (Z.mod_pos_bound timeout_ms 25 ltac:(lia)).
  pose proof (Z.div_pos timeout_ms 25 Ht ltac:(lia)). lia.
Qed.

(** C20: an agent that waits is answered. Whatever the rest of the broker does, the
    wait of [action.request] and [action.authenticate] ends after at most
    [timeout / 25 + 2] polls of 25 ms, for any timeout the agent chose, with the
    request in a final state or the deadline passed; without [wait], or when the
    request is in a final state already, there is no wait. The wait of
    [action.subscribe] ends in the same way, with a state or detail other than
    the agent knew, a final state, an error, or the deadline passed. *)
Theorem waiting_calls_end timeout_ms (w : World P) :
  0 <= timeout_ms ->
  (forall wait request_id result, exists r w',
     wait_for_end wait timeout_ms request_id result w = (Done r, w') /\
     (wait && negb (ActionRequestState.is_terminal (ar_state result)) = false -> r = result /\ w' = w) /\
     (wait = true -> ActionRequestState.is_terminal (ar_state r) = true \/
        instant_now (w_tick w) + timeout_ms * nanos_per_milli <= instant_now (w_tick w'))) /\
  (forall agent params, exists r w',
     (deadline ← deadline_after timeout_ms;
      r ← await_change (polls timeout_ms) agent params deadline; finished_loop r) w
     = (Done r, w') /\
     (tells params r \/
        instant_now (w_tick w) + timeout_ms * nanos_per_milli <= instant_now (w_tick w'))).
Proof.
  intros Ht. pose proof (polls_enough w timeout_ms Ht) as Hp.
  assert (Hn : polls timeout_ms = S (pred (polls timeout_ms))) by done.
  set (w1 := {| w_broker := w_broker w; w_tick := S (w_tick w) |}). split.
  - intros wait request_id result. unfold wait_for_end.
    destruct (wait && negb _) eqn:Hw.
    + destruct (await_request_ends request_id _ _ result w1 Hp) as (r & w' & Hr & Hd).
      exists r, w'. split; [|by split; [done|intros _]].
      unfold deadline_after, mbind, task_bind, drawing. cbn [mret task_ret]. fold w1.
      rewrite Hn, Hr. done.
    + exists result, w. split_and!; [done..|]. intros ->. left. cbn in Hw. by bool_to_prop.
  - intros agent params.
    destruct (await_change_ends agent params _ _ w1 Hp) as (r & w' & Hr & Hd).
    exists r, w'. split; [|done].
    unfold deadline_after, mbind, task_bind, drawing. cbn [mret task_ret]. fold w1.
    rewrite Hn, Hr. done.
Qed.
End Waiting.
