(* ===== verification/Agreement.v ===== *)
(** * Agreement: bridge and broker complete their handshake

    The executor's side of [Bridge.v] and the broker's of [Server.v], run against
    each other. *)

From S2P Require Import Prelude.
From S2P Require Import Externals.
From S2P Require Import Domain.
From S2P Require Import Policy.
From S2P Require Import Crypto.
From S2P Require Import Capability.
From S2P Require Import Provider.
From S2P Require Import Store.
From S2P Require Import OAuth.
From S2P Require Import Enrollment.
From S2P Require Import Protocol.
From S2P Require Import Framing.
From S2P Require Import FramingProps.
From S2P Require Import BrokerState.
From S2P Require Import Broker.
From S2P Require Import Pages.
From S2P Require Import Wire.
From S2P Require Import Handshake.
From S2P Require Import Bridge.
From S2P Require Import Server.
From S2P Require Import ServerProps.

Lemma distinct_keys (fields : list (string * Json)) :
  bool_decide (NoDup (map fst fields)) = true ->
  Forall (fun f => keys_distinct f.2) fields -> keys_distinct (JObject fields).
Proof.
  intros Hn Hf. split; [by apply bool_decide_eq_true in Hn|]. clear Hn.
  induction Hf as [|[k v] fields Hv Hf IH]; [done|]. by split.
Qed.

Section Agreement.
Context `{ManagedChrome, Chrono, Hashes, Signatures, Aead, X25519, Base64, Cbor, WireCodec,
  UrlParser, JsonCodec, !JsonReader, HashIter, Environment, HttpClient, SqliteText,
  Monotonic, PeerProcess, PolicySerializer, PolicyYaml, Serde} {P : Type}
  `{SecretProvider P, !OtherTasks P}
  `{!SignatureLaws, !Base64Laws, !X25519Laws, !JsonReaderLaws, !AeadLaws}.

Lemma readable_request id method params :
  json_depth params <= 31 -> keys_distinct params ->
  strictly_readable (request_to_value (bridge_request_of id method params)).
Proof.
  intros Hd Hk. split.
  - cbn. pose proof (json_depth_nonneg params). lia.
  - apply distinct_keys; [by vm_compute|]. by repeat constructor.
Qed.
Lemma readable_success id result :
  json_depth result <= 31 -> keys_distinct result ->
  strictly_readable (response_to_value (rpc_success (RpcString id) result)).
Proof.
  intros Hd Hk. split.
  - cbn. pose proof (json_depth_nonneg result). lia.
  - apply distinct_keys; [by vm_compute|]. by repeat constructor.
Qed.

Lemma hello_distinct principal nonce :
  json_depth (hello_to_value (bridge_hello principal nonce)) <= 31 /\
  keys_distinct (hello_to_value (bridge_hello principal nonce)).
Proof. split; [by vm_compute|]. apply distinct_keys; [by vm_compute|]. by repeat constructor. Qed.
Lemma hello_result_distinct r :
  json_depth (hello_result_to_value r) <= 31 /\ keys_distinct (hello_result_to_value r).
Proof. split; [by vm_compute|]. apply distinct_keys; [by vm_compute|]. by repeat constructor. Qed.
Lemma authenticate_distinct p :
  json_depth (authenticate_to_value p) <= 31 /\ keys_distinct (authenticate_to_value p).
Proof. split; [by vm_compute|]. apply distinct_keys; [by vm_compute|]. by repeat constructor. Qed.
Lemma authenticated_distinct r :
  json_depth (authenticated_to_value r) <= 31 /\ keys_distinct (authenticated_to_value r).
Proof. split; [by vm_compute|]. apply distinct_keys; [by vm_compute|]. by repeat constructor. Qed.

(** The broker reads what the bridge writes, and conversely. *)
Lemma read_bridge_request id method params :
  json_depth params <= 31 -> keys_distinct params -> params <> JNull ->
  from_slice_strict request_from_value
    (to_vec (request_to_value (bridge_request_of id method params)))
  = Ok (bridge_request_of id method params).
Proof.
  intros Hd Hk Hp. rewrite read_back by (by apply readable_request).
  by rewrite request_round_trip by (done || (cbn; congruence)).
Qed.

Lemma read_success {A : Type} (from : Json -> result string A) m id result a :
  json_depth result <= 31 -> keys_distinct result -> result <> JNull -> from result = Ok a ->
  read_result from m (to_vec (response_to_value (rpc_success (RpcString id) result))) = Ok a.
Proof.
  intros Hd Hk Hr Hf. unfold read_result. rewrite read_back by (by apply readable_success).
  rewrite success_round_trip by done. cbn [mbind result_bind rpc_success response_result].
  by rewrite Hf.
Qed.

Lemma start_handshake_run hello (w : World P) :
  let started := {| hs_hello := hello; hs_server_nonce := env_uuid (w_tick w);
                    hs_server_ephemeral := {| x_secret := env_random (S (w_tick w)) |} |} in
  start_handshake hello w
  = (Done (hello_answer (broker_key (w_broker w)) (key_id (w_broker w)) hello
             (hs_server_nonce started) (hs_server_ephemeral started), started),
     {| w_broker := w_broker w; w_tick := S (S (w_tick w)) |}).
Proof. done. Qed.

(** ** The turns of the two sides *)

Lemma task_bind_run {A B : Type} (m : Task P A) (f : A -> Task P B) w a w1 :
  m w = (Done a, w1) -> (m ≫= f) w = f a w1.
Proof. unfold mbind, task_bind. by intros ->. Qed.

Lemma from_params_run {A : Type} (from : Json -> result string A) params a (w : World P) :
  from (default JNull params) = Ok a -> from_params from params w = (Done a, w).
Proof. intros Hf. unfold from_params. by rewrite Hf. Qed.

(** What a request of the bridge becomes on the broker's side. *)
Lemma read_request_run id method params (w : World P) :
  json_depth params <= 31 -> keys_distinct params -> params <> JNull ->
  read_request (to_vec (request_to_value (bridge_request_of id method params))) w
  = (Done (bridge_request_of id method params), w).
Proof. intros Hd Hk Hp. unfold read_request. by rewrite read_bridge_request. Qed.

Definition fits (codec : LengthPrefixedCodec) (payload : list byte) : Prop :=
  blen payload <= max_payload_bytes codec.

Lemma send_run codec payload (w : World P) :
  fits codec payload -> send codec payload w = (Done payload, w).
Proof. intros Hf. by apply send_Done. Qed.

(** An executor and the key it signs with, which the broker knows it by, on a
    peer that is who it should be. *)
Record enrolled_executor (cred : UCred) (principal_id : string) (key : KeyPair)
    (w : World P) (enrolled : AgentPrincipal) : Prop := {
  ee_found : get_enrolled_agent (store (w_broker w)) principal_id = Ok enrolled;
  ee_role : ag_role enrolled = "executor";
  ee_key : ag_public_key enrolled = public_key_bytes key;
  ee_length : length (signing_key key) = 32%nat;
  ee_peer : verify_peer_identity enrolled cred w
            = (Done true, snd (verify_peer_identity enrolled cred w))
}.

(** The handshake the broker starts in that world. *)
Definition started_in (hello : SessionHelloParams) (w : World P) : StartedHandshake := {|
  hs_hello := hello; hs_server_nonce := env_uuid (w_tick w);
  hs_server_ephemeral := {| x_secret := env_random (S (w_tick w)) |} |}.
Definition answer_in (hello : SessionHelloParams) (w : World P) : SessionHelloResult :=
  hello_answer (broker_key (w_broker w)) (key_id (w_broker w)) hello
    (env_uuid (w_tick w)) {| x_secret := env_random (S (w_tick w)) |}.
Definition hello_reply (hello : SessionHelloParams) (w : World P) : list byte :=
  to_vec (response_to_value
    (rpc_success (RpcString "native-hello") (hello_result_to_value (answer_in hello w)))).
Definition auth_reply : list byte :=
  to_vec (response_to_value
    (rpc_success (RpcString "native-auth") (authenticated_to_value authentication_result))).

Lemma executor_accept_run cred principal_id nonce key (w : World P) enrolled :
  enrolled_executor cred principal_id key w enrolled ->
  executor_accept cred (bridge_hello principal_id nonce) w
  = (Done enrolled, snd (verify_peer_identity enrolled cred w)).
Proof.
  intros [Hf Hr Hk Hl Hp]. unfold executor_accept.
  rewrite (task_bind_run _ _ w tt w) by done.
  rewrite (task_bind_run _ _ w (Ok enrolled) w)
    by (unfold asks; cbn [sh_principal_id bridge_hello]; by rewrite Hf).
  rewrite (task_bind_run _ _ w enrolled w) by done.
  erewrite task_bind_run; [|rewrite Hr; exact Hp]. done.
Qed.

Lemma hello_turn cred principal_id nonce key (w : World P) enrolled :
  let hello := bridge_hello principal_id nonce in
  let w1 := snd (verify_peer_identity enrolled cred w) in
  enrolled_executor cred principal_id key w enrolled ->
  fits for_executor (hello_reply hello w1) ->
  exists w2, socket_message (executor_socket cred) AwaitHello (bridge_start hello) w
    = (Done (hello_reply hello w1, AwaitAuthentication enrolled (started_in hello w1)), w2).
Proof.
  intros hello w1 He Hf. destruct (hello_distinct principal_id nonce) as [Hd Hk].
  unfold socket_message, bridge_start.
  rewrite (task_bind_run _ _ w _ w (read_request_run _ _ _ w Hd Hk ltac:(done))).
  rewrite (task_bind_run _ _ w tt w) by done.
  rewrite (task_bind_run _ _ w hello w)
    by (apply from_params_run; exact (hello_round_trip hello)).
  rewrite (task_bind_run _ _ w enrolled w1) by exact (executor_accept_run _ _ _ _ _ _ He).
  rewrite (task_bind_run _ _ w1 _ _ (start_handshake_run hello w1)).
  erewrite task_bind_run; [|apply send_run, Hf]. by eexists.
Qed.

Lemma authentication_turn cred enrolled started auth secret (w : World P) :
  check_authentication (ag_public_key enrolled) (hs_hello started) (hs_server_nonce started)
    (hs_server_ephemeral started) auth = Ok secret ->
  fits for_executor auth_reply ->
  exists now w2,
    socket_message (executor_socket cred) (AwaitAuthentication enrolled started)
      (to_vec (request_to_value
        (bridge_request_of "native-auth" "session.authenticate" (authenticate_to_value auth)))) w
    = (Done (auth_reply, Established enrolled
        (new_server secret (as_bytes (hs_server_nonce started)) EXECUTOR_INFO) now), w2).
Proof.
  intros Ha Hf. destruct (authenticate_distinct auth) as [Hd Hk].
  unfold socket_message.
  rewrite (task_bind_run _ _ w _ w (read_request_run _ _ _ w Hd Hk ltac:(done))).
  rewrite (task_bind_run _ _ w tt w) by done.
  rewrite (task_bind_run _ _ w auth w)
    by (apply from_params_run; exact (authenticate_round_trip auth)).
  rewrite (task_bind_run _ _ w (ag_public_key enrolled) w) by done.
  erewrite task_bind_run;
    [|unfold finish_handshake; rewrite Ha; reflexivity].
  erewrite task_bind_run; [|apply send_run, Hf]. by do 2 eexists.
Qed.

(** *** The bridge's side *)

Lemma bridge_authenticate_run key hello client (w : World P) :
  length (signing_key (broker_key (w_broker w))) = 32%nat ->
  length (env_random (S (w_tick w))) = 32%nat ->
  let server := {| x_secret := env_random (S (w_tick w)) |} in
  bridge_authenticate (public_key_bytes (broker_key (w_broker w))) key hello client
    (hello_reply hello w)
  = Ok (answer_in hello w, ephemeral_public server,
        to_vec (request_to_value (bridge_request_of "native-auth" "session.authenticate"
          (authenticate_to_value (authentication key hello (env_uuid (w_tick w))
             (ephemeral_public server) client))))).
Proof.
  intros Hb Hr server. destruct (hello_result_distinct (answer_in hello w)) as [Hd Hk].
  unfold bridge_authenticate, hello_reply.
  rewrite (read_success hello_result_from_value _ _ _ (answer_in hello w))
    by (done || apply hello_result_round_trip).
  cbn [mbind result_bind]. unfold insist, answer_in at 1. cbn [hr_protocol_version hello_answer].
  rewrite bool_decide_eq_true_2 by done. cbn [mbind result_bind].
  unfold answer_in. by rewrite honest_hello_answer.
Qed.

Lemma bridge_establish_run server public client :
  bridge_establish server public client auth_reply
  = Ok (new_client (diffie_hellman client public) (as_bytes (hr_server_nonce server)) BRIDGE_INFO).
Proof.
  destruct (authenticated_distinct authentication_result) as [Hd Hk].
  unfold bridge_establish, auth_reply.
  rewrite (read_success authenticated_from_value _ _ _ authentication_result)
    by (done || apply authenticated_round_trip). done.
Qed.

(** C3: bridge and broker agree. The native messaging host of an enrolled
    executor, which pins the broker's key, and the broker's executor socket
    complete the handshake with each other, whatever else the broker does
    between the two turns (the world [w3]): every message of one side is
    accepted by the other, and at the end they hold the two ends of one channel.
    What either side then seals, the other opens, in order. The responses have
    to fit the frames, and the random source gives the 32 bytes asked of it. *)
Theorem handshake_agrees cred principal_id nonce key client (w w3 : World P) enrolled :
  let hello := bridge_hello principal_id nonce in
  let w1 := snd (verify_peer_identity enrolled cred w) in
  enrolled_executor cred principal_id key w enrolled ->
  length (signing_key (broker_key (w_broker w))) = 32%nat -> length (x_secret client) = 32%nat ->
  length (env_random (S (w_tick w1))) = 32%nat ->
  fits for_executor (hello_reply hello w1) -> fits for_executor auth_reply ->
  exists sent awaiting w2,
    socket_message (executor_socket cred) AwaitHello (bridge_start hello) w
    = (Done (sent, awaiting), w2) /\
  exists server server_public wire,
    bridge_authenticate (public_key_bytes (broker_key (w_broker w))) key hello client sent
    = Ok (server, server_public, wire) /\
  exists sent' broker_end now w4,
    socket_message (executor_socket cred) awaiting wire w3
    = (Done (sent', Established enrolled broker_end now), w4) /\
  exists bridge_end,
    bridge_establish server server_public client sent' = Ok bridge_end /\
    forall ms xs c',
      (Crypto.send_all bridge_end ms = (Ok xs, c') ->
       exists s', Crypto.receive_all broker_end xs = (Ok ms, s')) /\
      (Crypto.send_all broker_end ms = (Ok xs, c') ->
       exists s', Crypto.receive_all bridge_end xs = (Ok ms, s')).
Proof.
  intros hello w1 He Hb Hc Hr Hf1 Hf2.
  destruct (hello_turn cred principal_id nonce key w enrolled He Hf1) as (w2 & Ht).
  assert (Hw : w_broker w1 = w_broker w) by apply keeps_peer.
  eexists _, _, w2. split; [exact Ht|].
  pose proof (bridge_authenticate_run key hello client w1) as Ha. rewrite Hw in Ha.
  specialize (Ha Hb Hr). eexists _, _, _. split; [exact Ha|].
  destruct (authentication_turn cred enrolled (started_in hello w1)
    (authentication key hello (env_uuid (w_tick w1))
       (ephemeral_public {| x_secret := env_random (S (w_tick w1)) |}) client)
    (diffie_hellman client (ephemeral_public {| x_secret := env_random (S (w_tick w1)) |})) w3)
    as (now & w4 & Hs); [|done|].
  { rewrite (ee_key _ _ _ _ _ He). cbn [started_in hs_hello hs_server_nonce hs_server_ephemeral].
    apply honest_authentication; [exact (ee_length _ _ _ _ _ He)|done..]. }
  eexists _, _, now, w4. split; [exact Hs|].
  eexists. split; [apply bridge_establish_run|].
  intros ms xs c'. split; intros Hsend; 
    eapply send_receive in Hsend as (s' & Hs' & _); (done || by exists s').
Qed.
End Agreement.
