(* ===== verification/BrokerProps.v ===== *)
(** * BrokerProps: what a successful call of a handler has checked

    The handlers that hand something out, a capability or a secret, and what
    has to hold of the state for them to do so. *)

From S2P Require Import Prelude.
From S2P Require Import Externals.
From S2P Require Import Concrete.
From S2P Require Import Domain.
From S2P Require Import Policy.
From S2P Require Import Crypto.
From S2P Require Import Gateway.
From S2P Require Import AuditChain.
From S2P Require Import Capability.
From S2P Require Import Provider.
From S2P Require Import Table.
From S2P Require Import Store.
From S2P Require Import StoreProps.
From S2P Require Import OAuth.
From S2P Require Import Protocol.
From S2P Require Import BrokerState.
From S2P Require Import Broker.
From S2P Require Import BrokerSteps.

Section Handlers.
Context `{ManagedChrome, Chrono, Hashes, Signatures, Base64, Cbor, WireCodec, UP : UrlParser,
  JsonCodec, HashIter, !Environment, HttpClient, SqliteText} {P : Type} `{SecretProvider P}.
Implicit Types (w : World P) (b : BrokerState P).

(** What an audited call comes to. *)
Lemma audited_try_eq {A : Type} err ty aty actor cx
    (op : AuditEvent -> Store -> result StoreError A * Store) w :
  audited_try err ty aty actor cx op w =
  let b := w_broker w in
  let tick := S (S (w_tick w)) in
  match create_audit_event (env_uuid (S (w_tick w))) (cu_next_sequence (audit_cursor b))
          (cu_latest_hash (audit_cursor b)) (audit_key_version b)
          (secret_as_bytes (audit_key b)) ty aty actor cx (env_now (w_tick w)) with
  | Err e => (Fail (err e), {| w_broker := b; w_tick := tick |})
  | Ok e =>
      let '(r, s) := op e (store b) in
      (Done r, {| w_tick := tick; w_broker :=
        match r with
        | Ok _ => set_audit_cursor (set_store b s)
            {| cu_next_sequence := cu_next_sequence (audit_cursor b) + 1;
               cu_latest_hash := ev_event_hash e |}
        | Err _ => set_store b s
        end |})
  end.
Proof.
  unfold audited_try, mbind, broker_bind, gets, Utc_now, new_uuid, draw. cbn [w_broker w_tick].
  destruct (create_audit_event _ _ _ _ _ _ _ _ _ _) as [e|e]; [|done].
  cbn [lift mret broker_ret]. unfold run_store. cbn [w_broker w_tick].
  by destruct (op e _) as [[a|er] s].
Qed.

(** An audited call that succeeded: the repository took the change with its
    event, and the cursor moved behind it. *)
Lemma audited_Done {A : Type} err serr ty aty actor cx
    (op : AuditEvent -> Store -> result StoreError A * Store) w a w' :
  audited err serr ty aty actor cx op w = (Done a, w') ->
  exists e s cursor, op e (store (w_broker w)) = (Ok a, s) /\
    w_broker w' = set_audit_cursor (set_store (w_broker w) s) cursor.
Proof.
  unfold audited. intros Hr. run_step Hr. rewrite audited_try_eq in Hs. cbn in Hs.
  destruct (create_audit_event _ _ _ _ _ _ _ _ _ _) as [e|e]; [|done].
  destruct (op e _) as [r s] eqn:Hop. injection Hs as <- <-.
  run_step Hr. subst r. exists e, s. cbn. by eexists.
Qed.

(** ** The consumption of a capability *)

(** Reads of the environment only. *)
Definition same_broker (w w' : World P) : Prop := w_broker w' = w_broker w.
#[local] Instance same_broker_preorder : PreOrder same_broker.
Proof. unfold same_broker. split; [done|]. intros w1 w2 w3 -> ->. done. Qed.

Lemma consume_clock_same ps : steps same_broker (consume_clock ps).
Proof. eapply steps_consume_clock; [apply _|done]. Qed.

Lemma check_session_proof_Done ps w ext w' :
  check_session_proof ps w = (Done ext, w') ->
  w' = w /\ exists active,
    sessions (w_broker w) !! xc_browser_session_id (xs_current_context ps) = Some active /\
    ext = bs_extension_key_id (abs_session active) /\
    forall expected, abs_session_proof_hash active = Some expected ->
      sha256_digest (as_bytes (xs_session_signature ps)) = expected.
Proof.
  unfold check_session_proof. intros Hr. run_step Hr. run_step Hs. run_step Hr. run_step Hs.
  destruct (is_some_and _ _) eqn:Hp; [discriminate|]. run_step Hr. subst. split; [done|].
  eexists. split_and!; [done..|]. intros expected He. rewrite He in Hp. cbn in Hp.
  apply bool_decide_eq_false in Hp. by apply dec_stable in Hp.
Qed.

(** Everything [consume_durably] has established when it succeeds. *)
Record consumed (ps : ExecutorConsumeParams) (b : BrokerState P) (c : Consumption)
    (b' : BrokerState P) : Prop := {
  cd_entry : entry_of_token (xs_capability_token ps) b = Some (cs_entry c);
  cd_session : exists active,
    sessions b !! xc_browser_session_id (xs_current_context ps) = Some active /\
    (forall expected, abs_session_proof_hash active = Some expected ->
       sha256_digest (as_bytes (xs_session_signature ps)) = expected) /\
    context_bound (cs_claims c)
      (snapshot_of (xs_current_context ps) (bs_extension_key_id (abs_session active)));
  cd_signed : parse_and_verify_token (xs_capability_token ps) (public_key_bytes (broker_key b))
    = Ok (cs_claims c);
  cd_stored : claims_stored (ce_capability (cs_entry c)) (cs_claims c);
  cd_window : window_open (ce_capability (cs_entry c)) (cs_claims c) (cs_now c);
  cd_repository : exists x e step, run_op (OpConsume (cl_jti (cs_claims c)) x e step) (store b)
    = (Ok tt, store b') /\ ex_execution_id x = cs_execution_id c /\
    match step with
    | Some (credential, seconds) =>
        cl_action (cs_claims c) = AuthenticateTotp /\ credential = cl_cred_id (cs_claims c) /\
        exists generator remaining, cs_totp c = Some generator /\
          compute_time_step generator (unix_seconds (cs_now c)) = Some (seconds, remaining)
    | None => cl_action (cs_claims c) <> AuthenticateTotp
    end;
  cd_quiet : provider b' = provider b /\ recipes b' = recipes b /\ sessions b' = sessions b /\
    managed_browsers b' = managed_browsers b
}.

Lemma consume_durably_Done ps w c w' :
  consume_durably ps w = (Done c, w') -> consumed ps (w_broker w) c (w_broker w').
Proof.
  unfold consume_durably. intros Hr. run_step Hr.
  pose proof (consume_clock_same ps w) as Hc. rewrite Hs in Hc. cbn in Hc. clear Hs.
  run_step Hr. run_step Hs. run_step Hr. apply check_session_proof_Done in Hs as [-> Hsess].
  run_step Hr. run_step Hs. run_step Hr. run_step Hs. run_step Hr. run_step Hs.
  destruct (verify_and_consume_capability _ _ _ _ _) as [verified capability] eqn:Hv.
  run_step Hr. run_step Hs. subst verified. apply verify_and_consume_Ok in Hv as (Hp & Hst & Hw & Hb & ->).
  unfold new_uuid, draw in Hr. apply bind_Done in Hr as (uuid & w2 & Hs & Hr). injection Hs as <- <-.
  set (x := {| ex_execution_id := id_new KExecution _ |}) in Hr.
  apply bind_Done in Hr as (step & w2 & Hs & Hr).
  assert (w_broker w2 = w_broker w0 /\ match step with
    | Some (credential, seconds) =>
        cl_action a3 = AuthenticateTotp /\ credential = cl_cred_id a3 /\
        exists generator remaining, a2 = Some generator /\
          compute_time_step generator (unix_seconds a) = Some (seconds, remaining)
    | None => cl_action a3 <> AuthenticateTotp
    end) as [Hw2 Hstep].
  { case_bool_decide; [|run_step Hs; by split].
    run_step Hs. run_step Hs0. apply bind_Done in Hs as ([st rem] & w3 & Ht & Hs).
    run_step Ht. run_step Hs. subst. eauto 10. }
  clear Hs. run_step Hr. apply audited_Done in Hs as (e & s' & cursor & Hop & Hw3).
  unfold same_broker in Hc. rewrite Hw2, Hc in *. clear Hw2 Hc.
  repeat (apply bind_Done in Hr as (u & w4 & Hs & Hr); unfold modify in Hs; injection Hs as <- <-).
  run_step Hr. destruct Hsess as (active & Ha & -> & Hproof).
  split; cbn; try done.
  - by exists active.
  - rewrite Hw3. cbn. exists x, e, step. rewrite Hop. by repeat match goal with u : unit |- _ => destruct u end.
  - by rewrite Hw3.
Qed.

Lemma consumed_settles ps b c b' :
  consumed ps b c b' ->
  count_where (consumable_row (cl_jti (cs_claims c))) (Store.capabilities (store b)) = 1 /\
  settled_capability (cl_jti (cs_claims c)) (store b').
Proof.
  intros [_ _ _ _ _ (x & e & step & Hrun & _) _].
  destruct (consume_success_settles (cl_jti (cs_claims c))
    (OpConsume (cl_jti (cs_claims c)) x e step) (store b)) as [Hn Hs].
  - cbn. by apply bool_decide_eq_true.
  - by rewrite Hrun.
  - by rewrite Hrun in Hs.
Qed.

(** ** The release of the secret *)

(** A field of the result is one of the recipe's, with its role and selector. *)
Definition injects (recipe : SiteRecipe) (fields : list ResolvedFieldInjection) : Prop :=
  forall i, i ∈ fields -> exists f, f ∈ rcp_fields recipe /\ i = injection f (rj_encrypted_value i).

Lemma injects_map recipe fs value :
  (forall f, f ∈ fs -> f ∈ rcp_fields recipe) ->
  injects recipe (map (fun field => injection field (value field)) fs).
Proof.
  intros Hfs i (f & -> & Hf)%list_elem_of_fmap. exists f. by split; [apply Hfs|].
Qed.

Lemma secret_bytes_Done locator w bytes w' :
  secret_bytes locator w = (Done bytes, w') ->
  secret_at locator (provider (w_broker w)) = Some bytes /\
  exists p, w_broker w' = set_provider (w_broker w) p.
Proof.
  unfold secret_bytes, secret_at. intros Hr. run_step Hr. unfold run_provider in Hs.
  destruct (get_secret locator _) as [r p]. injection Hs as <- <-.
  run_step Hr. run_step Hs. subst r. run_step Hr. cbn. eauto.
Qed.

Lemma form_value_Ok secret fields field i :
  form_value secret fields field = Ok i ->
  i = injection field (rj_encrypted_value i) /\
  ((exists values, role_values secret = Some values /\
      values !! rj_role i = Some (rj_encrypted_value i)) \/
   rj_encrypted_value i = from_utf8_lossy secret).
Proof.
  unfold form_value. destruct (role_values secret) as [values|]; cbn.
  - destruct (values !! rf_role field) as [v|] eqn:Hv; cbn.
    + intros [= <-]. split; [done|]. left. by exists values.
    + destruct fields as [|f [|]]; cbn; try done. intros [= <-]. by split; [|right].
  - destruct fields as [|f [|]]; cbn; try done. intros [= <-]. by split; [|right].
Qed.

(** What the values are made of. *)
Definition values_from (c : Consumption) (secret : list byte) (fields : list ResolvedFieldInjection) :
    Prop :=
  forall i, i ∈ fields ->
  match cl_action (cs_claims c) with
  | AuthenticatePassword =>
      rj_role i = "password" /\ rj_encrypted_value i = from_utf8_lossy secret
  | AuthenticateTotp => exists generator remaining, cs_totp c = Some generator /\
      generate generator secret (unix_seconds (cs_now c)) = Done (rj_encrypted_value i, remaining)
  | FormSensitiveFill =>
      (exists values, role_values secret = Some values /\
         values !! rj_role i = Some (rj_encrypted_value i)) \/
      rj_encrypted_value i = from_utf8_lossy secret
  | OAuthAuthorize => False
  end.

Lemma resolve_fields_Done c recipe w fields w' :
  resolve_fields c recipe w = (Done fields, w') ->
  injects recipe fields /\
  (exists secret, secret_at (ce_provider_locator (cs_entry c)) (provider (w_broker w)) = Some secret /\
     values_from c secret fields) /\
  exists p, w_broker w' = set_provider (w_broker w) p.
Proof.
  unfold resolve_fields, values_from. intros Hr. destruct (cl_action (cs_claims c)) eqn:Hact.
  - run_step Hr. apply secret_bytes_Done in Hs as (Hsec & p & Hw). run_step Hr.
    rewrite Hw. split; [|split; [|by eexists]].
    + apply injects_map. intros f Hf. by apply list_elem_of_In, filter_In in Hf as [Hf%list_elem_of_In _].
    + exists a. split; [done|]. intros i (f & -> & Hf)%list_elem_of_fmap. cbn.
      apply list_elem_of_In, filter_In in Hf as [_ Hf]. by apply bool_decide_eq_true in Hf.
  - run_step Hr. apply secret_bytes_Done in Hs as (Hsec & p & Hw). run_step Hr. run_step Hs.
    destruct (generate a0 a (unix_seconds (cs_now c))) as [[code remaining]|e|] eqn:Hg; try done.
    run_step Hr. rewrite Hw. split; [by apply injects_map|]. split; [|by eexists].
    exists a. split; [done|]. intros i (f & -> & Hf)%list_elem_of_fmap. cbn. eauto.
  - run_step Hr. apply secret_bytes_Done in Hs as (Hsec & p & Hw). run_step Hr. rewrite Hw.
    assert (Hform : forall i, i ∈ fields ->
      exists f, f ∈ rcp_fields recipe /\ form_value a (rcp_fields recipe) f = Ok i).
    { apply collect_Ok in Ho. intros i [k Hk]%list_elem_of_lookup.
      destruct (Forall2_lookup_r _ _ _ _ _ Ho Hk) as (f & Hf & Hv).
      exists f. split; [|done]. by eapply list_elem_of_lookup_2. }
    split; [|split; [|by eexists]].
    + intros i Hi. destruct (Hform i Hi) as (f & Hf & Hv%form_value_Ok). exists f. by split; [|apply Hv].
    + exists a. split; [done|]. intros i Hi. destruct (Hform i Hi) as (f & Hf & Hv%form_value_Ok). apply Hv.
  - discriminate.
Qed.

(** ** The sensitive window *)

Definition in_window (i : BrowserInstanceId) (tab : Z) (b : BrokerState P) : Prop :=
  exists m, managed_browsers b !! i = Some m /\ tab ∈ mb_filter m.

Lemma entered_in_window i tab b m :
  managed_browsers b !! i = Some m -> in_window i tab (enter_sensitive_window i tab b).
Proof.
  intros Hm. unfold in_window, enter_sensitive_window, set_filter. cbn.
  eexists. rewrite lookup_alter_eq, Hm. split; [done|]. cbn. unfold enter_tab. set_solver.
Qed.

Lemma sensitive_filter_Some s b i :
  sensitive_filter_for_session s b = Some i -> exists m, managed_browsers b !! i = Some m.
Proof.
  unfold sensitive_filter_for_session. destruct (sessions b !! s) as [a|]; [|done]. cbn.
  destruct (managed_browsers b !! _) as [m|] eqn:Hm; [|done]. intros [= <-]. eauto.
Qed.

(** A success keeps the window of its scope open. *)
Lemma window_Done {A : Type} filter tab (body : Broker P A) w a w' :
  with_sensitive_window filter tab body w = (Done a, w') ->
  exists w0, body w0 = (Done a, w') /\ w_broker w0 = match filter with
    | Some i => enter_sensitive_window i tab (w_broker w)
    | None => w_broker w
    end.
Proof.
  unfold with_sensitive_window. destruct filter as [i|]; [|by exists w].
  set (w0 := {| w_broker := _ |}). destruct (body w0) as [[a'|e|] w1] eqn:Hb; intros [= <- <-].
  by exists w0.
Qed.

Lemma release_secret_Done c w r w' :
  release_secret c w = (Done r, w') ->
  exists recipe secret, recipes (w_broker w) !! ce_recipe_id (cs_entry c) = Some recipe /\
    secret_at (ce_provider_locator (cs_entry c)) (provider (w_broker w)) = Some secret /\
    injects recipe (xr_fields r) /\ values_from c secret (xr_fields r) /\ xr_fields r <> [] /\
    xr_execution_id r = cs_execution_id c /\
    sessions (w_broker w') = sessions (w_broker w) /\
    forall i, sensitive_filter_for_session (cl_browser_session_id (cs_claims c)) (w_broker w) = Some i ->
      in_window i (cl_tab_id (cs_claims c)) (w_broker w').
Proof.
  unfold release_secret. intros Hr. run_step Hr. run_step Hs. run_step Hr. run_step Hs.
  destruct (_ && _) in Hr; [discriminate|].
  apply window_Done in Hr as (w0 & Hr & Hw0).
  apply bind_Done in Hr as (fields & w1 & Hf & Hr).
  apply resolve_fields_Done in Hf as (Hinj & (secret & Hsec & Hval) & p & Hw1).
  case_bool_decide; [discriminate|].
  apply bind_Done in Hr as (u & w2 & Hs & Hr). apply audited_Done in Hs as (e & s & k & _ & Hw2).
  run_step Hr. cbn. exists a, secret. split_and!; try done.
  - rewrite Hw0 in Hsec. by destruct (sensitive_filter_for_session _ _) in Hsec.
  - rewrite Hw2, Hw1, Hw0. by destruct (sensitive_filter_for_session _ _).
  - intros i Hi. destruct (sensitive_filter_Some _ _ _ Hi) as [m Hm].
    apply (entered_in_window _ (cl_tab_id (cs_claims c))) in Hm.
    rewrite Hw2, Hw1, Hw0. unfold id in *. by rewrite Hi.
Qed.

Lemma executor_consume_Done ps w r w' :
  handle_executor_consume ps w = (Done r, w') ->
  exists c w1, consumed ps (w_broker w) c (w_broker w1) /\ release_secret c w1 = (Done r, w').
Proof.
  unfold handle_executor_consume. intros (c & w1 & Hc%consume_durably_Done & Hr)%bind_Done. eauto.
Qed.

(** C7: a secret leaves the broker only for the bound use. When the executor's
    call succeeds, then: its token names a capability of the broker and is
    signed by the broker's key with exactly that capability's stored claims;
    the session proof is the session's; the consume window is open and a use is
    left; session, extension, tab, frame, document, origins and epoch are those
    of the claims; and the database counted the capability as consumable and
    has consumed it, in the transaction that recorded the execution and the
    event. The fields handed out are not empty, each one is a field of the bound
    recipe, its value comes from the secret under the capability's locator, and
    the sensitive window of the tab is open. *)
Theorem secret_released_only_when_bound ps w r w' :
  handle_executor_consume ps w = (Done r, w') ->
  let b := w_broker w in
  exists c b1 recipe secret,
    consumed ps b c b1 /\
    count_where (consumable_row (cl_jti (cs_claims c))) (Store.capabilities (store b)) = 1 /\
    settled_capability (cl_jti (cs_claims c)) (store b1) /\
    recipes b !! ce_recipe_id (cs_entry c) = Some recipe /\
    secret_at (ce_provider_locator (cs_entry c)) (provider b) = Some secret /\
    injects recipe (xr_fields r) /\ values_from c secret (xr_fields r) /\ xr_fields r <> [] /\
    forall i, sensitive_filter_for_session (cl_browser_session_id (cs_claims c)) b = Some i ->
      in_window i (cl_tab_id (cs_claims c)) (w_broker w').
Proof.
  intros (c & w1 & Hc & Hr)%executor_consume_Done. pose proof (consumed_settles _ _ _ _ Hc) as [Hn Hs].
  pose proof (cd_quiet _ _ _ _ Hc) as (Hp & Hrec & Hss & Hmb).
  apply release_secret_Done in Hr as (recipe & secret & Hre & Hsec & Hi & Hv & Hne & _ & _ & Hwin).
  exists c, (w_broker w1), recipe, secret. rewrite Hrec in Hre. rewrite Hp in Hsec.
  split_and!; try done. intros i Hf. apply Hwin. revert Hf.
  unfold sensitive_filter_for_session. by rewrite Hss, Hmb.
Qed.
End Handlers.
