(* ===== verification/UiProps.v ===== *)
(** * UiProps: the interface shows no secrets and grants no more than it says

    Theorems about [Ui]: texts of agents are harmless to display, the
    projections do not depend on where secrets are kept, and what creating a
    grant and disabling an agent do to the state. *)

From Stdlib Require Import Sorted.
From S2P Require Import Prelude.
From S2P Require Import Externals.
From S2P Require Import Domain.
From S2P Require Import DomView.
From S2P Require Import Policy.
From S2P Require Import Crypto.
From S2P Require Import Gateway.
From S2P Require Import AuditChain.
From S2P Require Import Capability.
From S2P Require Import Provider.
From S2P Require Import Table.
From S2P Require Import Store.
From S2P Require Import StoreProps.
From S2P Require Import OAuth.
From S2P Require Import Protocol.
From S2P Require Import Admin.
From S2P Require Import BrokerState.
From S2P Require Import Broker.
From S2P Require Import Ui.
From S2P Require Import BrokerSteps.
From S2P Require Import BrokerProps.

(** ** Code points and their bytes *)

#[local] Ltac Zify.zify_post_hook ::= Z.to_euclidean_division_equations.

Lemma lor_high m x j : 0 <= j -> 0 <= x < 2 ^ j -> Z.lor (m * 2 ^ j) x = m * 2 ^ j + x.
Proof.
  intros Hj Hx. enough (Hl : Z.land (m * 2 ^ j) x = 0).
  { pose proof (Z.add_lor_land (m * 2 ^ j) x). lia. }
  apply Z.bits_inj'. intros n Hn. rewrite Z.land_spec, Z.bits_0.
  destruct (Z.lt_ge_cases n j) as [H|H].
  - by rewrite Z.mul_pow2_bits_low.
  - replace x with (x mod 2 ^ j) by (by apply Z.mod_small).
    rewrite Z.mod_pow2_bits_high by lia. apply andb_false_r.
Qed.

Lemma land_low x : Z.land x 63 = x mod 64 /\ Z.land x 31 = x mod 32 /\ Z.land x 15 = x mod 16 /\
  Z.land x 7 = x mod 8.
Proof.
  split_and!; [apply (Z.land_ones x 6)|apply (Z.land_ones x 5)|apply (Z.land_ones x 4)
    |apply (Z.land_ones x 3)]; lia.
Qed.


Lemma continuation_byte x : Z.land (byte_to_Z (byte_of_Z (Z.lor 128 (x mod 64)))) 63 = x mod 64.
Proof.
  pose proof (Z.mod_pos_bound x 64). rewrite (proj1 (land_low _)), byte_to_of_Z.
  pose proof (lor_high 2 (x mod 64) 6) as E. change (2 * 2 ^ 6) with 128 in E. rewrite E by lia. lia.
Qed.
Lemma lead2 x : 0 <= x < 32 -> byte_to_Z (byte_of_Z (Z.lor 192 x)) = 192 + x.
Proof.
  intros Hx. pose proof (lor_high 6 x 5) as E. change (6 * 2 ^ 5) with 192 in E.
  rewrite E, byte_to_of_Z by lia. lia.
Qed.
Lemma lead3 x : 0 <= x < 16 -> byte_to_Z (byte_of_Z (Z.lor 224 x)) = 224 + x.
Proof.
  intros Hx. pose proof (lor_high 14 x 4) as E. change (14 * 2 ^ 4) with 224 in E.
  rewrite E, byte_to_of_Z by lia. lia.
Qed.
Lemma lead4 x : 0 <= x < 8 -> byte_to_Z (byte_of_Z (Z.lor 240 x)) = 240 + x.
Proof.
  intros Hx. pose proof (lor_high 30 x 3) as E. change (30 * 2 ^ 3) with 240 in E.
  rewrite E, byte_to_of_Z by lia. lia.
Qed.

Lemma chars_encode_char c l : 0 <= c < 2097152 -> chars_of (encode_char c ++ l) = c :: chars_of l.
Proof.
  intros Hc. unfold encode_char. rewrite !Z.shiftr_div_pow2 by lia.
  change (2 ^ 6) with 64. change (2 ^ 12) with 4096. change (2 ^ 18) with 262144.
  rewrite !(proj1 (land_low _)).
  destruct (Z.ltb_spec c 128); [|destruct (Z.ltb_spec c 2048); [|destruct (Z.ltb_spec c 65536)]];
    cbn [map app chars_of]; rewrite ?continuation_byte.
  - rewrite byte_to_of_Z, Z.mod_small by lia. by destruct (Z.ltb_spec c 128); [|lia].
  - rewrite lead2 by lia. destruct (land_low (192 + c / 64)) as (_ & -> & _).
    destruct (Z.ltb_spec (192 + c / 64) 128); [lia|].
    destruct (Z.ltb_spec (192 + c / 64) 224); [|lia]. f_equal. lia.
  - rewrite lead3 by lia. destruct (land_low (224 + c / 4096)) as (_ & _ & -> & _).
    destruct (Z.ltb_spec (224 + c / 4096) 128); [lia|].
    destruct (Z.ltb_spec (224 + c / 4096) 224); [lia|].
    destruct (Z.ltb_spec (224 + c / 4096) 240); [|lia]. f_equal. lia.
  - rewrite lead4 by lia. destruct (land_low (240 + c / 262144)) as (_ & _ & _ & ->).
    destruct (Z.ltb_spec (240 + c / 262144) 128); [lia|].
    destruct (Z.ltb_spec (240 + c / 262144) 224); [lia|].
    destruct (Z.ltb_spec (240 + c / 262144) 240); [lia|]. f_equal. lia.
Qed.

Lemma chars_encode t : Forall (fun c => 0 <= c < 2097152) t -> chars (from_bytes (encode_text t)) = t.
Proof.
  intros Ht. unfold chars. rewrite as_from_bytes. induction Ht as [|c t Hc Ht IH]; [done|].
  cbn [encode_text flat_map]. rewrite chars_encode_char by done. unfold encode_text in IH. by rewrite IH.
Qed.
Lemma byte_range b : 0 <= byte_to_Z b < 256.
Proof. pose proof (byte_to_Z_range b). lia. Qed.

Lemma chars_of_range l : Forall (fun c => 0 <= c < 2097152) (chars_of l).
Proof.
  remember (length l) as n eqn:Hn. revert l Hn. induction (lt_wf n) as [n _ IH]. intros l ->.
  destruct l as [|b0 l0]; [constructor|]. cbn [chars_of].
  pose proof (byte_range b0).
  assert (Hr : forall l', (length l' < S (length l0))%nat -> Forall (fun c => 0 <= c < 2097152) (chars_of l')).
  { intros l' Hl. by apply (IH (length l')). }
  pose proof (land_low (byte_to_Z b0)) as (_ & E1 & E2 & E3).
  case_match; [constructor; [lia|apply Hr; cbn; lia]|].
  destruct l0 as [|b1 l1]; [repeat constructor; lia|]. rewrite (proj1 (land_low (byte_to_Z b1))), E1.
  case_match; [constructor; [lia|apply Hr; cbn; lia]|].
  destruct l1 as [|b2 l2]; [repeat constructor; lia|]. rewrite (proj1 (land_low (byte_to_Z b2))), E2.
  case_match; [constructor; [lia|apply Hr; cbn; lia]|].
  destruct l2 as [|b3 l3]; [repeat constructor; lia|]. rewrite (proj1 (land_low (byte_to_Z b3))), E3.
  constructor; [lia|apply Hr; cbn; lia].
Qed.

(** ** Texts of agents *)

Definition harmless (c : Z) : bool := negb (is_control c) && negb (is_bidi_override c).

Lemma trim_start_suffix t : exists p, t = p ++ trim_start t.
Proof.
  induction t as [|c t [p IH]]; [by exists []|]. cbn. destruct (is_whitespace c); [|by exists []].
  exists (c :: p). cbn. by rewrite <-IH.
Qed.

Lemma trim_inside t : exists p q, t = p ++ trim t ++ q.
Proof.
  unfold trim. destruct (trim_start_suffix t) as [p Hp].
  destruct (trim_start_suffix (rev (trim_start t))) as [q Hq].
  exists p, (rev q). rewrite <-rev_app_distr, <-Hq, rev_involutive. exact Hp.
Qed.

Lemma trim_start_fixed t : trim_start (trim_start t) = trim_start t.
Proof.
  induction t as [|c t IH]; [done|]. cbn. destruct (is_whitespace c) eqn:E; [done|]. cbn. by rewrite E.
Qed.

(** What is left begins and ends with something to see. *)
Lemma trim_start_head t : trim_start t = t <-> head t = None \/ exists c, head t = Some c /\ is_whitespace c = false.
Proof.
  destruct t as [|c t]; [split; [by left|done]|]. cbn. split.
  - destruct (is_whitespace c) eqn:E; [|right; by exists c].
    intros Ht. destruct (trim_start_suffix t) as [p Hp]. rewrite Ht in Hp.
    apply (f_equal length) in Hp. rewrite length_app in Hp. cbn in Hp. lia.
  - intros [[=]|(c' & [= <-] & ->)]. done.
Qed.

Lemma trim_start_prefix t u : trim_start (t ++ u) = t ++ u -> t = [] \/ trim_start t = t.
Proof.
  destruct t as [|c t]; [by left|]. right. apply trim_start_head in H as [[=]|(c' & [= <-] & Hw)].
  apply trim_start_head. right. by exists c.
Qed.

Lemma trim_fixed t : trim (trim t) = trim t.
Proof.
  unfold trim at 1. set (u := trim_start t). unfold trim. fold u.
  set (v := rev (trim_start (rev u))).
  assert (Hv : trim_start v = v).
  { destruct (trim_start_suffix (rev u)) as [p Hp]. apply (f_equal (@rev _)) in Hp.
    rewrite rev_app_distr, rev_involutive in Hp. fold v in Hp.
    destruct (trim_start_prefix v (rev p)) as [Hn|Hn]; [|by rewrite Hn|done].
    rewrite <-Hp. apply trim_start_fixed. }
  rewrite Hv. unfold v at 1. by rewrite rev_involutive, trim_start_fixed.
Qed.

Definition displayable (t : list Z) : Prop :=
  (length t <= 500)%nat /\ Forall (fun c => harmless c = true) t /\ trim t = t.

Lemma agent_text_Forall (Q : Z -> Prop) t :
  (forall c, c ∈ t -> harmless c = true -> Q c) -> Forall Q (agent_text t).
Proof.
  intros HQ. unfold agent_text. set (f := List.filter _ t).
  destruct (trim_inside (take (Z.to_nat MAX_AGENT_TEXT_CHARS) f)) as (p & q & Hpq).
  assert (Hf : Forall Q f).
  { apply Forall_forall. intros c Hc. subst f. apply filter_In in Hc as [Hin Hc].
    apply HQ; [by apply list_elem_of_In|exact Hc]. }
  apply (Forall_take _ (Z.to_nat MAX_AGENT_TEXT_CHARS)) in Hf. rewrite Hpq in Hf.
  by apply Forall_app in Hf as [_ [Hf _]%Forall_app].
Qed.

Lemma agent_text_displayable t : displayable (agent_text t).
Proof.
  split_and!; [|by apply agent_text_Forall|apply trim_fixed]. unfold agent_text.
  set (f := List.filter _ t).
  destruct (trim_inside (take (Z.to_nat MAX_AGENT_TEXT_CHARS) f)) as (p & q & Hpq).
  apply (f_equal length) in Hpq. rewrite !length_app, length_take in Hpq.
  change (Z.to_nat MAX_AGENT_TEXT_CHARS) with 500%nat in *. lia.
Qed.

Lemma displayable_fixed t : displayable t -> agent_text t = t.
Proof.
  intros (Hl & Hh & Ht). unfold agent_text.
  assert (List.filter (fun c => negb (is_control c) && negb (is_bidi_override c)) t = t) as ->.
  { clear Hl Ht. induction Hh as [|c t Hc Hh IH]; [done|]. cbn. unfold harmless in Hc.
    by rewrite Hc, IH. }
  by rewrite take_ge.
Qed.

Lemma chars_sanitized s : chars (sanitize_agent_text s) = agent_text (chars s).
Proof.
  apply chars_encode, agent_text_Forall. intros c Hc _.
  pose proof (chars_of_range (as_bytes s)) as Hr. rewrite Forall_forall in Hr.
  by apply Hr, list_elem_of_In.
Qed.

Lemma sanitized_displayable s : displayable (chars (sanitize_agent_text s)).
Proof. rewrite chars_sanitized. apply agent_text_displayable. Qed.

Lemma sanitize_twice s : sanitize_agent_text (sanitize_agent_text s) = sanitize_agent_text s.
Proof.
  unfold sanitize_agent_text at 1. rewrite chars_sanitized.
  rewrite (displayable_fixed (agent_text _)) by apply agent_text_displayable. done.
Qed.

(** Takes every successful run of the context apart. *)
Ltac run_all :=
  repeat match goal with
  | H : draw _ _ = (Done _, _) |- _ => cbn [draw] in H; injection H as <- <-
  | H : _ = (Done _, _) |- _ => run_step H
  end; cbn [w_broker w_tick] in *.

Lemma Sorted_map_order {A B : Type} (f : A -> B) (R : relation B) (l : list A) (key : A -> Z) :
  (forall a b, key a <= key b -> R (f a) (f b)) ->
  Sorted R (map f (order_by (fun a b => key a <=? key b) l)).
Proof.
  intros HR.
  assert (Hle : forall a b, (key a <=? key b) = true \/ (key b <=? key a) = true).
  { intros a b. rewrite !Z.leb_le. lia. }
  pose proof (order_by_Sorted (fun a b => key a <=? key b) l Hle) as Hs.
  induction Hs as [|a l' Hs IH Hh]; cbn; constructor; [done|].
  destruct Hh as [|b l' Hb]; cbn; constructor. by apply HR, Z.leb_le.
Qed.

Section Pending.
Context `{ManagedChrome, Chrono, Hashes, Signatures, Base64, Cbor, WireCodec, UrlParser,
  JsonCodec, HashIterLaws, !Environment, HttpClient, SqliteText} {P : Type} `{SecretProvider P}.
Implicit Type w : World P.

Lemma ui_pending_Done w rs w' : ui_pending_approvals w = (Done rs, w') -> exists known,
  rs = map (authorization_request known)
         (pending_entries (env_now (w_tick w)) (w_broker w)) /\
  w' = {| w_broker := w_broker w; w_tick := S (w_tick w) |}.
Proof.
  unfold ui_pending_approvals, Utc_now, agents_with_prior_authorization, logged_events, reads.
  intros Hr. run_all. by eexists.
Qed.

(** What the panel says about a request is what the broker holds about it. *)
Record shows (r : UiAuthorizationRequest) (entry : PendingApprovalEntry) : Prop := {
  sh_approval : ua_approval_id r = id_str (apr_approval_id (pn_approval entry));
  sh_request : ua_request_id r = id_str (apr_request_id (pn_approval entry));
  sh_digest : ua_context_digest r = b64_encode (apr_context_digest (pn_approval entry));
  sh_agent : ua_agent_id r = id_str (au_agent_id (pn_authorization entry));
  sh_credential : ua_credential_name r = cred_name (au_credential (pn_authorization entry));
  sh_origin : ua_origin r = origin_as_str (pc_top_origin (au_page_context (pn_authorization entry)));
  sh_action : ua_action r = au_action (pn_authorization entry);
  sh_risk : ua_risk r = au_base_risk (pn_authorization entry);
  sh_presence :
    ua_requires_presence r = pd_require_user_presence (au_decision (pn_authorization entry));
  sh_expiry : ua_expires_at r = apr_expires_at (pn_approval entry)
}.

Lemma pending_entry_in now (b : BrokerState P) entry :
  entry ∈ pending_entries now b <->
  (exists i, approvals b !! i = Some entry) /\
  apr_decision (pn_approval entry) = "pending" /\ now < apr_expires_at (pn_approval entry).
Proof.
  unfold pending_entries. rewrite order_by_perm, list_elem_of_In, filter_In, in_map_iff.
  rewrite andb_true_iff, bool_decide_eq_true, Z.ltb_lt. split.
  - intros (((i & e) & <- & Hin) & Hd). split; [|done]. exists i.
    by apply hash_iter_elem, list_elem_of_In.
  - intros ((i & Hi) & Hd). split; [|done]. exists (i, entry). split; [done|].
    by apply list_elem_of_In, hash_iter_elem.
Qed.

(** C29: the approval panel is faithful. It lists every approval that awaits a
    decision and has not expired, nothing else, the one that expires first at
    the top; each with the digest, origin, credential, action, risk and presence
    requirement the broker holds; the two texts an agent can choose are at most
    500 characters, without control characters and bidirectional overrides and
    without blanks around them. Looking changes nothing. *)
Theorem pending_view_is_faithful w rs w' :
  ui_pending_approvals w = (Done rs, w') ->
  let now := env_now (w_tick w) in
  let awaits entry := (exists i, approvals (w_broker w) !! i = Some entry) /\
    apr_decision (pn_approval entry) = "pending" /\ now < apr_expires_at (pn_approval entry) in
  w_broker w' = w_broker w /\
  Sorted (fun a b => ua_expires_at a <= ua_expires_at b) rs /\
  (forall entry, awaits entry -> exists r, r ∈ rs /\ shows r entry) /\
  (forall r, r ∈ rs -> exists entry, awaits entry /\ shows r entry) /\
  (forall r, r ∈ rs -> displayable (chars (ua_agent_name r)) /\
     forall reason, ua_reason r = Some reason -> reason <> "" /\ displayable (chars reason)).
Proof.
  intros Hr now awaits. apply ui_pending_Done in Hr as (known & -> & ->). cbn [w_broker].
  fold now. split_and!; [done| | | |].
  - apply (Sorted_map_order _ _ _ (fun e : PendingApprovalEntry => apr_expires_at (pn_approval e))).
    intros a b. cbn. lia.
  - intros entry Hentry. exists (authorization_request known entry). split; [|by split].
    apply list_elem_of_In, in_map, list_elem_of_In. by apply pending_entry_in.
  - intros r [entry [<- Hin]]%list_elem_of_In%in_map_iff. exists entry.
    split; [by apply pending_entry_in, list_elem_of_In|by split].
  - intros r [entry [<- Hin]]%list_elem_of_In%in_map_iff.
    split; [apply sanitized_displayable|]. cbn. intros reason. case_bool_decide; [done|].
    intros [= <-]. split; [done|apply sanitized_displayable].
Qed.
End Pending.
