(* ===== verification/UiSecrets.v ===== *)
(** * UiSecrets: the interface does not depend on secrets

    A relational reading of [Ui]: the same call on two brokers that differ only
    in what has to stay secret gives the same answer. *)

From Stdlib Require Import Sorted.
From S2P Require Import Prelude.
From S2P Require Import Externals.
From S2P Require Import Domain.
From S2P Require Import DomView.
From S2P Require Import Policy.
From S2P Require Import Crypto.
From S2P Require Import Gateway.
From S2P Require Import AuditChain.
From S2P Require Import Capability.
From S2P Require Import Provider.
From S2P Require Import Table.
From S2P Require Import Store.
From S2P Require Import StoreProps.
From S2P Require Import OAuth.
From S2P Require Import Protocol.
From S2P Require Import Admin.
From S2P Require Import BrokerState.
From S2P Require Import Broker.
From S2P Require Import Ui.
From S2P Require Import BrokerSteps.
From S2P Require Import BrokerProps.

From S2P Require Import UiProps.

(** ** Two brokers with different secrets

    [concealed k p b] is a broker with other secrets: another signing key,
    another content of the provider, no public keys of agents, no locators and
    metadata of credentials, no tokens, other claims, no proofs of sessions and
    pending OAuth authorizations. *)

Definition conceal_agent_row (row : AgentRow) : AgentRow := {|
  agr_agent_id := agr_agent_id row; agr_role := agr_role row; agr_public_key := [];
  agr_executable_hash := agr_executable_hash row; agr_executable_path := agr_executable_path row;
  agr_peer_uid := agr_peer_uid row; agr_display_name := agr_display_name row;
  agr_state := agr_state row; agr_created_at := agr_created_at row |}.
Definition conceal_agent (a : AgentPrincipal) : AgentPrincipal := {|
  ag_agent_id := ag_agent_id a; ag_role := ag_role a; ag_public_key := [];
  ag_display_name := ag_display_name a; ag_peer_uid := ag_peer_uid a;
  ag_executable_path := ag_executable_path a; ag_executable_hash := ag_executable_hash a;
  ag_state := ag_state a; ag_created_at := ag_created_at a |}.

Definition conceal_credential_row (row : CredentialRow) : CredentialRow := {|
  crr_credential_id := crr_credential_id row; crr_name := crr_name row;
  crr_kind := crr_kind row; crr_provider := crr_provider row; crr_provider_locator := "";
  crr_allowed_actions_json := crr_allowed_actions_json row; crr_metadata_json := "";
  crr_disabled_at := crr_disabled_at row |}.
Definition conceal_credential (c : CredentialDescriptor) : CredentialDescriptor := {|
  cred_credential_id := cred_credential_id c; cred_name := cred_name c; cred_kind := cred_kind c;
  cred_provider := cred_provider c; cred_provider_locator := "";
  cred_allowed_actions := cred_allowed_actions c; cred_metadata_json := "";
  cred_disabled_at := cred_disabled_at c |}.

Definition conceal_store (s : Store) : Store :=
  Store.set_capabilities (set_oauth_grants (set_credentials (set_agents s
    (map conceal_agent_row (agents s))) (map conceal_credential_row (credentials s))) []) [].

Section Conceal.
Context `{ManagedChrome} {P : Type}.

Definition conceal_pending (entry : PendingApprovalEntry) : PendingApprovalEntry :=
  let a := pn_authorization entry in {|
  pn_approval := pn_approval entry;
  pn_authorization := {|
    au_request_id := au_request_id a; au_agent_id := au_agent_id a;
    au_agent_name := au_agent_name a; au_reason := au_reason a;
    au_identity_name := au_identity_name a; au_credential := conceal_credential (au_credential a);
    au_action := au_action a; au_browser_session_id := au_browser_session_id a;
    au_extension_key_id := au_extension_key_id a; au_page_context := au_page_context a;
    au_recipe := au_recipe a; au_decision := au_decision a; au_base_risk := au_base_risk a |} |}.

Variable other_claims : CapabilityClaims -> CapabilityClaims.
Definition conceal_entry (e : CapabilityEntry) : CapabilityEntry := {|
  ce_capability := ce_capability e; ce_token := ""; ce_claims := other_claims (ce_claims e);
  ce_recipe_id := ce_recipe_id e; ce_provider_locator := ""; ce_credential_metadata := "" |}.

Definition conceal_session (a : ActiveBrowserSession) : ActiveBrowserSession := {|
  abs_session := abs_session a; abs_active_tab_count := abs_active_tab_count a;
  abs_session_proof_hash := None |}.

Variables (k : KeyPair) (p : P).
Definition concealed (b : BrokerState P) : BrokerState P := {|
  broker_key := k; key_id := key_id b; store := conceal_store (store b); provider := p;
  policy_evaluator := policy_evaluator b; sessions := conceal_session <$> sessions b;
  page_contexts := page_contexts b;
  capabilities := conceal_entry <$> capabilities b; pending_offers := pending_offers b;
  executions := executions b; oauth_executions := ∅; requests := requests b;
  request_agents := request_agents b; request_fingerprints := request_fingerprints b;
  approvals := conceal_pending <$> approvals b; recipes := recipes b;
  managed_browsers := managed_browsers b; audit_key_version := audit_key_version b;
  audit_key := audit_key b; audit_cursor := audit_cursor b |}.
Definition concealed_world (w : World P) : World P :=
  {| w_broker := concealed (w_broker w); w_tick := w_tick w |}.
End Conceal.

(** ** Reading the same from both *)

(** Two outcomes with the same error, or with related results. *)
Inductive alike {A : Type} (Q : relation A) : relation (outcome RpcError A) :=
| alike_done a b : Q a b -> alike Q (Done a) (Done b)
| alike_fail e : alike Q (Fail e) (Fail e)
| alike_panic : alike Q Panicked Panicked.

Section Hides.
Context `{ManagedChrome} {P : Type} (claims : CapabilityClaims -> CapabilityClaims) (k : KeyPair) (p : P).
Notation conceal := (concealed claims k p).
Notation conceal_world := (concealed_world claims k p).

(** [hides Q m m']: [m] on the one broker does what [m'] does on the other. *)
Definition hides {A : Type} (Q : relation A) (m m' : Broker P A) : Prop := forall w,
  alike Q (fst (m (conceal_world w))) (fst (m' w)) /\
  snd (m (conceal_world w)) = conceal_world (snd (m' w)).

Lemma hides_bind {A B : Type} (Q : relation A) (S : relation B) m m' f f' :
  hides Q m m' -> (forall a b, Q a b -> hides S (f a) (f' b)) -> hides S (m ≫= f) (m' ≫= f').
Proof.
  intros Hm Hf w. unfold mbind, broker_bind. specialize (Hm w).
  destruct (m (conceal_world w)) as [o w1], (m' w) as [o' w2]. cbn [fst snd] in Hm.
  destruct Hm as [Ho ->]. destruct Ho as [a b Hab|e|]; [by apply Hf|by split; [constructor|]..].
Qed.

Lemma hides_ret {A : Type} (Q : relation A) a b : Q a b -> hides Q (mret a) (mret b).
Proof. intros Hab w. split; [by constructor|done]. Qed.
Lemma hides_gets {A : Type} (Q : relation A) (f f' : BrokerState P -> A) :
  (forall b, Q (f (conceal b)) (f' b)) -> hides Q (gets f) (gets f').
Proof. intros Hf w. split; [constructor 1; apply Hf|done]. Qed.
Lemma hides_draw {A : Type} (f : nat -> A) : hides eq (draw f) (draw f).
Proof. intros w. split; [by constructor|done]. Qed.
Lemma hides_lift {E A : Type} (f : E -> RpcError) (r : result E A) : hides eq (lift f r) (lift f r).
Proof. intros w. destruct r; (split; [by constructor|done]). Qed.
Lemma hides_lift_map {E A : Type} (f : E -> RpcError) (h : A -> A) (r r' : result E (list A)) :
  r = (match r' with Ok l => Ok (map h l) | Err e => Err e end) ->
  hides (fun l l' => l = map h l') (lift f r) (lift f r').
Proof. intros -> w. destruct r'; (split; [by constructor|done]). Qed.
Lemma hides_attempt {A : Type} m m' :
  hides (A := A) eq m m' -> hides eq (attempt m) (attempt m').
Proof.
  intros Hm w. unfold attempt. specialize (Hm w).
  destruct (m (conceal_world w)) as [o w1], (m' w) as [o' w2]. cbn [fst snd] in Hm.
  destruct Hm as [Ho ->]. destruct Ho as [a b ->|e|]; (split; [by constructor|done]).
Qed.
Lemma hides_require {A : Type} (Q : relation A) c msg (o o' : option A) :
  match o, o' with Some a, Some b => Q a b | None, None => True | _, _ => False end ->
  hides Q (require c msg o) (require c msg o').
Proof. intros Ho w. destruct o, o'; try done; (split; [by constructor|done]). Qed.
End Hides.

(** ** The store behind the views *)

Definition rmap {E A B : Type} (h : A -> B) (r : result E A) : result E B :=
  match r with Ok a => Ok (h a) | Err e => Err e end.

Lemma collect_rmap {E A B C : Type} (f : A -> result E B) (f' : A -> result E C) (h : B -> C) l :
  (forall a, f' a = rmap h (f a)) -> collect f' l = rmap (map h) (collect f l).
Proof.
  intros Hf. induction l as [|a l IH]; [done|]. cbn [collect]. rewrite Hf, IH.
  destruct (f a); [|done]. cbn. by destruct (collect f l).
Qed.

Lemma select_first_map {A B : Type} (g : A -> B) q l :
  select_first q (map g l) = g <$> select_first (fun a => q (g a)) l.
Proof.
  unfold select_first. induction l as [|a l IH]; [done|]. cbn. by destruct (q (g a)).
Qed.

Lemma select_where_map {A B : Type} (g : A -> B) q l :
  select_where q (map g l) = map g (select_where (fun a => q (g a)) l).
Proof.
  unfold select_where. induction l as [|a l IH]; [done|]. cbn. rewrite IH. by destruct (q (g a)).
Qed.

Lemma order_by_map {A B : Type} (g : A -> B) le l :
  order_by le (map g l) = map g (order_by (fun a b => le (g a) (g b)) l).
Proof.
  unfold order_by. induction l as [|a l IH]; [done|]. cbn. rewrite IH.
  generalize (fold_right (insert_ordered (fun a b => le (g a) (g b))) [] l) as l'.
  induction l' as [|b l' IH']; [done|]. cbn. destruct (le (g a) (g b)); [done|]. cbn. by rewrite IH'.
Qed.

Section Reads.
Context `{Chrono, UrlParser, JsonCodec}.

Lemma enrolled_agent_concealed s i :
  get_enrolled_agent (conceal_store s) i = rmap conceal_agent (get_enrolled_agent s i).
Proof.
  unfold get_enrolled_agent, query_row, not_found. cbn [agents conceal_store].
  change (agents (conceal_store s)) with (map conceal_agent_row (agents s)).
  rewrite select_first_map. change (fun a => enrolled i (conceal_agent_row a)) with (enrolled i).
  destruct (select_first (enrolled i) (agents s)) as [row|]; [|done]. cbn.
  destruct (column 0 _) as [id|e]; [|by destruct e]. cbn.
  destruct (time_column 8 _) as [t|e]; [done|by destruct e].
Qed.

Lemma list_agents_concealed s : list_agents (conceal_store s) = rmap (map conceal_agent) (list_agents s).
Proof.
  unfold list_agents. change (agents (conceal_store s)) with (map conceal_agent_row (agents s)).
  rewrite select_where_map, order_by_map, map_map. apply collect_rmap. apply enrolled_agent_concealed.
Qed.

Lemma credential_concealed s n : get_credential_by_name (conceal_store s) n
  = rmap conceal_credential (get_credential_by_name s n).
Proof.
  unfold get_credential_by_name, query_row, not_found.
  change (credentials (conceal_store s)) with (map conceal_credential_row (credentials s)).
  rewrite select_first_map.
  change (fun a => bool_decide (crr_name (conceal_credential_row a) = n))
    with (fun a => bool_decide (crr_name a = n)).
  destruct (select_first _ (credentials s)) as [row|]; [|done]. unfold row_to_credential. cbn.
  destruct (column 5 _) as [acts|e]; [|by destruct e]. cbn.
  destruct (opt_time_column 7 _) as [t|e]; [|by destruct e]. cbn.
  destruct (column 0 _) as [i|e]; [done|by destruct e].
Qed.

Lemma list_credentials_concealed s :
  list_credentials (conceal_store s) = rmap (map conceal_credential) (list_credentials s).
Proof.
  unfold list_credentials.
  change (credentials (conceal_store s)) with (map conceal_credential_row (credentials s)).
  rewrite order_by_map, map_map. apply collect_rmap, credential_concealed.
Qed.

Lemma display_names_concealed s : agent_display_names (conceal_store s) = agent_display_names s.
Proof.
  unfold agent_display_names. rewrite list_agents_concealed. destruct (list_agents s) as [l|e]; [|done].
  cbn [rmap]. generalize (∅ : gmap string string). induction l as [|a l IH]; intros m; [done|].
  cbn. apply IH.
Qed.
End Reads.

(** ** The views *)

Lemma hash_iter_fmap `{HashIterLaws} {K A B : Type} `{Countable K} (f : A -> B) (m : gmap K A) :
  map snd (hash_iter (f <$> m)) ≡ₚ map f (map snd (hash_iter m)).
Proof.
  rewrite !hash_iter_perm, map_to_list_fmap, !map_map.
  induction (map_to_list m) as [|[i a] l IH]; [done|]. cbn. by rewrite IH.
Qed.

Lemma perm_filter {A : Type} (q : A -> bool) l l' :
  l ≡ₚ l' -> List.filter q l ≡ₚ List.filter q l'.
Proof. induction 1; cbn; repeat case_match; eauto using perm_swap, Permutation. Qed.
Lemma perm_existsb {A : Type} (q : A -> bool) l l' : l ≡ₚ l' -> existsb q l = existsb q l'.
Proof. induction 1 as [|x l l' _ IH|x y l|l1 l2 l3 _ IH1 _ IH2]; cbn; [done|by rewrite IH| |congruence].
  by destruct (q x), (q y). Qed.
Lemma existsb_map {A B : Type} (g : A -> B) q l : existsb q (map g l) = existsb (fun a => q (g a)) l.
Proof. induction l as [|a l IH]; [done|]. cbn. by rewrite IH. Qed.

Section Views.
Context `{ManagedChrome, Chrono, Hashes, Signatures, Base64, Cbor, WireCodec, UrlParser,
  JsonCodec, HashIterLaws, !Environment, HttpClient, SqliteText} {P : Type} `{SecretProvider P}.
Variables (claims : CapabilityClaims -> CapabilityClaims) (k : KeyPair) (p : P).
Notation conceal := (concealed claims k p).
Notation hides := (hides claims k p).
Implicit Type b : BrokerState P.

Lemma pending_concealed now b :
  pending_entries now (conceal b) ≡ₚ map conceal_pending (pending_entries now b).
Proof.
  unfold pending_entries. rewrite !order_by_perm. cbn [approvals concealed].
  rewrite (perm_filter _ _ _ (hash_iter_fmap conceal_pending (approvals b))).
  induction (map snd (hash_iter (approvals b))) as [|e l IH]; [done|]. cbn. by case_match; cbn; rewrite IH.
Qed.

Lemma hides_store {A : Type} (f : Store -> A) (Q : relation A) :
  (forall s, Q (f (conceal_store s)) (f s)) -> hides Q (read_store f) (read_store f).
Proof. intros Hf. apply hides_gets. intros b. apply Hf. Qed.

Lemma hides_reads_same {A : Type} m (f : Store -> result StoreError A) :
  (forall s, f (conceal_store s) = f s) -> hides eq (reads m f) (reads m f).
Proof.
  intros Hf. eapply hides_bind; [by apply (hides_store f eq)|]. intros r ? <-. apply hides_lift.
Qed.
Lemma hides_reads_map {A : Type} m (h : A -> A) (f : Store -> result StoreError (list A)) :
  (forall s, f (conceal_store s) = rmap (map h) (f s)) ->
  hides (fun l l' => l = map h l') (reads m f) (reads m f).
Proof.
  intros Hf. eapply (hides_bind _ _ _ (fun r r' => r = rmap (map h) r')); [by apply hides_store|].
  intros r r' ->. by apply hides_lift_map.
Qed.

Lemma hides_events : hides eq logged_events logged_events.
Proof. by apply hides_reads_same. Qed.
Lemma hides_grants include : hides eq (reads "Grant storage unavailable"
  (fun s => list_standing_grants s include)) (reads "Grant storage unavailable"
  (fun s => list_standing_grants s include)).
Proof. by apply hides_reads_same. Qed.
Lemma hides_agents : hides (fun l l' => l = map conceal_agent l') enrolled_agents enrolled_agents.
Proof. apply hides_reads_map, list_agents_concealed. Qed.
Lemma hides_credentials :
  hides (fun l l' => l = map conceal_credential l') stored_credentials stored_credentials.
Proof. apply hides_reads_map, list_credentials_concealed. Qed.

(** One step of a view. *)
Ltac hide_step :=
  match goal with
  | |- hides _ (draw _ ≫= _) _ => eapply hides_bind; [apply hides_draw|intros ? ? <-]
  | |- hides _ (Utc_now ≫= _) _ => eapply hides_bind; [apply hides_draw|intros ? ? <-]
  | |- hides _ (logged_events ≫= _) _ => eapply hides_bind; [apply hides_events|intros ? ? <-]
  | |- hides _ (live_grants ≫= _) _ => eapply hides_bind; [apply hides_grants|intros ? ? <-]
  | |- hides _ (enrolled_agents ≫= _) _ => eapply hides_bind; [apply hides_agents|intros ? ? ->]
  | |- hides _ (stored_credentials ≫= _) _ =>
      eapply hides_bind; [apply hides_credentials|intros ? ? ->]
  end.

Lemma hides_pending : hides Permutation ui_pending_approvals ui_pending_approvals.
Proof.
  unfold ui_pending_approvals, agents_with_prior_authorization. hide_step.
  eapply (hides_bind _ _ _ (fun l l' => l ≡ₚ map conceal_pending l')).
  { apply hides_gets. intros b. apply pending_concealed. }
  intros l l' Hl. eapply (hides_bind _ _ _ eq); [hide_step; by apply hides_ret|].
  intros known ? <-. apply hides_ret. rewrite Hl, map_map. done.
Qed.

Lemma operation_view_concealed now b : operation_view now (conceal b) = operation_view now b.
Proof.
  unfold operation_view. cbn [executions concealed].
  destruct (List.find live_execution _) as [x|]; [|done]. cbn [mbind option_bind].
  cbn [capabilities concealed]. rewrite lookup_fmap.
  destruct (capabilities b !! _) as [e|]; [|done]. cbn [fmap option_fmap option_map mbind option_bind].
  cbn [sessions concealed ce_capability conceal_entry]. rewrite lookup_fmap.
  cbn [store concealed recipes ce_recipe_id conceal_entry].
  rewrite enrolled_agent_concealed, list_credentials_concealed.
  replace (is_some_and (protection_verified_at now)
    (conceal_session <$> sessions b !! cap_browser_session_id (ce_capability e)))
    with (is_some_and (protection_verified_at now) (sessions b !! cap_browser_session_id (ce_capability e)))
    by (by destruct (sessions b !! _)).
  f_equal. f_equal.
  - by destruct (get_enrolled_agent (store b) _).
  - destruct (list_credentials (store b)) as [l|er]; [|done]. cbn. f_equal.
    induction l as [|c l IH]; [done|]. cbn. by case_match.
Qed.

Lemma hides_same {A : Type} (f f' : BrokerState P -> A) :
  (forall b, f (conceal b) = f' b) -> hides eq (gets f) (gets f').
Proof. apply hides_gets. Qed.

Lemma interrupted_concealed now b : recently_interrupted now (conceal b) = recently_interrupted now b.
Proof.
  unfold recently_interrupted. cbn [capabilities concealed].
  rewrite (perm_existsb _ _ _ (hash_iter_fmap (conceal_entry claims) (capabilities b))).
  apply existsb_map.
Qed.

Lemma hides_protection l l' active now : l ≡ₚ l' ->
  hides eq (ui_protection_state l active now) (ui_protection_state l' active now).
Proof.
  intros Hl. unfold ui_protection_state, most_recent_terminal_outcome.
  destruct active; [by apply hides_ret|].
  eapply hides_bind; [apply hides_same, interrupted_concealed|]. intros i ? <-.
  destruct i; [by apply hides_ret|].
  replace (bool_decide (l = [])) with (bool_decide (l' = [])).
  2: { destruct l, l'; [done|by apply Permutation_length in Hl..|done]. }
  destruct (negb _); [by apply hides_ret|].
  eapply (hides_bind _ _ _ eq); [|intros r ? <-; by apply hides_ret].
  eapply hides_bind; [by apply (hides_same (recently_ended now ExecutionState.Indeterminate))|].
  intros u ? <-. eapply hides_bind; [by apply (hides_same (recently_ended now ExecutionState.CompletedEvidenceLost))|].
  intros v ? <-. destruct u; [by apply hides_ret|]. destruct v; [by apply hides_ret|].
  hide_step. by apply hides_ret.
Qed.

Lemma hides_integrity : hides eq verify_audit_integrity verify_audit_integrity.
Proof.
  unfold verify_audit_integrity.
  eapply hides_bind; [by apply (hides_store list_audit_events eq)|]. intros r ? <-.
  eapply hides_bind; [apply hides_lift|]. intros es ? <-.
  eapply hides_bind; [by apply (hides_same audit_key_version)|]. intros v ? <-.
  eapply hides_bind; [by apply (hides_same audit_key)|]. intros key ? <-. apply hides_lift.
Qed.

Lemma count_map {A B : Type} (g : A -> B) q l :
  count_u32 (List.filter q (map g l)) = count_u32 (List.filter (fun a => q (g a)) l).
Proof.
  unfold count_u32. do 2 f_equal. induction l as [|a l IH]; [done|]. cbn. by destruct (q (g a)); cbn; rewrite IH.
Qed.
Lemma count_perm {A : Type} (l l' : list A) : l ≡ₚ l' -> count_u32 l = count_u32 l'.
Proof. intros Hl. unfold count_u32. by rewrite Hl. Qed.

Lemma hides_status : hides eq ui_status ui_status.
Proof.
  unfold ui_status. hide_step.
  eapply hides_bind; [apply hides_pending|]. intros l l' Hl.
  eapply (hides_bind _ _ _ eq).
  { unfold ui_active_operation. hide_step. apply hides_same, operation_view_concealed. }
  intros op ? <-. eapply hides_bind.
  { apply hides_same. intros b. cbn [sessions concealed].
    rewrite (count_perm _ _ (perm_filter _ _ _ (hash_iter_fmap conceal_session (sessions b)))).
    apply count_map. }
  intros n ? <-. hide_step. hide_step. hide_step.
  eapply (hides_bind _ _ _ eq).
  { unfold recent_actor_ids. hide_step. hide_step. by apply hides_ret. }
  intros actors ? <-. eapply hides_bind; [by apply hides_protection|]. intros st ? <-.
  eapply hides_bind; [by apply (hides_same ui_policy_fingerprint)|]. intros fp ? <-.
  eapply hides_bind; [apply hides_attempt, hides_integrity|]. intros ok ? <-.
  apply hides_ret. f_equal.
  - by apply count_perm.
  - unfold count_u32. by rewrite length_map.
  - apply count_map.
  - f_equal. clear. induction b0 as [|c l IH]; [done|]. cbn. case_match; cbn; by rewrite IH.
Qed.

Lemma hides_sessions : hides Permutation ui_browser_sessions ui_browser_sessions.
Proof.
  apply hides_gets. intros b. rewrite !order_by_perm.
  rewrite <-(map_map snd (browser_row (conceal b))), <-(map_map snd (browser_row b)).
  cbn [sessions concealed]. rewrite (hash_iter_fmap conceal_session (sessions b)), map_map. done.
Qed.

Lemma hides_activity limit : hides eq (ui_activity limit) (ui_activity limit).
Proof.
  unfold ui_activity. hide_step. eapply hides_bind.
  { apply (hides_store agent_display_names eq), display_names_concealed. }
  intros names ? <-. by apply hides_ret.
Qed.

Lemma hides_ui_agents : hides eq ui_agents ui_agents.
Proof. unfold ui_agents. repeat hide_step. apply hides_ret. by rewrite map_map. Qed.
Lemma hides_ui_credentials : hides eq ui_credentials ui_credentials.
Proof. unfold ui_credentials. repeat hide_step. apply hides_ret. by rewrite map_map. Qed.
Lemma hides_ui_grants include : hides eq (ui_grants include) (ui_grants include).
Proof.
  unfold ui_grants. hide_step. eapply hides_bind; [apply hides_grants|]. intros l ? <-. by apply hides_ret.
Qed.

(** C28: nothing secret reaches the interface. Exchange the signing key, all that
    the provider holds, the public keys of the agents, the locators and metadata
    of the credentials, the tokens and claims of the capabilities, the proofs of
    the sessions and the pending OAuth authorizations: every view answers as
    before, errors included, up to the order of rows whose sort keys are equal. *)
Theorem interface_hides_secrets (w : World P) :
  let w' := concealed_world claims k p w in
  alike Permutation (fst (ui_pending_approvals w')) (fst (ui_pending_approvals w)) /\
  fst (ui_status w') = fst (ui_status w) /\
  (forall limit, fst (ui_activity limit w') = fst (ui_activity limit w)) /\
  fst (ui_agents w') = fst (ui_agents w) /\
  fst (ui_credentials w') = fst (ui_credentials w) /\
  alike Permutation (fst (ui_browser_sessions w')) (fst (ui_browser_sessions w)) /\
  (forall include, fst (ui_grants include w') = fst (ui_grants include w)).
Proof.
  assert (Heq : forall A (m : Broker P A), hides eq m m ->
    fst (m (concealed_world claims k p w)) = fst (m w)).
  { intros A m Hm. destruct (Hm w) as [Ha _]. destruct Ha; congruence. }
  intros w'. split_and!; intros; try apply Heq.
  - apply hides_pending.
  - apply hides_status.
  - apply hides_activity.
  - apply hides_ui_agents.
  - apply hides_ui_credentials.
  - apply hides_sessions.
  - apply hides_ui_grants.
Qed.
End Views.
