(* ===== verification/PagesProps.v ===== *)
(** * PagesProps: what an agent can make the browser do

    Every run of a browsing handler is a sequence of requests on the pipe of one
    browser. The rules below follow a computation and collect that sequence; the
    theorems say what is in it. *)

From Stdlib Require Import SpecFloat.
From S2P Require Import Prelude.
From S2P Require Import Externals.
From S2P Require Import Domain.
From S2P Require Import Policy.
From S2P Require Import Crypto.
From S2P Require Import DomView.
From S2P Require Import DomViewProps.
From S2P Require Import Gateway.
From S2P Require Import GatewayProps.
From S2P Require Import AuditChain.
From S2P Require Import Capability.
From S2P Require Import Provider.
From S2P Require Import Table.
From S2P Require Import Store.
From S2P Require Import OAuth.
From S2P Require Import Protocol.
From S2P Require Import BrokerState.
From S2P Require Import Broker.
From S2P Require Import Pages.
From S2P Require Import BrokerProps.

(** ** Requests of a computation *)

Record Sent : Type := {
  sent_method : string;
  sent_session : option string;
  sent_params : Json;
  sent_answer : result GatewayError Json
}.

Section Requests.
Context `{Hashes, UnicodeCase, JsonCodec, JsonFloats, UrlParser}.

Inductive requests (filter : CdpFilter) : CdpPipe -> list Sent -> CdpPipe -> Prop :=
| requests_nil p : requests filter p [] p
| requests_cons p s p1 tr p2 :
    request_with_session filter (sent_method s) None (sent_session s) (sent_params s) p
      = (sent_answer s, p1) ->
    requests filter p1 tr p2 -> requests filter p (s :: tr) p2.

Lemma requests_app filter p tr1 p1 tr2 p2 :
  requests filter p tr1 p1 -> requests filter p1 tr2 p2 -> requests filter p (tr1 ++ tr2) p2.
Proof. induction 1; [done|]. intros ?. econstructor; eauto. Qed.

(** Every run of [m] is a sequence of requests that, with the result, is in [Q]. *)
Definition sends {A : Type} (m : Cdp A) (Q : list Sent -> result RpcError A -> Prop) : Prop :=
  forall filter p, exists tr, requests filter p tr (snd (m filter p)) /\ Q tr (fst (m filter p)).

Lemma sends_impl {A : Type} (m : Cdp A) (Q Q' : list Sent -> result RpcError A -> Prop) :
  sends m Q -> (forall tr r, Q tr r -> Q' tr r) -> sends m Q'.
Proof. intros Hm HQ filter p. destruct (Hm filter p) as (tr & Ht & Hq). eauto. Qed.

Lemma sends_bind {A B : Type} (m : Cdp A) (f : A -> Cdp B) Q R :
  sends m R -> (forall tr e, R tr (Err e) -> Q tr (Err e)) ->
  (forall a tr, R tr (Ok a) -> sends (f a) (fun tr' r => Q (tr ++ tr') r)) ->
  sends (m ≫= f) Q.
Proof.
  intros Hm He Hf filter p. destruct (Hm filter p) as (tr & Ht & Hr).
  unfold mbind, cdp_bind. destruct (m filter p) as [[a|e] p1]; cbn in *; [|by eauto].
  destruct (Hf a tr Hr filter p1) as (tr' & Ht' & Hr'). exists (tr ++ tr').
  split; [by eapply requests_app|done].
Qed.

Lemma sends_pure {A : Type} (r : result RpcError A) Q : Q [] r -> sends (cdp_lift r) Q.
Proof. intros HQ filter p. exists []. split; [constructor|done]. Qed.

Lemma sends_ret {A : Type} (a : A) Q : Q [] (Ok a) -> sends (mret a) Q.
Proof. intros HQ filter p. exists []. split; [constructor|done]. Qed.

Lemma sends_or_failure {A : Type} (o : option A) Q :
  (forall r, Q [] r) -> sends (or_failure o) Q.
Proof. intros HQ. by apply sends_pure. Qed.

Lemma sends_command method session params Q :
  (forall answer, Q [Build_Sent method session params answer] (map_err (fun _ => cdp_failure) answer)) ->
  sends (cdp_command method session params) Q.
Proof.
  intros HQ filter p. unfold cdp_command.
  destruct (request_with_session filter method None session params p) as [r p'] eqn:Hr.
  exists [Build_Sent method session params r]. split; [|apply HQ].
  econstructor; [exact Hr|constructor].
Qed.

Lemma sends_attempt {A : Type} (m : Cdp A) Q : sends m (fun tr r => Q tr (Ok r)) -> sends (cdp_attempt m) Q.
Proof.
  intros Hm filter p. destruct (Hm filter p) as (tr & Ht & Hq). exists tr.
  unfold cdp_attempt. by destruct (m filter p).
Qed.

(** The form most computations have: whatever they send is of one kind. *)
Definition sends_only {A : Type} (kind : Sent -> Prop) (m : Cdp A) : Prop :=
  sends m (fun tr _ => Forall kind tr).

Lemma sends_only_bind {A B : Type} kind (m : Cdp A) (f : A -> Cdp B) :
  sends_only kind m -> (forall a, sends_only kind (f a)) -> sends_only kind (m ≫= f).
Proof.
  intros Hm Hf. eapply sends_bind; [exact Hm|done|]. cbn. intros a tr Ht.
  eapply sends_impl; [apply Hf|]. cbn. intros tr' _ Ht'. by apply Forall_app.
Qed.

Lemma sends_only_ret {A : Type} kind (a : A) : sends_only kind (mret a).
Proof. by apply sends_ret. Qed.
Lemma sends_only_lift {A : Type} kind (r : result RpcError A) : sends_only kind (cdp_lift r).
Proof. by apply sends_pure. Qed.
Lemma sends_only_or_failure {A : Type} kind (o : option A) : sends_only kind (or_failure o).
Proof. by apply sends_or_failure. Qed.
Lemma sends_only_attempt {A : Type} kind (m : Cdp A) :
  sends_only kind m -> sends_only kind (cdp_attempt m).
Proof. intros Hm. by apply sends_attempt. Qed.
Lemma sends_only_command kind method session params :
  (forall answer, kind (Build_Sent method session params answer)) ->
  sends_only kind (cdp_command method session params).
Proof. intros Hk. apply sends_command. intros a. by repeat constructor. Qed.

Lemma sends_only_impl {A : Type} (kind kind' : Sent -> Prop) (m : Cdp A) :
  (forall s, kind s -> kind' s) -> sends_only kind m -> sends_only kind' m.
Proof. intros Hk Hm. eapply sends_impl; [exact Hm|]. cbn. intros tr _. by apply Forall_impl. Qed.

End Requests.

(** Follows a computation; [tac] answers for the commands it sends. *)
Ltac follow_commands tac :=
  repeat match goal with
  | |- sends_only _ (_ ≫= _) => apply sends_only_bind; [|intros ?]
  | |- sends_only _ (let x := _ in _) => intros x
  | |- sends_only _ (if ?x then _ else _) => destruct x
  | |- sends_only _ (match ?x with _ => _ end) => destruct x
  | |- sends_only _ (mret _) => apply sends_only_ret
  | |- sends_only _ (cdp_lift _) => apply sends_only_lift
  | |- sends_only _ (or_failure _) => apply sends_only_or_failure
  | |- sends_only _ (cdp_attempt _) => apply sends_only_attempt
  | |- sends_only _ (cdp_command _ _ _) => apply sends_only_command; intros ?; tac
  | |- sends_only _ _ => solve [eauto]
  end.

(** ** Reading and acting *)

Section Reading.
Context `{Hashes, UnicodeCase, JsonCodec, JsonFloats, UrlParser}.

(** A request that only looks at the page. *)
Definition looks (s : Sent) : Prop :=
  sent_method s ∈ ["Target.attachToTarget"; "DOM.getDocument"; "DOM.querySelectorAll";
    "DOM.describeNode"; "DOM.getBoxModel"; "Page.getNavigationHistory"; "Target.getTargets"].

Ltac look := follow_commands ltac:(by apply (bool_decide_unpack _)).

Lemma attach_looks tab : sends_only looks (attach_tab tab).
Proof. unfold attach_tab. look. Qed.
Lemma locate_looks s sel : sends_only looks (locate_node s sel).
Proof. unfold locate_node. look. Qed.
Lemma document_looks s l : sends_only looks (project_document s l).
Proof. unfold project_document. look. Qed.
Lemma subtree_looks s n l : sends_only looks (project_subtree s n l).
Proof. unfold project_subtree. look. Qed.
Lemma resolve_looks s l : sends_only looks (resolve_locator s l).
Proof. unfold resolve_locator. pose proof locate_looks. pose proof document_looks. look. Qed.
Lemma box_looks s n : sends_only looks (box_model_center s n).
Proof. unfold box_model_center. look. Qed.
Lemma url_looks s : sends_only looks (tab_url s).
Proof. unfold tab_url, history_of. look. Qed.
Lemma probe_looks s nodes : forall probes, sends_only looks (probe_visibility s probes nodes).
Proof.
  pose proof box_looks. induction nodes as [|n nodes IH]; intros probes; cbn [probe_visibility]; look.
Qed.
Lemma public_looks s l : sends_only looks (public_field s l).
Proof. unfold public_field. pose proof resolve_looks. look. Qed.
End Reading.

(** ** The calls of an agent that drive the browser *)

Inductive BrowserCall : Type :=
| BrowserTabs (ps : BrowserSessionParams)
| BrowserOpenTab (ps : BrowserOpenTabParams)
| BrowserCloseTab (ps : BrowserTabParams)
| BrowserNavigate (ps : BrowserNavigateParams)
| BrowserReload (ps : BrowserTabParams)
| BrowserBack (ps : BrowserTabParams)
| BrowserForward (ps : BrowserTabParams)
| PageReadText (ps : PageReadTextParams)
| PageSnapshot (ps : PageSnapshotParams)
| PageWaitFor (ps : PageWaitForParams)
| PageClick (ps : PageLocatorParams)
| PageTypePublic (ps : PageTypePublicParams)
| PageSelect (ps : PageSelectParams).

Section Handlers.
Context `{ManagedChrome, Hashes, UnicodeCase, JsonCodec, JsonFloats, UP : UrlParser, HashIter,
  MonotonicLaws} {P : Type}.

Definition ignore {A : Type} (m : Broker P A) : Broker P unit := _ ← m; mret tt.

Definition run_browser_call (c : BrowserCall) : Broker P unit :=
  match c with
  | BrowserTabs ps => ignore (handle_browser_tabs ps)
  | BrowserOpenTab ps => ignore (handle_browser_open_tab ps)
  | BrowserCloseTab ps => ignore (handle_browser_close_tab ps)
  | BrowserNavigate ps => ignore (handle_browser_navigate ps)
  | BrowserReload ps => ignore (handle_browser_reload ps)
  | BrowserBack ps => ignore (handle_browser_back ps)
  | BrowserForward ps => ignore (handle_browser_forward ps)
  | PageReadText ps => ignore (handle_page_read_text ps)
  | PageSnapshot ps => ignore (handle_page_snapshot_safe ps)
  | PageWaitFor ps => ignore (handle_page_wait_for ps)
  | PageClick ps => ignore (handle_page_click ps)
  | PageTypePublic ps => ignore (handle_page_type_public ps)
  | PageSelect ps => ignore (handle_page_select ps)
  end.

(** A URL an agent may send the browser to. *)
Definition safe_url (u : string) : Prop :=
  u = "about:blank" \/
  exists raw parsed, url_parse raw = Ok parsed /\ u = url_text parsed /\
    url_username parsed = "" /\ url_password parsed = None /\
    (url_scheme parsed = "https" \/
     (url_scheme parsed = "http" /\
      url_host_str parsed ∈ [Some "localhost"; Some "127.0.0.1"; Some "[::1]"])).

Lemma safe_navigation_url_Ok raw blank u : safe_navigation_url raw blank = Ok u -> safe_url u.
Proof.
  unfold safe_navigation_url, safe_url. destruct blank; cbn [andb].
  - case_bool_decide as Hb; [intros [= ->]; by left|]. intros Hr. right. revert Hr.
    destruct (url_parse raw) as [parsed|e] eqn:Hp; [|done]. cbn. intros Hr. exists raw, parsed.
    repeat case_bool_decide; cbn in Hr; try discriminate; injection Hr as <-; naive_solver.
  - intros Hr. right. revert Hr.
    destruct (url_parse raw) as [parsed|e] eqn:Hp; [|done]. cbn. intros Hr. exists raw, parsed.
    repeat case_bool_decide; cbn in Hr; try discriminate; injection Hr as <-; naive_solver.
Qed.

(** What an agent's calls send: methods of the allow list, and an address only
    when it is a safe one. *)
Definition agent_request (s : Sent) : Prop :=
  sent_method s ∈ ALLOWED_CDP_METHODS /\ starts_with (sent_method s) "Extensions." = false /\
  (sent_method s ∈ ["Page.navigate"; "Target.createTarget"] ->
   exists u, sent_params s = JObject [("url", JString u)] /\ safe_url u).

Lemma looks_agent s : looks s -> agent_request s.
Proof.
  assert (Hall : Forall (fun m => m ∈ ALLOWED_CDP_METHODS /\ starts_with m "Extensions." = false /\
    m ∉ ["Page.navigate"; "Target.createTarget"])
    ["Target.attachToTarget"; "DOM.getDocument"; "DOM.querySelectorAll"; "DOM.describeNode";
     "DOM.getBoxModel"; "Page.getNavigationHistory"; "Target.getTargets"])
    by (apply (bool_decide_unpack _); vm_compute; exact I).
  rewrite List.Forall_forall in Hall. intros (Ha & He & Hn)%list_elem_of_In%Hall.
  by split_and!.
Qed.

Ltac other_request := split_and!;
  [by apply (bool_decide_unpack _)|reflexivity|
   intros Hn; apply (bool_decide_pack _) in Hn; vm_compute in Hn; destruct Hn].

Lemma sends_agent {A : Type} (m : Cdp A) : sends_only looks m -> sends_only agent_request m.
Proof. apply sends_only_impl, looks_agent. Qed.

Lemma input_agent s n t : sends_only agent_request (focus_and_insert s n t).
Proof. unfold focus_and_insert. follow_commands ltac:(other_request). Qed.
Lemma key_agent s k : sends_only agent_request (enter_key s k).
Proof. unfold enter_key. follow_commands ltac:(other_request). Qed.
Lemma mouse_agent s k pt : sends_only agent_request (mouse_event s k pt).
Proof. unfold mouse_event. follow_commands ltac:(other_request). Qed.
Lemma history_agent offset s : sends_only agent_request (history_step offset s).
Proof. unfold history_step, history_of. follow_commands ltac:(other_request). Qed.

(** ** What a call leaves behind *)

(** A browser after a call: the same process and window, and a pipe that went
    through some requests of the given kind. *)
Definition pipe_evolves (kind : Sent -> Prop) (m m' : ManagedBrowser) : Prop :=
  mb_launched m' = mb_launched m /\ mb_filter m' = mb_filter m /\
  match mb_cdp_pipe m, mb_cdp_pipe m' with
  | Some p, Some p' => exists tr, requests (mb_filter m) p tr p' /\ Forall kind tr
  | None, None => True
  | _, _ => False
  end.

(** Only the pipes of the browsers change, and time passes. *)
Record browses (kind : Sent -> Prop) (w w' : World P) : Prop := {
  bw_frame : w_broker w' = set_managed_browsers (w_broker w) (managed_browsers (w_broker w'));
  bw_browsers : forall i, option_Forall2 (pipe_evolves kind)
    (managed_browsers (w_broker w) !! i) (managed_browsers (w_broker w') !! i);
  bw_tick : (w_tick w <= w_tick w')%nat
}.

#[local] Instance pipe_evolves_refl kind : Reflexive (pipe_evolves kind).
Proof.
  intros m. split_and!; try done. destruct (mb_cdp_pipe m); [|done].
  exists []. split; [constructor|done].
Qed.

#[local] Instance browses_preorder kind : PreOrder (browses kind).
Proof.
  split.
  - intros w. split; [by destruct w as [[] ?]| |done]. intros i. reflexivity.
  - intros w1 w2 w3 [F1 B1 T1] [F2 B2 T2]. split; [|intros i|lia].
    + rewrite F2, F1. done.
    + specialize (B1 i). specialize (B2 i). destruct B1 as [m1 m2 (L1 & Fi1 & P1)|].
      * inversion B2 as [? m3 (L2 & Fi2 & P2) E1 E2|]; subst. constructor.
        split_and!; [congruence|congruence|].
        destruct (mb_cdp_pipe m1), (mb_cdp_pipe m2), (mb_cdp_pipe m3); try done.
        destruct P1 as (tr1 & Q1 & K1), P2 as (tr2 & Q2 & K2). exists (tr1 ++ tr2).
        rewrite Fi1 in Q2. split; [by eapply requests_app|by apply Forall_app].
      * inversion B2. constructor.
Qed.

Lemma transport_world session (w : World P) : w = snd (browser_transport session w).
Proof.
  enough (Hs : steps eq (browser_transport (P := P) session)) by apply (Hs w).
  unfold browser_transport.
  repeat match goal with
  | |- steps _ (_ ≫= _) => apply steps_bind; [apply _| |intros ?]
  | |- steps _ (if ?x then _ else _) => destruct x
  | |- steps _ (let x := _ in _) => intros x
  | |- _ => solve [eauto with secretctl typeclass_instances]
  end.
Qed.

(** What a handler is given when it is given a pipe. *)
Lemma transport_Done session (w w' : World P) i browser pipe :
  browser_transport session w = (Done (i, browser, pipe), w') ->
  w' = w /\ managed_browsers (w_broker w) !! i = Some browser /\ mb_cdp_pipe browser = Some pipe /\
  exists active, sessions (w_broker w) !! session = Some active /\ i = bs_instance_id (abs_session active).
Proof.
  intros Ht. pose proof (transport_world session w) as Hw. rewrite Ht in Hw. cbn in Hw.
  unfold browser_transport in Ht.
  repeat (match goal with Hx : _ = (Done _, _) |- _ => run_step Hx end || case_bool_decide).
  subst. split_and!; eauto.
Qed.

Lemma steps_transport {A : Type} kind session (m : Cdp A) :
  sends_only kind m -> steps (browses kind) (with_transport session m).
Proof.
  intros Hm w. unfold with_transport, mbind, broker_bind.
  destruct (browser_transport session w) as [[[[i browser] pipe]|e|] w1] eqn:Ht; cbn.
  - apply transport_Done in Ht as (-> & Hbr & Hpipe & _).
    destruct (Hm (mb_filter browser) pipe) as (tr & Htr & Hk).
    destruct (m (mb_filter browser) pipe) as [r pipe'] eqn:Hrun. cbn in Htr.
    assert (Hb : browses kind w {| w_broker := set_managed_browsers (w_broker w)
        (<[i := set_pipe browser pipe']> (managed_browsers (w_broker w))); w_tick := w_tick w |}).
    { split; [done| |done]. cbn. intros j. destruct (decide (i = j)) as [<-|Hj].
      - rewrite lookup_insert_eq, Hbr. constructor. split_and!; try done. rewrite Hpipe. cbn.
        by exists tr.
      - rewrite lookup_insert_ne by done. reflexivity. }
    destruct r as [b|e]; exact Hb.
  - pose proof (transport_world session w) as Hw. rewrite Ht in Hw. cbn in Hw. by subst w1.
  - pose proof (transport_world session w) as Hw. rewrite Ht in Hw. cbn in Hw. by subst w1.
Qed.

Lemma steps_on_tab {A : Type} session tab (m : string -> Cdp A) :
  (forall s, sends_only agent_request (m s)) -> steps (browses agent_request) (on_tab session tab m).
Proof.
  intros Hm. apply steps_transport, sends_only_bind; [apply sends_agent, attach_looks|done].
Qed.

Lemma steps_clock {A : Type} (f : nat -> A) : steps (browses agent_request) (draw (P := P) f).
Proof. intros w. split; cbn; [by destruct (w_broker w)| |lia]. intros i. reflexivity. Qed.

Lemma steps_sleep d : steps (browses agent_request) (sleep (P := P) d).
Proof.
  intros w. split; cbn; [by destruct (w_broker w)| |apply sleep_later]. intros i. reflexivity.
Qed.

Lemma steps_guard session : steps (browses agent_request) (guard_observation (P := P) session).
Proof.
  unfold guard_observation. apply steps_bind; [apply _|eauto with secretctl typeclass_instances|].
  intros b. cbv zeta. destruct (is_some_and _ _); eauto with secretctl typeclass_instances.
Qed.

Ltac follow_call :=
  repeat match goal with
  | |- steps _ (_ ≫= _) => apply steps_bind; [apply _| |intros ?]
  | |- steps _ (if ?x then _ else _) => destruct x
  | |- steps _ (let x := _ in _) => intros x
  | |- steps _ (on_tab _ _ _) => apply steps_on_tab; intros ?
  | |- steps _ (with_transport _ _) => apply steps_transport
  | |- steps _ (draw _) => apply steps_clock
  | |- steps _ (sleep _) => apply steps_sleep
  | |- steps _ (guard_observation _) => apply steps_guard
  | |- steps _ _ => solve [eauto with secretctl typeclass_instances]
  end.

Ltac agent := follow_commands ltac:(other_request); try (apply sends_agent; solve [eauto]).

Lemma steps_condition ps : steps (browses agent_request) (evaluate_wait_condition (P := P) ps).
Proof.
  unfold evaluate_wait_condition. follow_call.
  pose proof resolve_looks. pose proof document_looks. pose proof url_looks.
  destruct (pw_condition ps); agent.
Qed.

Lemma steps_wait fuel ps : forall deadline, steps (browses agent_request) (wait_loop (P := P) fuel ps deadline).
Proof.
  induction fuel as [|fuel IH]; intros deadline; cbn [wait_loop]; follow_call.
  apply steps_condition.
Qed.

(** A command with an address the broker has checked. *)
Lemma address_agent method session raw blank u :
  method ∈ ["Page.navigate"; "Target.createTarget"] -> safe_navigation_url raw blank = Ok u ->
  sends_only agent_request (cdp_command method session (JObject [("url", JString u)])).
Proof.
  intros Hm Hu%safe_navigation_url_Ok. apply sends_only_command. intros a.
  assert (Hs : method ∈ ALLOWED_CDP_METHODS /\ starts_with method "Extensions." = false).
  { apply elem_of_cons in Hm as [->|Hm]; [by split; [apply (bool_decide_unpack _)|]|].
    apply list_elem_of_singleton in Hm as ->. by split; [apply (bool_decide_unpack _)|]. }
  destruct Hs. split_and!; try done. intros _. by exists u.
Qed.

Lemma steps_checked_url {A : Type} raw blank (f : string -> Broker P A) :
  (forall u, safe_navigation_url raw blank = Ok u -> steps (browses agent_request) (f u)) ->
  steps (browses agent_request) (u ← lift id (safe_navigation_url raw blank); f u).
Proof.
  intros Hf. destruct (safe_navigation_url raw blank) as [u|e] eqn:Hu.
  - intros w. apply (Hf u eq_refl w).
  - intros w. cbn. reflexivity.
Qed.

Lemma steps_browser_call c : steps (browses agent_request) (run_browser_call c).
Proof.
  assert (Hi : forall (A : Type) (m : Broker P A), steps (browses agent_request) m ->
    steps (browses agent_request) (ignore m)) by (intros A m Hm; unfold ignore; by follow_call).
  pose proof resolve_looks as Hl1. pose proof document_looks as Hl2. pose proof url_looks as Hl3.
  pose proof subtree_looks as Hl4. pose proof probe_looks as Hl5. pose proof public_looks as Hl6.
  pose proof box_looks as Hl7. pose proof history_agent as Ha1. pose proof input_agent as Ha2.
  pose proof key_agent as Ha3. pose proof mouse_agent as Ha4.
  destruct c; cbn [run_browser_call]; apply Hi; clear Hi.
  - unfold handle_browser_tabs. follow_call. agent.
  - apply steps_checked_url. intros u Hu. follow_call.
    apply sends_only_bind; [|intros ?; agent]. eapply address_agent; [set_solver|exact Hu].
  - unfold handle_browser_close_tab. follow_call. agent.
  - apply steps_checked_url. intros u Hu. follow_call.
    apply sends_only_bind; [|intros ?; agent]. eapply address_agent; [set_solver|exact Hu].
  - unfold handle_browser_reload. follow_call. agent.
  - unfold handle_browser_back, navigate_history. follow_call. agent.
  - unfold handle_browser_forward, navigate_history. follow_call. agent.
  - unfold handle_page_read_text. follow_call. cbv zeta. agent.
  - unfold handle_page_snapshot_safe. follow_call. agent.
  - unfold handle_page_wait_for. follow_call. apply steps_wait.
  - unfold handle_page_click. follow_call. agent.
  - unfold handle_page_type_public. follow_call. agent.
  - unfold handle_page_select. follow_call. agent.
Qed.

(** C24: what an agent can make the browser do. Whatever browsing calls it makes,
    and however they end, nothing of the broker changes but the pipes of the
    managed browsers: processes, sensitive windows, database, capabilities and
    sessions stay what they are. And what went through a pipe are commands of
    the allow list only, none of them about extensions, and with an address only
    when it is about:blank or a URL without credentials, over https or over
    http to a loopback host. *)
Theorem browsing_only_sends_screened_commands calls (w : World P) :
  let w' := fold_left (fun w c => snd (run_browser_call c w)) calls w in
  w_broker w' = set_managed_browsers (w_broker w) (managed_browsers (w_broker w')) /\
  forall i, option_Forall2 (pipe_evolves agent_request)
    (managed_browsers (w_broker w) !! i) (managed_browsers (w_broker w') !! i).
Proof.
  enough (browses agent_request w (fold_left (fun w c => snd (run_browser_call c w)) calls w))
    as [Hf Hb _] by done.
  revert w. induction calls as [|c calls IH]; intros w; cbn [fold_left]; [reflexivity|].
  transitivity (snd (run_browser_call c w)); [apply steps_browser_call|apply IH].
Qed.

(** ** Waiting *)

Definition poll_nanos : Z := WAIT_POLL_INTERVAL_MS * nanos_per_milli.

(** Each poll but the last is followed by a sleep, so the polls that are left
    bring the clock to the deadline. *)
Lemma wait_loop_ends ps fuel : forall deadline (w : World P),
  deadline <= instant_now (w_tick w) + Z.of_nat fuel * poll_nanos ->
  fst (wait_loop (S fuel) ps deadline w) <> Done None /\
  forall more, (fuel <= more)%nat ->
    wait_loop (S more) ps deadline w = wait_loop (S fuel) ps deadline w.
Proof.
  induction fuel as [|fuel IH]; intros deadline w Hd;
    remember WAIT_POLL_INTERVAL_MS as interval eqn:Hint; cbn [wait_loop]; subst interval;
    unfold mbind, broker_bind.
  all: pose proof (bw_tick _ _ _ (steps_guard (pw_session_id ps) w)) as Ht1;
    destruct (guard_observation (pw_session_id ps) w) as [[u|e|] w1]; [|by split..]; cbn [snd] in Ht1.
  all: pose proof (bw_tick _ _ _ (steps_condition ps w1)) as Ht2;
    destruct (evaluate_wait_condition ps w1) as [[sat|e|] w2]; [|by split..]; cbn [snd] in Ht2.
  all: destruct sat; [by split|].
  all: assert (Hnow : instant_now (w_tick w) <= instant_now (w_tick w2))
    by (apply instant_monotone; lia).
  all: cbn [draw]; destruct (Z.leb_spec deadline (instant_now (w_tick w2))) as [Hl|Hl]; [by split|].
  - exfalso. unfold poll_nanos in Hd. lia.
  - cbn [sleep]. set (w3 := {| w_broker := _; w_tick := sleep_until _ _ |}).
    destruct (IH deadline w3) as [Hdone Hmore].
    + unfold w3. cbn [w_tick].
      pose proof (sleep_lasts (S (w_tick w2)) (WAIT_POLL_INTERVAL_MS * nanos_per_milli)) as Hs.
      assert (Hm : instant_now (w_tick w2) <= instant_now (S (w_tick w2)))
        by (apply instant_monotone; lia).
      assert (Hpos : 0 <= WAIT_POLL_INTERVAL_MS * nanos_per_milli) by (vm_compute; discriminate).
      specialize (Hs Hpos). fold poll_nanos in Hs |- *.
      rewrite Nat2Z.inj_succ, Z.mul_succ_l in Hd. lia.
    + split; [exact Hdone|]. intros [|more] Hm; [lia|]. apply Hmore. lia.
Qed.

(** A wait ends. However long an agent asks to wait, when Chrome answers the
    commands of every poll, the broker polls at most 152 times: before that the condition holds,
    a poll fails, or the clock has passed the deadline and the wait times out.
    Polling on could not change the answer. *)
Theorem wait_ends ps (w : World P) :
  (wait_polls ps <= 152)%nat /\
  fst (handle_page_wait_for ps w) <> Done None /\
  forall fuel, (wait_polls ps <= fuel)%nat ->
    wait_loop fuel ps (instant_now (w_tick w) + wait_timeout_ms ps * nanos_per_milli)
      {| w_broker := w_broker w; w_tick := S (w_tick w) |} = handle_page_wait_for ps w.
Proof.
  assert (Ht : 1 <= wait_timeout_ms ps <= 30000).
  { unfold wait_timeout_ms, clamp, MAX_WAIT_TIMEOUT_MS. lia. }
  assert (Hq : 0 <= wait_timeout_ms ps / WAIT_POLL_INTERVAL_MS <= 150).
  { unfold WAIT_POLL_INTERVAL_MS. split; [apply Z.div_pos; lia|].
    apply (Z.le_trans _ (30000 / 200)); [apply Z.div_le_mono; lia|]. vm_compute. discriminate. }
  split; [unfold wait_polls; lia|].
  unfold handle_page_wait_for, mbind, broker_bind. cbn [draw].
  set (w1 := {| w_broker := w_broker w; w_tick := S (w_tick w) |}).
  unfold wait_polls. destruct (wait_loop_ends ps (S (Z.to_nat (wait_timeout_ms ps / WAIT_POLL_INTERVAL_MS)))
    (instant_now (w_tick w) + wait_timeout_ms ps * nanos_per_milli) w1) as [Hdone Hmore].
  - assert (Hm : instant_now (w_tick w) <= instant_now (w_tick w1)) by (apply instant_monotone; cbn; lia).
    pose proof (Z.div_mod (wait_timeout_ms ps) WAIT_POLL_INTERVAL_MS) as Hdm.
    pose proof (Z.mod_pos_bound (wait_timeout_ms ps) WAIT_POLL_INTERVAL_MS) as Hb.
    rewrite Nat2Z.inj_succ, Z2Nat.id by lia. unfold poll_nanos.
    change WAIT_POLL_INTERVAL_MS with 200 in *. change nanos_per_milli with 1000000. lia.
  - split; [exact Hdone|]. intros [|fuel] Hf; [lia|]. apply Hmore. lia.
Qed.

(** ** Typing *)

(** A handler's run on the pipe of its session. *)
Definition ran_on_pipe (Q : list Sent -> Prop) (w w' : World P) : Prop :=
  w' = w \/ exists i browser pipe tr pipe',
    managed_browsers (w_broker w) !! i = Some browser /\ mb_cdp_pipe browser = Some pipe /\
    requests (mb_filter browser) pipe tr pipe' /\ Q tr /\
    w' = {| w_broker := set_managed_browsers (w_broker w)
              (<[i := set_pipe browser pipe']> (managed_browsers (w_broker w)));
            w_tick := w_tick w |}.

Lemma transport_runs {A : Type} session (m : Cdp A) Q w :
  sends m (fun tr _ => Q tr) -> ran_on_pipe Q w (snd (with_transport session m w)).
Proof.
  intros Hm. unfold with_transport, mbind, broker_bind.
  pose proof (transport_world session w) as Hw.
  destruct (browser_transport session w) as [[[[i browser] pipe]|e|] w1] eqn:Ht; cbn in Hw;
    [|by left..].
  apply transport_Done in Ht as (-> & Hbr & Hpipe & _). cbn.
  destruct (Hm (mb_filter browser) pipe) as (tr & Htr & HQ).
  destruct (m (mb_filter browser) pipe) as [r pipe']. right.
  exists i, browser, pipe, tr, pipe'. split_and!; try done. by destruct r.
Qed.

Lemma ran_on_pipe_impl (Q Q' : list Sent -> Prop) w w' :
  ran_on_pipe Q w w' -> (forall tr, Q tr -> Q' tr) -> ran_on_pipe Q' w w'.
Proof.
  intros [->|(i & br & p & tr & p' & ? & ? & ? & ? & ->)] HQ; [by left|right].
  exists i, br, p, tr, p'. split_and!; auto.
Qed.

(** The commands are sent in this order, each when the one before it has succeeded;
    after one that fails nothing is sent. *)
Fixpoint in_turn (session : option string) (commands : list (string * Json)) (tr : list Sent) :
    Prop :=
  match commands, tr with
  | [], [] => True
  | (method, params) :: commands, s :: tr =>
      sent_method s = method /\ sent_session s = session /\ sent_params s = params /\
      match sent_answer s with Ok _ => in_turn session commands tr | Err _ => tr = [] end
  | _, _ => False
  end.

(** Typing into an element and then pressing keys. *)
Definition typing (node_id : Z) (text : string) (keys : list Json) : list (string * Json) :=
  ("DOM.focus", JObject [("nodeId", JNumber node_id)])
  :: ("Input.insertText", JObject [("text", JString text)])
  :: map (fun key => ("Input.dispatchKeyEvent", key)) keys.
Definition enter (kind : string) : Json :=
  JObject [("type", JString kind); ("key", JString "Enter"); ("code", JString "Enter")].

(** Only looking; or looking, and then typing into an element that was described
    last and is not protected. *)
Definition typed_into (text : string) (keys : list Json) (tr : list Sent) : Prop :=
  Forall looks tr \/
  exists pre session node_id described acts,
    tr = pre ++ {| sent_method := "DOM.describeNode"; sent_session := session;
                   sent_params := JObject [("nodeId", JNumber node_id)];
                   sent_answer := Ok described |} :: acts /\
    Forall looks pre /\ node_is_protected described = false /\
    in_turn session (typing node_id text keys) acts.

(** Resolving a locator to a public field only looks, and ends with the
    description that shows the field is public. *)
Lemma public_field_sends session locator :
  sends (public_field session locator) (fun tr r => Forall looks tr /\
    match r with
    | Ok n => exists pre described, tr = pre ++ [{| sent_method := "DOM.describeNode";
        sent_session := Some session; sent_params := JObject [("nodeId", JNumber n)];
        sent_answer := Ok described |}] /\ node_is_protected described = false
    | Err _ => True
    end).
Proof.
  unfold public_field. eapply sends_bind; [apply resolve_looks|done|]. cbn. intros n tr Htr.
  eapply sends_bind with (R := fun tr' r => Forall looks tr' /\ match r with
    | Ok v => tr' = [{| sent_method := "DOM.describeNode"; sent_session := Some session;
                        sent_params := JObject [("nodeId", JNumber n)]; sent_answer := Ok v |}]
    | Err _ => True end).
  - apply sends_command. intros [v|e]; cbn; split; try done;
      (constructor; [by apply (bool_decide_unpack _)|constructor]).
  - intros tr' e [? _]. split; [by apply Forall_app|done].
  - intros v tr' [Ht' ->]. destruct (node_is_protected v) eqn:Hp.
    + apply sends_pure. rewrite app_nil_r. split; [by apply Forall_app|done].
    + apply sends_ret. rewrite app_nil_r. split; [by apply Forall_app|]. eauto.
Qed.

Lemma sends_in_turn {A : Type} method session params commands (f : Json -> Cdp A) :
  (forall v, sends (f v) (fun tr _ => in_turn session commands tr)) ->
  sends (cdp_command method session params ≫= f)
    (fun tr _ => in_turn session ((method, params) :: commands) tr).
Proof.
  intros Hf. eapply sends_bind with (R := fun tr r => exists answer,
    tr = [Build_Sent method session params answer] /\ r = map_err (fun _ => cdp_failure) answer).
  - apply sends_command. by eexists.
  - intros tr e ([v|e'] & -> & He); [done|]. by split_and!.
  - intros v tr ([v'|e'] & -> & He); [|done].
    eapply sends_impl; [apply Hf|]. intros tr' r' Ht. by split_and!.
Qed.

Lemma sends_bind_assoc {A B C : Type} (m : Cdp A) (f : A -> Cdp B) (g : B -> Cdp C) Q :
  sends (m ≫= (fun a => f a ≫= g)) Q -> sends ((m ≫= f) ≫= g) Q.
Proof.
  intros Hm filter p. specialize (Hm filter p). unfold mbind, cdp_bind in *.
  by destruct (m filter p) as [[a|e] p'].
Qed.

Lemma typing_sends {A : Type} session locator text keys (rest : Cdp A) :
  sends rest (fun tr _ =>
    in_turn (Some session) (map (fun key => ("Input.dispatchKeyEvent", key)) keys) tr) ->
  sends (node_id ← public_field session locator;
         focus_and_insert session node_id text;;
         rest) (fun tr _ => typed_into text keys tr).
Proof.
  intros Hc. eapply sends_bind; [apply public_field_sends|intros tr e [? _]; by left|].
  intros n tr [Htr (pre & v & -> & Hp)]. apply Forall_app in Htr as [Hpre _].
  apply (sends_impl _ (fun tr' _ => in_turn (Some session) (typing n text keys) tr')).
  - unfold focus_and_insert, typing. apply sends_bind_assoc, sends_in_turn. intros _.
    by apply sends_bind_assoc, sends_in_turn.
  - intros tr' _ Ha. right. exists pre, (Some session), n, v, tr'. by rewrite <-app_assoc.
Qed.

Lemma typing_on_tab {A : Type} session tab text keys (m : string -> Cdp A) w :
  (forall s, sends (m s) (fun tr _ => typed_into text keys tr)) ->
  ran_on_pipe (fun tr => typed_into text keys tr) w (snd (on_tab session tab m w)).
Proof.
  intros Hm. apply transport_runs.
  eapply sends_bind; [apply attach_looks|intros tr e Ht; by left|]. cbn. intros s tr Htr.
  eapply sends_impl; [apply Hm|]. cbn. intros tr' _ [Ht'|(pre & se & n & v & acts & -> & Hpre & Hrest)].
  - left. by apply Forall_app.
  - right. exists (tr ++ pre), se, n, v, acts. rewrite <-app_assoc. split; [done|].
    split; [by apply Forall_app|done].
Qed.

(** C23: an agent cannot type into a credential field. Whatever happens in a call
    that types or selects, its requests only look at the page until an element
    was described, in this very call, that is not protected. Then that element is
    focused; when Chrome has confirmed that, and only then, the agent's text is
    inserted, within its limit and without NUL; and when that is confirmed, a
    selection presses and releases Enter. When the element is protected, nothing
    is sent after its description, and nothing after a command that fails. *)
Theorem typing_only_into_public_fields tp sp (w : World P) :
  ran_on_pipe (fun tr => typed_into (pt_text tp) [] tr /\ slen (pt_text tp) <= 16384 /\
      contains (pt_text tp) (String "000" EmptyString) = false)
    w (snd (handle_page_type_public tp w)) /\
  ran_on_pipe (fun tr => typed_into (ps_label sp) [enter "keyDown"; enter "keyUp"] tr /\
      0 < slen (ps_label sp) <= 1024 /\
      contains (ps_label sp) (String "000" EmptyString) = false)
    w (snd (handle_page_select sp w)).
Proof.
  split.
  - unfold handle_page_type_public, public_text_ok.
    destruct (Z.leb_spec (slen (pt_text tp)) (16 * 1024)); [|by left].
    destruct (contains (pt_text tp) _); [by left|]. cbn [andb negb].
    eapply ran_on_pipe_impl; [apply (typing_on_tab _ _ (pt_text tp) []); intros s; apply typing_sends|].
    + by apply sends_ret.
    + intros tr Ht. split; [exact Ht|]. split; [lia|done].
  - unfold handle_page_select, public_text_ok.
    case_bool_decide as Hne; [by left|]. cbn [orb].
    destruct (Z.leb_spec (slen (ps_label sp)) 1024); [|by left].
    destruct (contains (ps_label sp) _); [by left|]. cbn [andb negb].
    eapply ran_on_pipe_impl; [apply (typing_on_tab _ _ (ps_label sp) [enter "keyDown"; enter "keyUp"]);
      intros s; apply typing_sends|].
    + unfold enter_key, enter. cbn [map]. apply sends_in_turn. intros _. apply sends_in_turn. intros _.
      by apply sends_ret.
    + intros tr Ht. split; [exact Ht|]. destruct (ps_label sp); [done|]. unfold slen in *. cbn in *.
      split; [lia|done].
Qed.
End Handlers.

(** ** Reading an element *)

Section Elements.
Context `{Hashes, UnicodeCase}.

Definition marker : Text := chars "[REDACTED]".
(** So many placeholders, each with a space after it. *)
Definition markers (n : nat) : Text := concat (repeat (marker ++ [32]) n).

(** The text so far is placeholders with single spaces between them, cut off
    at the end when it is truncated. *)
Definition only_markers (w : Walker) : Prop :=
  if wk_text_truncated w then exists n, wk_text w `prefix_of` markers n
  else wk_text w = [] \/ exists n, wk_text w ++ [32] = markers (S n).

Lemma markers_snoc n : markers (S n) = markers n ++ marker ++ [32].
Proof.
  unfold markers. generalize (marker ++ [32]) as x. intros x.
  induction n as [|n IH]; [cbn; by rewrite app_nil_r|].
  change (x ++ concat (repeat x (S n)) = (x ++ concat (repeat x n)) ++ x).
  by rewrite <-app_assoc, <-IH.
Qed.

Lemma push_marker limits raw w :
  chars raw = marker -> only_markers w -> only_markers (push_text limits (chars raw) w).
Proof.
  intros -> Hw. unfold push_text. unfold only_markers in Hw.
  destruct (wk_text_truncated w) eqn:Ht; [unfold only_markers; by rewrite Ht|].
  change (collapse_whitespace marker) with marker. rewrite bool_decide_false by done.
  assert (Hsp : exists n, wk_text w ++ (if negb (bool_decide (wk_text w = []))
      && negb (ends_with_space (wk_text w)) then [32] else []) = markers n).
  { destruct Hw as [->|[n Hn]]; [by exists O|]. exists (S n). rewrite <-Hn.
    destruct (bool_decide (wk_text w = [])) eqn:Hb.
    { apply bool_decide_eq_true in Hb. rewrite Hb, markers_snoc in Hn.
      apply (f_equal length) in Hn. rewrite !length_app in Hn. cbn in Hn. lia. }
    cbn [negb andb]. assert (He : ends_with_space (wk_text w) = false).
    { rewrite markers_snoc, app_assoc in Hn. apply app_inj_tail in Hn as [-> _].
      unfold ends_with_space. rewrite rev_app_distr. reflexivity. }
    by rewrite He. }
  destruct Hsp as [n Hn]. rewrite Hn. unfold only_markers. cbn [wk_text_truncated wk_text].
  set (room := (Z.to_nat (max_chars limits) - length (markers n))%nat).
  destruct (room <? length marker)%nat eqn:Hr.
  - exists (S n). rewrite markers_snoc. apply prefix_app. exists (drop room marker ++ [32]).
    by rewrite app_assoc, take_drop.
  - right. exists n. apply Nat.ltb_ge in Hr. rewrite take_ge by done. by rewrite markers_snoc, <-app_assoc.
Qed.

#[local] Arguments contains_prohibited_key_name : simpl never.
#[local] Arguments to_ascii_lowercase : simpl never.

Lemma redacted_get key v x : keys_redacted v = true -> json_get key v = Some x ->
  if contains_prohibited_key_name (to_ascii_lowercase key) then x = JString "[REDACTED]"
  else keys_redacted x = true.
Proof.
  destruct v as [| | | | | |fields]; try done. cbn. intros Hk Hg.
  apply fmap_Some in Hg as ([k y] & Hf & ->). cbn. apply find_some in Hf as [Hin Hkey].
  apply bool_decide_eq_true in Hkey as ->. rewrite forallb_forall in Hk. specialize (Hk _ Hin).
  cbn in Hk. destruct (contains_prohibited_key_name _); [|done].
  destruct y; try done. by apply bool_decide_eq_true in Hk as ->.
Qed.

Lemma visit_markers limits node : forall inherited w, keys_redacted node = true ->
  only_markers w -> only_markers (visit limits node inherited w).
Proof.
  induction node as [v Hv|fields IH] using dom_ind; intros inherited w Hk Hw.
  { rewrite visit_eq. assert (node_type v = 0) as -> by (destruct v; try done; by destruct (Hv fields)).
    done. }
  rewrite visit_eq. destruct (_ =? 3).
  { destruct inherited; [done|]. destruct (node_value (JObject fields)) as [t|] eqn:Ht; [|done].
    unfold node_value in Ht. apply fmap_Some in Ht as (raw & Hraw & ->).
    apply bind_Some in Hraw as (x & Hx & Hraw).
    pose proof (redacted_get "nodeValue" _ _ Hk Hx) as Hm.
    change (contains_prohibited_key_name (to_ascii_lowercase "nodeValue")) with true in Hm. cbv iota in Hm.
    subst x. injection Hraw as <-. by apply push_marker. }
  destruct (negb _); [done|]. case_bool_decide; [done|]. cbv zeta.
  set (w1 := if _ =? 1 then _ else _).
  assert (Hw1 : only_markers w1).
  { unfold w1. destruct (_ =? 1); [|done]. unfold record_element, only_markers in *.
    destruct (negb _); [done|]. by destruct (_ <=? _). }
  generalize dependent w1. intros w1 Hw1.
  destruct (json_get "children" _) as [[| | | | |items|]|] eqn:Hc; try done.
  pose proof (redacted_get "children" _ _ Hk Hc) as Hi.
  change (contains_prohibited_key_name (to_ascii_lowercase "children")) with false in Hi. cbv iota in Hi.
  specialize (IH items eq_refl). clear Hc. cbn in Hi. revert w1 Hw1.
  induction IH as [|c items Hq _ IHi]; intros w1 Hw1; [done|]. cbn [fold_left].
  cbn in Hi. apply andb_true_iff in Hi as [Hc Hi]. apply IHi; [done|]. by apply Hq.
Qed.

(** Reading an element shows no text of it. Whatever Chrome describes, the
    projection of the element it is read through has in place of the text
    nothing but placeholders: the answer to DOM.describeNode goes through the
    generic sanitizer, for which the key nodeValue has the prohibited word
    "value" in it. Reading the whole document goes another way and does show
    its text. *)
Theorem element_text_is_never_shown raw result node limits :
  json_get "result" (sanitize_cdp_response "DOM.describeNode" raw) = Some result ->
  json_get "node" result = Some node ->
  exists n, pp_text (from_node node limits) `prefix_of` markers n.
Proof.
  intros Hres Hnode. pose proof (sanitized_keys_redacted raw) as Hk.
  apply (redacted_get "result") in Hres; [|exact Hk].
  change (contains_prohibited_key_name (to_ascii_lowercase "result")) with false in Hres. cbv iota in Hres.
  apply (redacted_get "node") in Hnode; [|exact Hres].
  change (contains_prohibited_key_name (to_ascii_lowercase "node")) with false in Hnode. cbv iota in Hnode.
  pose proof (visit_markers limits node false new_walker Hnode (or_introl eq_refl)) as Hw.
  unfold from_node. cbn [pp_text]. set (w := visit _ _ _ _) in *.
  destruct (trimmed_prefix (wk_text w)) as [q Hq]. unfold only_markers in Hw.
  assert (Hp : exists n, wk_text w `prefix_of` markers n).
  { destruct (wk_text_truncated w); [done|]. destruct Hw as [->|[n Hn]].
    - exists O. apply prefix_nil. - exists (S n). by exists [32]. }
  destruct Hp as [n Hp]. exists n. etransitivity; [|exact Hp]. by exists q.
Qed.
End Elements.

(** ** Observation while a secret is on the page *)

Section Observation.
Context `{ManagedChrome, Chrono, Hashes, Signatures, Base64, Cbor, WireCodec, UP : UrlParser,
  JsonCodec, HashIter, Environment, HttpClient, SqliteText, UnicodeCase, JsonFloats, Monotonic}
  {P : Type} `{SecretProvider P}.

(** A call that reports what is on the pages of a session. *)
Definition observes (session : BrowserSessionId) (c : BrowserCall) : Prop :=
  match c with
  | PageReadText ps => pd_session_id ps = session
  | PageSnapshot ps => sp_session_id ps = session
  | PageWaitFor ps => pw_session_id ps = session
  | _ => False
  end.

Lemma guard_blocks session i m (w : World P) :
  sensitive_filter_for_session session (w_broker w) = Some i ->
  managed_browsers (w_broker w) !! i = Some m -> mb_filter m <> ∅ ->
  guard_observation session w = (Fail (rpc_error RpcErrorCode.OBSERVATION_BLOCKED
    "Observation is blocked while an authentication action is in progress"), w).
Proof.
  intros Hs Hm Hf. unfold guard_observation, mbind, broker_bind, gets. cbn. rewrite Hs. cbn.
  rewrite Hm. cbn. unfold has_sensitive_window, any_sensitive_window. by rewrite bool_decide_false.
Qed.

(** C22: nobody watches a secret being entered. When the executor has been given
    a secret, and for as long as a tab of that browser is in its sensitive
    window, every call that reads a page of that session, takes a snapshot of it
    or waits for a condition on it is refused, and sends nothing to Chrome. *)
Theorem no_observation_after_release ps (w : World P) r w' :
  handle_executor_consume ps w = (Done r, w') ->
  exists c b1, consumed ps (w_broker w) c b1 /\
    let session := cl_browser_session_id (cs_claims c) in
    forall i, sensitive_filter_for_session session (w_broker w) = Some i ->
      in_window i (cl_tab_id (cs_claims c)) (w_broker w') /\
      forall call, observes session call ->
        fst (run_browser_call call w') = Fail (rpc_error RpcErrorCode.OBSERVATION_BLOCKED
          "Observation is blocked while an authentication action is in progress") /\
        w_broker (snd (run_browser_call call w')) = w_broker w'.
Proof.
  intros (c & w1 & Hc & Hr)%executor_consume_Done. exists c, (w_broker w1). split; [done|]. cbv zeta.
  pose proof (cd_quiet _ _ _ _ Hc) as (_ & _ & Hss & Hmb).
  apply release_secret_Done in Hr as (_ & _ & _ & _ & _ & _ & _ & _ & Hss' & Hwin).
  intros i Hi. assert (Hf : sensitive_filter_for_session (cl_browser_session_id (cs_claims c)) (w_broker w1) = Some i).
  { revert Hi. unfold sensitive_filter_for_session. by rewrite Hss, Hmb. }
  specialize (Hwin i Hf). split; [done|]. destruct Hwin as (m & Hm & Ht).
  assert (Hf' : forall t, sensitive_filter_for_session (cl_browser_session_id (cs_claims c))
    (w_broker {| w_broker := w_broker w'; w_tick := t |}) = Some i).
  { intros t. revert Hf. unfold sensitive_filter_for_session. cbn [w_broker]. rewrite Hss'.
    destruct (sessions (w_broker w1) !! _) as [a|]; [|done]. cbn.
    destruct (managed_browsers (w_broker w1) !! _); [|done]. cbn. intros [= <-]. by rewrite Hm. }
  assert (Hg : forall t, guard_observation (cl_browser_session_id (cs_claims c))
    {| w_broker := w_broker w'; w_tick := t |} = (Fail (rpc_error RpcErrorCode.OBSERVATION_BLOCKED
    "Observation is blocked while an authentication action is in progress"),
    {| w_broker := w_broker w'; w_tick := t |})).
  { intros t. by apply (guard_blocks _ i m); [apply Hf'| |set_solver]. }
  assert (Hgw : guard_observation (cl_browser_session_id (cs_claims c)) w' = (Fail (rpc_error
    RpcErrorCode.OBSERVATION_BLOCKED
    "Observation is blocked while an authentication action is in progress"), w'))
    by (destruct w' as [b t]; apply (Hg t)).
  intros call Ho. destruct call; cbn in Ho; try done; subst;
    unfold run_browser_call, ignore, handle_page_read_text, handle_page_snapshot_safe,
      handle_page_wait_for, wait_polls, mbind, broker_bind.
  - rewrite Ho, Hgw. done.
  - rewrite Ho, Hgw. done.
  - cbn [draw wait_loop]. unfold mbind, broker_bind. rewrite Ho, Hg. done.
Qed.
End Observation.
