(* ===== verification/BrokerMint.v ===== *)
(** * BrokerMint: what a capability stands on

    The path from an action request to a capability: what the request, the
    session, the page, the policy, the recipe and, where the policy asks for
    it, a standing grant or a decided approval must have been. *)

From S2P Require Import Prelude.
From S2P Require Import Externals.
From S2P Require Import Concrete.
From S2P Require Import Domain.
From S2P Require Import Policy.
From S2P Require Import Crypto.
From S2P Require Import AuditChain.
From S2P Require Import Capability.
From S2P Require Import Provider.
From S2P Require Import Table.
From S2P Require Import Store.
From S2P Require Import StoreProps.
From S2P Require Import OAuth.
From S2P Require Import Protocol.
From S2P Require Import BrokerState.
From S2P Require Import Broker.
From S2P Require Import BrokerSteps.
From S2P Require Import BrokerProps.

(** The capability is bound to what was authorized, and good for one use. *)
Record bound_to (a : AuthorizationContext) (c : Capability) : Prop := {
  bt_who : cap_request_id c = au_request_id a /\ cap_agent_id c = au_agent_id a /\
    cap_credential_id c = cred_credential_id (au_credential a) /\ cap_action c = au_action a;
  bt_executor : cap_browser_session_id c = au_browser_session_id a /\
    cap_extension_key_id c = au_extension_key_id a;
  bt_page : cap_top_origin c = pc_top_origin (au_page_context a) /\
    cap_frame_origin c = pc_frame_origin (au_page_context a) /\
    cap_tab_id c = pc_tab_id (au_page_context a) /\
    cap_frame_id c = pc_frame_id (au_page_context a) /\
    cap_document_id c = pc_document_id (au_page_context a) /\
    cap_navigation_epoch c = pc_navigation_epoch (au_page_context a);
  bt_recipe : cap_recipe_id c = rcp_recipe_id (au_recipe a) /\
    cap_recipe_hash c = rcp_content_hash (au_recipe a) /\
    cap_policy_hash c = pd_policy_hash (au_decision a);
  bt_once : cap_state c = CapabilityState.Issued /\ cap_used_count c = 0 /\ cap_max_uses c = 1
}.

Section Mint.
Context `{ManagedChrome, Chrono, Hashes, Signatures, Base64, Cbor, WireCodec, UP : UrlParser,
  JsonCodec, HashIterLaws, !Environment, HttpClient, SqliteText} {P : Type} `{SecretProvider P}.
Implicit Types (w : World P) (b : BrokerState P).
Variable platform : HostPlatform.

(** The capability of an authorization is in the table, in the broker's map
    under its token, and in the queue of the session; the response says so. *)
Definition minted (a : AuthorizationContext) (r : ActionResponseResult) (b' : BrokerState P) : Prop :=
  exists c entry, bound_to a c /\
    capabilities b' !! cap_capability_id c = Some entry /\ ce_capability entry = c /\
    parse_and_verify_token (ce_token entry) (public_key_bytes (broker_key b')) = Ok (ce_claims entry) /\
    cap_token_hash c = sha256_digest (as_bytes (ce_token entry)) /\
    ce_provider_locator entry = cred_provider_locator (au_credential a) /\
    (exists e s, run_op (OpInsertCapability c (key_id b') e) s = (Ok tt, store b')) /\
    (exists queue, pending_offers b' !! au_browser_session_id a = Some (queue ++ [cap_capability_id c])) /\
    ar_state r = ActionRequestState.CapabilityIssued /\ ar_request_id r = au_request_id a /\
    requests b' !! au_request_id a = Some r.

Lemma mint_bound key uuid a kid now c token :
  mint_capability key uuid (mint_args_of a kid now) = Some (c, token) ->
  bound_to a c /\ cap_token_hash c = sha256_digest (as_bytes token).
Proof.
  intros (cd & ed & sd & _ & _ & -> & ->)%mint_capability_Some.
  split; [|done]. by split; cbn.
Qed.

Lemma mint_Done a approval w r w' :
  mint_authorized_capability a approval w = (Done r, w') ->
  minted a r (w_broker w') /\ approvals (w_broker w') = approvals (w_broker w).
Proof.
  unfold mint_authorized_capability, put_response. intros Hr.
  apply bind_Done in Hr as (now & w1 & Hs & Hr). injection Hs as <- <-.
  run_step Hr. run_step Hs. run_step Hr. run_step Hs.
  apply bind_Done in Hr as (uuid & w1 & Hs & Hr). injection Hs as <- <-.
  apply bind_Done in Hr as ([c token] & w1 & Hs & Hr). run_step Hs.
  apply mint_bound in Ho as [Hb Hh].
  run_step Hr. run_step Hs.
  apply bind_Done in Hr as (u & w1 & Hs & Hr). apply audited_Done in Hs as (e & s & k & Hop & Hw1).
  repeat (apply bind_Done in Hr as (? & ? & Hs & Hr); unfold modify in Hs; injection Hs as <- <-).
  run_step Hr. unfold minted. cbn. rewrite Hw1. cbn. split; [|done]. exists c.
  eexists. rewrite lookup_insert_eq. split_and!; try done.
  - exists e, (store (w_broker w)). cbn in Hop. rewrite Hop. by destruct u.
  - eexists. rewrite (proj1 (bt_executor _ _ Hb)). apply lookup_insert_eq.
  - apply lookup_insert_eq.
Qed.

(** ** What an authorization stands on *)

Record authorized (agent : AgentId) (ps : ActionRequestParams) (now : Instant)
    (b : BrokerState P) (a : AuthorizationContext) : Prop := {
  az_asked : au_request_id a = rq_request_id ps /\ au_agent_id a = agent /\
    au_action a = rq_action ps /\ au_browser_session_id a = rq_browser_session_id ps;
  az_secure : origin_scheme (to_origin (rq_target ps)) = "http" ->
    origin_host (to_origin (rq_target ps)) ∈ ["localhost"; "127.0.0.1"; "::1"];
  az_credential : get_credential_by_name (store b) (rq_identity ps) = Ok (au_credential a) /\
    cred_disabled_at (au_credential a) = None /\
    rq_action ps ∈ cred_allowed_actions (au_credential a) /\
    cred_provider (au_credential a) = provider_name (provider b);
  az_session : exists active, sessions b !! rq_browser_session_id ps = Some active /\
    bs_state (abs_session active) = BrowserSessionState.Active /\
    now - bs_last_heartbeat_at (abs_session active) <= seconds 10 /\
    au_extension_key_id a = bs_extension_key_id (abs_session active) /\
    evaluate (policy_evaluator b) agent (rq_identity ps) (rq_action ps)
      (to_origin (rq_target ps)) (Some (pc_path (au_page_context a)))
      (bs_assurance (abs_session active)) = Ok (au_decision a) /\
    au_base_risk a = calculate_risk_level (rq_action ps) false (bs_assurance (abs_session active));
  az_allowed : pd_effect (au_decision a) = Allow;
  az_page : exists pages tab, page_contexts b !! rq_browser_session_id ps = Some pages /\
    pages !! tab = Some (au_page_context a) /\
    now - pc_observed_at (au_page_context a) <= seconds 2 /\
    pc_top_origin (au_page_context a) = to_origin (rq_target ps) /\
    (forall prefix, to_path_prefix (rq_target ps) = Some prefix ->
       starts_with (pc_path (au_page_context a)) prefix = true);
  az_recipe : (exists i, recipes b !! i = Some (au_recipe a)) /\
    recipe_matches (au_recipe a) (rq_action ps) (au_page_context a) = true /\
    (rq_action ps = OAuthAuthorize ->
       exists config, rcp_oauth (au_recipe a) = Some config /\ validate config = Ok tt)
}.

Lemma permitted_credential_Done ps w c w' :
  permitted_credential ps w = (Done c, w') ->
  w' = w /\
  (origin_scheme (to_origin (rq_target ps)) = "http" ->
     origin_host (to_origin (rq_target ps)) ∈ ["localhost"; "127.0.0.1"; "::1"]) /\
  get_credential_by_name (store (w_broker w)) (rq_identity ps) = Ok c /\
  cred_disabled_at c = None /\ rq_action ps ∈ cred_allowed_actions c /\
  cred_provider c = provider_name (provider (w_broker w)).
Proof.
  unfold permitted_credential. intros Hr. destruct (_ && _) eqn:Hhttp; [discriminate|].
  run_step Hr. run_step Hs. run_step Hr. run_step Hs. run_step Hr. run_step Hs.
  destruct (_ || _) eqn:Hok; [discriminate|]. run_step Hr. bool_to_prop.
  split_and!; try done; try by apply dec_stable.
  intros Hh. apply andb_false_iff in Hhttp as [Hf|Hf]; by bool_to_prop.
Qed.

Lemma live_session_Done now i w assurance key w' :
  live_session now i w = (Done (assurance, key), w') ->
  w' = w /\ exists active, sessions (w_broker w) !! i = Some active /\
    bs_state (abs_session active) = BrowserSessionState.Active /\
    now - bs_last_heartbeat_at (abs_session active) <= seconds 10 /\
    assurance = bs_assurance (abs_session active) /\ key = bs_extension_key_id (abs_session active).
Proof.
  unfold live_session. intros Hr. run_step Hr. run_step Hs. run_step Hr. run_step Hs.
  case_bool_decide as Hst; [discriminate|]. destruct (_ <? _) eqn:Hl; [discriminate|].
  run_step Hr. bool_to_prop. split; [done|]. eexists. split_and!; try done.
Qed.

Lemma latest_context_in l : forall best c,
  fold_left latest_context l best = Some c -> best = Some c \/ c ∈ l.
Proof.
  induction l as [|x l IH]; cbn; intros best c Hc; [by left|].
  apply IH in Hc as [Hc|Hc]; [|set_solver].
  unfold latest_context in Hc. destruct best as [b|].
  - destruct (_ <=? _); [injection Hc as <-; set_solver|by left].
  - injection Hc as <-. set_solver.
Qed.

Lemma measured_page_Done now ps w c w' :
  measured_page now ps w = (Done c, w') ->
  w' = w /\ exists pages tab, page_contexts (w_broker w) !! rq_browser_session_id ps = Some pages /\
    pages !! tab = Some c /\ now - pc_observed_at c <= seconds 2 /\
    pc_top_origin c = to_origin (rq_target ps) /\
    (forall prefix, to_path_prefix (rq_target ps) = Some prefix ->
       starts_with (pc_path c) prefix = true).
Proof.
  unfold measured_page. intros Hr. run_step Hr. run_step Hs. run_step Hr. run_step Hs.
  rename a into pages, Ho into Hpages. run_step Hr. run_step Hs. rename a into page, Ho into Hc.
  destruct (_ <? _) eqn:Hl; [discriminate|].
  destruct (origin_matches _ _) eqn:Hm; [|discriminate].
  destruct (is_none_or _ _) eqn:Hp; [|discriminate]. cbn in Hr. run_step Hr.
  apply origin_matches_eq in Hm. bool_to_prop. split; [done|].
  assert (exists tab, pages !! tab = Some page) as [tab Htab].
  { destruct (rq_tab_hint ps ≫= _) as [h|] eqn:Hh.
    - injection Hc as ->. apply bind_Some in Hh as (tab & _ & Htab). eauto.
    - apply latest_context_in in Hc as [|Hc]; [discriminate|].
      apply list_elem_of_In, filter_In in Hc as [Hc _].
      apply list_elem_of_In, list_elem_of_fmap in Hc as ([tab x] & -> & Hc).
      apply hash_iter_elem in Hc. eauto. }
  exists pages, tab. split_and!; try done.
  intros prefix Hpre. by rewrite Hpre in Hp.
Qed.

Lemma policy_decision_Done agent ps c page assurance w d w' :
  policy_decision platform agent ps c page assurance w = (Done d, w') ->
  w' = w /\ evaluate (policy_evaluator (w_broker w)) agent (rq_identity ps) (rq_action ps)
    (to_origin (rq_target ps)) (Some (pc_path page)) assurance = Ok d /\ pd_effect d = Allow.
Proof.
  unfold policy_decision. intros Hr. run_step Hr. run_step Hs.
  apply bind_Done in Hr as (d' & w1 & Hs & Hr).
  destruct (evaluate _ _ _ _ _ _ _) as [d''|e] eqn:He.
  - run_step Hs. case_bool_decide as Hd; [discriminate|].
    destruct (negb _).
    + apply bind_Done in Hr as (u & w1 & _ & Hr). discriminate.
    + run_step Hr. split_and!; [done..|]. by destruct (pd_effect d'').
  - apply bind_Done in Hs as (u & w2 & _ & Hs). discriminate.
Qed.

Lemma matched_recipe_Done act page w r w' :
  matched_recipe act page w = (Done r, w') ->
  w' = w /\ (exists i, recipes (w_broker w) !! i = Some r) /\ recipe_matches r act page = true /\
  (act = OAuthAuthorize -> exists config, rcp_oauth r = Some config /\ validate config = Ok tt).
Proof.
  unfold matched_recipe. intros Hr. run_step Hr. run_step Hs. run_step Hr. run_step Hs.
  apply find_some in Ho as [Hin Hm].
  assert (exists i, recipes (w_broker w) !! i = Some a) as Hi.
  { apply list_elem_of_In, list_elem_of_fmap in Hin as ([i x] & -> & Hin).
    apply hash_iter_elem in Hin. eauto. }
  case_bool_decide as Ha.
  - apply bind_Done in Hr as (config & w1 & Hs & Hr). run_step Hs.
    apply bind_Done in Hr as ([] & w1 & Hs & Hr). run_step Hs. run_step Hr. split_and!; [done..|]. eauto.
  - run_step Hr. by split_and!.
Qed.

(** A standing grant that covers the request at its base risk. *)
Definition granted (a : AuthorizationContext) (now : Instant) (s : Store) : Prop :=
  exists g, find_matching_standing_grant s (au_agent_id a) (cred_name (au_credential a))
      (au_action a) (pc_top_origin (au_page_context a)) = Ok (Some g) /\
    covers g (au_agent_id a) (cred_name (au_credential a)) (au_action a)
      (pc_top_origin (au_page_context a)) (au_base_risk a) now = true.

(** The pending approval of an authorization. *)
Definition asked (a : AuthorizationContext) (now : Instant) (r : ActionResponseResult)
    (b' : BrokerState P) : Prop :=
  exists pending, approvals b' !! apr_approval_id (pn_approval pending) = Some pending /\
    pn_authorization pending = a /\ apr_decision (pn_approval pending) = "pending" /\
    apr_context_digest (pn_approval pending) = approval_context_digest a /\
    add_seconds now 60 = Some (apr_expires_at (pn_approval pending)) /\
    ar_state r = ActionRequestState.AwaitingApproval /\ requests b' !! au_request_id a = Some r.

Lemma matching_standing_grant_Done a now w g w' :
  matching_standing_grant a now w = (Done (Some g), w') -> granted a now (store (w_broker w)).
Proof.
  unfold matching_standing_grant. intros Hr. destruct (_ <? _); [discriminate|].
  run_step Hr. run_step Hs. run_step Hr. run_step Hs. cbn in Hr. injection Hr as Hg <-.
  destruct a0 as [g'|]; [|discriminate]. destruct (covers _ _ _ _ _ _ _) eqn:Hc; [|discriminate].
  injection Hg as ->. by exists g.
Qed.

Lemma request_approval_Done a now w r w' :
  request_approval a now w = (Done r, w') -> asked a now r (w_broker w').
Proof.
  unfold request_approval, put_response. intros Hr.
  apply bind_Done in Hr as (uuid & w1 & Hs & Hr). injection Hs as <- <-.
  run_step Hr. run_step Hs.
  apply bind_Done in Hr as (u & w1 & Hs & Hr). apply audited_Done in Hs as (e & s & k & _ & Hw1).
  repeat (apply bind_Done in Hr as (? & ? & Hs & Hr); unfold modify in Hs; injection Hs as <- <-).
  run_step Hr. unfold asked. cbn [w_broker set_requests set_approvals approvals].
  match goal with |- context [<[_ := ?v]> (approvals _)] => exists v end.
  cbn. rewrite !lookup_insert_eq. done.
Qed.

(** An authorized request ends in a capability, under a grant where presence is
    required, or in a pending approval. *)
Lemma grant_or_ask_Done a now w r w' :
  grant_or_ask a now w = (Done r, w') ->
  (minted a r (w_broker w') /\
     (pd_require_user_presence (au_decision a) = true -> granted a now (store (w_broker w)))) \/
  (asked a now r (w_broker w') /\ pd_require_user_presence (au_decision a) = true).
Proof.
  unfold grant_or_ask. intros Hr. destruct (pd_require_user_presence _); [|left].
  - apply bind_Done in Hr as ([g|] & w1 & Hs & Hr).
    + left. apply matching_standing_grant_Done in Hs. split; [|done].
      apply bind_Done in Hr as (t & w2 & _ & Hr). apply bind_Done in Hr as (u & w3 & _ & Hr).
      by eapply mint_Done in Hr as [Hm _].
    + right. split; [|done]. by eapply request_approval_Done.
  - split; [|done]. by eapply mint_Done in Hr as [Hm _].
Qed.

(** The log's event is the only change of an audited record. *)
Lemma record_audit_event_Done ty aty actor cx w u w' :
  record_audit_event ty aty actor cx w = (Done u, w') ->
  exists e s cursor, insert_audit_event e (store (w_broker w)) = (Ok u, s) /\
    w_broker w' = set_audit_cursor (set_store (w_broker w) s) cursor.
Proof. apply audited_Done. Qed.

Lemma granted_after_event a now e s u s' :
  insert_audit_event e s = (Ok u, s') -> granted a now s' -> granted a now s.
Proof.
  unfold insert_audit_event. intros Hi%commit_Ok%insert_audit_event_tx_Ok.
  destruct Hi as (_ & -> & _). done.
Qed.

Lemma new_action_request_Done agent ps w r w' :
  handle_new_action_request platform agent ps w = (Done r, w') ->
  exists now a, authorized agent ps now (w_broker w) a /\
    ((minted a r (w_broker w') /\
        (pd_require_user_presence (au_decision a) = true -> granted a now (store (w_broker w)))) \/
     (asked a now r (w_broker w') /\ pd_require_user_presence (au_decision a) = true)).
Proof.
  unfold handle_new_action_request. intros Hr.
  apply bind_Done in Hr as (now & w1 & Hs & Hr). injection Hs as <- <-.
  run_step Hr. apply permitted_credential_Done in Hs as (-> & Hsec & Hcred & Hen & Hact & Hprov).
  run_step Hr. apply record_audit_event_Done in Hs as (e & s & k & Hev & Hw1).
  apply bind_Done in Hr as ([assurance key] & w3 & Hs & Hr).
  apply live_session_Done in Hs as (-> & active & Hact1 & Hact2 & Hact3 & -> & ->).
  run_step Hr. apply measured_page_Done in Hs as (-> & pages & tab & Hpage).
  run_step Hr. apply policy_decision_Done in Hs as (-> & Hpol & Heff).
  run_step Hr. apply matched_recipe_Done in Hs as (-> & Hrec).
  run_step Hr. run_step Hs.
  match type of Hr with grant_or_ask ?x ?t _ = _ => set (au := x) in *; exists t, au end.
  apply grant_or_ask_Done in Hr. rewrite Hw1 in *. cbn in *. split.
  2: { destruct Hr as [[Hm Hg]|Ha]; [left|by right]. split; [exact Hm|].
       intros Hp. eapply granted_after_event; [exact Hev|]. by apply Hg. }
  subst au. split; cbn; try done; [by exists active|by exists pages, tab].
Qed.

(** C8: no capability without everything it stands on. When a new request is
    answered, there is an authorization for exactly that agent, request, action
    and session such that: the target is https or loopback; the credential is
    the named one, enabled, of this provider, and allows the action; the session
    is active with a heartbeat of the last ten seconds; the page is one the
    browser reported for that session in the last two seconds, on the target
    origin and path; the policy in force, asked about that page, allows it; and
    an enabled recipe matches the page. The answer then is a capability bound
    to all of that, usable once and stored with its event, which is only given
    without a user when presence is not required or a live standing grant
    covers the request; or else a pending approval over the digest of the same
    context, that lives for a minute. *)
Theorem capability_stands_on_authorization agent ps w r w' :
  handle_new_action_request platform agent ps w = (Done r, w') ->
  exists now a, authorized agent ps now (w_broker w) a /\
    ((minted a r (w_broker w') /\
        (pd_require_user_presence (au_decision a) = true -> granted a now (store (w_broker w)))) \/
     (asked a now r (w_broker w') /\ pd_require_user_presence (au_decision a) = true)).
Proof. apply new_action_request_Done. Qed.

(** ** Approvals *)

Lemma approval_outcome_approved pending approve digest presence now b :
  approval_outcome pending approve digest presence now b = OutcomeApproved ->
  now < apr_expires_at (pn_approval pending) /\ digest = apr_context_digest (pn_approval pending) /\
  context_is_current (pn_authorization pending) now b = true /\ approve = true /\
  (pd_require_user_presence (au_decision (pn_authorization pending)) = true -> presence = true).
Proof.
  unfold approval_outcome. destruct (_ <=? _) eqn:He; [discriminate|].
  destruct (_ || _) eqn:Hd; [discriminate|]. destruct (negb approve || _) eqn:Hp; [discriminate|].
  intros _. apply orb_false_iff in Hp as [Ha Hp], Hd as [Hd Hc]. apply andb_false_iff in Hp.
  bool_to_prop. split_and!; try done; [by apply dec_stable|].
  intros Hq. destruct Hp as [Hp|Hp]; [congruence|by bool_to_prop].
Qed.

(** C9: an approval turns into a capability only as it was asked for. When a
    decision on a pending approval yields a capability, the approval was pending
    in this broker and not yet expired, the digest shown to the user is the
    digest it was asked with, the page is still the same document at the same
    navigation and origins, seen in the last two seconds, the user approved, and
    was verified to be present where the policy requires it; the capability is
    bound to the authorization that was asked for. Whatever was decided, the
    approval is no longer pending, so it cannot be decided twice. *)
Theorem approval_mints_only_as_asked i approve digest actor presence w r w' :
  decide_approval i approve digest actor presence w = (Done r, w') ->
  approvals (w_broker w') !! i = None /\
  exists pending now, approvals (w_broker w) !! i = Some pending /\
    let a := pn_authorization pending in
    (ar_state r = ActionRequestState.CapabilityIssued ->
       now < apr_expires_at (pn_approval pending) /\
       digest = apr_context_digest (pn_approval pending) /\
       context_is_current a now (w_broker w) = true /\ approve = true /\
       (pd_require_user_presence (au_decision a) = true -> presence = true) /\
       minted a r (w_broker w')).
Proof.
  unfold decide_approval, decide_approval_at, put_response. intros Hr.
  apply bind_Done in Hr as (now & w1 & Hs & Hr). injection Hs as <- <-.
  run_step Hr. run_step Hs. run_step Hr. run_step Hs. cbn in Ho.
  rename a into pending. set (o := approval_outcome _ _ _ _ _ _) in Hr.
  apply bind_Done in Hr as (u & w1 & Hs & Hr). apply audited_Done in Hs as (e & s & k & _ & Hw1).
  apply bind_Done in Hr as (u' & w2 & Hs & Hr). unfold modify in Hs. injection Hs as _ <-.
  assert (Hgone : approvals (set_approvals (w_broker w1) (delete i (approvals (w_broker w1)))) !! i = None)
    by apply lookup_delete_eq.
  destruct o eqn:Ho'; subst o.
  { apply mint_Done in Hr as [Hm ->]. split; [exact Hgone|].
    exists pending, (env_now (w_tick w)). split; [done|]. intros _.
    apply approval_outcome_approved in Ho' as (? & ? & ? & ? & ?). done. }
  all: apply bind_Done in Hr as (u'' & w3 & Hs & Hr); unfold modify in Hs; injection Hs as _ <-;
    run_step Hr; split; [exact Hgone|]; exists pending, (env_now (w_tick w)); by split.
Qed.

(** ** Replays *)

(** Nothing a request does changes what identifiers stand for. *)
Definition same_identifiers (w w' : World P) : Prop :=
  request_fingerprints (w_broker w') = request_fingerprints (w_broker w) /\
  request_agents (w_broker w') = request_agents (w_broker w).
#[local] Instance same_identifiers_preorder : PreOrder same_identifiers.
Proof. unfold same_identifiers. split; [done|]. intros w1 w2 w3 [-> ->] [-> ->]. done. Qed.

Lemma new_request_identifiers `{!EnvironmentLaws} agent ps :
  steps same_identifiers (handle_new_action_request platform agent ps).
Proof.
  eapply steps_new_action; [apply _| |done|done|].
  - intros w b (_ & _ & _ & _ & _ & _ & Hf & Ha). by split.
  - intros. done.
Qed.

Definition within_limits (ps : ActionRequestParams) : bool :=
  negb ((500 <? chars_count (rq_reason ps)) || (rq_timeout_ms ps =? 0)
        || (60000 <? rq_timeout_ms ps)).

Lemma attempt_Done {A : Type} (m : Broker P A) w a w' :
  attempt m w = (Done (Ok a), w') -> m w = (Done a, w').
Proof. unfold attempt. by destruct (m w) as [[x|e|] w1]; intros [= -> ->]. Qed.

Lemma new_request_recorded agent ps w r w' :
  handle_new_action_request platform agent ps w = (Done r, w') ->
  requests (w_broker w') !! rq_request_id ps = Some r.
Proof.
  intros (now & a & Ha & Hcases)%new_action_request_Done.
  destruct (az_asked _ _ _ _ _ Ha) as (<- & _).
  destruct Hcases as [[(c & entry & Hm) _]|[(pending & Hm) _]]; apply Hm.
Qed.

(** C10: a request identifier is answered once. After an answer, the same request
    of the same agent gets the same answer again and changes nothing, in
    particular it mints no second capability and asks for no second approval;
    the same identifier with another content, or from another agent, is refused
    as a conflict and changes nothing either. *)
Theorem request_replay_answers_the_same `{!EnvironmentLaws} agent ps w r w' :
  handle_action_request platform agent ps w = (Done r, w') ->
  handle_action_request platform agent ps w' = (Done r, w') /\
  forall agent' ps', rq_request_id ps' = rq_request_id ps -> within_limits ps' = true ->
    agent' <> agent \/ request_fingerprint ps' <> request_fingerprint ps ->
    handle_action_request platform agent' ps' w'
    = (Fail (rpc_error RpcErrorCode.INVALID_PARAMS "request_id_conflict"), w').
Proof.
  intros Hr.
  assert (Hpost : within_limits ps = true /\
    request_fingerprints (w_broker w') !! rq_request_id ps = Some (request_fingerprint ps) /\
    request_agents (w_broker w') !! rq_request_id ps = Some agent /\
    requests (w_broker w') !! rq_request_id ps = Some r).
  { unfold handle_action_request in Hr. unfold within_limits.
    destruct (_ || _) eqn:Hlim in Hr; [discriminate|]. rewrite Hlim. split; [done|].
    run_step Hr. run_step Hs. unfold id in Hr.
    destruct (request_fingerprints (w_broker w) !! rq_request_id ps) as [fp|] eqn:Hfp.
    - destruct (_ || _) eqn:Hc in Hr; [discriminate|]. run_step Hr. bool_to_prop.
      split_and!; [|by apply dec_stable|done].
      rewrite Hfp. f_equal. by apply dec_stable.
    - repeat (apply bind_Done in Hr as (? & ? & Hs & Hr); unfold put_response, modify in Hs;
        injection Hs as <- <-).
      apply bind_Done in Hr as ([response|e] & w1 & Hs & Hr).
      2: { repeat (apply bind_Done in Hr as (? & ? & _ & Hr)). discriminate. }
      run_step Hr. apply attempt_Done in Hs.
      pose proof (new_request_recorded _ _ _ _ _ Hs) as Hrec.
      pose proof (new_request_identifiers agent ps) as Hid. apply (steps_run _ _ _ _ _ Hid) in Hs.
      destruct Hs as [-> ->]. cbn. by rewrite !lookup_insert_eq. }
  destruct Hpost as (Hlim & Hf & Ha & Hr'). clear Hr.
  assert (Hagain : forall agent' ps', rq_request_id ps' = rq_request_id ps ->
    within_limits ps' = true ->
    handle_action_request platform agent' ps' w' =
      if bool_decide (request_fingerprint ps <> request_fingerprint ps')
         || bool_decide (Some agent <> Some agent')
      then (Fail (rpc_error RpcErrorCode.INVALID_PARAMS "request_id_conflict"), w')
      else (Done r, w')).
  { intros agent' ps' Hi Hl. unfold handle_action_request. unfold within_limits in Hl.
    apply negb_true_iff in Hl. rewrite Hl.
    match goal with |- (gets id ≫= ?k) w' = _ =>
      change ((gets id ≫= k) w') with (k (w_broker w') w') end.
    cbv beta. rewrite Hi, Hf, Ha, Hr'. repeat case_bool_decide; done. }
  split.
  - rewrite Hagain by done. by rewrite !bool_decide_eq_false_2 by tauto.
  - intros agent' ps' Hi Hl Hne. rewrite Hagain by done.
    destruct Hne as [Hne|Hne].
    + rewrite (bool_decide_eq_true_2 (Some agent <> _)) by congruence. by rewrite orb_true_r.
    + by rewrite bool_decide_eq_true_2 by congruence.
Qed.
End Mint.
