(* ===== verification/UiGrants.v ===== *)
(** * UiGrants: what the desktop interface may change

    Theorems about the operations of [Ui] that write: creating a standing grant
    out of an approval, revoking grants, and disabling an agent. *)

From Stdlib Require Import Sorted.
From S2P Require Import Prelude.
From S2P Require Import Externals.
From S2P Require Import Domain.
From S2P Require Import DomView.
From S2P Require Import Policy.
From S2P Require Import Crypto.
From S2P Require Import Gateway.
From S2P Require Import AuditChain.
From S2P Require Import Capability.
From S2P Require Import Provider.
From S2P Require Import Table.
From S2P Require Import Store.
From S2P Require Import StoreProps.
From S2P Require Import OAuth.
From S2P Require Import Protocol.
From S2P Require Import Admin.
From S2P Require Import BrokerState.
From S2P Require Import Broker.
From S2P Require Import Ui.
From S2P Require Import BrokerSteps.
From S2P Require Import BrokerProps.

From S2P Require Import UiProps.
From S2P Require Import BrokerMint.

Section Grants.
Context `{ManagedChrome, ChronoLaws, Hashes, Signatures, Base64, Cbor, WireCodec, UP : UrlParser,
  JsonCodec, HashIter, !Environment, HttpClient, SqliteText} {P : Type} `{SecretProvider P}.
Implicit Type w : World P.

(** ** Deciding an approval leaves the grants alone *)

Definition same_grants w w' : Prop :=
  standing_grants (store (w_broker w')) = standing_grants (store (w_broker w)).
#[local] Instance same_grants_preorder : PreOrder same_grants.
Proof. unfold same_grants. split; [done|]. intros w1 w2 w3 -> ->. done. Qed.

Lemma audited_grants {A : Type} err serr ty aty actor cx
    (op : AuditEvent -> Store -> result StoreError A * Store) :
  (forall e s, standing_grants (snd (op e s)) = standing_grants s) ->
  steps same_grants (audited err serr ty aty actor cx op).
Proof.
  intros Hop. apply steps_bind; [apply _| |intros r; apply steps_lift, _].
  intros w. unfold same_grants. rewrite audited_try_eq. cbn zeta.
  destruct (create_audit_event _ _ _ _ _ _ _ _ _ _) as [e|e]; [|done].
  specialize (Hop e (store (w_broker w))). destruct (op e _) as [[a|er] s]; exact Hop.
Qed.

Ltac keeps_grants :=
  repeat first
  [ done
  | apply steps_ret, _ | apply steps_throw, _ | apply steps_fail_with, _ | apply steps_panic, _
  | apply steps_lift, _ | apply steps_require, _ | apply steps_unwrap, _ | apply steps_gets, _
  | match goal with
    | |- steps _ (_ ≫= _) => apply steps_bind; [apply _| |intros ?]
    | |- steps _ (modify _) => intros ?; reflexivity
    | |- steps _ (draw _) => intros ?; reflexivity
    | |- steps _ (match ?x with _ => _ end) => destruct x
    | |- steps _ (let x := _ in _) => intros x
    end ].

Lemma mint_keeps_grants a approval : steps same_grants (mint_authorized_capability a approval).
Proof.
  unfold mint_authorized_capability, put_response, offer_capability. keeps_grants.
  apply audited_grants. intros e st. other_table ltac:(reflexivity).
Qed.

Lemma decide_keeps_grants i approve digest actor presence :
  steps same_grants (decide_approval i approve digest actor presence).
Proof.
  pose proof mint_keeps_grants. unfold decide_approval, decide_approval_at, put_response. keeps_grants.
  apply audited_grants. intros e st. other_table ltac:(reflexivity).
Qed.

(** ** Creating a grant *)

(** C30: what a standing grant can be. When the interface's request for one
    succeeds, there was a pending approval with that identifier, which is gone;
    the lifetime is between one and ninety days from now; the risk is at most
    medium; presence was verified where the policy asks for it; one grant became
    live and no other; and it covers nothing but the agent, credential, origin
    and action of that approval, up to its risk and until it expires. The answer
    carries the kernel's decision on the approval, whatever that was. *)
Theorem created_grant_is_bounded params w r w' :
  ui_create_grant params w = (Done r, w') ->
  exists pending grant_id,
    let a := pn_authorization pending in
    let now := env_now (w_tick w) in
    let grant := grant_for a grant_id now (now + days (gc_ttl_days params)) in
    approvals (w_broker w) !! gc_approval_id params = Some pending /\
    0 < gc_ttl_days params <= 90 /\ risk_rank (au_base_risk a) <= risk_rank Medium /\
    (pd_require_user_presence (au_decision a) = true -> gc_presence_verified params = true) /\
    (exists w1 w2, w_broker w1 = w_broker w /\
       decide_approval (gc_approval_id params) true (gc_context_digest params) "local-admin"
         (gc_presence_verified params) w1 = (Done (gc_decision r), w2)) /\
    gc_grant r = ui_grant grant now /\
    grant_row grant ∈ standing_grants (store (w_broker w')) /\
    (forall row, row ∈ standing_grants (store (w_broker w')) -> live_grant row = true ->
       row ∈ standing_grants (store (w_broker w)) \/ row = grant_row grant) /\
    (forall agent name action origin risk t,
       covers grant agent name action origin risk t = true ->
       agent = au_agent_id a /\ name = cred_name (au_credential a) /\ action = au_action a /\
       origin = pc_top_origin (au_page_context a) /\
       risk_rank risk <= risk_rank (au_base_risk a) /\ t < now + days (gc_ttl_days params)).
Proof.
  unfold ui_create_grant. intros Hr.
  apply bind_Done in Hr as (now & w1 & Hs & Hr). cbn in Hs. injection Hs as <- <-.
  destruct (_ || _) eqn:Httl; [discriminate|]. run_step Hr. run_step Hs. run_step Hr. run_step Hs.
  rename a into pending. cbn in Ho.
  destruct (risk_rank MAX_GRANTABLE_RISK <? _) eqn:Hrisk; [discriminate|].
  destruct (pd_require_user_presence _ && _) eqn:Hpresence; [discriminate|].
  apply bind_Done in Hr as (d & w2 & Hd & Hr).
  pose proof (steps_run _ _ _ _ _ (decide_keeps_grants _ _ _ _ _) Hd) as Hkeep.
  apply bind_Done in Hr as (uuid & w3 & Hs & Hr). cbn in Hs. injection Hs as <- <-.
  run_step Hr. run_step Hs. apply add_seconds_value in Ho0 as ->.
  apply bind_Done in Hr as ([] & w4 & Hs & Hr). apply audited_Done in Hs as (e & s & c & Hop & Hw4).
  run_step Hr. apply insert_grant_Ok in Hop as [Hs _].
  exists pending, (id_new KGrant (env_uuid (w_tick w2))). cbn zeta.
  apply orb_false_iff in Httl as [Hlow Hhigh]. apply Z.leb_gt in Hlow. apply Z.ltb_ge in Hhigh, Hrisk.
  split_and!; try done.
  - intros Hq. rewrite Hq in Hpresence. by destruct (gc_presence_verified params).
  - eexists _, w2. split; [|exact Hd]. done.
  - rewrite Hw4. cbn. rewrite Hs. set_solver.
  - intros row Hrow Hlive. rewrite Hw4 in Hrow. cbn in Hrow. rewrite Hs in Hrow.
    apply elem_of_app in Hrow as [Hrow|Hrow%list_elem_of_singleton]; [left|by right].
    apply elem_of_update_where in Hrow as (row0 & Hrow & ->). case_match; [done|].
    cbn in Hrow. by rewrite Hkeep in Hrow.
  - intros agent name action origin risk t (_ & Ht & _ & <- & <- & <- & <- & Hk & _)%covers_spec.
    by split_and!.
Qed.

(** ** Disabling an agent *)

Lemma substring_all s : String.substring 0 (String.length s) s = s.
Proof. induction s as [|a s IH]; [done|]. cbn. by rewrite IH. Qed.

Lemma agent_selector name : selector_of ("agent:" +:+ name) = Ok (SelectAgent name).
Proof.
  change ("agent:" +:+ name) with
    (String "a" (String "g" (String "e" (String "n" (String "t" (String ":" name)))))).
  unfold selector_of, split_once_colon. cbn.
  replace (String.prefix "" name) with true by (by destruct name).
  cbn. unfold drop_prefix. cbn. rewrite ?Nat.sub_0_r. by rewrite substring_all.
Qed.

Lemma record_effect ty aty actor cx w u w' :
  record_audit_event ty aty actor cx w = (Done u, w') ->
  capabilities (w_broker w') = capabilities (w_broker w) /\
  approvals (w_broker w') = approvals (w_broker w) /\
  (exists e, store (w_broker w') = set_audit_events (store (w_broker w))
     (audit_events (store (w_broker w)) ++ [event_row e])).
Proof.
  intros Hr. apply audited_Done in Hr as (e & s & c & Hop & ->). cbn. split_and!; [done..|].
  exists e. unfold insert_audit_event in Hop. apply commit_Ok in Hop.
  by apply insert_audit_event_tx_Ok in Hop as (_ & -> & _).
Qed.

Lemma records_effect {A : Type} ty aty actor (cx : A -> AuditContext) l : forall w u w',
  for_each l (fun a => record_audit_event ty aty actor (cx a)) w = (Done u, w') ->
  capabilities (w_broker w') = capabilities (w_broker w) /\
  approvals (w_broker w') = approvals (w_broker w) /\
  (exists rows, store (w_broker w') = set_audit_events (store (w_broker w)) rows).
Proof.
  induction l as [|a l IH]; intros w u w' Hr; cbn [for_each] in Hr.
  - run_step Hr. split_and!; [done..|]. exists (audit_events (store (w_broker w))).
    by destruct (store (w_broker w)).
  - apply bind_Done in Hr as (u1 & w1 & Hs & Hr). apply record_effect in Hs as (Hc & Ha & e & Hs).
    apply IH in Hr as (-> & -> & rows & ->). split_and!; [done..|]. exists rows. by rewrite Hs.
Qed.

(** What disabling an agent does. When it succeeds the agent was enrolled;
    every live capability it holds in memory is revoked and those of other agents
    are as before; no live standing grant is left whose recorded agent name is
    the agent's current display name. That is all: its enrollment, its pending
    approvals and the database's rows of its capabilities are as before. *)
Theorem disabling_revokes_what_is_issued i w r w' :
  ui_disable_agent i w = (Done r, w') ->
  exists agent, get_enrolled_agent (store (w_broker w)) (id_str i) = Ok agent /\
  (forall c e, capabilities (w_broker w') !! c = Some e -> cap_agent_id (ce_capability e) = i ->
     CapabilityState.is_terminal (cap_state (ce_capability e)) = true) /\
  (forall c e, capabilities (w_broker w) !! c = Some e -> cap_agent_id (ce_capability e) <> i ->
     capabilities (w_broker w') !! c = Some e) /\
  (forall row, row ∈ standing_grants (store (w_broker w')) -> live_grant row = true ->
     exists g, row_to_standing_grant row = Ok g /\ sg_agent_name g <> ag_display_name agent) /\
  approvals (w_broker w') = approvals (w_broker w) /\
  agents (store (w_broker w')) = agents (store (w_broker w)) /\
  Store.capabilities (store (w_broker w')) = Store.capabilities (store (w_broker w)).
Proof.
  unfold ui_disable_agent. intros Hr. run_step Hr. run_step Hs. run_step Hr. run_step Hs.
  rename a into agent. exists agent. split; [exact Ho|].
  apply bind_Done in Hr as (rv & w1 & Hs & Hr). unfold ui_revoke_grants in Hs.
  rewrite agent_selector in Hs. cbn [lift] in Hs. run_step Hs. cbn [mret broker_ret] in Hs0.
  injection Hs0 as <- <-.
  apply bind_Done in Hs as (now & w2 & Hn & Hs). cbn in Hn. injection Hn as <- <-.
  apply bind_Done in Hs as (gs & w2 & Hg & Hs). unfold run_store in Hg. cbn [w_broker w_tick] in Hg.
  destruct (revoke_standing_grants _ _ _ _) as [rg st] eqn:Hrg. injection Hg as <- <-.
  run_step Hs. run_step Hs0. run_step Hs. run_step Hs.
  apply records_effect in Hs0 as (Hc1 & Ha1 & rows & Hs1). cbn in Hc1, Ha1, Hs1.
  apply bind_Done in Hr as (u & w3 & Hs & Hr). unfold modify in Hs. injection Hs as _ <-.
  apply bind_Done in Hr as (u' & w3 & Hs & Hr). run_step Hr.
  apply record_effect in Hs as (Hc2 & Ha2 & e & Hs2). cbn in Hc2, Ha2, Hs2.
  rewrite Hc1 in Hc2. rewrite Hs1 in Hs2. rewrite Ha1 in Ha2.
  rewrite Hc2, Hs2. cbn [standing_grants agents Store.capabilities set_audit_events].
  destruct (revocation_silences_matching_grants (SelectAgent (ag_display_name agent))
    "agent disabled by user" (env_now (w_tick w)) (store (w_broker w)) a) as [Hsil _].
  { rewrite Hrg. by subst rg. }
  assert (Hother : agents st = agents (store (w_broker w)) /\
    Store.capabilities st = Store.capabilities (store (w_broker w))).
  { change st with (snd (rg, st)). rewrite <-Hrg. split; by rewrite revoke_grants_other. }
  rewrite Hrg in Hsil. destruct Hother as [-> ->]. split_and!; try done.
  - intros c x Hx Hi. rewrite lookup_fmap in Hx. destruct (capabilities _ !! c) as [y|]; [|done].
    cbn in Hx. injection Hx as Hx. destruct (_ && _) eqn:Hm in Hx; subst x; [done|].
    rewrite bool_decide_eq_true_2 in Hm by exact Hi. by apply negb_false_iff in Hm.
  - intros c x Hx Hn. rewrite lookup_fmap, Hx. cbn. by rewrite bool_decide_eq_false_2.
  - intros row Hrow Hlive. destruct (Hsil row Hrow Hlive) as (g & Hg & Hm). exists g.
    split; [done|]. cbn in Hm. apply orb_false_iff in Hm as [Hm _].
    by apply bool_decide_eq_false in Hm.
Qed.
End Grants.
