(* ===== verification/BrokerRuns.v ===== *)
(** * BrokerRuns: what holds over whole runs of the broker

    A run is a sequence of calls: the handlers of the daemon's sockets, those
    that drive the browser included, the
    periodic sweeps, single repository operations of the administrative
    commands, and restarts. The theorems about runs: the audit log only grows
    and always verifies, and a capability token releases its secret at most
    once. *)

From S2P Require Import Prelude.
From S2P Require Import Externals.
From S2P Require Import Concrete.
From S2P Require Import Domain.
From S2P Require Import Policy.
From S2P Require Import Crypto.
From S2P Require Import DomView.
From S2P Require Import Gateway.
From S2P Require Import AuditChain.
From S2P Require Import Capability.
From S2P Require Import Provider.
From S2P Require Import Table.
From S2P Require Import Store.
From S2P Require Import StoreProps.
From S2P Require Import OAuth.
From S2P Require Import Protocol.
From S2P Require Import BrokerState.
From S2P Require Import Broker.
From S2P Require Import Ui.
From S2P Require Import Pages.
From S2P Require Import BrokerSteps.
From S2P Require Import BrokerProps.
From S2P Require Import PagesProps.

(** ** Calls *)

Inductive Call : Type :=
| CallRegisterRecipe (r : SiteRecipe)
| CallRegisterSession (s : BrowserSession)
| CallLaunch (ps : BrowserLaunchParams)
| CallClose (i : BrowserInstanceId)
| CallBrowserRegister (ps : BrowserRegisterParams)
| CallHeartbeat (ps : ExecutorHeartbeatParams)
| CallPrepare (cx : ExecutorContextPayload)
| CallAction (agent : AgentId) (ps : ActionRequestParams)
| CallAuthenticate (agent : AgentId) (ps : ActionAuthenticateParams)
| CallStatus (agent : AgentId) (r : RequestId)
| CallCancel (agent : AgentId) (r : RequestId)
| CallDecide (i : ApprovalId) (approve : bool) (digest : list byte) (actor : string)
    (presence : bool)
| CallExpireApprovals (now : Instant)
| CallNext (s : BrowserSessionId)
| CallOAuthCallback (ps : OAuthCallbackParams)
| CallConsume (ps : ExecutorConsumeParams)
| CallResult (ps : ExecutorResultParams)
| CallExpireSessions (now : Instant)
| CallReplacePolicy (ev : PolicyEvaluator)
| CallListCapabilities (state : option string)
| CallRevoke (i : CapabilityId) (reason : string)
| CallGrant (g : StandingGrant) (cx : AuditContext)
| CallRecord (event_type actor_type : string) (actor : option string) (cx : AuditContext)
| CallCheckpoint
| CallBrowse (c : BrowserCall)
| CallUi (c : UiCall)
| CallRepository (op : StoreOp)
| CallRestart (now : Instant) (policy : PolicyEvaluator).

(** The events of the log are written by the broker's own calls; the other
    commands use the repository outside the chain. *)
Definition ordinary (c : Call) : bool :=
  match c with
  | CallRepository op => bool_decide (audited_by op = None)
  | _ => true
  end.

Section Runs.
Context `{ManagedChrome, Chrono, Hashes, Signatures, Base64, Cbor, WireCodec, UP : UrlParser,
  JsonCodec, HashIter, !Environment, HttpClient, SqliteText, UnicodeCase, JsonFloats, Monotonic}
  {P : Type} `{SecretProvider P}.
Variable platform : HostPlatform.

Definition void {A : Type} (m : Broker P A) : Broker P unit := _ ← m; mret tt.

(** The process ends, and a new one opens the same database with the same keys.
    When it cannot, the calls that follow find the recovered database. *)
Definition restart (now : Instant) (policy : PolicyEvaluator) : Broker P unit := fun w =>
  let b := w_broker w in
  match try_new_with_audit_key now (broker_key b) (key_id b) (audit_key b) (audit_key_version b)
          (store b) (provider b) policy with
  | (Ok b', _) => (Done tt, {| w_broker := b'; w_tick := w_tick w |})
  | (Err e, s) => (Fail (internal_error (store_error_text e)),
                   {| w_broker := set_store b s; w_tick := w_tick w |})
  end.

Definition run_call (c : Call) : Broker P unit :=
  match c with
  | CallRegisterRecipe r => register_recipe r
  | CallRegisterSession s => register_browser_session s
  | CallLaunch ps => void (launch_managed_browser ps)
  | CallClose i => close_managed_browser i
  | CallBrowserRegister ps => void (handle_browser_register ps)
  | CallHeartbeat ps => handle_executor_heartbeat ps
  | CallPrepare cx => void (handle_executor_prepare cx)
  | CallAction agent ps => void (handle_action_request platform agent ps)
  | CallAuthenticate agent ps => void (handle_action_authenticate platform agent ps)
  | CallStatus agent r => void (handle_action_status agent r)
  | CallCancel agent r => void (handle_action_cancel agent r)
  | CallDecide i approve digest actor presence =>
      void (decide_approval i approve digest actor presence)
  | CallExpireApprovals now => void (expire_pending_approvals now)
  | CallNext s => void (handle_execution_next s)
  | CallOAuthCallback ps => void (handle_oauth_callback ps)
  | CallConsume ps => void (handle_executor_consume ps)
  | CallResult ps => handle_executor_result ps
  | CallExpireSessions now => void (expire_stale_sessions now)
  | CallReplacePolicy ev => void (replace_policy ev)
  | CallListCapabilities state => void (list_capabilities_admin state)
  | CallRevoke i reason => revoke_capability_admin i reason
  | CallGrant g cx => insert_standing_grant_audited g cx
  | CallRecord ty aty actor cx => record_audit_event ty aty actor cx
  | CallCheckpoint => write_audit_checkpoint
  | CallBrowse c => run_browser_call c
  | CallUi c => run_ui_call c
  | CallRepository op => void (run_store (run_op op))
  | CallRestart now policy => restart now policy
  end.

Fixpoint run_calls (calls : list Call) (w : World P) : World P :=
  match calls with
  | [] => w
  | c :: calls => run_calls calls (snd (run_call c w))
  end.

(** Whether a call hands out the secret of the capability a token stands for. *)
Definition releases (token : string) (c : Call) (w : World P) : bool :=
  match c with
  | CallConsume ps =>
      bool_decide (xs_capability_token ps = token)
      && match fst (handle_executor_consume ps w) with Done _ => true | _ => false end
  | _ => false
  end.

Fixpoint released (token : string) (calls : list Call) (w : World P) : Z :=
  match calls with
  | [] => 0
  | c :: calls =>
      (if releases token c w then 1 else 0) + released token calls (snd (run_call c w))
  end.

(** ** The invariant of the audit log *)

(** The table is the rows of a log that verifies under the current key, and the
    cursor stands behind its last event. *)
Definition audit_log_ok (b : BrokerState P) : Prop := exists es,
  audit_events (store b) = map event_row es /\ Forall event_readable es /\
  verify_audit_chain es {[audit_key_version b := secret_as_bytes (audit_key b)]} = Ok tt /\
  audit_cursor b = {| cu_next_sequence := Z.of_nat (length es) + 1;
                      cu_latest_hash := last_hash GENESIS_PREVIOUS_HASH es |} /\
  u32_range (audit_key_version b).

Definition log_length (b : BrokerState P) : Z := Z.of_nat (length (audit_events (store b))).

(** What a call may have done when it is over. *)
Record evolves (w w' : World P) : Prop := {
  ev_repository : exists ops, store (w_broker w') = snd (run_ops ops (store (w_broker w)));
  ev_keys : broker_key (w_broker w') = broker_key (w_broker w);
  ev_appended : exists rows,
    audit_events (store (w_broker w')) = audit_events (store (w_broker w)) ++ rows;
  ev_log : audit_log_ok (w_broker w) -> log_length (w_broker w') < 2 ^ 63 ->
    audit_log_ok (w_broker w')
}.

Lemma run_ops_app ops1 ops2 s :
  snd (run_ops (ops1 ++ ops2) s) = snd (run_ops ops2 (snd (run_ops ops1 s))).
Proof.
  revert s. induction ops1 as [|op ops1 IH]; intros s; [done|].
  rewrite <-app_comm_cons, !run_ops_cons. apply IH.
Qed.

Lemma succeeded_app p ops1 ops2 s :
  succeeded p (ops1 ++ ops2) s = succeeded p ops1 s + succeeded p ops2 (snd (run_ops ops1 s)).
Proof.
  revert s. induction ops1 as [|op ops1 IH]; intros s; [done|].
  rewrite <-app_comm_cons, run_ops_cons. cbn [succeeded]. rewrite IH. lia.
Qed.

Lemma succeeded_nonneg p ops s : 0 <= succeeded p ops s.
Proof.
  revert s. induction ops as [|op ops IH]; intros s; cbn [succeeded]; [lia|].
  specialize (IH (snd (run_op op s))). case_match; lia.
Qed.

#[local] Instance evolves_preorder : PreOrder evolves.
Proof.
  split.
  - intros w. split; [by exists []|done|exists []; by rewrite app_nil_r|done].
  - intros w1 w2 w3 [(o1 & R1) K1 (l1 & A1) L1] [(o2 & R2) K2 (l2 & A2) L2]. split.
    + exists (o1 ++ o2). by rewrite run_ops_app, <-R1.
    + congruence.
    + exists (l1 ++ l2). by rewrite app_assoc, <-A1.
    + intros Hok Hlen. apply L2; [|done]. apply L1; [done|].
      unfold log_length in *. rewrite A2, length_app in Hlen. lia.
Qed.

(** Operations outside the chain leave the log alone. *)
Lemma run_op_audit_log op s :
  audited_by op = None -> audit_events (snd (run_op op s)) = audit_events s.
Proof.
  intros Ha. destruct op; try discriminate Ha; cbn [run_op discard snd];
    first [by rewrite revoke_grants_other | solve [other_table ltac:(reflexivity)]].
Qed.
End Runs.

Section RunProps.
Context `{ManagedChrome, ChronoLaws, Hashes, Signatures, Base64, Cbor, WireCodec, UP : UrlParser,
  JsonLaws, HashIter, !Environment, HttpClient, SqliteText, UnicodeCase, JsonFloats, MonotonicLaws}
  {P : Type} `{SecretProvider P} `{!EnvironmentLaws}.
Variable platform : HostPlatform.
Implicit Type w : World P.

#[local] Existing Instance evolves_preorder.

Lemma audit_log_ok_quiet (b b' : BrokerState P) : quiet b b' -> audit_log_ok b -> audit_log_ok b'.
Proof. unfold audit_log_ok. intros (-> & -> & -> & -> & _). done. Qed.

Lemma quiet_evolves w b : quiet (w_broker w) b -> evolves w (with_broker w b).
Proof.
  intros Hq. pose proof (audit_log_ok_quiet _ _ Hq). destruct Hq as (Hs & _ & _ & _ & Hk & _).
  split; cbn; [by exists []|done|exists []; by rewrite app_nil_r, Hs|auto].
Qed.

Lemma draw_evolves w : evolves w {| w_broker := w_broker w; w_tick := S (w_tick w) |}.
Proof. split; cbn; [by exists []|done|exists []; by rewrite app_nil_r|done]. Qed.

Lemma enroll_evolves w fingerprints :
  evolves w (with_broker w (set_request_fingerprints (w_broker w) fingerprints)).
Proof. split; cbn; [by exists []|done|exists []; by rewrite app_nil_r|done]. Qed.
Lemma enroll_agent_evolves w agents :
  evolves w (with_broker w (set_request_agents (w_broker w) agents)).
Proof. split; cbn; [by exists []|done|exists []; by rewrite app_nil_r|done]. Qed.

Lemma store_evolves w op : audited_by op = None ->
  evolves w (with_broker w (set_store (w_broker w) (snd (run_op op (store (w_broker w)))))).
Proof.
  intros Ha. pose proof (run_op_audit_log op (store (w_broker w)) Ha) as Hl.
  split; cbn.
  - exists [op]. by rewrite run_ops_cons.
  - done.
  - exists []. by rewrite app_nil_r.
  - unfold audit_log_ok. cbn. by rewrite Hl.
Qed.

Lemma created_event_readable uuid seq prev version key ty aty actor c now e :
  create_audit_event uuid seq prev version key ty aty actor c now = Ok e ->
  uuid <> EmptyString -> four_digit_year now -> u32_range version -> event_readable e.
Proof.
  rewrite create_audit_event_eq. destruct (_ || _); [done|]. intros [= <-] Hu Hn Hv.
  split; [|done..]. by apply id_parse_new.
Qed.

Lemma audit_evolves w op e uuid now ty aty actor cx s' :
  let b := w_broker w in
  uuid <> EmptyString -> four_digit_year now ->
  create_audit_event uuid (cu_next_sequence (audit_cursor b)) (cu_latest_hash (audit_cursor b))
    (audit_key_version b) (secret_as_bytes (audit_key b)) ty aty actor cx now = Ok e ->
  audited_by op = Some e -> run_op op (store b) = (Ok tt, s') ->
  evolves w (with_broker w (set_audit_cursor (set_store b s')
    {| cu_next_sequence := cu_next_sequence (audit_cursor b) + 1;
       cu_latest_hash := ev_event_hash e |})).
Proof.
  intros b Hu Hn He Ha Hrun. subst b.
  destruct (audited_or_unchanged op e (store (w_broker w)) Ha) as [(s1 & Hs1 & _ & Hev)|(er & Hs1)];
    rewrite Hrun in Hs1; [injection Hs1 as <-|discriminate]. split; cbn.
  - exists [op]. by rewrite run_ops_cons, Hrun.
  - done.
  - by exists [event_row e].
  - intros (es & Hes & Hr & Hv & Hc & Hver) _. rewrite Hc in He. cbn in He.
    exists (es ++ [e]). cbn. rewrite Hev, Hes, map_app, length_app. split_and!; [done| | | |done].
    + apply Forall_app. split; [done|]. apply Forall_singleton. by eapply created_event_readable.
    + apply verify_from_snoc. split; [done|]. cbn.
      rewrite Z.add_0_l. eapply created_event_links; [exact He|]. apply lookup_insert_eq.
    + rewrite last_hash_snoc, Hc. cbn. f_equal. lia.
Qed.

Lemma restart_evolves now policy w : evolves w (snd (restart now policy w)).
Proof.
  unfold restart, try_new_with_audit_key. set (b := w_broker w).
  pose proof (store_evolves w (OpRecover now) eq_refl) as Hstore.
  cbn [run_op] in Hstore. fold b in Hstore.
  destruct (recover_incomplete_state now (store b)) as [r s] eqn:Hrec. cbn [discard fst snd] in Hstore.
  destruct r as [u|e]; cbn [mbind result_bind]; [|exact Hstore].
  destruct (get_latest_audit_hash s) as [h|e] eqn:Hh; cbn [mbind result_bind]; [|exact Hstore].
  destruct (get_latest_audit_sequence s) as [q|e] eqn:Hq; cbn [mbind result_bind]; [|exact Hstore].
  destruct Hstore as [Ho Hk Hl Hlog]. split; [exact Ho|done|exact Hl|].
  intros Hok Hlen. destruct (Hlog Hok Hlen) as (es & Hes & Hr & Hv & _ & Hver).
  cbn in Hes, Hv, Hver. exists es. cbn. split_and!; try done.
  pose proof (verified_numbered _ _ Hv) as Hn.
  unfold log_length in Hlen. cbn in Hlen. rewrite Hes, length_map in Hlen.
  destruct (latest_audit_rows s es Hes Hn Hlen) as [Hh' Hq'].
  rewrite Hh in Hh'. rewrite Hq in Hq'. injection Hh' as ->. by injection Hq' as ->.
Qed.

(** Browsing changes no more than the pipes of the browsers. *)
Lemma browse_evolves c w : evolves w (snd (run_browser_call c w)).
Proof.
  pose proof (bw_frame _ _ _ (steps_browser_call c w)) as Hf.
  assert (Hq : quiet (w_broker w) (w_broker (snd (run_browser_call c w)))) by (rewrite Hf; done).
  pose proof (audit_log_ok_quiet _ _ Hq). destruct Hq as (Hs & _ & _ & _ & Hk & _).
  split; [by exists []|done|exists []; by rewrite app_nil_r, Hs|auto].
Qed.

Create HintDb evolves.
#[local] Hint Resolve enroll_evolves enroll_agent_evolves quiet_evolves draw_evolves store_evolves audit_evolves : evolves.

(** A handler evolves the world, as its steps do. *)
Tactic Notation "evolve" uconstr(l) := eapply l; eauto with evolves typeclass_instances.

Lemma evolves_void {A : Type} (m : Broker P A) : steps evolves m -> steps evolves (void m).
Proof. intros Hm. apply steps_bind; [apply _|done|]. intros a. apply steps_ret, _. Qed.

Lemma steps_run_call c : ordinary c = true -> steps evolves (run_call platform c).
Proof.
  intros Hc. destruct c; cbn [run_call]; try (apply evolves_void).
  - evolve steps_register_recipe.
  - evolve steps_register_browser_session.
  - evolve steps_launch.
  - evolve steps_close.
  - evolve steps_browser_register.
  - evolve steps_heartbeat.
  - evolve steps_prepare.
  - evolve steps_action.
  - evolve steps_authenticate.
  - evolve steps_status.
  - evolve steps_cancel.
  - evolve steps_decide.
  - evolve steps_expire_approvals.
  - evolve steps_next.
  - evolve steps_oauth_callback.
  - evolve steps_executor_consume.
  - evolve steps_executor_result.
  - evolve steps_expire_sessions.
  - evolve steps_replace_policy.
  - evolve steps_list.
  - evolve steps_revoke_admin.
  - evolve steps_grant_audited.
  - evolve steps_record.
  - evolve steps_checkpoint.
  - intros w. apply browse_evolves.
  - evolve steps_ui_call.
  - eapply (steps_run_store _) with (sop := op); eauto with evolves.
    by apply bool_decide_eq_true in Hc.
  - intros w. apply restart_evolves.
Qed.

Lemma run_calls_evolves calls w :
  Forall (fun c => ordinary c = true) calls -> evolves w (run_calls platform calls w).
Proof.
  revert w. induction calls as [|c calls IH]; intros w Hc; [reflexivity|].
  apply Forall_cons_1 in Hc as [Hc Hcs]. cbn [run_calls].
  transitivity (snd (run_call platform c w)); [by apply steps_run_call|by apply IH].
Qed.

(** ** The audit log *)

Lemma audit_log_ok_verifies w :
  audit_log_ok (w_broker w) -> log_length (w_broker w) < 2 ^ 63 ->
  fst (verify_audit_integrity w) = Done tt.
Proof.
  intros (es & Hes & Hr & Hv & _) Hl. unfold log_length in Hl. rewrite Hes, length_map in Hl.
  unfold verify_audit_integrity, mbind, broker_bind, read_store, gets.
  rewrite (list_audit_events_rows _ es) by (done || by eapply verified_numbered).
  cbn. by rewrite Hv.
Qed.

(** The audit log of a running broker only grows, and always verifies. From
    a broker whose log verifies, after any sequence of calls, whatever they
    answer, restarts included, the events recorded before are still the
    beginning of the table, and the broker's own integrity check succeeds (as
    long as the sequence numbers fit the column). *)
Theorem audit_log_always_verifies calls w :
  Forall (fun c => ordinary c = true) calls -> audit_log_ok (w_broker w) ->
  let w' := run_calls platform calls w in
  (exists rows, audit_events (store (w_broker w')) = audit_events (store (w_broker w)) ++ rows) /\
  (log_length (w_broker w') < 2 ^ 63 -> fst (verify_audit_integrity w') = Done tt).
Proof.
  intros Hc Hok w'. destruct (run_calls_evolves calls w Hc) as [_ _ Ha Hl]. split; [exact Ha|].
  intros Hlen. apply audit_log_ok_verifies; auto.
Qed.

(** ** The release of a secret *)

Lemma void_world {A : Type} (m : Broker P A) w : snd (void m w) = snd (m w).
Proof. unfold void, mbind, broker_bind. by destruct (m w) as [[a|e|] w']. Qed.

(** The repository operations of one call: among them, for a call that releases
    the secret, the consumption that succeeded. *)
Lemma call_operations token claims c w :
  ordinary c = true ->
  parse_and_verify_token token (public_key_bytes (broker_key (w_broker w))) = Ok claims ->
  exists ops, store (w_broker (snd (run_call platform c w))) = snd (run_ops ops (store (w_broker w))) /\
    (releases token c w = true ->
       1 <= succeeded (names_capability (cl_jti claims)) ops (store (w_broker w))).
Proof.
  intros Hc Hp. destruct (releases token c w) eqn:Hrel.
  2: { destruct (steps_run_call c Hc w) as [(ops & Hops) _ _ _]. by exists ops. }
  destruct c; try discriminate Hrel. cbn [releases] in Hrel. cbn [run_call].
  apply andb_true_iff in Hrel as [Ht Hrel]. apply bool_decide_eq_true in Ht. subst token.
  rewrite void_world. unfold handle_executor_consume in *. unfold mbind, broker_bind in *.
  destruct (consume_durably ps w) as [[k|e|] w1] eqn:Hd; [|discriminate Hrel..].
  apply consume_durably_Done in Hd as [_ _ Hsig _ _ (x & e & step & Hrun & _) _].
  rewrite Hp in Hsig. injection Hsig as ->.
  assert (steps evolves (release_secret k)) as Hrs by evolve steps_release.
  destruct (Hrs w1) as [(ops & Hops) _ _ _].
  exists (OpConsume (cl_jti (cs_claims k)) x e step :: ops). rewrite run_ops_cons, Hrun. split; [done|].
  intros _. cbn [succeeded names_capability]. rewrite bool_decide_true, Hrun by done. cbn.
  pose proof (succeeded_nonneg (names_capability (cl_jti (cs_claims k))) ops (store (w_broker w1))).
  lia.
Qed.

Lemma released_bounded token claims calls : forall w,
  Forall (fun c => ordinary c = true) calls ->
  parse_and_verify_token token (public_key_bytes (broker_key (w_broker w))) = Ok claims ->
  exists ops, released platform token calls w
    <= succeeded (names_capability (cl_jti claims)) ops (store (w_broker w)).
Proof.
  induction calls as [|c calls IH]; intros w Hc Hp; [by exists []|].
  apply Forall_cons_1 in Hc as [Hc Hcs]. cbn [released].
  destruct (call_operations token claims c w Hc Hp) as (ops & Hops & Hrel).
  destruct (steps_run_call c Hc w) as [_ Hk _ _].
  destruct (IH (snd (run_call platform c w)) Hcs) as (ops' & Hle); [by rewrite Hk|].
  exists (ops ++ ops'). rewrite succeeded_app, <-Hops.
  pose proof (succeeded_nonneg (names_capability (cl_jti claims)) ops (store (w_broker w))).
  destruct (releases token c w); [specialize (Hrel eq_refl)|]; lia.
Qed.

(** A call with a token the broker's key did not sign releases nothing. *)
Lemma released_unsigned token calls : forall w e,
  Forall (fun c => ordinary c = true) calls ->
  parse_and_verify_token token (public_key_bytes (broker_key (w_broker w))) = Err e ->
  released platform token calls w = 0.
Proof.
  induction calls as [|c calls IH]; intros w e Hc Hp; [done|].
  apply Forall_cons_1 in Hc as [Hc Hcs]. cbn [released].
  destruct (steps_run_call c Hc w) as [_ Hk _ _].
  rewrite (IH _ e) by (done || by rewrite Hk). destruct (releases token c w) eqn:Hrel; [|done].
  destruct c; try discriminate Hrel. cbn [releases] in Hrel.
  apply andb_true_iff in Hrel as [Ht Hrel]. apply bool_decide_eq_true in Ht. subst token.
  destruct (handle_executor_consume ps w) as [[r|e'|] w'] eqn:Hr; try discriminate Hrel.
  apply executor_consume_Done in Hr as (k & w1 & Hk' & _). apply cd_signed in Hk'. congruence.
Qed.

(** A capability releases its secret at most once. Over any sequence of
    calls of the broker, from agents, executors, users, administrators and the
    periodic sweeps, in any order, across crashes and restarts, the executor's
    call hands out the secret for one token at most once; and not at all for a
    token the broker did not sign, or whose capability is already consumed,
    expired or revoked in the database. *)
Theorem secret_released_at_most_once token calls w :
  Forall (fun c => ordinary c = true) calls ->
  NoDup (map cpr_capability_id (Store.capabilities (store (w_broker w)))) ->
  released platform token calls w <= 1 /\
  (forall claims, parse_and_verify_token token (public_key_bytes (broker_key (w_broker w))) = Ok claims ->
     settled_capability (cl_jti claims) (store (w_broker w)) ->
     released platform token calls w <= 0).
Proof.
  intros Hc Hd. destruct (parse_and_verify_token token _) as [claims|e] eqn:Hp.
  - destruct (released_bounded token claims calls w Hc Hp) as (ops & Hle).
    destruct (consumed_at_most_once (cl_jti claims) ops (store (w_broker w)) Hd) as [H1' H2'].
    split; [lia|]. intros cl [= <-] Hs. specialize (H2' Hs). lia.
  - rewrite (released_unsigned token calls w e Hc Hp). split; [lia|]. intros; lia.
Qed.
End RunProps.
