(* ===== verification/Daemon.v ===== *)
(** * Daemon: all connections of the broker together

    The accept loops and the spawned tasks of [BrokerServer::start] in
    [secretctld/src/server.rs]: any number of connections on the three sockets
    and the periodic task over one broker, one turn of one of them at a time. A
    connection that fails or panics is closed; the broker and the other
    connections go on. When the process is started again, by itself or after a
    crash, no connection is left and the broker starts from its database.

    The theorems carry what holds of whole runs of the broker over to whatever
    arrives on its sockets. *)

From S2P Require Import Prelude.
From S2P Require Import Externals.
From S2P Require Import Domain.
From S2P Require Import Policy.
From S2P Require Import Crypto.
From S2P Require Import DomView.
From S2P Require Import AuditChain.
From S2P Require Import Capability.
From S2P Require Import Provider.
From S2P Require Import Table.
From S2P Require Import Store.
From S2P Require Import StoreProps.
From S2P Require Import OAuth.
From S2P Require Import Protocol.
From S2P Require Import Framing.
From S2P Require Import BrokerState.
From S2P Require Import Broker.
From S2P Require Import Admin.
From S2P Require Import Ui.
From S2P Require Import Pages.
From S2P Require Import Wire.
From S2P Require Import Handshake.
From S2P Require Import Server.
From S2P Require Import BrokerSteps.
From S2P Require Import PagesProps.
From S2P Require Import BrokerRuns.
From S2P Require Import ServerProps.

Record Daemon `{ManagedChrome} {P : Type} : Type := {
  dm_world : World P;
  dm_next : nat;
  dm_agents : gmap nat (UCred * AgentConnection);
  dm_executors : gmap nat (UCred * SocketConnection AgentPrincipal);
  dm_admins : gmap nat (SocketConnection unit)
}.
Arguments Daemon {_} P.

Inductive DaemonEvent : Type :=
| AgentAccepted (cred : UCred)
| ExecutorAccepted (cred : UCred)
| AdminAccepted (socket_uid : Z) (cred : UCred)
| AgentFrame (i : nat) (wire : list byte)
| ExecutorFrame (i : nat) (wire : list byte)
| AdminFrame (i : nat) (wire : list byte)
| MaintenanceTick
| Restarted (now : Instant) (policy : PolicyEvaluator).

Section Daemon.
Context `{ManagedChrome, Chrono, Hashes, Signatures, Aead, X25519, Base64, Cbor, WireCodec,
  UrlParser, JsonCodec, !JsonReader, HashIter, !Environment, HttpClient, SqliteText, UnicodeCase,
  JsonFloats, Monotonic, PeerProcess, PolicySerializer, PolicyYaml, Serde} {P : Type}
  `{SecretProvider P, !OtherTasks P}.
Variable platform : HostPlatform.

Definition set_world (d : Daemon P) (w : World P) : Daemon P := {|
  dm_world := w; dm_next := dm_next d; dm_agents := dm_agents d;
  dm_executors := dm_executors d; dm_admins := dm_admins d |}.

(** The connection after a turn, closed when the turn did not succeed. *)
Definition turned {C : Type} (o : outcome AnyhowError (list byte * C)) : option C :=
  match o with Done (_, c) => Some c | _ => None end.

Definition daemon_step (e : DaemonEvent) (d : Daemon P) : Daemon P :=
  let i := dm_next d in
  match e with
  | AgentAccepted cred => {|
      dm_world := dm_world d; dm_next := S i;
      dm_agents := <[i := (cred, new_agent_connection)]> (dm_agents d);
      dm_executors := dm_executors d; dm_admins := dm_admins d |}
  | ExecutorAccepted cred => {|
      dm_world := dm_world d; dm_next := S i; dm_agents := dm_agents d;
      dm_executors := <[i := (cred, AwaitHello)]> (dm_executors d); dm_admins := dm_admins d |}
  | AdminAccepted socket_uid cred =>
      match admin_connect socket_uid cred (dm_world d) with
      | (Done c, w) => {|
          dm_world := w; dm_next := S i; dm_agents := dm_agents d;
          dm_executors := dm_executors d; dm_admins := <[i := c]> (dm_admins d) |}
      | (_, w) => set_world d w
      end
  | AgentFrame i wire =>
      match dm_agents d !! i with
      | Some (cred, c) =>
          let '(o, w) := agent_message platform cred c wire (dm_world d) in {|
          dm_world := w; dm_next := dm_next d;
          dm_agents := partial_alter (fun _ => (fun c => (cred, c)) <$> turned o) i (dm_agents d);
          dm_executors := dm_executors d; dm_admins := dm_admins d |}
      | None => d
      end
  | ExecutorFrame i wire =>
      match dm_executors d !! i with
      | Some (cred, c) =>
          let '(o, w) := socket_message (executor_socket cred) c wire (dm_world d) in {|
          dm_world := w; dm_next := dm_next d; dm_agents := dm_agents d;
          dm_executors :=
            partial_alter (fun _ => (fun c => (cred, c)) <$> turned o) i (dm_executors d);
          dm_admins := dm_admins d |}
      | None => d
      end
  | AdminFrame i wire =>
      match dm_admins d !! i with
      | Some c =>
          let '(o, w) := socket_message admin_socket c wire (dm_world d) in {|
          dm_world := w; dm_next := dm_next d; dm_agents := dm_agents d;
          dm_executors := dm_executors d;
          dm_admins := partial_alter (fun _ => turned o) i (dm_admins d) |}
      | None => d
      end
  | MaintenanceTick => set_world d (snd (maintenance (dm_world d)))
  | Restarted now policy => {|
      dm_world := snd (restart now policy (dm_world d)); dm_next := dm_next d;
      dm_agents := ∅; dm_executors := ∅; dm_admins := ∅ |}
  end.

Fixpoint daemon_run (events : list DaemonEvent) (d : Daemon P) : Daemon P :=
  match events with
  | [] => d
  | e :: events => daemon_run events (daemon_step e d)
  end.

(** The request to consume a capability that a frame holds, as the connection
    reads it. *)
Definition consume_request (channel : SecureChannel) (wire : list byte) :
    option ExecutorConsumeParams :=
  match fst (decrypt channel wire) with
  | Ok message =>
      request ← result_ok (from_slice_strict request_from_value message);
      if bool_decide (request_method request = "executor.consume")
      then result_ok (from_value WExecutorConsume (default JNull (request_params request)))
      else None
  | Err _ => None
  end.

(** Whether a frame makes the broker hand out the secret of the capability a
    token stands for. The handler runs after the turn has read the clock. *)
Definition delivers (token : string) (e : DaemonEvent) (d : Daemon P) : bool :=
  match e with
  | ExecutorFrame i wire =>
      match dm_executors d !! i with
      | Some (_, Established _ channel since) =>
          let w := dm_world d in
          (elapsed_seconds since (instant_now (w_tick w)) <? REKEY_SECONDS)
          && match consume_request channel wire with
             | Some params => releases token (CallConsume params)
                 {| w_broker := w_broker w; w_tick := S (w_tick w) |}
             | None => false
             end
      | _ => false
      end
  | _ => false
  end.

Fixpoint delivered (token : string) (events : list DaemonEvent) (d : Daemon P) : Z :=
  match events with
  | [] => 0
  | e :: events =>
      (if delivers token e d then 1 else 0) + delivered token events (daemon_step e d)
  end.
End Daemon.
