(* ===== verification/DaemonRuns.v ===== *)
(** * DaemonRuns: what holds whatever arrives on the sockets

    A turn of a connection does no more to the broker than the calls it makes.
    The theorems about runs of the broker therefore hold of the daemon: whatever
    frames arrive on whatever connections, the audit log only grows and always
    verifies, and one token releases its secret at most once. *)

From S2P Require Import Prelude.
From S2P Require Import Externals.
From S2P Require Import Domain.
From S2P Require Import Policy.
From S2P Require Import Crypto.
From S2P Require Import DomView.
From S2P Require Import AuditChain.
From S2P Require Import Capability.
From S2P Require Import Provider.
From S2P Require Import Table.
From S2P Require Import Store.
From S2P Require Import StoreProps.
From S2P Require Import OAuth.
From S2P Require Import Protocol.
From S2P Require Import Framing.
From S2P Require Import BrokerState.
From S2P Require Import Broker.
From S2P Require Import Admin.
From S2P Require Import Ui.
From S2P Require Import Pages.
From S2P Require Import Wire.
From S2P Require Import Handshake.
From S2P Require Import Server.
From S2P Require Import BrokerSteps.
From S2P Require Import PagesProps.
From S2P Require Import BrokerRuns.
From S2P Require Import ServerProps.
From S2P Require Import Daemon.

Section DaemonRuns.
Context `{ManagedChrome, ChronoLaws, Hashes, Signatures, Aead, X25519, Base64, Cbor, WireCodec,
  UrlParser, JsonLaws, !JsonReader, HashIter, !Environment, HttpClient, SqliteText, UnicodeCase,
  JsonFloats, MonotonicLaws, PeerProcess, PolicySerializer, PolicyYaml, Serde} {P : Type}
  `{SecretProvider P, OT : !OtherTasks P, !EnvironmentLaws}.
Variable platform : HostPlatform.

(** The other tasks are the broker's own. *)
Hypothesis others_evolve : forall w, evolves w (other_tasks w).

#[local] Existing Instance evolves_preorder.

(** ** A turn evolves the broker *)

Definition follows {A : Type} (m : Task P A) : Prop := forall w, evolves w (snd (m w)).

Lemma same_broker_evolves (w w' : World P) : w_broker w' = w_broker w -> evolves w w'.
Proof.
  intros Hb. split; rewrite Hb; [by exists []|done|exists []; by rewrite app_nil_r|done].
Qed.
Lemma follows_keeps {A : Type} (m : Task P A) : keeps m -> follows m.
Proof. intros Hm w. apply same_broker_evolves, Hm. Qed.
Lemma follows_bind {A B : Type} (m : Task P A) (f : A -> Task P B) :
  follows m -> (forall a, follows (f a)) -> follows (m ≫= f).
Proof.
  intros Hm Hf w. unfold mbind, task_bind. specialize (Hm w).
  destruct (m w) as [[a|e|] w1]; [|done..]. transitivity w1; [done|]. apply Hf.
Qed.
Lemma follows_serve {A : Type} (m : Broker P A) : steps evolves m -> follows (serve m).
Proof. intros Hm w. unfold serve. specialize (Hm w). by destruct (m w) as [[a|e|] w']. Qed.
Lemma follows_suspend d : follows (suspend d).
Proof.
  intros w. unfold suspend. cbn [snd]. transitivity (other_tasks w); [apply others_evolve|].
  by apply same_broker_evolves.
Qed.

(** A handler does what the call of a run that names it does. *)
Lemma call_evolves {A : Type} (m : Broker P A) c :
  ordinary c = true -> (forall w, snd (m w) = snd (run_call platform c w)) -> steps evolves m.
Proof. intros Hc Hm w. rewrite Hm. by apply steps_run_call. Qed.

Lemma ignored {A B : Type} (m : Broker P A) (b : B) w : snd ((_ ← m; mret b) w) = snd (m w).
Proof. unfold mbind, broker_bind. by destruct (m w) as [[a|e|] w']. Qed.

Lemma read_evolves {A : Type} (m : Broker P A) :
  (forall w, w_broker (snd (m w)) = w_broker w) -> steps evolves m.
Proof. intros Hm w. apply same_broker_evolves, Hm. Qed.

(** Names the call of a run that a handler is. *)
Ltac is_call c := apply (call_evolves _ c); [done|]; intros ?; symmetry; apply ignored.

Lemma follows_respond {A : Type} (to_json : A -> result string Json) id r :
  follows (respond to_json id r).
Proof. apply follows_keeps. unfold respond. keep. Qed.
Lemma follows_from_params {A : Type} (from : Json -> result string A) params :
  follows (from_params from params).
Proof. apply follows_keeps, keeps_try. Qed.

Definition evolving (m : Method P) : Prop := forall id params, follows (m id params).

Lemma answer_with_evolves {A B : Type} from to_json (handler : A -> Broker P B) :
  (forall a, steps evolves (handler a)) -> evolving (answer_with from to_json handler).
Proof.
  intros Hh id params. unfold answer_with. apply follows_bind; [apply follows_from_params|].
  intros a. apply follows_bind; [apply follows_serve, Hh|]. intros r. apply follows_respond.
Qed.
Lemma answer_evolves {A B : Type} (p : Wire A) (r : Wire B) (handler : A -> Broker P B) :
  (forall a, steps evolves (handler a)) -> evolving (answer p r handler).
Proof. apply answer_with_evolves. Qed.
Lemma answer_json_evolves {A : Type} (p : Wire A) (handler : A -> Broker P Json) :
  (forall a, steps evolves (handler a)) -> evolving (answer_json p handler).
Proof. apply answer_with_evolves. Qed.
Lemma answer_view_evolves {B : Type} (r : Wire B) (handler : Broker P B) :
  steps evolves handler -> evolving (answer_view r handler).
Proof.
  intros Hh id params. unfold answer_view. apply follows_bind; [by apply follows_serve|].
  intros ?. apply follows_respond.
Qed.

(** Every method of a list, one by one. *)
Ltac each_method := repeat first [apply List.Forall_nil|apply List.Forall_cons]; cbn [snd].

Lemma page_methods_evolve : Forall (fun entry => evolving entry.2) page_methods.
Proof.
  each_method; apply answer_json_evolves; intros ps;
    [is_call (CallBrowse (BrowserTabs ps))|is_call (CallBrowse (BrowserOpenTab ps))
    |is_call (CallBrowse (BrowserCloseTab ps))|is_call (CallBrowse (BrowserNavigate ps))
    |is_call (CallBrowse (BrowserReload ps))|is_call (CallBrowse (PageClick ps))
    |is_call (CallBrowse (PageTypePublic ps))|is_call (CallBrowse (PageSelect ps))
    |is_call (CallBrowse (PageReadText ps))|is_call (CallBrowse (PageSnapshot ps))
    | |is_call (CallBrowse (BrowserBack ps))|is_call (CallBrowse (BrowserForward ps))].
  apply steps_bind; [apply _|is_call (CallBrowse (PageWaitFor ps))|].
  intros r. apply steps_unwrap, _.
Qed.

Lemma executor_methods_evolve : Forall (fun entry => evolving entry.2) executor_methods.
Proof.
  each_method; apply answer_evolves; intros ps;
    [is_call (CallBrowserRegister ps)|is_call (CallNext ps)|is_call (CallPrepare ps)
    |is_call (CallConsume ps)|is_call (CallOAuthCallback ps)| | ].
  - by apply (call_evolves _ (CallResult ps)).
  - by apply (call_evolves _ (CallHeartbeat ps)).
Qed.

Lemma policy_reload_evolves : evolving policy_reload.
Proof.
  intros id params. unfold policy_reload.
  apply follows_bind; [apply follows_from_params|]. intros ps.
  apply follows_bind; [apply follows_keeps, keeps_try|]. intros document.
  destruct (negb _); [by apply follows_keeps|].
  apply follows_bind; [|intros ?; apply follows_respond].
  apply follows_serve. is_call (CallReplacePolicy (evaluator_new document)).
Qed.

Lemma admin_methods_evolve : Forall (fun entry => evolving entry.2) admin_methods.
Proof.
  each_method.
  all: first [apply answer_evolves; intros ps|apply answer_with_evolves; intros ps
             |apply answer_view_evolves|idtac].
  - intros id params. by apply follows_keeps.
  - is_call (CallLaunch ps).
  - apply read_evolves. intros w. unfold browser_launch_status, mbind, broker_bind, gets.
    by destruct (managed_browsers (w_broker w) !! _).
  - by apply (call_evolves _ (CallClose (bc_instance_id ps))).
  - by apply read_evolves.
  - is_call (CallDecide (ad_approval_id ps) (bool_decide (ad_decision ps = "approve"))
      (ad_context_digest ps) "local-admin" (ad_presence_verified ps)).
  - is_call (CallListCapabilities (cl_params_state ps)).
  - by apply (call_evolves _ (CallRevoke (cv_capability_id ps) (cv_reason ps))).
  - is_call (CallUi UiStatusCall).
  - is_call (CallUi UiPending).
  - is_call (CallUi (UiPendingOne ps)).
  - is_call (CallUi (UiActivityCall (ap_limit ps))).
  - is_call (CallUi UiAgents).
  - is_call (CallUi UiCredentials).
  - is_call (CallUi UiBrowserSessions).
  - is_call (CallUi (UiGrants (gl_include_revoked ps))).
  - is_call (CallUi (UiCreateGrant ps)).
  - is_call (CallUi (UiRevokeGrants (gv_selector ps) (gv_reason ps))).
  - unfold disable_agent. destruct (id_parse KAgent (da_agent_id ps)) as [i|]; [|by apply read_evolves].
    is_call (CallUi (UiDisableAgent i)).
  - apply policy_reload_evolves.
Qed.

(** ** The waits, and the agent's methods *)

Lemma poll_again_follows {A : Type} deadline (r : A) (again : Task P (option A)) :
  follows again -> follows (poll_again deadline r again).
Proof.
  intros Ha. unfold poll_again. apply follows_bind; [by apply follows_keeps|]. intros now.
  destruct (deadline <=? now); [by apply follows_keeps|].
  apply follows_bind; [apply follows_suspend|done].
Qed.

Lemma await_request_follows n request_id deadline result :
  follows (await_request n request_id deadline result).
Proof.
  revert result. induction n as [|n IH]; intros result; [by apply follows_keeps|].
  cbn [await_request]. apply follows_bind; [by apply follows_keeps|]. intros current.
  destruct (is_some_and _ _); [by apply follows_keeps|]. apply poll_again_follows, IH.
Qed.

Lemma status_evolves agent r : steps evolves (handle_action_status (P := P) agent r).
Proof. is_call (CallStatus agent r). Qed.

Lemma await_change_follows n agent params deadline :
  follows (await_change n agent params deadline).
Proof.
  induction n as [|n IH]; [by apply follows_keeps|]. cbn [await_change].
  apply follows_bind; [apply follows_serve, status_evolves|]. intros [status|e]; [|by apply follows_keeps].
  destruct (_ || _); [by apply follows_keeps|]. by apply poll_again_follows.
Qed.

Lemma wait_for_end_follows wait timeout_ms request_id result :
  follows (wait_for_end wait timeout_ms request_id result).
Proof.
  unfold wait_for_end. destruct (_ && _); [|by apply follows_keeps].
  apply follows_bind; [apply follows_keeps; unfold deadline_after; keep|]. intros deadline.
  apply follows_bind; [apply await_request_follows|]. intros r.
  apply follows_keeps, keeps_finished_loop.
Qed.

Lemma agent_methods_evolve agent since :
  Forall (fun entry => evolving entry.2) (agent_methods platform agent since).
Proof.
  each_method.
  - intros id params. unfold action_request. apply follows_bind; [apply follows_from_params|].
    intros ps. apply follows_bind; [apply follows_serve; is_call (CallAction agent ps)|].
    intros [r|e]; [|apply follows_respond].
    apply follows_bind; [apply wait_for_end_follows|]. intros ?. apply follows_respond.
  - intros id params. unfold action_authenticate. apply follows_bind; [apply follows_from_params|].
    intros ps. apply follows_bind; [apply follows_serve; is_call (CallAuthenticate agent ps)|].
    intros [r|e]; [|apply follows_respond].
    apply follows_bind; [apply wait_for_end_follows|]. intros ?. apply follows_respond.
  - intros id params. apply follows_keeps. unfold session_info, respond. keep.
  - apply answer_evolves. intros ps. apply status_evolves.
  - intros id params. unfold action_subscribe. apply follows_bind; [apply follows_from_params|].
    intros ps. apply follows_bind; [apply follows_keeps; unfold deadline_after; keep|].
    intros deadline. apply follows_bind; [apply await_change_follows|]. intros r.
    apply follows_bind; [apply follows_keeps, keeps_finished_loop|]. intros ?. apply follows_respond.
  - apply answer_evolves. intros ps. is_call (CallCancel agent ps).
Qed.

(** ** Turns *)

Lemma find_method_evolving name (methods : list (string * Method P)) m :
  Forall (fun entry => evolving entry.2) methods ->
  find_method name methods = Some m -> evolving m.
Proof.
  intros Hall Hf%find_method_elem. rewrite list.Forall_forall in Hall. apply (Hall _ Hf).
Qed.

Lemma dispatch_follows c method id params : follows (agent_dispatch platform c method id params).
Proof.
  unfold agent_dispatch. destruct (authenticated_agent c) as [agent|].
  - destruct (find_method _ _) as [m|] eqn:Hf; [|by apply follows_keeps].
    eapply find_method_evolving; [|exact Hf].
    apply List.Forall_app. split; [apply agent_methods_evolve|apply page_methods_evolve].
  - apply follows_keeps. by destruct (bool_decide _).
Qed.

Lemma agent_message_follows cred c wire : follows (agent_message platform cred c wire).
Proof.
  unfold agent_message. apply follows_bind; [apply follows_keeps, keeps_receive|].
  intros [message c1]. apply follows_bind; [apply follows_keeps, keeps_read|]. intros request.
  destruct (bool_decide _).
  { apply follows_keeps. keep; [apply keeps_hello|apply keeps_reply]. }
  destruct (bool_decide _); [apply follows_keeps, keeps_session_authenticate|].
  apply follows_bind; [apply dispatch_follows|]. intros r. apply follows_keeps, keeps_reply.
Qed.

Lemma socket_message_follows {K : Type} (kind : SocketKind P K) c wire :
  (forall hello, keeps (k_accept kind hello)) -> (forall k, keeps (k_public_key kind k)) ->
  Forall (fun entry => evolving entry.2) (k_methods kind) ->
  follows (socket_message kind c wire).
Proof.
  intros Ha Hk Hm. destruct c as [|k started|k channel since];
    [by apply follows_keeps, keeps_socket..|].
  unfold socket_message. apply follows_bind; [by apply follows_keeps|]. intros now.
  apply follows_bind; [apply follows_keeps, keeps_ensure|]. intros _.
  apply follows_bind; [apply follows_keeps, keeps_unseal|]. intros [message ch].
  apply follows_bind; [apply follows_keeps, keeps_read|]. intros request.
  apply follows_bind.
  - destruct (find_method _ _) as [m|] eqn:Hf; [|by apply follows_keeps].
    by eapply find_method_evolving.
  - intros response. apply follows_keeps. keep; [apply keeps_seal|apply keeps_send].
Qed.

Lemma executor_message_follows cred c wire : follows (socket_message (executor_socket cred) c wire).
Proof.
  apply socket_message_follows; [apply keeps_executor_accept|done|apply executor_methods_evolve].
Qed.
Lemma admin_message_follows c wire : follows (socket_message admin_socket c wire).
Proof.
  apply socket_message_follows; [apply keeps_admin_accept|done|apply admin_methods_evolve].
Qed.

Lemma maintenance_evolves : steps evolves (maintenance (P := P)).
Proof.
  unfold maintenance, Utc_now.
  repeat (apply steps_bind; [apply _| |intros ?]); try (apply steps_ret, _).
  - by apply read_evolves.
  - apply steps_attempt. is_call (CallExpireSessions a).
  - by apply read_evolves.
  - apply steps_attempt. is_call (CallExpireApprovals a1).
Qed.

Lemma daemon_step_evolves e d :
  evolves (dm_world d) (dm_world (daemon_step platform e d)).
Proof.
  destruct e as [cred|cred|uid cred|i wire|i wire|i wire| |now policy]; cbn [daemon_step];
    try reflexivity.
  - pose proof (keeps_ensure (P := P) (uid =? peer_uid cred) "admin peer UID rejected" (dm_world d)) as Hk.
    unfold admin_connect, ensure, mbind, task_bind in *. by destruct (uid =? peer_uid cred).
  - destruct (dm_agents d !! i) as [[cred c]|]; [|reflexivity].
    pose proof (agent_message_follows cred c wire (dm_world d)) as Hf.
    by destruct (agent_message platform cred c wire (dm_world d)).
  - destruct (dm_executors d !! i) as [[cred c]|]; [|reflexivity].
    pose proof (executor_message_follows cred c wire (dm_world d)) as Hf.
    by destruct (socket_message (executor_socket cred) c wire (dm_world d)).
  - destruct (dm_admins d !! i) as [c|]; [|reflexivity].
    pose proof (admin_message_follows c wire (dm_world d)) as Hf.
    by destruct (socket_message admin_socket c wire (dm_world d)).
  - apply maintenance_evolves.
  - apply restart_evolves.
Qed.

Lemma daemon_run_evolves events d :
  evolves (dm_world d) (dm_world (daemon_run platform events d)).
Proof.
  revert d. induction events as [|e events IH]; intros d; [reflexivity|]. cbn [daemon_run].
  transitivity (dm_world (daemon_step platform e d)); [apply daemon_step_evolves|apply IH].
Qed.

(** ** The audit log *)

(** C12: the daemon's audit log only grows and always verifies. From a broker
    whose log verifies, whatever connections are accepted and whatever frames
    arrive on them, in any order, with the periodic task and restarts of the
    process in between, the events recorded before are still the beginning of
    the table and the integrity check succeeds (as long as the sequence numbers
    fit the column). *)
Theorem daemon_audit_log_verifies events (d : Daemon P) :
  audit_log_ok (w_broker (dm_world d)) ->
  let w' := dm_world (daemon_run platform events d) in
  (exists rows, audit_events (store (w_broker w'))
     = audit_events (store (w_broker (dm_world d))) ++ rows) /\
  (log_length (w_broker w') < 2 ^ 63 -> fst (verify_audit_integrity w') = Done tt).
Proof.
  intros Hok w'. destruct (daemon_run_evolves events d) as [_ _ Ha Hl]. split; [exact Ha|].
  intros Hlen. apply audit_log_ok_verifies; auto.
Qed.

(** ** The release of a secret *)

Lemma bind_keeps {A B : Type} (m : Task P A) (f : A -> Task P B) w :
  (forall a, keeps (f a)) -> w_broker (snd ((m ≫= f) w)) = w_broker (snd (m w)).
Proof.
  intros Hf. unfold mbind, task_bind. destruct (m w) as [[a|e|] w1]; [|done..]. apply Hf.
Qed.

Lemma bind_Done_eq {A B : Type} (m : Task P A) (f : A -> Task P B) w a w1 :
  m w = (Done a, w1) -> (m ≫= f) w = f a w1.
Proof. unfold mbind, task_bind. by intros ->. Qed.

Lemma bind_ret {A B : Type} (a : A) (f : A -> Task P B) w : (mret a ≫= f) w = f a w.
Proof. done. Qed.
Lemma bind_drawing {A B : Type} (g : nat -> A) (f : A -> Task P B) w :
  (drawing g ≫= f) w = f (g (w_tick w)) {| w_broker := w_broker w; w_tick := S (w_tick w) |}.
Proof. done. Qed.

Lemma serve_world {A : Type} (m : Broker P A) w : snd (serve m w) = snd (m w).
Proof. unfold serve. by destruct (m w) as [[a|e|] w']. Qed.

Lemma keeps_respond {A : Type} (to_json : A -> result string Json) id r :
  keeps (P := P) (respond to_json id r).
Proof. unfold respond. keep. Qed.

(** The turn of a frame that asks to consume a capability is the handler's. *)
Lemma consume_turn cred p channel since wire w params :
  (elapsed_seconds since (instant_now (w_tick w)) <? REKEY_SECONDS) = true ->
  consume_request channel wire = Some params ->
  w_broker (snd (socket_message (executor_socket cred) (Established p channel since) wire w))
  = w_broker (snd (handle_executor_consume params
      {| w_broker := w_broker w; w_tick := S (w_tick w) |})).
Proof.
  intros Hfresh Hc. unfold consume_request in Hc.
  destruct (decrypt channel wire) as [r ch] eqn:Hd. cbn [fst] in Hc.
  destruct r as [message|]; [|done].
  destruct (from_slice_strict request_from_value message) as [request|] eqn:Hr; [|done].
  cbn [result_ok mbind option_bind] in Hc. case_bool_decide as Hm; [|done].
  destruct (from_value WExecutorConsume _) as [ps|] eqn:Hp; [|done]. injection Hc as <-.
  unfold socket_message. rewrite bind_drawing. unfold ensure. rewrite Hfresh, bind_ret.
  assert (Hu : unseal channel wire {| w_broker := w_broker w; w_tick := S (w_tick w) |}
    = (Done (message, ch), {| w_broker := w_broker w; w_tick := S (w_tick w) |})).
  { unfold unseal. by rewrite Hd. }
  rewrite (bind_Done_eq _ _ _ _ _ Hu). unfold read_request. rewrite Hr. cbn [try_].
  rewrite bind_ret, Hm.
  change (find_method "executor.consume" (k_methods (executor_socket cred)))
    with (Some (answer (P := P) WExecutorConsume WExecutorConsumed handle_executor_consume)).
  rewrite bind_keeps by (intros ?; keep; [apply keeps_seal|apply keeps_send]).
  unfold answer, answer_with, from_params. rewrite Hp. cbn [try_].
  rewrite bind_ret, bind_keeps by (intros ?; apply keeps_respond). by rewrite serve_world.
Qed.

(** The repository operations of one step: among them, for a frame that makes
    the broker hand out the secret, the consumption that succeeded. *)
Lemma step_operations token claims e d :
  parse_and_verify_token token (public_key_bytes (broker_key (w_broker (dm_world d)))) = Ok claims ->
  exists ops, store (w_broker (dm_world (daemon_step platform e d)))
      = snd (run_ops ops (store (w_broker (dm_world d)))) /\
    (delivers token e d = true ->
       1 <= succeeded (names_capability (cl_jti claims)) ops (store (w_broker (dm_world d)))).
Proof.
  intros Hp. destruct (delivers token e d) eqn:Hdel.
  2: { destruct (daemon_step_evolves e d) as [(ops & Hops) _ _ _]. by exists ops. }
  destruct e as [| | | |i wire| | |]; try discriminate Hdel. cbn [delivers daemon_step] in *.
  destruct (dm_executors d !! i) as [[cred c]|]; [|discriminate].
  destruct c as [| |p channel since]; try discriminate.
  apply andb_true_iff in Hdel as [Hfresh Hdel].
  destruct (consume_request channel wire) as [params|] eqn:Hc; [|discriminate].
  pose proof (consume_turn cred p channel since wire (dm_world d) params Hfresh Hc) as Hturn.
  destruct (socket_message _ _ _ _) as [o w']. cbn [snd dm_world] in *. rewrite Hturn.
  set (w1 := {| w_broker := _; w_tick := _ |}) in *.
  destruct (call_operations platform token claims (CallConsume params) w1 eq_refl Hp) as (ops & Hops & Hrel).
  cbn [run_call] in Hops. rewrite void_world in Hops. exists ops. split; [exact Hops|auto].
Qed.

Lemma delivered_bounded token claims events : forall d,
  parse_and_verify_token token (public_key_bytes (broker_key (w_broker (dm_world d)))) = Ok claims ->
  exists ops, delivered platform token events d
    <= succeeded (names_capability (cl_jti claims)) ops (store (w_broker (dm_world d))).
Proof.
  induction events as [|e events IH]; intros d Hp; [by exists []|]. cbn [delivered].
  destruct (step_operations token claims e d Hp) as (ops & Hops & Hrel).
  destruct (daemon_step_evolves e d) as [_ Hk _ _].
  destruct (IH (daemon_step platform e d)) as (ops' & Hle); [by rewrite Hk|].
  exists (ops ++ ops'). rewrite succeeded_app, <-Hops.
  pose proof (succeeded_nonneg (names_capability (cl_jti claims)) ops (store (w_broker (dm_world d)))).
  destruct (delivers token e d); [specialize (Hrel eq_refl)|]; lia.
Qed.

Lemma delivered_unsigned token events : forall d e,
  parse_and_verify_token token (public_key_bytes (broker_key (w_broker (dm_world d)))) = Err e ->
  delivered platform token events d = 0.
Proof.
  induction events as [|ev events IH]; intros d e Hp; [done|]. cbn [delivered].
  destruct (daemon_step_evolves ev d) as [_ Hk _ _].
  rewrite (IH _ e) by (by rewrite Hk). destruct (delivers token ev d) eqn:Hdel; [|done].
  destruct ev as [| | | |i wire| | |]; try discriminate Hdel. cbn [delivers] in Hdel.
  destruct (dm_executors d !! i) as [[cred [| |p channel since]]|]; try discriminate.
  apply andb_true_iff in Hdel as [_ Hdel].
  destruct (consume_request channel wire) as [params|]; [|discriminate].
  set (w1 := {| w_broker := _; w_tick := _ |}) in *.
  pose proof (released_unsigned platform token [CallConsume params] w1 e
    ltac:(by repeat constructor) Hp) as H0r.
  cbn [released] in H0r. rewrite Hdel in H0r. lia.
Qed.

(** The token carries a signature that verifies under the key, over the header and
    the claims that are in it. *)
Definition token_signed (public_key : list byte) (token : string) : Prop :=
  exists decoded, decode_cose_sign1 token = Ok decoded /\
    ed_verify public_key (signature_structure (dc_protected decoded) (dc_payload decoded))
      (dc_signature decoded) = true.

Lemma verified_token_signed token public_key claims :
  parse_and_verify_token token public_key = Ok claims -> token_signed public_key token.
Proof.
  unfold parse_and_verify_token. intros (decoded & Hd & Hr)%bind_Ok_inv.
  apply bind_Ok_inv in Hr as (u & Hv%map_err_Ok & _). destruct u.
  apply verify_signature_Ok in Hv as (_ & _ & _ & Hv). by exists decoded.
Qed.

(** C1: the daemon hands out a secret at most once. Over anything that arrives on
    its sockets, on any number of connections, executors' connections with the
    same frames included, and over restarts of the process, at most one frame
    makes it hand out the secret of the capability behind one token; none does
    for a token without a signature that verifies under the broker's key, and
    none for one whose capability is consumed, expired or revoked in the
    database. *)
Theorem daemon_delivers_at_most_once token events (d : Daemon P) :
  NoDup (map cpr_capability_id (Store.capabilities (store (w_broker (dm_world d))))) ->
  delivered platform token events d <= 1 /\
  (~ token_signed (public_key_bytes (broker_key (w_broker (dm_world d)))) token ->
     delivered platform token events d = 0) /\
  (forall claims,
     parse_and_verify_token token (public_key_bytes (broker_key (w_broker (dm_world d)))) = Ok claims ->
     settled_capability (cl_jti claims) (store (w_broker (dm_world d))) ->
     delivered platform token events d <= 0).
Proof.
  intros Hnd. destruct (parse_and_verify_token token _) as [claims|e] eqn:Hp.
  - destruct (delivered_bounded token claims events d Hp) as (ops & Hle).
    destruct (consumed_at_most_once (cl_jti claims) ops (store (w_broker (dm_world d))) Hnd) as [Hone Hnone].
    split_and!; [lia|intros []; by eapply verified_token_signed|].
    intros cl [= <-] Hs. specialize (Hnone Hs). lia.
  - rewrite (delivered_unsigned token events d e Hp). split_and!; [lia|done|]. intros; lia.
Qed.
End DaemonRuns.
