(* ===== verification/Installation.v ===== *)
(** * Installation: what the processes of one installation share

    The command line client ([secretctl-cli/src/main.rs]) and the daemon's main
    function ([secretctld/src/main.rs]) work on the same things: the key store of
    the platform, the database, its backups and the files of the installation
    directory. They run in the monad [Process] over one [Machine] that holds them.

    A process can be killed: [m_writes] is the number of changes it still gets
    to make before that, and [None] when it is left alone. A change of the key
    store and a statement or transaction of the database is one change; writing
    a file is two, the truncation and the content. Failures of the disk are not
    modelled. *)

From S2P Require Import Prelude.
From S2P Require Import Externals.
From S2P Require Import Domain.
From S2P Require Import Policy.
From S2P Require Import Crypto.
From S2P Require Import AuditChain.
From S2P Require Import Provider.
From S2P Require Import Store.
From S2P Require Import Protocol.
From S2P Require Import Framing.
From S2P Require Import BrokerState.

(** ** The texts of errors

    [?] turns an error into an [anyhow::Error]; [{:#}] prints it followed by the
    chain of its sources. *)

Definition provider_error_text (e : ProviderError) : string :=
  match e with
  | SecretNotFound locator => "Secret not found for locator: " +:+ locator
  | AuthenticationFailed => "OS keychain authentication error"
  | Unavailable m => "Provider unavailable: " +:+ m
  | StorageFailed m => "Storage operation failed: " +:+ m
  | Internal m => "Internal provider error: " +:+ m
  end.

Definition crypto_error_text (e : CryptoError) : string :=
  match e with
  | KeyGeneration m => "Key generation error: " +:+ m
  | SignatureError m => "Signature error: " +:+ m
  | DecryptionFailed => "Decryption error"
  | EncryptionFailed m => "Encryption error: " +:+ m
  | InvalidKeyLength expected actual =>
      "Invalid key length: expected " +:+ format_int expected +:+ ", got " +:+ format_int actual
  | InvalidNonce m => "Invalid nonce: " +:+ m
  | SessionExpired => "Session expired or rekey required"
  end.

(** An error of the database is printed again as its source. *)
Definition store_error_chain `{SqliteText} (e : StoreError) : string :=
  store_error_text e
  +:+ match e with Sqlite e => ": " +:+ sqlite_error_text e | _ => EmptyString end.

(** What the standard library prints when a file cannot be read, and when it is
    not UTF-8. *)
Class FileErrors := { missing_file_text : string; not_utf8_text : string }.

(** ** The machine *)

Record Machine {P : Type} : Type := {
  m_provider : P;
  m_database : option Store;
  m_files : gmap string (list byte);
  m_backups : gmap string Store;
  m_tick : nat;
  m_writes : option nat;
  m_output : list string
}.
Arguments Machine P : clear implicits.

Inductive ending (A : Type) : Type :=
| Finished (a : A)
| Failed (message : string)
| Crashed
| Killed.
Arguments Finished {A} a.
Arguments Failed {A} message.
Arguments Crashed {A}.
Arguments Killed {A}.

Definition Process (P A : Type) : Type := Machine P -> ending A * Machine P.

Section Monad.
Context {P : Type}.
Implicit Type m : Machine P.

Definition set_m_provider m v : Machine P := {|
  m_provider := v; m_database := m_database m; m_files := m_files m;
  m_backups := m_backups m; m_tick := m_tick m; m_writes := m_writes m; m_output := m_output m |}.
Definition set_m_database m v : Machine P := {|
  m_provider := m_provider m; m_database := v; m_files := m_files m;
  m_backups := m_backups m; m_tick := m_tick m; m_writes := m_writes m; m_output := m_output m |}.
Definition set_m_files m v : Machine P := {|
  m_provider := m_provider m; m_database := m_database m; m_files := v;
  m_backups := m_backups m; m_tick := m_tick m; m_writes := m_writes m; m_output := m_output m |}.
Definition set_m_backups m v : Machine P := {|
  m_provider := m_provider m; m_database := m_database m; m_files := m_files m;
  m_backups := v; m_tick := m_tick m; m_writes := m_writes m; m_output := m_output m |}.
Definition set_m_tick m v : Machine P := {|
  m_provider := m_provider m; m_database := m_database m; m_files := m_files m;
  m_backups := m_backups m; m_tick := v; m_writes := m_writes m; m_output := m_output m |}.
Definition set_m_writes m v : Machine P := {|
  m_provider := m_provider m; m_database := m_database m; m_files := m_files m;
  m_backups := m_backups m; m_tick := m_tick m; m_writes := v; m_output := m_output m |}.
Definition set_m_output m v : Machine P := {|
  m_provider := m_provider m; m_database := m_database m; m_files := m_files m;
  m_backups := m_backups m; m_tick := m_tick m; m_writes := m_writes m; m_output := v |}.

#[global] Instance process_ret : MRet (Process P) := fun A a m => (Finished a, m).
#[global] Instance process_bind : MBind (Process P) := fun A B f p m =>
  match p m with
  | (Finished a, m) => f a m
  | (Failed e, m) => (Failed e, m)
  | (Crashed, m) => (Crashed, m)
  | (Killed, m) => (Killed, m)
  end.

Definition exit_with {A : Type} (message : string) : Process P A := fun m => (Failed message, m).
Definition crash {A : Type} : Process P A := fun m => (Crashed, m).

(** [?] on a [Result], on an [Option] with a message, and [ensure!]. *)
Definition attempting {E A : Type} (text : E -> string) (r : result E A) : Process P A :=
  match r with Ok a => mret a | Err e => exit_with (text e) end.
Definition expecting {A : Type} (message : string) (o : option A) : Process P A :=
  match o with Some a => mret a | None => exit_with message end.
Definition demand (condition : bool) (message : string) : Process P unit :=
  if condition then mret tt else exit_with message.

Definition looking {A : Type} (f : Machine P -> A) : Process P A := fun m => (Finished (f m), m).

(** One change of what the processes share. *)
Definition change {A : Type} (f : Machine P -> A * Machine P) : Process P A := fun m =>
  match m_writes m with
  | Some O => (Killed, m)
  | Some (S n) => let '(a, m) := f (set_m_writes m (Some n)) in (Finished a, m)
  | None => let '(a, m) := f m in (Finished a, m)
  end.

(** Reads of the environment, and a line of output. *)
Definition sampling {A : Type} (f : nat -> A) : Process P A :=
  fun m => (Finished (f (m_tick m)), set_m_tick m (S (m_tick m))).
Definition println (line : string) : Process P unit :=
  fun m => (Finished tt, set_m_output m (m_output m ++ [line])).
Definition println_each (lines : list string) : Process P unit :=
  fun m => (Finished tt, set_m_output m (m_output m ++ lines)).
End Monad.

(** ** The key store of the platform *)

Section KeyStore.
Context {P : Type} `{SecretProvider P}.

(** A read may change what the provider keeps for itself. *)
Definition secret_exists (locator : string) : Process P (result ProviderError bool) :=
  looking (fun m => exists_secret locator (m_provider m)).
Definition read_secret (locator : string) : Process P SecretBytes := fun m =>
  let '(r, p) := get_secret locator (m_provider m) in
  attempting provider_error_text r (set_m_provider m p).
Definition write_secret (locator : string) (secret : list byte) : Process P unit :=
  r ← change (fun m => let '(r, p) := store_secret locator secret (m_provider m) in
                       (r, set_m_provider m p));
  attempting provider_error_text r.
Definition remove_secret (locator : string) : Process P (result ProviderError unit) :=
  change (fun m => let '(r, p) := delete_secret locator (m_provider m) in
                   (r, set_m_provider m p)).
End KeyStore.

(** ** The database *)

Section Database.
Context `{SqliteText} {P : Type}.

(** The database as a statement finds it. *)
Definition database (m : Machine P) : Store := default empty_store (m_database m).

(** [SqliteStore::open]: creates the file and its tables when there is none. *)
Definition open_store : Process P unit := fun m =>
  (Finished tt, set_m_database m (Some (database m))).
Definition selects {A : Type} (f : Store -> result StoreError A) : Process P A := fun m =>
  attempting store_error_chain (f (database m)) m.
Definition executes_raw {A : Type} (op : Store -> result StoreError A * Store) :
    Process P (result StoreError A) :=
  change (fun m => let '(r, s) := op (database m) in (r, set_m_database m (Some s))).
Definition executes {A : Type} (op : Store -> result StoreError A * Store) : Process P A :=
  r ← executes_raw op; attempting store_error_chain r.
End Database.

(** ** The files of the installation directory

    A path is relative to that directory. *)

(** The bytes are UTF-8: nothing of them has to be replaced. *)
Definition utf8_text (bytes : list byte) : option string :=
  if bool_decide (utf8_lossy bytes = bytes) then Some (from_bytes bytes) else None.

Section Files.
Context `{FileErrors} {P : Type}.

Definition file_exists (path : string) : Process P bool :=
  looking (fun m => bool_decide (is_Some (m_files m !! path))).
Definition read_bytes (path : string) : Process P (list byte) := fun m =>
  expecting missing_file_text (m_files m !! path) m.
Definition read_to_string (path : string) : Process P string :=
  bytes ← read_bytes path; expecting not_utf8_text (utf8_text bytes).
Definition put_file (path : string) (bytes : list byte) : Process P unit :=
  change (fun m => (tt, set_m_files m (<[path := bytes]> (m_files m)))).
Definition write_file (path : string) (bytes : list byte) : Process P unit :=
  put_file path [];; put_file path bytes.
Definition remove_file (path : string) : Process P unit :=
  change (fun m => (tt, set_m_files m (delete path (m_files m)))).
End Files.
