(* ===== verification/ProcessLogic.v ===== *)
(** * ProcessLogic: reasoning about processes that may be killed

    [ends C Q] says of a run that it finishes with [Q] or stops some other way,
    by an error, a panic or a signal, with [C]: [C] is the condition in which the
    machine is found then, at whichever change the process was stopped. *)

From S2P Require Import Prelude.
From S2P Require Import Externals.
From S2P Require Import Domain.
From S2P Require Import Crypto.
From S2P Require Import Provider.
From S2P Require Import Store.
From S2P Require Import BrokerState.
From S2P Require Import Installation.

Section Logic.
Context `{SqliteText, FileErrors} {P : Type} `{SecretProviderLaws P}.
Implicit Types (m : Machine P) (C : Machine P -> Prop).

(** What a read of the key store would find. *)
Definition secrets m (locator : string) : option (list byte) := secret_at locator (m_provider m).

(** [calm m m']: nothing that the processes share has changed. *)
Record calm m m' : Prop := {
  calm_secrets l : secrets m' l = secrets m l;
  calm_database : database m' = database m;
  calm_files : m_files m' = m_files m;
  calm_backups : m_backups m' = m_backups m;
  calm_writes : m_writes m = None -> m_writes m' = None
}.

#[global] Instance calm_preorder : PreOrder calm.
Proof.
  split; [by constructor|]. intros x y z [] []. constructor; [intros l| | | |];
    [by transitivity (secrets y l) | by etransitivity.. | auto].
Qed.

(** The changes: of the database, of a file, and of what one locator holds. *)
Definition with_database m (s : Store) : Machine P := set_m_database m (Some s).
Definition with_file m (path : string) (bytes : list byte) : Machine P :=
  set_m_files m (<[path := bytes]> (m_files m)).
Record only_secret (locator : string) m m' : Prop := {
  os_other l : l <> locator -> secrets m' l = secrets m l;
  os_database : database m' = database m;
  os_files : m_files m' = m_files m;
  os_backups : m_backups m' = m_backups m;
  os_writes : m_writes m = None -> m_writes m' = None
}.

Lemma with_database_calm m m' s : calm m m' -> calm (with_database m s) (with_database m' s).
Proof. intros []. by constructor. Qed.
Lemma with_file_calm m m' path bytes :
  calm m m' -> calm (with_file m path bytes) (with_file m' path bytes).
Proof. intros []. constructor; try done. cbn. congruence. Qed.

Definition ends {A : Type} C (Q : A -> Machine P -> Prop) (r : ending A * Machine P) : Prop :=
  match r with (Finished a, m') => Q a m' | (_, m') => C m' end.

(** ** Rules *)

Lemma ends_ret {A : Type} C (Q : A -> Machine P -> Prop) a m :
  Q a m -> ends C Q ((mret a : Process P A) m).
Proof. done. Qed.

Lemma ends_bind {A B : Type} C (Q : B -> Machine P -> Prop) (p : Process P A)
    (f : A -> Process P B) m :
  ends C (fun a m' => ends C Q (f a m')) (p m) -> ends C Q ((p ≫= f) m).
Proof. unfold mbind, process_bind, ends. by destruct (p m) as [[] m']. Qed.

Lemma ends_weaken {A : Type} (C C' : Machine P -> Prop) (Q Q' : A -> Machine P -> Prop) r :
  (forall m, C m -> C' m) -> (forall a m, Q a m -> Q' a m) -> ends C Q r -> ends C' Q' r.
Proof. intros HC HQ. destruct r as [[] m']; cbn; auto. Qed.

Lemma ends_exit {A : Type} C (Q : A -> Machine P -> Prop) message m :
  C m -> ends C Q (exit_with message m).
Proof. done. Qed.

Lemma ends_crash {A : Type} C (Q : A -> Machine P -> Prop) m : C m -> ends C Q (crash m).
Proof. done. Qed.

Lemma ends_attempting {E A : Type} C (Q : A -> Machine P -> Prop) (text : E -> string) r m :
  (forall a, r = Ok a -> Q a m) -> ((exists e, r = Err e) -> C m) ->
  ends C Q (attempting text r m).
Proof. destruct r; cbn; eauto. Qed.

Lemma ends_expecting {A : Type} C (Q : A -> Machine P -> Prop) message o m :
  (forall a, o = Some a -> Q a m) -> (o = None -> C m) -> ends C Q (expecting message o m).
Proof. destruct o; cbn; auto. Qed.

Lemma ends_demand C (Q : unit -> Machine P -> Prop) b message m :
  (b = true -> Q tt m) -> (b = false -> C m) -> ends C Q (demand b message m).
Proof. destruct b; cbn; auto. Qed.

Lemma ends_looking {A : Type} C (Q : A -> Machine P -> Prop) f m :
  Q (f m) m -> ends C Q (looking f m).
Proof. done. Qed.

Lemma ends_sampling {A : Type} C (Q : A -> Machine P -> Prop) f m :
  (forall n m', calm m m' -> Q (f n) m') -> ends C Q (sampling f m).
Proof. intros HQ. apply HQ. by constructor. Qed.

Lemma ends_println_each C (Q : unit -> Machine P -> Prop) lines m :
  (forall m', calm m m' -> Q tt m') -> ends C Q (println_each lines m).
Proof. intros HQ. apply HQ. by constructor. Qed.

Lemma ends_println C (Q : unit -> Machine P -> Prop) line m :
  (forall m', calm m m' -> Q tt m') -> ends C Q (println line m).
Proof. apply ends_println_each. Qed.

Lemma ends_open_store C (Q : unit -> Machine P -> Prop) m :
  (forall m', calm m m' -> Q tt m') -> ends C Q (open_store m).
Proof. intros HQ. apply HQ. by constructor. Qed.

Lemma ends_selects {A : Type} C (Q : A -> Machine P -> Prop) f m :
  (forall a, f (database m) = Ok a -> Q a m) -> ((exists e, f (database m) = Err e) -> C m) ->
  ends C Q (selects f m).
Proof. apply ends_attempting. Qed.

Lemma ends_exists C (Q : result ProviderError bool -> Machine P -> Prop) locator m :
  Q (exists_secret locator (m_provider m)) m -> ends C Q (secret_exists locator m).
Proof. done. Qed.

Lemma ends_file_exists C (Q : bool -> Machine P -> Prop) path m :
  Q (bool_decide (is_Some (m_files m !! path))) m -> ends C Q (file_exists path m).
Proof. done. Qed.

Lemma ends_read_to_string C (Q : string -> Machine P -> Prop) path m :
  (forall text, Q text m) -> C m -> ends C Q (read_to_string path m).
Proof.
  intros HQ HC. unfold read_to_string. apply ends_bind. unfold read_bytes.
  destruct (m_files m !! path); cbn; [|done]. by destruct (utf8_text _); cbn.
Qed.

(** A read finds the secret, or fails when there is none. *)
Lemma ends_read_secret C (Q : SecretBytes -> Machine P -> Prop) locator m :
  (forall secret m', calm m m' -> secrets m locator = Some (secret_as_bytes secret) ->
     Q secret m') ->
  (forall m', calm m m' -> secrets m locator = None -> C m') ->
  ends C Q (read_secret locator m).
Proof.
  intros HQ HC. unfold read_secret. unfold secrets, secret_at in *.
  assert (Hc : calm m (set_m_provider m (snd (get_secret locator (m_provider m))))).
  { constructor; try done. intros l. apply get_keeps. }
  destruct (get_secret locator (m_provider m)) as [[secret|e] p]; cbn in *; auto.
Qed.

Lemma calm_spent m w : (m_writes m = None -> w = None) -> calm m (set_m_writes m w).
Proof. by constructor. Qed.

Lemma ends_change {A : Type} C (Q : A -> Machine P -> Prop) f m :
  (m_writes m = Some O -> C m) -> (forall w, (m_writes m = None -> w = None) ->
          Q (fst (f (set_m_writes m w))) (snd (f (set_m_writes m w)))) ->
  (m_writes m = None -> Q (fst (f m)) (snd (f m))) ->
  ends C Q (change f m).
Proof.
  intros HC HQ HQ'. unfold change. destruct (m_writes m) as [[|n]|] eqn:E; [by apply HC| |].
  - specialize (HQ (Some n) ltac:(done)). by destruct (f _) as [a m'].
  - specialize (HQ' eq_refl). by destruct (f m) as [a m'].
Qed.

Lemma ends_executes_raw {A : Type} C (Q : result StoreError A -> Machine P -> Prop) op m :
  (m_writes m = Some O -> C m) ->
  (forall m', calm (with_database m (snd (op (database m)))) m' -> Q (fst (op (database m))) m') ->
  ends C Q (executes_raw op m).
Proof.
  intros HC HQ. apply ends_change; [done|intros w Hw|intros Hw].
  - change (database (set_m_writes m w)) with (database m).
    destruct (op (database m)) as [r s]; cbn in *. apply HQ. by constructor.
  - destruct (op (database m)) as [r s]; cbn in *. by apply HQ.
Qed.

Lemma ends_executes {A : Type} C (Q : A -> Machine P -> Prop) op m :
  (m_writes m = Some O -> C m) ->
  (forall a s m', op (database m) = (Ok a, s) -> calm (with_database m s) m' -> Q a m') ->
  (forall e s m', op (database m) = (Err e, s) -> calm (with_database m s) m' -> C m') ->
  ends C Q (executes op m).
Proof.
  intros HC HQ HE. unfold executes. apply ends_bind, ends_executes_raw; [done|].
  destruct (op (database m)) as [[a|e] s]; intros m' Hm'; cbn in *; eauto.
Qed.

Lemma ends_put_file C (Q : unit -> Machine P -> Prop) path bytes m :
  (m_writes m = Some O -> C m) -> (forall m', calm (with_file m path bytes) m' -> Q tt m') ->
  ends C Q (put_file path bytes m).
Proof.
  intros HC HQ. apply ends_change; [done|intros w Hw|intros Hw]; apply HQ; by constructor.
Qed.

Lemma ends_remove_file C (Q : unit -> Machine P -> Prop) path m :
  (m_writes m = Some O -> C m) ->
  (forall m', calm (set_m_files m (delete path (m_files m))) m' -> Q tt m') ->
  ends C Q (remove_file path m).
Proof.
  intros HC HQ. apply ends_change; [done|intros w Hw|intros Hw]; apply HQ; by constructor.
Qed.

Lemma ends_write_file C (Q : unit -> Machine P -> Prop) path bytes m :
  (m_writes m = Some O -> C m) ->
  (forall m', calm (with_file m path []) m' -> m_writes m' = Some O -> C m') ->
  (forall m', calm (with_file m path bytes) m' -> Q tt m') ->
  ends C Q (write_file path bytes m).
Proof.
  intros HC HC' HQ. apply ends_bind, ends_put_file; [done|]. intros m1 Ha.
  apply ends_put_file; [auto|]. intros m2 Hb. apply HQ. destruct Ha, Hb.
  constructor.
  - intros l. rewrite calm_secrets1. apply calm_secrets0.
  - rewrite calm_database1. apply calm_database0.
  - rewrite calm_files1. cbn. rewrite calm_files0. cbn. by rewrite insert_insert_eq.
  - rewrite calm_backups1. apply calm_backups0.
  - auto.
Qed.

(** A change of one locator, by a call of the key store that leaves the others. *)
Lemma ends_key_store {A : Type} C (Q : A -> Machine P -> Prop) locator
    (call : P -> A * P) m :
  (forall l p, l <> locator -> secret_at l (snd (call p)) = secret_at l p) ->
  (m_writes m = Some O -> C m) ->
  (forall m', only_secret locator m m' ->
     secrets m' locator = secret_at locator (snd (call (m_provider m))) ->
     Q (fst (call (m_provider m))) m') ->
  ends C Q (change (fun m => let '(r, p) := call (m_provider m) in
                                (r, set_m_provider m p)) m).
Proof.
  intros Hl HC HQ. specialize (fun l => Hl l (m_provider m)).
  apply ends_change; [done|intros w Hw|intros Hw]; cbn;
    destruct (call (m_provider m)) as [r p]; cbn in *; apply HQ; try done.
Qed.

Lemma ends_write_secret C (Q : unit -> Machine P -> Prop) locator secret m :
  (m_writes m = Some O -> C m) ->
  (forall m', only_secret locator m m' -> secrets m' locator = Some secret -> Q tt m') ->
  (forall m', is_ok (fst (store_secret locator secret (m_provider m))) = false ->
     only_secret locator m m' -> C m') ->
  ends C Q (write_secret locator secret m).
Proof.
  intros HC HQ HE. unfold write_secret. apply ends_bind.
  apply (ends_key_store _ _ locator (store_secret locator secret)); [|done|].
  - intros l p Hl. by apply store_other.
  - intros m' Hm' Hs. pose proof (stored_reads_back locator secret (m_provider m)) as Hback.
    destruct (store_secret locator secret (m_provider m)) as [[[]|e] p]; cbn in *; [|auto].
    apply HQ; [done|]. by rewrite Hs, Hback.
Qed.

Lemma ends_remove_secret C (Q : result ProviderError unit -> Machine P -> Prop) locator m :
  (m_writes m = Some O -> C m) ->
  (forall r m', r = fst (delete_secret locator (m_provider m)) -> only_secret locator m m' ->
     (is_ok r = true -> secrets m' locator = None) -> Q r m') ->
  ends C Q (remove_secret locator m).
Proof.
  intros HC HQ. unfold remove_secret.
  apply (ends_key_store _ _ locator (delete_secret locator)); [|done|].
  - intros l p Hl. by apply delete_other.
  - intros m' Hm' Hs. apply HQ; [done|done|]. intros Hr. rewrite Hs. by apply deleted_is_gone.
Qed.
End Logic.

(** One step of a process, by the rule of its head. *)
Ltac process_step :=
  cbv beta;
  lazymatch goal with
  | |- ends _ _ ((_ ≫= _) _) => apply ends_bind
  | |- ends _ _ (mret _ _) => apply ends_ret
  | |- ends _ _ (exit_with _ _) => apply ends_exit
  | |- ends _ _ (crash _) => apply ends_crash
  | |- ends _ _ (attempting _ _ _) => apply ends_attempting
  | |- ends _ _ (expecting _ _ _) => apply ends_expecting
  | |- ends _ _ (demand _ _ _) => apply ends_demand
  | |- ends _ _ (looking _ _) => apply ends_looking
  | |- ends _ _ (sampling _ _) => apply ends_sampling
  | |- ends _ _ (println _ _) => apply ends_println
  | |- ends _ _ (println_each _ _) => apply ends_println_each
  | |- ends _ _ (open_store _) => apply ends_open_store
  | |- ends _ _ (selects _ _) => apply ends_selects
  | |- ends _ _ (executes _ _) => apply ends_executes
  | |- ends _ _ (executes_raw _ _) => apply ends_executes_raw
  | |- ends _ _ (secret_exists _ _) => apply ends_exists
  | |- ends _ _ (file_exists _ _) => apply ends_file_exists
  | |- ends _ _ (read_to_string _ _) => apply ends_read_to_string
  | |- ends _ _ (read_secret _ _) => apply ends_read_secret
  | |- ends _ _ (write_secret _ _ _) => apply ends_write_secret
  | |- ends _ _ (remove_secret _ _) => apply ends_remove_secret
  | |- ends _ _ (put_file _ _ _) => apply ends_put_file
  | |- ends _ _ (remove_file _ _) => apply ends_remove_file
  | |- ends _ _ (write_file _ _ _) => apply ends_write_file
  end.
