(* ===== verification/KeyFacts.v ===== *)
(** * KeyFacts: what the verification of the log depends on

    The verification of [AuditChain.v] reads two tables of keys. These lemmas say
    that more keys never hurt, which rows the tables of keys give out, and how the
    statements that register and retire keys change them. *)

From S2P Require Import Prelude.
From S2P Require Import Externals.
From S2P Require Import Domain.
From S2P Require Import Crypto.
From S2P Require Import AuditChain.
From S2P Require Import Provider.
From S2P Require Import Table.
From S2P Require Import Store.

(** ** Numbered names *)

(** The number that decimal digits write, after the number [acc]. *)
Fixpoint digits_value (acc : Z) (s : string) : Z :=
  match s with
  | EmptyString => acc
  | String a s => digits_value (acc * 10 + (Z.of_N (N_of_ascii a) - 48)) s
  end.

Lemma digits_of_value fuel z acc :
  0 <= z < 10 ^ Z.of_nat fuel -> digits_value 0 (digits_of fuel z acc) = digits_value z acc.
Proof.
  revert z acc. induction fuel as [|fuel IH]; intros z acc Hz.
  { cbn in *. by replace z with 0 by lia. }
  cbn [digits_of]. set (digit := ascii_of_N _).
  assert (Hd : Z.of_N (N_of_ascii digit) - 48 = z mod 10).
  { pose proof (Z.mod_pos_bound z 10 ltac:(lia)). subst digit.
    rewrite N_ascii_embedding by lia. lia. }
  pose proof (Z.div_mod z 10 ltac:(lia)) as Hm. destruct (Z.eqb_spec (z / 10) 0) as [E|E].
  - cbn [digits_value]. rewrite Hd. f_equal. lia.
  - rewrite IH; [cbn [digits_value]; rewrite Hd; f_equal; lia|].
    rewrite Nat2Z.inj_succ, Z.pow_succ_r in Hz by lia.
    split; [apply Z.div_pos; lia | apply Z.div_lt_upper_bound; lia].
Qed.

Lemma format_unsigned_inj a b :
  u32_range a -> u32_range b -> format_unsigned a = format_unsigned b -> a = b.
Proof.
  unfold u32_range, format_unsigned. intros Ha Hb E.
  assert (forall z, 0 <= z < 2 ^ 32 -> digits_value 0 (digits_of 20 z EmptyString) = z) as Hv.
  { intros z Hz. apply (digits_of_value 20 z EmptyString). cbn. lia. }
  by rewrite <-(Hv a Ha), <-(Hv b Hb), E.
Qed.

(** ** The verification with more keys *)

Section Verification.
Context `{Hashes, Chrono, Signatures}.

Lemma recompute_more (ks ks' : gmap Z (list byte)) e h :
  ks ⊆ ks' -> recompute_hash ks e = Ok h -> recompute_hash ks' e = Ok h.
Proof.
  intros Hk. unfold recompute_hash. destruct (_ =? 0); [done|].
  intros (k & Hl & Hr)%bind_Ok_inv. apply ok_or_Ok in Hl.
  by rewrite (lookup_weaken _ _ _ _ Hl Hk).
Qed.

Lemma verify_from_more (ks ks' : gmap Z (list byte)) idx prev es :
  ks ⊆ ks' -> verify_from ks idx prev es = Ok tt -> verify_from ks' idx prev es = Ok tt.
Proof.
  intros Hk. revert idx prev. induction es as [|e es IH]; intros idx prev; [done|].
  rewrite !verify_from_cons. intros [(? & ? & Hr) Hv]. split; [|by apply IH].
  split_and!; [done..|]. by eapply recompute_more.
Qed.

Definition checkpoint_ok (events : list AuditEvent) (keys : gmap string (list byte))
    (cp : AuditCheckpoint) : Prop := exists e pk,
  List.find (fun e => ev_sequence e =? cp_sequence cp) events = Some e /\
  ev_event_hash e = cp_event_hash cp /\
  ev_audit_key_version e = cp_audit_key_version cp /\
  keys !! cp_signing_key_id cp = Some pk /\
  verify_signature pk (checkpoint_message cp) (cp_signature cp) = Ok tt.

Lemma verify_checkpoints_iff es cps keys :
  verify_audit_checkpoints es cps keys = Ok tt <-> Forall (checkpoint_ok es keys) cps.
Proof.
  induction cps as [|cp cps IH]; [by split|]. rewrite list.Forall_cons, <-IH.
  cbn [verify_audit_checkpoints]. unfold checkpoint_ok. split.
  - intros (e & He & V)%bind_Ok_inv. apply ok_or_Ok in He.
    match type of V with (if ?b then _ else _) = _ => destruct b eqn:Hb; [done|] end.
    apply bind_Ok_inv in V as (pk & Hpk & V). apply ok_or_Ok in Hpk.
    apply bind_Ok_inv in V as ([] & Hsig & V). apply map_err_Ok in Hsig.
    split; [|done]. exists e, pk. bool_to_prop. split_and!; try done.
    match goal with H : ~ _ <> _ |- _ => by apply dec_stable in H end.
  - intros [(e & pk & -> & Hh & Hv & Hk & Hs) V]. cbn.
    rewrite bool_decide_eq_false_2, Hv, Z.eqb_refl, Hk by (by intros []). cbn.
    by rewrite Hs.
Qed.

Lemma checkpoint_ok_more es (keys keys' : gmap string (list byte)) cp :
  keys ⊆ keys' -> checkpoint_ok es keys cp -> checkpoint_ok es keys' cp.
Proof.
  intros Hk (e & pk & ? & ? & ? & Hl & ?). exists e, pk. split_and!; [done..| |done].
  by eapply lookup_weaken.
Qed.

(** In a verified chain a sequence number finds its event. *)
Lemma find_sequence ks es e :
  verify_audit_chain es ks = Ok tt -> e ∈ es ->
  List.find (fun e' => ev_sequence e' =? ev_sequence e) es = Some e.
Proof.
  intros V Hin. destruct (List.find _ es) as [e'|] eqn:E.
  - apply find_some in E as [Hin' Hs]. apply list_elem_of_In in Hin'. apply Z.eqb_eq in Hs.
    apply list_elem_of_lookup in Hin as [i Hi]. apply list_elem_of_lookup in Hin' as [j Hj].
    rewrite (verified_sequence _ _ _ _ _ _ V Hi), (verified_sequence _ _ _ _ _ _ V Hj) in Hs.
    replace j with i in * by lia. congruence.
  - apply list_elem_of_In in Hin. apply (find_none _ _ E) in Hin. by rewrite Z.eqb_refl in Hin.
Qed.
End Verification.

Lemma collect_perm {E A B : Type} (f : A -> result E B) l l' ys :
  l ≡ₚ l' -> collect f l = Ok ys -> exists ys', collect f l' = Ok ys' /\ ys ≡ₚ ys'.
Proof.
  intros Hl Hy. apply collect_Ok in Hy.
  destruct (Permutation_Forall2 Hl Hy) as (ys' & Hp & Hf).
  exists ys'. split; [by apply collect_Ok | done].
Qed.

(** ** The trusted signing keys *)

Definition trusted (s : Store) : gmap string (list byte) :=
  default ∅ (result_ok (get_trusted_signing_keys s)).

(** Every row has one of the two states the table is written with. *)
Definition signing_row_ok (row : SigningKeyRow) : Prop :=
  skr_state row = "active" \/ skr_state row = "retired".

Definition signing_rows_ok (rows : list SigningKeyRow) : Prop :=
  NoDup (map skr_key_id rows) /\ Forall signing_row_ok rows.

Definition row_map (acc : gmap string (list byte)) (rows : list SigningKeyRow) :=
  fold_left (fun m row => <[skr_key_id row := skr_public_key row]> m) rows acc.

Lemma row_map_snoc acc rows row :
  row_map acc (rows ++ [row]) = <[skr_key_id row := skr_public_key row]> (row_map acc rows).
Proof. apply fold_left_app. Qed.

Lemma trusted_row_map s :
  Forall signing_row_ok (trusted_signing_keys s) -> trusted s = row_map ∅ (trusted_signing_keys s).
Proof.
  intros Ho. unfold trusted, get_trusted_signing_keys, select_where. cbn. unfold row_map. f_equal.
  induction Ho as [|row rows Hr _ IH]; [done|]. cbn.
  by destruct Hr as [-> | ->]; cbn; rewrite IH.
Qed.

Lemma row_map_absent id acc rows :
  ~ id ∈ map skr_key_id rows -> row_map acc rows !! id = acc !! id.
Proof.
  revert acc. induction rows as [|row rows IH]; intros acc Hn; [done|]. cbn in Hn.
  etransitivity; [apply IH; set_solver|]. apply lookup_insert_ne. set_solver.
Qed.

Lemma row_map_row acc rows row :
  NoDup (map skr_key_id rows) -> row ∈ rows ->
  row_map acc rows !! skr_key_id row = Some (skr_public_key row).
Proof.
  revert acc. induction rows as [|r rows IH]; intros acc Hd Hin; [set_solver|].
  apply list.NoDup_cons in Hd as [Hn Hd]. apply elem_of_cons in Hin as [->|Hin]; [|by apply IH].
  cbn. etransitivity; [by apply row_map_absent|]. apply lookup_insert_eq.
Qed.

Lemma row_map_update p f acc rows :
  (forall r, skr_key_id (f r) = skr_key_id r /\ skr_public_key (f r) = skr_public_key r) ->
  row_map acc (update_where p f rows) = row_map acc rows.
Proof.
  intros Hf. revert acc. induction rows as [|r rows IH]; intros acc; [done|]. cbn.
  destruct (p r); [|apply IH]. destruct (Hf r) as [-> ->]. apply IH.
Qed.

Section SigningKeys.
Context `{Chrono}.

Lemma trusted_row s row :
  signing_rows_ok (trusted_signing_keys s) -> row ∈ trusted_signing_keys s ->
  trusted s !! skr_key_id row = Some (skr_public_key row).
Proof. intros [Hd Ho] Hin. rewrite trusted_row_map by done. by apply row_map_row. Qed.

(** Retiring a key leaves it trusted. *)
Lemma retire_signing_key_spec id now s r s' :
  retire_signing_key id now s = (r, s') -> signing_rows_ok (trusted_signing_keys s) ->
  exists rows, s' = set_trusted_signing_keys s rows /\ signing_rows_ok rows /\
    trusted s' = trusted s /\ map skr_key_id rows = map skr_key_id (trusted_signing_keys s) /\
    (forall row, row ∈ rows -> skr_state row = "active" -> row ∈ trusted_signing_keys s /\
       skr_key_id row <> id) /\
    (r <> Ok tt -> forall row, row ∈ trusted_signing_keys s -> skr_state row = "active" ->
       skr_key_id row <> id).
Proof.
  unfold retire_signing_key, update_table. set (rows := trusted_signing_keys s).
  set (p := fun row => _ && _). set (f := fun row => Build_SigningKeyRow _ _ _ _ _).
  intros Hs [Hd Ho]. exists (update_where p f rows).
  assert (s' = set_trusted_signing_keys s (update_where p f rows)) as ->.
  { destruct (negb _) in Hs; by injection Hs as <- <-. }
  assert (Hids : map skr_key_id (update_where p f rows) = map skr_key_id rows)
    by by apply map_update_where.
  assert (Ho' : Forall signing_row_ok (update_where p f rows)).
  { apply list.Forall_forall. intros r0 (r1 & Hin & ->)%elem_of_update_where.
    destruct (p r1); [by right|]. rewrite list.Forall_forall in Ho. by apply Ho. }
  split_and!; try done.
  - split; [by rewrite Hids | done].
  - rewrite !trusted_row_map by done. by apply row_map_update.
  - intros r0 (r1 & Hin & ->)%elem_of_update_where Hact. destruct (p r1) eqn:E; [done|].
    split; [done|]. intros Hid. subst p. cbn in E.
    by rewrite Hact, Hid, !bool_decide_eq_true_2 in E by done.
  - intros Hr r0 Hin Hact Hid. destruct (Z.eqb_spec (count_where p rows) 1) as [E|E].
    { cbn in Hs. by injection Hs as <-. }
    assert (count_where p rows <> 0).
    { intros Hz. apply count_where_zero with (r := r0) in Hz; [|done]. subst p. cbn in Hz.
      by rewrite Hact, Hid, !bool_decide_eq_true_2 in Hz by done. }
    pose proof (count_where_le skr_key_id p rows Hd) as Hle. destruct Hle; [|lia].
    intros r1 r2 H1 H2. subst p. cbn in H1, H2. bool_to_prop. congruence.
Qed.

(** Registering a key under a new name adds it. *)
Lemma register_signing_key_spec id pk now s :
  ~ id ∈ map skr_key_id (trusted_signing_keys s) -> signing_rows_ok (trusted_signing_keys s) ->
  let rows := trusted_signing_keys s ++ [signing_key_row id pk "active" now] in
  register_signing_key id pk "active" now s = (Ok tt, set_trusted_signing_keys s rows) /\
  signing_rows_ok rows /\
  trusted (set_trusted_signing_keys s rows) = <[id := pk]> (trusted s) /\ trusted s !! id = None.
Proof.
  intros Hn [Hd Ho] rows.
  assert (Ho' : Forall signing_row_ok rows).
  { apply list.Forall_app. split; [done|]. apply list.Forall_singleton. by left. }
  split_and!.
  - unfold register_signing_key, commit. cbv zeta.
    destruct (existsb _ _) eqn:E; [|done]. apply existsb_exists in E as (row & Hin & Hid).
    bool_to_prop. destruct Hn. apply list_elem_of_In, in_map_iff. eauto.
  - split; [|done]. unfold rows. rewrite map_app. apply list.NoDup_app.
    split_and!; [done| |apply list.NoDup_singleton]. intros x Hx ->%list_elem_of_singleton. by cbn in Hx.
  - rewrite !trusted_row_map by done. apply row_map_snoc.
  - rewrite trusted_row_map by done. rewrite row_map_absent by done. apply lookup_empty.
Qed.
End SigningKeys.

(** ** The versions of the audit key *)

Definition audit_rows_ok (rows : list AuditKeyRow) : Prop :=
  NoDup (map akr_version rows) /\ Forall (fun row => u32_range (akr_version row)) rows.

(** The table as it is given out. *)
Definition versions (s : Store) : list (Z * string * string) :=
  default [] (result_ok (get_audit_key_versions s)).
Definition version_of (entry : Z * string * string) : Z := fst (fst entry).

(** The newest version, 0 when there is none. *)
Definition newest (s : Store) : Z := fold_left Z.max (map version_of (versions s)) 0.

Lemma fold_max l z :
  z <= fold_left Z.max l z /\ Forall (fun x => x <= fold_left Z.max l z) l.
Proof.
  revert z. induction l as [|x l IH]; intros z; cbn; [split; [lia|done]|].
  destruct (IH (Z.max z x)) as [Hz Hl]. split; [lia|]. constructor; [lia|done].
Qed.

Section AuditKeys.
Context `{Chrono}.

Lemma versions_eq s : get_audit_key_versions s = Ok (versions s).
Proof. done. Qed.

Lemma wrap_u32_small z : u32_range z -> wrap_u32 z = z.
Proof. unfold u32_range, wrap_u32. apply Z.mod_small. Qed.

Lemma elem_of_versions s v l st :
  audit_rows_ok (audit_key_versions s) ->
  (v, l, st) ∈ versions s <-> exists row, row ∈ audit_key_versions s /\
    akr_version row = v /\ akr_key_locator row = l /\ akr_state row = st.
Proof.
  intros [_ Hr]. unfold versions. cbn. rewrite list_elem_of_In, in_map_iff.
  setoid_rewrite <-list_elem_of_In. setoid_rewrite order_by_perm.
  rewrite list.Forall_forall in Hr. split.
  - intros (row & [= <- <- <-] & Hin). exists row. rewrite wrap_u32_small by by apply Hr. done.
  - intros (row & Hin & <- & <- & <-). exists row. by rewrite wrap_u32_small by by apply Hr.
Qed.

Lemma versions_NoDup s :
  audit_rows_ok (audit_key_versions s) -> NoDup (map version_of (versions s)).
Proof.
  intros [Hd Hr]. unfold versions. cbn. rewrite map_map. cbn.
  rewrite (map_ext_in _ akr_version).
  - by rewrite (Permutation_map akr_version (order_by_perm _ (audit_key_versions s))).
  - intros row Hin%list_elem_of_In. rewrite order_by_perm in Hin.
    rewrite list.Forall_forall in Hr. by apply wrap_u32_small, Hr.
Qed.

Lemma newest_nonneg s : 0 <= newest s.
Proof. apply fold_max. Qed.

Lemma newest_greatest s row :
  audit_rows_ok (audit_key_versions s) -> row ∈ audit_key_versions s -> akr_version row <= newest s.
Proof.
  intros Ho Hin. pose proof (proj2 (fold_max (map version_of (versions s)) 0)) as Hm.
  rewrite list.Forall_forall in Hm. apply Hm. apply list_elem_of_In, in_map_iff.
  exists (akr_version row, akr_key_locator row, akr_state row). split; [done|].
  apply list_elem_of_In, elem_of_versions; eauto.
Qed.

Lemma newest_bound s b :
  audit_rows_ok (audit_key_versions s) -> 0 <= b ->
  (forall row, row ∈ audit_key_versions s -> akr_version row <= b) -> newest s <= b.
Proof.
  intros Ho Hb Hall.
  assert (Hl : Forall (fun v => v <= b) (map version_of (versions s))).
  { apply list.Forall_forall. intros v ([[v' l] st] & <- & Hin)%list_elem_of_In%in_map_iff.
    apply list_elem_of_In, elem_of_versions in Hin as (row & Hin & <- & _); [|done].
    by apply Hall. }
  unfold newest. revert Hb. generalize 0. induction Hl as [|v vs Hv _ IH]; intros z Hz; [done|].
  cbn. apply IH. lia.
Qed.

(** *** The keys that are found *)

(** The keys the versions name, when each is found. *)
Fixpoint keys_found (found : string -> option (list byte)) (vs : list (Z * string * string)) :
    option (gmap Z (list byte)) :=
  match vs with
  | [] => Some ∅
  | (version, locator, _) :: vs =>
      key ← found locator; keys ← keys_found found vs; Some (<[version := key]> keys)
  end.

Lemma keys_found_ext found found' vs :
  (forall l, found' l = found l) -> keys_found found' vs = keys_found found vs.
Proof. intros Hf. induction vs as [|[[v l] st] vs IH]; [done|]. cbn. by rewrite Hf, IH. Qed.

Lemma keys_found_lookup found vs ks v k :
  keys_found found vs = Some ks -> NoDup (map version_of vs) ->
  ks !! v = Some k <-> exists l st, (v, l, st) ∈ vs /\ found l = Some k.
Proof.
  revert ks. induction vs as [|[[v' l'] st'] vs IH]; intros ks Hk Hd; cbn in Hk.
  { injection Hk as <-. split; [done|]. intros (? & ? & ? & _). set_solver. }
  apply list.NoDup_cons in Hd as [Hn Hd].
  destruct (found l') as [k'|] eqn:Hf; [|done]. cbn in Hk.
  destruct (keys_found found vs) as [ks'|]; [|done]. injection Hk as <-.
  specialize (IH ks' eq_refl Hd). setoid_rewrite elem_of_cons.
  destruct (decide (v' = v)) as [<-|Hv].
  - rewrite lookup_insert_eq. split; [intros [= <-]; eauto|].
    intros (l & st & [[= -> ->]|Hin] & Hl); [congruence|]. destruct Hn.
    apply list_elem_of_In, in_map_iff. exists (v', l, st). by rewrite <-list_elem_of_In.
  - rewrite lookup_insert_ne by done. rewrite IH. split; [naive_solver|].
    intros (l & st & [[= -> ->]|Hin] & Hl); [done|eauto].
Qed.

Lemma keys_found_all found vs :
  is_Some (keys_found found vs) <-> forall v l st, (v, l, st) ∈ vs -> is_Some (found l).
Proof.
  induction vs as [|[[v' l'] st'] vs IH]; cbn; [split; [set_solver|by eexists]|].
  setoid_rewrite elem_of_cons. destruct (found l') as [k'|] eqn:Hf; cbn.
  - transitivity (is_Some (keys_found found vs)).
    { destruct (keys_found found vs); cbn; split; intros [? ?]; by eexists. }
    rewrite IH. split; intros Ha v l st; [|by eauto].
    intros [[= -> -> ->]|Hin]; [by rewrite Hf|by eapply Ha].
  - split; [by intros []|]. intros Ha. destruct (Ha v' l' st') as [k Hk]; [by left|congruence].
Qed.

(** What is found among more versions includes what was found before. *)
Lemma keys_found_more found found' s s' ks :
  audit_rows_ok (audit_key_versions s) -> audit_rows_ok (audit_key_versions s') ->
  keys_found found (versions s) = Some ks ->
  (forall row, row ∈ audit_key_versions s -> exists row', row' ∈ audit_key_versions s' /\
     akr_version row' = akr_version row /\ akr_key_locator row' = akr_key_locator row /\
     found' (akr_key_locator row) = found (akr_key_locator row)) ->
  (forall row, row ∈ audit_key_versions s' -> is_Some (found' (akr_key_locator row))) ->
  exists ks', keys_found found' (versions s') = Some ks' /\ ks ⊆ ks'.
Proof.
  intros Ho Ho' Hk Hr Ha.
  destruct (proj2 (keys_found_all found' (versions s'))) as [ks' Hk'].
  { intros v l st (row & Hin & _ & <- & _)%elem_of_versions; [by apply Ha|done]. }
  exists ks'. split; [done|]. apply map_subseteq_spec. intros v k.
  rewrite (keys_found_lookup _ _ _ _ _ Hk), (keys_found_lookup _ _ _ _ _ Hk')
    by by apply versions_NoDup.
  intros (l & st & (row & Hin & <- & <- & _)%elem_of_versions & Hf); [|done].
  destruct (Hr row Hin) as (row' & Hin' & Hv & Hl & Hf').
  exists (akr_key_locator row'), (akr_state row'). rewrite elem_of_versions by done.
  split; [by exists row'|]. by rewrite Hl, Hf'.
Qed.

(** *** The statements *)

Lemma later_version_fold l best :
  match fold_left later_version l best with
  | Some (v, locator) => best = Some (v, locator) \/ exists st, (v, locator, st) ∈ l
  | None => best = None /\ l = []
  end.
Proof.
  revert best. induction l as [|[[v' l'] st'] l IH]; intros best; cbn [fold_left].
  { destruct best as [[]|]; auto. }
  specialize (IH (later_version best (v', l', st'))).
  destruct (fold_left later_version l _) as [[v locator]|].
  - destruct IH as [IH|(st & IH)]; [|right; exists st; by right].
    cbn in IH. destruct best as [[v0 l0]|]; [destruct (v0 <=? v')|]; naive_solver set_solver.
  - destruct IH as [IH _]. cbn in IH.
    destruct best as [[v0 l0]|]; [destruct (v0 <=? v')|]; discriminate IH.
Qed.

Lemma active_audit_key_spec s :
  audit_rows_ok (audit_key_versions s) -> exists active,
    active_audit_key_version s = Ok active /\
    match active with
    | Some (v, l) => exists row, row ∈ audit_key_versions s /\ akr_version row = v /\
        akr_key_locator row = l /\ akr_state row = "active"
    | None => forall row, row ∈ audit_key_versions s -> akr_state row <> "active"
    end.
Proof.
  intros Ho. eexists. split; [done|]. set (actives := List.filter _ _).
  assert (Ha : forall v l st, (v, l, st) ∈ actives <-> st = "active" /\ (v, l, st) ∈ versions s).
  { intros v l st. unfold actives. rewrite list_elem_of_In, filter_In, <-list_elem_of_In.
    rewrite bool_decide_eq_true. unfold versions. cbn. tauto. }
  pose proof (later_version_fold actives None) as Hf.
  destruct (fold_left later_version actives None) as [[v l]|].
  - destruct Hf as [Hf|(st & [-> Hin]%Ha)]; [done|]. by apply elem_of_versions in Hin.
  - destruct Hf as [_ Hf]. intros row Hin Hact.
    assert (Hin' : (akr_version row, akr_key_locator row, "active") ∈ actives).
    { apply Ha. split; [done|]. apply elem_of_versions; eauto. }
    rewrite Hf in Hin'. set_solver.
Qed.

(** Retiring a version leaves it in the table. *)
Definition version_locator (row : AuditKeyRow) : Z * string :=
  (akr_version row, akr_key_locator row).

Lemma elem_of_version_locators rows rows' row :
  map version_locator rows' = map version_locator rows -> row ∈ rows ->
  exists row', row' ∈ rows' /\ akr_version row' = akr_version row /\
    akr_key_locator row' = akr_key_locator row.
Proof.
  intros Hm Hin. assert (Hin' : In (version_locator row) (map version_locator rows')).
  { rewrite Hm. by apply in_map, list_elem_of_In. }
  apply in_map_iff in Hin' as (row' & [= ? ?] & Hin'). exists row'.
  by rewrite list_elem_of_In.
Qed.

Lemma retire_audit_key_spec v now s r s' :
  retire_audit_key_version v now s = (r, s') -> audit_rows_ok (audit_key_versions s) ->
  exists rows, s' = set_audit_key_versions s rows /\ audit_rows_ok rows /\
    map version_locator rows = map version_locator (audit_key_versions s) /\
    (r <> Ok tt -> forall row, row ∈ audit_key_versions s -> akr_state row = "active" ->
       akr_version row <> v).
Proof.
  unfold retire_audit_key_version, update_table. set (rows := audit_key_versions s).
  set (p := fun row => _ && _). set (f := fun row => Build_AuditKeyRow _ _ _ _ _).
  intros Hs [Hd Ho]. exists (update_where p f rows).
  assert (s' = set_audit_key_versions s (update_where p f rows)) as ->.
  { destruct (negb _) in Hs; by injection Hs as <- <-. }
  split_and!; try by apply map_update_where.
  - done.
  - split; [by rewrite map_update_where|]. apply list.Forall_forall.
    intros r0 (r1 & Hin & ->)%elem_of_update_where. rewrite list.Forall_forall in Ho.
    destruct (p r1); exact (Ho r1 Hin).
  - intros Hr r0 Hin Hact Hv. destruct (Z.eqb_spec (count_where p rows) 1) as [E|E].
    { cbn in Hs. by injection Hs as <-. }
    assert (Hp : p r0 = true) by (subst p; cbn; by rewrite Hact, Hv, Z.eqb_refl).
    assert (count_where p rows <> 0).
    { intros Hz. apply count_where_zero with (r := r0) in Hz; [|done]. congruence. }
    pose proof (count_where_le akr_version p rows Hd) as Hle. destruct Hle; [|lia].
    intros r1 r2 H1 H2. subst p. cbn in H1, H2. bool_to_prop. congruence.
Qed.

(** Registering a new version under a new locator adds it. *)
Lemma register_audit_key_spec v locator now s :
  ~ v ∈ map akr_version (audit_key_versions s) ->
  ~ locator ∈ map akr_key_locator (audit_key_versions s) ->
  audit_rows_ok (audit_key_versions s) -> u32_range v ->
  let rows := audit_key_versions s ++ [audit_key_row v locator "active" now] in
  register_audit_key_version v locator "active" now s = (Ok tt, set_audit_key_versions s rows) /\
  audit_rows_ok rows.
Proof.
  intros Hv Hl [Hd Ho] Hr rows. split.
  - unfold register_audit_key_version, commit. cbv zeta.
    destruct (existsb _ _) eqn:E.
    { apply existsb_exists in E as (row & Hin & Hid). bool_to_prop. destruct Hl.
      apply list_elem_of_In, in_map_iff. eauto. }
    destruct (existsb (fun row => akr_version row =? v) _) eqn:E'; [|done].
    apply existsb_exists in E' as (row & Hin & Hid). bool_to_prop. destruct Hv.
    apply list_elem_of_In, in_map_iff. eauto.
  - split.
    + unfold rows. rewrite map_app. apply list.NoDup_app.
      split_and!; [done| |apply list.NoDup_singleton].
      intros x Hx ->%list_elem_of_singleton. by cbn in Hx.
    + apply list.Forall_app. split; [done|]. by apply list.Forall_singleton.
Qed.
End AuditKeys.
