(* ===== verification/Startup.v ===== *)
(** * Startup: the main function of the daemon

    Models [secretctld/src/main.rs]: where the keys, the policy and the recipes
    of a broker come from, and what the process leaves when it is stopped. The
    sockets are those of [Daemon.v]; what is printed of a path is relative to
    the installation directory. *)

From S2P Require Import Prelude.
From S2P Require Import Externals.
From S2P Require Import Domain.
From S2P Require Import Policy.
From S2P Require Import Crypto.
From S2P Require Import DomView.
From S2P Require Import AuditChain.
From S2P Require Import Capability.
From S2P Require Import Provider.
From S2P Require Import Table.
From S2P Require Import Store.
From S2P Require Import OAuth.
From S2P Require Import Protocol.
From S2P Require Import Framing.
From S2P Require Import BrokerState.
From S2P Require Import Broker.
From S2P Require Import Admin.
From S2P Require Import Ui.
From S2P Require Import Pages.
From S2P Require Import Wire.
From S2P Require Import Handshake.
From S2P Require Import Server.
From S2P Require Import Daemon.
From S2P Require Import Installation.

Definition SIGNING_KEY_LOCATOR : string := "installation-signing-key".
Definition FIRST_SIGNING_KEY : string := "broker-key-v1".
Definition FIRST_AUDIT_KEY : string := "audit-chain-key-v1".
Definition BROKER_KEY_PUB : string := "broker_key.pub".
Definition POLICY_YAML : string := "policy.yaml".

(** [read_dir] lists the entries of a directory in any order; [from_str] of a
    recipe is derived. *)
Class RecipeFiles := {
  dir_order : list string -> list string;
  recipe_from_str : string -> result string SiteRecipe
}.
Class RecipeFilesLaws `{RecipeFiles} := { dir_order_perm l : dir_order l ≡ₚ l }.

(** ** Keys and policy *)

Section Keys.
Context `{Chrono, Hashes, Signatures, !Environment, SqliteText, FileErrors, PolicySerializer,
  PolicyYaml} {P : Type} `{SecretProvider P}.

(** [KeyPair::generate], from 32 bytes of the system's generator. *)
Definition generate_key : Process P KeyPair :=
  bytes ← sampling env_random; mret {| signing_key := bytes |}.

Definition stored_key : Process P KeyPair :=
  secret ← read_secret SIGNING_KEY_LOCATOR;
  attempting crypto_error_text (keypair_from_bytes (secret_as_bytes secret)).

(** A key store that cannot say whether it holds the key counts as holding
    none. *)
Definition broker_keypair : Process P KeyPair :=
  present ← secret_exists SIGNING_KEY_LOCATOR;
  if default false (result_ok present) then stored_key
  else
    keypair ← generate_key;
    write_secret SIGNING_KEY_LOCATOR (keypair_to_bytes keypair);;
    write_file BROKER_KEY_PUB (public_key_bytes keypair);;
    mret keypair.

Definition deny_all : PolicyDocument := {| doc_version := "1.0"; doc_rules := [] |}.

Definition load_policy : Process P PolicyEvaluator :=
  present ← file_exists POLICY_YAML;
  document ← (if (present : bool) then
      content ← read_to_string POLICY_YAML;
      attempting id (from_yaml content)
    else mret deny_all);
  mret (evaluator_new document).

Definition ensure_signing_key (key : KeyPair) : Process P string :=
  active ← selects active_signing_key_id;
  let signing_key_id := default FIRST_SIGNING_KEY active in
  again ← selects active_signing_key_id;
  (if bool_decide (again = None) then
     now ← sampling env_now;
     executes (register_signing_key signing_key_id (public_key_bytes key) "active" now)
   else mret tt);;
  mret signing_key_id.

Definition audit_secret (locator : string) : Process P SecretBytes :=
  present ← secret_exists locator;
  present ← attempting provider_error_text present;
  if (present : bool) then read_secret locator
  else
    bytes ← sampling env_random;
    write_secret locator bytes;;
    mret {| secret_data := bytes |}.

Definition ensure_audit_key : Process P (Z * SecretBytes) :=
  active ← selects active_audit_key_version;
  let '(version, locator) := default (1, FIRST_AUDIT_KEY) active in
  key ← audit_secret locator;
  again ← selects active_audit_key_version;
  (if bool_decide (again = None) then
     now ← sampling env_now;
     executes (register_audit_key_version version locator "active" now)
   else mret tt);;
  mret (version, key).
End Keys.

(** ** Recipes *)

Fixpoint validate_recipe_metadata_keys (value : Json) (path : string) : result string unit :=
  match value with
  | JObject fields =>
      (fix validate_fields (fields : list (string * Json)) : result string unit :=
         match fields with
         | [] => Ok tt
         | (key, value) :: fields =>
             if contains_prohibited_key_name key
             then Err ("prohibited secret-bearing recipe key at " +:+ path +:+ "." +:+ key)
             else
               _ ← validate_recipe_metadata_keys value (path +:+ "." +:+ key);
               validate_fields fields
         end) fields
  | JArray items =>
      (fix validate_items (index : Z) (items : list Json) : result string unit :=
         match items with
         | [] => Ok tt
         | value :: items =>
             _ ← validate_recipe_metadata_keys value
                   (path +:+ "[" +:+ format_unsigned index +:+ "]");
             validate_items (index + 1) items
         end) 0 items
  | _ => Ok tt
  end.

(** [Path::extension] of a file name: what follows its last dot, unless the dot
    is its first character. *)
Fixpoint split_last_dot (name : string) : option (string * string) :=
  match name with
  | EmptyString => None
  | String a rest =>
      match split_last_dot rest with
      | Some (stem, extension) => Some (String a stem, extension)
      | None => if bool_decide (a = "."%char) then Some (EmptyString, rest) else None
      end
  end.
Definition extension (name : string) : option string :=
  match split_last_dot name with
  | Some (EmptyString, _) | None => None
  | Some (_, extension) => Some extension
  end.

(** The names in the directory [recipes]: the paths right below it. *)
Definition RECIPES : string := "recipes/".
Definition has_slash (name : string) : bool := contains name "/".
Definition recipe_names {P : Type} (m : Machine P) : list string :=
  List.filter (fun name => negb (has_slash name))
    (omap (fun path => if starts_with path RECIPES
                       then Some (drop_prefix (String.length RECIPES) path) else None)
       (map fst (map_to_list (m_files m)))).

Definition valid_field_count (recipe : SiteRecipe) : bool :=
  if bool_decide (rcp_action recipe = OAuthAuthorize)
  then bool_decide (rcp_fields recipe = []) && bool_decide (is_Some (rcp_oauth recipe))
  else (1 <=? Z.of_nat (length (rcp_fields recipe)))
       && (Z.of_nat (length (rcp_fields recipe)) <=? 5) && negb (bool_decide (is_Some (rcp_oauth recipe))).

Definition valid_field (field : RecipeField) : bool :=
  negb (bool_decide (rf_role field = EmptyString)) && (slen (rf_role field) <=? 64)
  && negb (is_blank (rf_selector field)).

Definition valid_path_prefix (recipe : SiteRecipe) : bool :=
  match rm_path_prefix (rcp_match_rule recipe) with
  | None => true
  | Some prefix => starts_with prefix "/"
  end.

Definition set_content_hash (recipe : SiteRecipe) (hash : list byte) : SiteRecipe := {|
  rcp_recipe_id := rcp_recipe_id recipe; rcp_version := rcp_version recipe;
  rcp_name := rcp_name recipe; rcp_action := rcp_action recipe;
  rcp_match_rule := rcp_match_rule recipe; rcp_fields := rcp_fields recipe;
  rcp_submit := rcp_submit recipe; rcp_success_indicators := rcp_success_indicators recipe;
  rcp_oauth := rcp_oauth recipe; rcp_content_hash := hash; rcp_enabled := rcp_enabled recipe |}.

Section Recipes.
Context `{Hashes, JsonCodec, RecipeFiles, FileErrors} {P : Type}.

Definition load_recipe (path : string) : Process P SiteRecipe :=
  content ← read_to_string path;
  value ← attempting id (json_parse content);
  attempting id (validate_recipe_metadata_keys value "$recipe");;
  recipe ← attempting id (recipe_from_str content);
  demand (valid_field_count recipe)
    ("recipe " +:+ path +:+ " must declare OAuth configuration with no fields, or 1 to 5 fields "
     +:+ "without OAuth configuration");;
  demand (forallb valid_field (rcp_fields recipe))
    ("recipe " +:+ path +:+ " contains an invalid field role or selector");;
  demand (valid_path_prefix recipe)
    ("recipe " +:+ path +:+ " path_prefix must begin with '/'");;
  mret (set_content_hash recipe (sha256_digest (as_bytes content))).

Fixpoint load_recipes (names : list string) : Process P (list SiteRecipe) :=
  match names with
  | [] => mret []
  | name :: names =>
      if negb (bool_decide (extension name = Some "json")) then load_recipes names
      else
        recipe ← load_recipe (RECIPES +:+ name);
        recipes ← load_recipes names;
        mret (recipe :: recipes)
  end.
End Recipes.

(** ** The endpoints *)

Definition unix_endpoint (runtime_dir : string) (c : LocalChannel) : string :=
  runtime_dir +:+ "/" +:+ channel_name c +:+ ".sock".

(** [BrokerServer::start] unlinks the three sockets and binds them again; a bound
    socket is a file, and nothing removes it when the process is gone. *)
Definition RUNTIME_DIR : string := "run".
Definition socket_path (c : LocalChannel) : string := unix_endpoint RUNTIME_DIR c.

Definition bind_sockets {P : Type} : Process P unit :=
  remove_file (socket_path ChannelAgent);;
  remove_file (socket_path ChannelExecutor);;
  remove_file (socket_path ChannelAdmin);;
  put_file (socket_path ChannelAgent) [];;
  put_file (socket_path ChannelExecutor) [];;
  put_file (socket_path ChannelAdmin) [].

(** ** The process *)

Section Main.
Context `{ManagedChrome, Chrono, Hashes, Signatures, Aead, X25519, Base64, Cbor, WireCodec,
  UrlParser, JsonCodec, !JsonReader, HashIter, !Environment, HttpClient, SqliteText, UnicodeCase,
  JsonFloats, Monotonic, PeerProcess, PolicySerializer, PolicyYaml, Serde, FileErrors,
  RecipeFiles} {P : Type} `{SecretProvider P, !OtherTasks P}.
Variable platform : HostPlatform.

Definition register_recipes (b : BrokerState P) (loaded : list SiteRecipe) : BrokerState P :=
  fold_left (fun b recipe => set_recipes b (<[rcp_recipe_id recipe := recipe]> (recipes b)))
    loaded b.

(** What becomes of the machine when the broker has it. *)
Definition hand_over (b : BrokerState P) (tick : nat) (m : Machine P) : Machine P := {|
  m_provider := provider b; m_database := Some (store b); m_files := m_files m;
  m_backups := m_backups m; m_tick := tick; m_writes := m_writes m; m_output := m_output m |}.

(** [BrokerState::try_new_with_audit_key] on the machine's database. *)
Definition open_broker (key : KeyPair) (key_id : string) (audit_key : SecretBytes)
    (audit_key_version : Z) (policy : PolicyEvaluator) : Process P (BrokerState P) :=
  now ← sampling env_now;
  p ← looking m_provider;
  r ← executes_raw (fun s => try_new_with_audit_key now key key_id audit_key audit_key_version s
        p policy);
  attempting store_error_chain r.

Definition start_broker : Process P (BrokerState P) :=
  open_store;;
  selects validate_no_prohibited_persisted_keys;;
  key ← broker_keypair;
  policy ← load_policy;
  key_id ← ensure_signing_key key;
  '(version, audit_key) ← ensure_audit_key;
  b ← open_broker key key_id audit_key version policy;
  names ← looking recipe_names;
  loaded ← load_recipes (dir_order names);
  mret (register_recipes b loaded).

Definition serving (b : BrokerState P) (tick : nat) : Daemon P := {|
  dm_world := {| w_broker := b; w_tick := tick |}; dm_next := 0;
  dm_agents := ∅; dm_executors := ∅; dm_admins := ∅ |}.

(** The end of the process: with [ctrl_c] a checkpoint is written; when it is
    killed, as [secretctl stop] does with SIGTERM, what it wrote stays. *)
Definition stop_daemon (w : World P) (interrupted : bool) : Process P unit := fun m =>
  if interrupted then
    match write_audit_checkpoint w with
    | (Done _, w) => (Finished tt, hand_over (w_broker w) (w_tick w) m)
    | (Fail e, w) => (Failed (rpc_message e), hand_over (w_broker w) (w_tick w) m)
    | (Panicked, w) => (Crashed, hand_over (w_broker w) (w_tick w) m)
    end
  else (Killed, hand_over (w_broker w) (w_tick w) m).

(** The whole process: the start, what arrives on the sockets, and the end. *)
Definition daemon_process (events : list DaemonEvent) (interrupted : bool) : Process P unit :=
  b ← start_broker;
  bind_sockets;;
  tick ← looking m_tick;
  stop_daemon (dm_world (daemon_run platform events (serving b tick))) interrupted.
End Main.
