(* ===== verification/Cli.v ===== *)
(** * Cli: the commands of the command line client that work locally

    Models [secretctl-cli/src/main.rs]: the commands that work on the key store,
    the database and the files themselves, from the parsed arguments to the lines
    they print and the code the process exits with. The commands that ask the
    daemon are in [CliAdmin.v]; starting and stopping processes is left out. *)

From S2P Require Import Prelude.
From S2P Require Import Externals.
From S2P Require Import Domain.
From S2P Require Import Policy.
From S2P Require Import Crypto.
From S2P Require Import DomView.
From S2P Require Import AuditChain.
From S2P Require Import Provider.
From S2P Require Import Store.
From S2P Require Import Protocol.
From S2P Require Import Framing.
From S2P Require Import BrokerState.
From S2P Require Import Server.
From S2P Require Import Installation.
From S2P Require Import Startup.

(** ** The arguments, as [clap] hands them over *)

Inductive PrincipalRole : Type := RoleAgent | RoleExecutor.
Definition role_as_str (role : PrincipalRole) : string :=
  match role with RoleAgent => "agent" | RoleExecutor => "executor" end.

Inductive CredentialType : Type := TypePassword | TypeTotp | TypeSensitiveForm.
Definition type_kind (t : CredentialType) : string :=
  match t with
  | TypePassword => "password" | TypeTotp => "totp" | TypeSensitiveForm => "sensitive_form"
  end.
Definition type_action (t : CredentialType) : ActionKind :=
  match t with
  | TypePassword => AuthenticatePassword
  | TypeTotp => AuthenticateTotp
  | TypeSensitiveForm => FormSensitiveFill
  end.

Inductive AgentCommands : Type :=
| AgentCreate (name : string)
| AgentEnroll (name : string) (role : PrincipalRole) (public_key : string)
    (executable : option string)
| AgentList (json : bool)
| AgentSign (digest : string).

Inductive CredentialCommands : Type :=
| CredentialAdd (name : option string) (kind : CredentialType) (origin : option string)
    (provider : string) (stdin : bool)
| CredentialList (json : bool)
| CredentialUpdate (name : string)
| CredentialRemove (name : string)
| CredentialCheck (name : string).

Inductive PolicyCommands : Type :=
| PolicyValidate (path : option string)
| PolicyExplain (agent identity action origin : string).

Inductive AuditCommands : Type :=
| AuditVerify
| AuditExport (from to format : string).

Inductive Commands : Type :=
| Init
| Agent (command : AgentCommands)
| Grants
| Revoke (name agent : option string)
| Explain (name : string)
| Logs (limit : Z)
| CredentialCommand (command : CredentialCommands)
| PolicyCommand (command : PolicyCommands)
| Audit (command : AuditCommands)
| KeysRotate
| RecipeValidate (path : string)
| Doctor
| Backup (output : option string)
| RestoreFrom (from : string).

(** ** What the commands use of the terminal and the operating system *)

(** A line typed at a prompt, the rest of the standard input, and a secret typed
    without echo; [None] where reading fails. *)
Class Terminal := {
  typed_line : nat -> option string;
  typed_input : nat -> option string;
  typed_secret : nat -> option string;
  terminal_error_text : string
}.

(** The owner of the installation directory, the variables of the process, files
    anywhere, and the canonical path of a file. *)
Class CommandHost := {
  directory_owner : option Z;
  environment_variable : string -> option string;
  host_file : nat -> string -> option (list byte);
  canonical_path : nat -> string -> option string
}.

(** The derived JSON of the records that are printed, and the formats of times. *)
Class Printing := {
  agents_json : list AgentPrincipal -> string;
  credentials_json : list CredentialDescriptor -> string;
  event_json : AuditEvent -> string;
  decision_json : PolicyDecision -> string;
  policy_to_yaml : PolicyDocument -> string;
  day_text : Instant -> string;
  clock_text : Instant -> string;
  file_stamp : Instant -> string;
  text_to_uppercase : string -> string;
  invalid_time_text : string
}.

(** ** Formats *)

(** [{:<n}]. *)
Definition pad_right (n : Z) (s : string) : string :=
  s +:+ repeat_char (Z.to_nat (n - chars_count s)) " ".

(** [trim_end]. *)
Definition trim_end (s : string) : string :=
  from_bytes (encode_text (rev (trim_start (rev (chars s))))).

Definition risk_debug (r : RiskLevel) : string :=
  match r with Low => "Low" | Medium => "Medium" | High => "High" | Critical => "Critical" end.

Definition plural (n : nat) : string := if Nat.eqb n 1 then EmptyString else "s".
Definition count_text (n : nat) : string := format_unsigned (Z.of_nat n).

(** ** The exit code

    The class of an error is read off its text. *)
Definition exit_code_for (error : string) : Z :=
  let message := to_ascii_lowercase error in
  let has := contains message in
  if has "approval" && has "timeout" then 4
  else if has "denied" then 3
  else if has "audit" && (has "integrity" || has "chain" || has "checkpoint") then 7
  else if has "security" || has "signature" || has "key pin" || has "peer identity" then 6
  else if has "connection refused" || has "not running" || has "unavailable"
          || has "no such file or directory" then 5
  else if has "invalid config" || has "invalid policy" || has "invalid recipe" then 2
  else 10.

(** What the shell sees; a panic is 101, a signal has no code of its own. *)
Definition exit_status {A : Type} (e : ending A) : option Z :=
  match e with
  | Finished _ => Some 0
  | Failed message => Some (exit_code_for message)
  | Crashed => Some 101
  | Killed => None
  end.

Section Commands.
Context `{Chrono, Hashes, Signatures, Base64, UrlParser, JsonCodec, !Environment, SqliteText,
  PolicySerializer, PolicyYaml, FileErrors, RecipeFiles, Terminal, CommandHost, Printing}
  {P : Type} `{SecretProvider P}.

Definition ADMIN_SOCK : string := socket_path ChannelAdmin.

(** ** Verification of the audit log *)

Fixpoint load_keys (versions : list (Z * string * string)) : Process P (gmap Z (list byte)) :=
  match versions with
  | [] => mret ∅
  | (version, locator, _) :: versions =>
      key ← read_secret locator;
      keys ← load_keys versions;
      mret (<[version := secret_as_bytes key]> keys)
  end.

Definition load_audit_keys : Process P (gmap Z (list byte)) :=
  versions ← selects get_audit_key_versions; load_keys versions.

Definition verify_audit : Process P nat :=
  events ← selects list_audit_events;
  audit_keys ← load_audit_keys;
  attempting audit_error_text (verify_audit_chain events audit_keys);;
  checkpoints ← selects list_audit_checkpoints;
  signing_keys ← selects get_trusted_signing_keys;
  attempting audit_error_text (verify_audit_checkpoints events checkpoints signing_keys);;
  mret (length events).

(** ** Initialization *)

Definition init_signing_key : Process P KeyPair :=
  present ← secret_exists SIGNING_KEY_LOCATOR;
  present ← attempting provider_error_text present;
  if (present : bool) then stored_key
  else
    key ← generate_key;
    write_secret SIGNING_KEY_LOCATOR (keypair_to_bytes key);;
    mret key.

Definition init_policy : Process P unit :=
  present ← file_exists POLICY_YAML;
  if (present : bool) then mret tt
  else write_file POLICY_YAML (as_bytes (policy_to_yaml deny_all)).

Definition register_first_signing_key (key : KeyPair) : Process P unit :=
  active ← selects active_signing_key_id;
  if bool_decide (active = None) then
    now ← sampling env_now;
    executes (register_signing_key FIRST_SIGNING_KEY (public_key_bytes key) "active" now)
  else mret tt.

Definition init_audit_key : Process P unit :=
  present ← secret_exists FIRST_AUDIT_KEY;
  present ← attempting provider_error_text present;
  if (present : bool) then mret tt
  else bytes ← sampling env_random; write_secret FIRST_AUDIT_KEY bytes.

Definition register_first_audit_key : Process P unit :=
  active ← selects active_audit_key_version;
  if bool_decide (active = None) then
    now ← sampling env_now;
    executes (register_audit_key_version 1 FIRST_AUDIT_KEY "active" now)
  else mret tt.

Definition init : Process P unit :=
  open_store;;
  init_policy;;
  signing_key ← init_signing_key;
  register_first_signing_key signing_key;;
  write_file BROKER_KEY_PUB (public_key_bytes signing_key);;
  init_audit_key;;
  register_first_audit_key;;
  println "initialized secretctld metadata, policy, and M1 keys";;
  println "macOS Keychain provider configured".

(** ** Key rotation *)

(** The checkpoint of the log so far, unless its last event has one. *)
Definition closing_checkpoint (key_id : string) (key : KeyPair) : Process P unit :=
  events ← selects list_audit_events;
  match head (rev events) with
  | None => mret tt
  | Some last_event =>
      now ← sampling env_now;
      let checkpoint := create_audit_checkpoint (ev_sequence last_event)
        (ev_event_hash last_event) (ev_audit_key_version last_event) key_id key now in
      existing ← selects list_audit_checkpoints;
      if existsb (fun c => cp_sequence c =? cp_sequence checkpoint) existing then mret tt
      else executes (insert_audit_checkpoint checkpoint)
  end.

(** The maximum of the versions, plus one; the sum of 32 bits may overflow. *)
Definition next_version : Process P Z :=
  versions ← selects get_audit_key_versions;
  let newest := fold_left Z.max (map (fun '(version, _, _) => version) versions) 0 in
  if newest =? u32_max then crash else mret (newest + 1).

Definition replace_signing_key (old_id new_id : string) (key : KeyPair) : Process P unit :=
  retired ← sampling env_now;
  executes (retire_signing_key old_id retired);;
  now ← sampling env_now;
  executes (register_signing_key new_id (public_key_bytes key) "active" now).

Definition rotate_signing_key (old_id new_id : string) (key : KeyPair) : Process P unit :=
  write_secret SIGNING_KEY_LOCATOR (keypair_to_bytes key);;
  replace_signing_key old_id new_id key;;
  write_file BROKER_KEY_PUB (public_key_bytes key).

Definition replace_audit_key (old_version new_version : Z) (locator : string) : Process P unit :=
  retired ← sampling env_now;
  executes (retire_audit_key_version old_version retired);;
  now ← sampling env_now;
  executes (register_audit_key_version new_version locator "active" now).

Definition rotate_audit_key (new_version : Z) : Process P unit :=
  active ← selects active_audit_key_version;
  old ← expecting "active audit key missing" active;
  let locator := "audit-chain-key-v" +:+ format_unsigned new_version in
  bytes ← sampling env_random;
  write_secret locator bytes;;
  replace_audit_key (fst old) new_version locator.

Definition rotate_to (old_id : string) (new_key : KeyPair) : Process P unit :=
  new_version ← next_version;
  let new_id := "broker-key-v" +:+ format_unsigned new_version in
  rotate_signing_key old_id new_id new_key;;
  rotate_audit_key new_version;;
  println ("rotated to signing key " +:+ new_id +:+ " and audit key v"
           +:+ format_unsigned new_version).

Definition keys_rotate : Process P unit :=
  running ← file_exists ADMIN_SOCK;
  demand (negb running) "stop secretctld before rotating keys";;
  open_store;;
  verify_audit;;
  active ← selects active_signing_key_id;
  old_id ← expecting "active signing key missing" active;
  old_key ← stored_key;
  closing_checkpoint old_id old_key;;
  new_key ← generate_key;
  rotate_to old_id new_key.

(** ** Audit *)

Definition parse_time (text : string) : Process P Instant :=
  expecting invalid_time_text (parse_from_rfc3339 text).

Definition audit_command (command : AuditCommands) : Process P unit :=
  open_store;;
  match command with
  | AuditVerify =>
      count ← verify_audit;
      println ("verified " +:+ count_text count +:+ " audit events and all checkpoints")
  | AuditExport from to format =>
      demand (bool_decide (format = "jsonl")) "only jsonl export is supported";;
      verify_audit;;
      from ← parse_time from;
      to ← parse_time to;
      events ← selects list_audit_events;
      println_each (map event_json (List.filter
        (fun event => (from <=? ev_created_at event) && (ev_created_at event <=? to)) events))
  end.

(** ** Agents *)

Definition agent_locator (agent_id : string) : string := "agent-signing-" +:+ agent_id.

Definition new_principal (agent_id : AgentId) (role : string) (public_key : list byte)
    (name : string) (path : option string) (hash : option (list byte)) (now : Instant) :
    AgentPrincipal := {|
  ag_agent_id := agent_id; ag_role := role; ag_public_key := public_key;
  ag_display_name := name; ag_peer_uid := directory_owner; ag_executable_path := path;
  ag_executable_hash := hash; ag_state := "enrolled"; ag_created_at := now |}.

Definition agent_create (name : string) : Process P unit :=
  agent_key ← generate_key;
  uuid ← sampling env_uuid;
  let agent_id := id_new KAgent uuid in
  let key_locator := agent_locator (id_str agent_id) in
  write_secret key_locator (keypair_to_bytes agent_key);;
  now ← sampling env_now;
  executes (insert_agent (new_principal agent_id "agent" (public_key_bytes agent_key) name
    None None now));;
  println_each ["✓ Agent created"; "Agent ID:       " +:+ id_str agent_id;
    "Key locator:    " +:+ key_locator; "Authentication: local"; "Use this agent with:";
    "  secretctl run --agent " +:+ name +:+ " -- <command>"].

Definition reads_host_file (path : string) : Process P (list byte) :=
  bytes ← sampling (fun n => host_file n path); expecting missing_file_text bytes.

Definition decoded_key (raw_key : list byte) : Process P (list byte) :=
  if blen raw_key =? 32 then mret raw_key
  else
    text ← expecting not_utf8_text (utf8_text raw_key);
    attempting id (b64_decode (trim_string text)).

Definition pinned_executable (executable : option string) :
    Process P (option string * option (list byte)) :=
  match executable with
  | None => mret (None, None)
  | Some path =>
      canonical ← sampling (fun n => canonical_path n path);
      canonical ← expecting missing_file_text canonical;
      bytes ← reads_host_file canonical;
      mret (Some canonical, Some (sha256_digest bytes))
  end.

Definition agent_enroll (name : string) (role : PrincipalRole) (public_key : string)
    (executable : option string) : Process P unit :=
  raw_key ← reads_host_file public_key;
  public_key ← decoded_key raw_key;
  demand (blen public_key =? 32) "Ed25519 public key must be 32 bytes";;
  '(path, hash) ← pinned_executable executable;
  uuid ← sampling env_uuid;
  now ← sampling env_now;
  let agent := new_principal (id_new KAgent uuid) (role_as_str role) public_key name path hash
    now in
  executes (insert_agent agent);;
  println (id_str (ag_agent_id agent)).

(** Signs a digest with the key of the agent that [secretctl run] started. *)
Definition agent_sign (digest : string) : Process P unit :=
  principal_id ← expecting "agent signer is available only under secretctl run"
    (environment_variable "SECRETCTL_PRINCIPAL_ID");
  locator ← expecting "agent signing locator unavailable"
    (environment_variable "SECRETCTL_SIGNING_KEY_LOCATOR");
  accepted ← (if bool_decide (locator = agent_locator principal_id)
    then agent ← selects (fun s => get_enrolled_agent s principal_id);
         mret (bool_decide (ag_role agent = "agent"))
    else mret false);
  demand accepted "agent signer identity rejected";;
  digest ← attempting id (b64_decode digest);
  demand (blen digest =? 32) "agent signer accepts only a SHA-256 digest";;
  secret ← read_secret locator;
  key ← attempting crypto_error_text (keypair_from_bytes (secret_as_bytes secret));
  println (b64_encode (sign key digest)).

Definition tab : string := String (ascii_of_N 9) EmptyString.
Definition agent_line (agent : AgentPrincipal) : string :=
  id_str (ag_agent_id agent) +:+ tab +:+ ag_role agent +:+ tab +:+ ag_display_name agent.

Definition agent_command (command : AgentCommands) : Process P unit :=
  open_store;;
  match command with
  | AgentCreate name => agent_create name
  | AgentEnroll name role public_key executable => agent_enroll name role public_key executable
  | AgentList json =>
      agents ← selects list_agents;
      if json then println (agents_json agents) else println_each (map agent_line agents)
  | AgentSign digest => agent_sign digest
  end.

(** [secretctl run]: the principal that is found by identifier or by name, and
    the variables the child process is given. *)
Definition run_environment (agent : string) (command : list string) :
    Process P (list (string * string)) :=
  demand (negb (bool_decide (command = [])))
    "No command specified. Usage: secretctl run --agent <name> -- <command>";;
  open_store;;
  agents ← selects list_agents;
  principal ← expecting ("Agent '" +:+ agent +:+ "' not found")
    (List.find (fun principal => bool_decide (id_str (ag_agent_id principal) = agent)
                                 || bool_decide (ag_display_name principal = agent)) agents);
  let principal_id := id_str (ag_agent_id principal) in
  mret [("SECRETCTL_PRINCIPAL_ID", principal_id);
        ("SECRETCTL_SIGNING_KEY_LOCATOR", agent_locator principal_id)].

(** ** Credentials *)

Definition prompted_line : Process P string :=
  line ← sampling typed_line;
  line ← expecting terminal_error_text line;
  mret (trim_string line).

Definition DEFAULT_ORIGIN : string := "https://github.com:443".

Definition given_name (name : option string) : Process P string :=
  match name with Some name => mret name | None => prompted_line end.
Definition given_origin (origin : option string) : Process P string :=
  match origin with
  | Some origin => mret origin
  | None =>
      line ← prompted_line;
      mret (if bool_decide (line = EmptyString) then DEFAULT_ORIGIN else line)
  end.
Definition prompt_secret : Process P string :=
  secret ← sampling typed_secret; expecting terminal_error_text secret.
Definition given_secret (stdin : bool) : Process P string :=
  if stdin then
    input ← sampling typed_input;
    input ← expecting terminal_error_text input;
    mret (trim_end input)
  else prompt_secret.

(** The secret goes in first, under the name of the credential; when the row
    cannot be inserted it is deleted again. *)
Definition credential_add (name : option string) (kind : CredentialType)
    (origin : option string) (provider_name : string) (stdin : bool) : Process P unit :=
  name ← given_name name;
  demand (negb (bool_decide (name = EmptyString))) "Credential name cannot be empty";;
  origin_str ← given_origin origin;
  origin ← attempting domain_error_text (origin_parse origin_str);
  uuid ← sampling env_uuid;
  secret ← given_secret stdin;
  write_secret name (as_bytes secret);;
  inserted ← executes_raw (insert_credential {|
    cred_credential_id := id_new KCredential uuid; cred_name := name;
    cred_kind := type_kind kind; cred_provider := provider_name; cred_provider_locator := name;
    cred_allowed_actions := [type_action kind];
    cred_metadata_json := json_print (JObject [("origin", JString (origin_as_str origin))]);
    cred_disabled_at := None |});
  match inserted with
  | Ok _ => println "✓ Credential stored in macOS Keychain"
  | Err error => remove_secret name;; exit_with (store_error_chain error)
  end.

(** [from_str(..).unwrap_or_default()] of the metadata. *)
Definition json_or_null (text : string) : Json := default JNull (result_ok (json_parse text)).
Definition metadata_text (key : string) (meta : Json) : option string :=
  json_get key meta ≫= json_as_str.

Definition credential_lines (credential : CredentialDescriptor) : list string := [
  cred_name credential; "  provider: " +:+ cred_provider credential;
  "  origin:   "
    +:+ default "—" (metadata_text "origin" (json_or_null (cred_metadata_json credential)))].

Definition credential_command (command : CredentialCommands) : Process P unit :=
  open_store;;
  match command with
  | CredentialAdd name kind origin provider_name stdin =>
      credential_add name kind origin provider_name stdin
  | CredentialList json =>
      listed ← selects list_credentials;
      if json then println (credentials_json listed)
      else println "Credentials";; println_each (concat (map credential_lines listed))
  | CredentialUpdate name =>
      descriptor ← selects (fun s => get_credential_by_name s name);
      secret ← prompt_secret;
      write_secret (cred_provider_locator descriptor) (as_bytes secret);;
      println ("updated credential " +:+ name)
  | CredentialRemove name =>
      descriptor ← selects (fun s => get_credential_by_name s name);
      removed ← remove_secret (cred_provider_locator descriptor);
      attempting provider_error_text removed;;
      executes (delete_credential_by_name name);;
      println ("removed credential " +:+ name)
  | CredentialCheck name =>
      descriptor ← selects (fun s => get_credential_by_name s name);
      present ← secret_exists (cred_provider_locator descriptor);
      present ← attempting provider_error_text present;
      demand present "credential provider item is unavailable";;
      println ("credential " +:+ name +:+ " is available in provider")
  end.

(** ** Grants *)

Definition grant_lines (grant : StandingGrant) : list string :=
  [sg_credential_name grant; "  Agent:   " +:+ sg_agent_name grant;
   "  Origin:  " +:+ origin_as_str (sg_origin grant);
   "  Action:  " +:+ action_as_str (sg_action grant);
   "  Expires: " +:+ day_text (sg_expires_at grant);
   "  Risk:    " +:+ risk_debug (sg_risk_ceiling grant)
     +:+ (if sg_require_presence grant then " (presence required)" else EmptyString)]
  ++ (if 0 <? sg_use_count grant
      then ["  Uses:    " +:+ format_int (sg_use_count grant)] else []).

Definition grants_command : Process P unit :=
  open_store;;
  grants ← selects (fun s => list_standing_grants s false);
  match grants with
  | [] => println "No active standing grants found."
  | _ =>
      println "ACTIVE GRANTS";;
      println_each (concat (map grant_lines grants));;
      println (count_text (length grants) +:+ " active grant" +:+ plural (length grants))
  end.

Definition revoke_selector (name agent : option string) : option GrantSelector :=
  match name, agent with
  | Some name, _ => Some (SelectCredential name)
  | None, Some agent => Some (SelectAgent agent)
  | None, None => None
  end.

Definition revoke_command (name agent : option string) : Process P unit :=
  open_store;;
  selector ← expecting ("Specify a credential name or --agent <name> to revoke. Usage: secretctl "
      +:+ "revoke <name> or secretctl revoke --agent <name>") (revoke_selector name agent);
  now ← sampling env_now;
  revoked ← executes (revoke_standing_grants selector "revoked by user via CLI" now);
  println ("✓ Revoked " +:+ count_text (length revoked) +:+ " grant" +:+ plural (length revoked)).

Definition explain_command (name : string) : Process P unit :=
  open_store;;
  descriptor ← selects (fun s => get_credential_by_name s name);
  listed ← selects (fun s => list_standing_grants s false);
  let grants := List.filter (fun g => bool_decide (sg_credential_name g = name)) listed in
  let origin := default DEFAULT_ORIGIN
    (metadata_text "origin" (json_or_null (cred_metadata_json descriptor))) in
  println_each (["Credential: " +:+ cred_name descriptor; "Origin:"; "  " +:+ origin;
    "Authentication:"]
    ++ map (fun action => "  " +:+ action_as_str action) (cred_allowed_actions descriptor)
    ++ ["Provider:"; "  " +:+ cred_provider descriptor +:+ " ✓"; "Active grants:";
        "  " +:+ count_text (length grants)]
    ++ map (fun g => "  • " +:+ sg_agent_name g +:+ " (" +:+ action_as_str (sg_action g)
                     +:+ ") - expires " +:+ day_text (sg_expires_at g)) grants
    ++ ["Secret exposure:"; "  Agent:     never (zero secret fields returned)";
        "  Browser:   isolated executor world with DOM prototype setter";
        "  Logs:      redacted and HMAC integrity signed"]).

(** ** Logs *)

Definition labelled (label : string) (value : option string) : list string :=
  match value with Some v => [label +:+ "=" +:+ v] | None => [] end.

Definition log_line (event : AuditEvent) : string :=
  let meta := json_or_null (ev_event_json event) in
  let details := labelled "agent" (ev_actor_id event)
    ++ labelled "credential" (metadata_text "credential_id" meta)
    ++ labelled "origin" (metadata_text "target_origin" meta)
    ++ labelled "decision" (metadata_text "decision" meta)
    ++ labelled "action" (metadata_text "action" meta) in
  clock_text (ev_created_at event) +:+ "  "
  +:+ pad_right 18 (text_to_uppercase (ev_event_type event)) +:+ "  "
  +:+ String.concat " " details.

(** The last events, in the order they happened. *)
Definition logs_command (limit : Z) : Process P unit :=
  open_store;;
  events ← selects list_audit_events;
  println_each (map log_line (rev (take (Z.to_nat limit) (rev events)))).

(** ** Policy and recipes *)

Definition policy_at (path : string) : Process P PolicyEvaluator :=
  content ← read_to_string path;
  document ← attempting id (from_yaml content);
  mret (evaluator_new document).

Definition policy_command (command : PolicyCommands) : Process P unit :=
  match command with
  | PolicyValidate path =>
      evaluator ← policy_at (default POLICY_YAML path);
      println (b64_encode (pe_policy_hash evaluator))
  | PolicyExplain agent identity action origin =>
      evaluator ← policy_at POLICY_YAML;
      agent ← attempting domain_error_text (id_parse KAgent agent);
      action ← attempting domain_error_text (action_from_str action);
      origin ← attempting domain_error_text (origin_parse origin);
      decision ← attempting policy_error_text
        (evaluate evaluator agent identity action origin None "managed");
      println (decision_json decision)
  end.

Definition recipe_validate (path : string) : Process P unit :=
  content ← read_to_string path;
  attempting id (recipe_from_str content);;
  println "recipe is valid".

(** ** Diagnostics *)

(** The configuration of the native host names the packaged extension. *)
Definition native_config_ok (m : Machine P) : bool :=
  bool_decide ((bytes ← m_files m !! "native-host.json";
                config ← result_ok (json_parse (from_bytes bytes));
                json_get "extension_id" config ≫= json_as_str) = Some MANAGED_EXTENSION_ID).

Definition check_line (label mark : string) : string := pad_right 24 label +:+ " " +:+ mark.
Definition mark (ok : bool) : string := if ok then "✓" else "○".

Definition doctor (provider_label : string) : Process P unit :=
  println "secretctl doctor";;
  db_ok ← looking (fun m => bool_decide (is_Some (m_database m)));
  present ← secret_exists SIGNING_KEY_LOCATOR;
  let keychain_ok := default false (result_ok present) in
  daemon_ok ← file_exists ADMIN_SOCK;
  executor ← file_exists (socket_path ChannelExecutor);
  agent ← file_exists (socket_path ChannelAgent);
  native_ok ← looking native_config_ok;
  println_each [
    check_line "Core daemon"
      (if daemon_ok : bool then "✓" else "○ (not running - run cargo run -p secretctld)");
    check_line provider_label (if keychain_ok : bool then "✓" else "○ (run secretctl init)");
    check_line "Chrome extension"
      (if native_ok : bool then "✓ (pinned identity)"
       else "○ (run secretctl browser install-host)");
    check_line "Executor channel" (mark (executor || daemon_ok));
    check_line "Agent channel" (mark (agent || daemon_ok));
    check_line "Browser origin checks" (mark native_ok);
    check_line "Sensitive mode" "✓ (fail closed)"; check_line "CDP filtering" "✓ (private pipe)";
    check_line "Capability signing" "✓"; check_line "Capability replay" "✓";
    check_line "Audit redaction" "✓";
    check_line "Security boundary"
      (if keychain_ok && db_ok : bool then "HEALTHY" else "REQUIRES_INIT")].

(** ** Backups of the database *)

Definition backup_command (output : option string) : Process P unit :=
  exists_ ← looking (fun m => bool_decide (is_Some (m_database m)));
  demand exists_ "database does not exist; run `secretctl init` first";;
  open_store;;
  path ← match output with
    | Some path => mret path
    | None =>
        now ← sampling env_now;
        mret ("secretctl_backup_" +:+ file_stamp now +:+ ".db")
    end;
  change (fun m => (tt, set_m_backups m (<[path := database m]> (m_backups m))));;
  println ("✓ Backup created at " +:+ path).

Definition restore_command (from : string) : Process P unit :=
  backup ← looking (fun m => m_backups m !! from);
  backup ← expecting ("backup source file does not exist at " +:+ from) backup;
  running ← file_exists ADMIN_SOCK;
  demand (negb running)
    "stop secretctld before restoring a database backup (`secretctl stop`)";;
  open_store;;
  change (fun m => (tt, set_m_database m (Some backup)));;
  println ("✓ Restored database from " +:+ from).

(** ** The dispatch *)

Variable provider_label : string.

Definition run_command (command : Commands) : Process P unit :=
  match command with
  | Init => init
  | Agent command => agent_command command
  | Grants => grants_command
  | Revoke name agent => revoke_command name agent
  | Explain name => explain_command name
  | Logs limit => logs_command limit
  | CredentialCommand command => credential_command command
  | PolicyCommand command => policy_command command
  | Audit command => audit_command command
  | KeysRotate => keys_rotate
  | RecipeValidate path => recipe_validate path
  | Doctor => doctor provider_label
  | Backup output => backup_command output
  | RestoreFrom from => restore_command from
  end.
End Commands.
