(* ===== verification/KeyProps.v ===== *)
(** * KeyProps: the keys of an installation and its audit log

    [keys_in_order] is what an installation keeps of its keys; [log_verifies] says
    that [secretctl audit verify] succeeds. Initialization establishes both, and
    rotation keeps the log verifiable at whichever change it is stopped. *)

From S2P Require Import Prelude.
From S2P Require Import Externals.
From S2P Require Import Domain.
From S2P Require Import Policy.
From S2P Require Import Crypto.
From S2P Require Import DomView.
From S2P Require Import AuditChain.
From S2P Require Import Provider.
From S2P Require Import Table.
From S2P Require Import Store.
From S2P Require Import Protocol.
From S2P Require Import Framing.
From S2P Require Import BrokerState.
From S2P Require Import Server.
From S2P Require Import Installation.
From S2P Require Import ProcessLogic.
From S2P Require Import KeyFacts.
From S2P Require Import Startup.
From S2P Require Import Cli.

Definition signing_key_id (version : Z) : string := "broker-key-v" +:+ format_unsigned version.
Definition audit_key_locator (version : Z) : string :=
  "audit-chain-key-v" +:+ format_unsigned version.

(** The locators of the installation's own keys. *)
Definition reserved (locator : string) : Prop :=
  locator = SIGNING_KEY_LOCATOR \/ exists v, locator = audit_key_locator v.

Lemma signing_key_id_inj a b :
  u32_range a -> u32_range b -> signing_key_id a = signing_key_id b -> a = b.
Proof. unfold signing_key_id. intros Ha Hb [= E]. by apply format_unsigned_inj. Qed.

Lemma audit_key_locator_inj a b :
  u32_range a -> u32_range b -> audit_key_locator a = audit_key_locator b -> a = b.
Proof. unfold audit_key_locator. intros Ha Hb [= E]. by apply format_unsigned_inj. Qed.

Lemma audit_key_not_signing v : audit_key_locator v <> SIGNING_KEY_LOCATOR.
Proof. done. Qed.

Section Keys.
Context `{Chrono, Hashes, Signatures, SqliteText, FileErrors} {P : Type} `{SecretProviderLaws P}.
Implicit Type m : Machine P.

(** ** The log *)

(** [secretctl audit verify] succeeds: the log and the checkpoints can be read,
    every audit key is found, and both verify. *)
Definition log_verifies m : Prop := exists events cps keys,
  list_audit_events (database m) = Ok events /\
  list_audit_checkpoints (database m) = Ok cps /\
  keys_found (secrets m) (versions (database m)) = Some keys /\
  verify_audit_chain events keys = Ok tt /\
  verify_audit_checkpoints events cps (trusted (database m)) = Ok tt.

(** ** The keys *)

(** The rows of the audit key: each version has its own locator, under which its
    key is found. *)
Record audit_keys_named m : Prop := {
  an_rows : audit_rows_ok (audit_key_versions (database m));
  an_locator row : row ∈ audit_key_versions (database m) ->
    akr_key_locator row = audit_key_locator (akr_version row);
  an_found row : row ∈ audit_key_versions (database m) ->
    is_Some (secrets m (akr_key_locator row))
}.

(** One signing key is active, the one in the key store; the names of the signing
    keys do not run ahead of [bound]; and no credential lies where the keys do. *)
Record keys_up_to (bound : Z) m : Prop := {
  ku_audit : audit_keys_named m;
  ku_audit_active : exists row, row ∈ audit_key_versions (database m) /\ akr_state row = "active";
  ku_signing : signing_rows_ok (trusted_signing_keys (database m));
  ku_names row : row ∈ trusted_signing_keys (database m) -> exists v,
    skr_key_id row = signing_key_id v /\ 1 <= v <= bound;
  ku_active : exists row key,
    row ∈ trusted_signing_keys (database m) /\ skr_state row = "active" /\
    (forall row', row' ∈ trusted_signing_keys (database m) -> skr_state row' = "active" ->
       row' = row) /\
    secrets m SIGNING_KEY_LOCATOR = Some key /\ length key = 32%nat /\
    skr_public_key row = ed_public key;
  ku_credentials row : row ∈ credentials (database m) -> ~ reserved (crr_provider_locator row)
}.

(** The keys are in order when that bound is the newest version of the audit key. *)
Definition keys_in_order m : Prop := keys_up_to (newest (database m)) m.

(** The last event is under a checkpoint. *)
Definition log_sealed m : Prop := forall events e cps,
  list_audit_events (database m) = Ok (events ++ [e]) ->
  list_audit_checkpoints (database m) = Ok cps ->
  exists cp, cp ∈ cps /\ cp_sequence cp = ev_sequence e.

(** The key store may fail, or the process may be killed. *)
Definition reliable : Prop :=
  forall locator secret (p : P), is_ok (fst (store_secret locator secret p)) = true.
Definition hindered m : Prop := m_writes m <> None \/ ~ reliable.

#[global] Instance log_verifies_calm : Proper (calm ==> impl) log_verifies.
Proof.
  intros m m' [Hs Hd _ _ _] (es & cps & ks & He & Hc & Hk & Hv & Hp). exists es, cps, ks.
  rewrite !Hd. split_and!; try done. by rewrite (keys_found_ext _ _ _ Hs).
Qed.

#[global] Instance audit_keys_named_calm : Proper (calm ==> impl) audit_keys_named.
Proof. intros m m' [Hs Hd _ _ _] []. constructor; rewrite ?Hd; intros; rewrite ?Hs; auto. Qed.

#[global] Instance keys_up_to_calm bound : Proper (calm ==> impl) (keys_up_to bound).
Proof.
  intros m m' Hc []. constructor; [by rewrite <-Hc|..]; destruct Hc as [Hs Hd _ _ _];
    rewrite ?Hd; intros; auto. by rewrite Hs.
Qed.

#[global] Instance keys_in_order_calm : Proper (calm ==> impl) keys_in_order.
Proof.
  unfold keys_in_order. intros m m' Hc Hk. rewrite (calm_database _ _ Hc). by rewrite <-Hc.
Qed.

#[global] Instance log_sealed_calm : Proper (calm ==> impl) log_sealed.
Proof. unfold log_sealed. intros m m' Hc Hl. by rewrite (calm_database _ _ Hc). Qed.

Lemma hindered_calm m m' : calm m m' -> hindered m' -> hindered m.
Proof. intros Hc [Hw|Hr]; [left|by right]. intros Hn. by apply Hw, (calm_writes _ _ Hc). Qed.

(** More keys under the same log. *)
Lemma log_verifies_more m m' :
  audit_keys_named m -> audit_keys_named m' ->
  audit_events (database m') = audit_events (database m) ->
  audit_checkpoints (database m') = audit_checkpoints (database m) ->
  (forall row, row ∈ audit_key_versions (database m) ->
     exists row', row' ∈ audit_key_versions (database m') /\
       akr_version row' = akr_version row /\ akr_key_locator row' = akr_key_locator row /\
       secrets m' (akr_key_locator row) = secrets m (akr_key_locator row)) ->
  trusted (database m) ⊆ trusted (database m') ->
  log_verifies m -> log_verifies m'.
Proof.
  intros [Ho _ _] [Ho' _ Hf] Hev Hcp Hr Ht (es & cps & ks & He & Hc & Hk & Hv & Hp).
  destruct (keys_found_more _ _ _ _ ks Ho Ho' Hk Hr Hf) as (ks' & Hk' & Hsub).
  exists es, cps, ks'. split_and!; [..|done| |].
  - unfold list_audit_events in *. by rewrite Hev.
  - unfold list_audit_checkpoints in *. by rewrite Hcp.
  - by eapply verify_from_more.
  - apply verify_checkpoints_iff. apply verify_checkpoints_iff in Hp.
    eapply list.Forall_impl; [exact Hp|]. intros cp. by apply checkpoint_ok_more.
Qed.

(** ** The verification of the log *)

Lemma load_keys_ends C (Q : gmap Z (list byte) -> Machine P -> Prop) vs m :
  (forall ks m', calm m m' -> keys_found (secrets m) vs = Some ks -> Q ks m') ->
  (forall m', calm m m' -> keys_found (secrets m) vs = None -> C m') ->
  ends C Q (load_keys vs m).
Proof.
  revert C Q m. induction vs as [|[[v l] st] vs IH]; intros C Q m HQ HC; cbn [load_keys].
  { process_step. by apply HQ. }
  process_step. process_step; [intros key m1 Hm1 Hk|intros m1 Hm1 Hk; apply HC; [done|]];
    [|cbn; by rewrite Hk].
  assert (Hf : forall vs, keys_found (secrets m1) vs = keys_found (secrets m) vs).
  { intros vs'. apply keys_found_ext, (calm_secrets _ _ Hm1). }
  process_step. apply IH; rewrite Hf.
  - intros ks m2 Hm2 Hks. process_step. apply HQ; [by etransitivity|]. cbn. by rewrite Hk, Hks.
  - intros m2 Hm2 Hks. apply HC; [by etransitivity|]. cbn. by rewrite Hk, Hks.
Qed.

(** [verify_audit] is the test for [log_verifies]. *)
Lemma verify_audit_ends C (Q : nat -> Machine P -> Prop) m :
  (forall n m', calm m m' -> log_verifies m -> Q n m') ->
  (forall m', calm m m' -> ~ log_verifies m -> C m') ->
  ends C Q (verify_audit m).
Proof.
  intros HQ HC. unfold verify_audit, load_audit_keys.
  process_step. process_step;
    [intros es He|intros [e He]; apply HC; [done|intros (? & ? & ? & ? & _); congruence]].
  process_step. process_step. process_step; [|by intros []]. intros vs [= <-].
  apply load_keys_ends; [|intros m1 Hm1 Hk; apply HC;
    [done|intros (? & ? & ? & _ & _ & Hk' & _); unfold versions in Hk'; cbn in Hk'; congruence]].
  intros ks m1 Hm1 Hk. pose proof (calm_database _ _ Hm1) as Hd.
  process_step. process_step; [intros [] Hv|intros [e Hv]; apply HC;
    [done|intros (? & ? & ? & ? & _ & Hk' & ? & _); unfold versions in Hk'; cbn in Hk'; congruence]].
  process_step. process_step; rewrite Hd; [intros cps Hc|intros [e Hc]; apply HC;
    [done|intros (? & ? & ? & _ & ? & _); congruence]].
  process_step. process_step; rewrite Hd; [|by intros []]. intros keys [= <-].
  process_step. process_step; [intros [] Hp|intros [e Hp]; apply HC;
    [done|intros (? & ? & ? & ? & ? & _ & _ & Hp'); unfold trusted in Hp'; cbn in Hp'; congruence]].
  process_step. apply HQ; [done|]. by exists es, cps, ks.
Qed.
End Keys.
