(* ===== verification/Rotation.v ===== *)
(** * Rotation: [secretctl init] and [secretctl keys rotate]

    Initialization puts the keys of an installation in order, and rotation keeps
    them so when it finishes; at whichever change it is stopped, the log still
    verifies. *)

From S2P Require Import Prelude.
From S2P Require Import Externals.
From S2P Require Import Domain.
From S2P Require Import Policy.
From S2P Require Import Crypto.
From S2P Require Import DomView.
From S2P Require Import AuditChain.
From S2P Require Import Provider.
From S2P Require Import Table.
From S2P Require Import Store.
From S2P Require Import Protocol.
From S2P Require Import Framing.
From S2P Require Import BrokerState.
From S2P Require Import Server.
From S2P Require Import Installation.
From S2P Require Import ProcessLogic.
From S2P Require Import KeyFacts.
From S2P Require Import Startup.
From S2P Require Import Cli.
From S2P Require Import StoreProps.
From S2P Require Import KeyProps.

Section Rotation.
Context `{ChronoLaws, Hashes, SignatureLaws, !Environment, EnvLaws : !EnvironmentLaws, SqliteText,
  FileErrors} {P : Type} `{SecretProviderLaws P}.
Implicit Type m : Machine P.

(** ** The closing checkpoint *)

Lemma row_to_checkpoint_row cp :
  u64_range (cp_sequence cp) -> u32_range (cp_audit_key_version cp) ->
  four_digit_year (cp_created_at cp) -> row_to_checkpoint (checkpoint_row cp) = Ok cp.
Proof.
  intros Hs Hv Ht. unfold row_to_checkpoint, time_column, checkpoint_row. cbn.
  rewrite rfc3339_round_trip, i64_u64_round_trip by done. cbn.
  rewrite wrap_u32_small by done. by destruct cp.
Qed.

Lemma insert_checkpoint_spec s cps cp :
  list_audit_checkpoints s = Ok cps -> u64_range (cp_sequence cp) ->
  u32_range (cp_audit_key_version cp) -> four_digit_year (cp_created_at cp) ->
  existsb (fun c => cp_sequence c =? cp_sequence cp) cps = false ->
  let s' := set_audit_checkpoints s (audit_checkpoints s ++ [checkpoint_row cp]) in
  insert_audit_checkpoint cp s = (Ok tt, s') /\
  exists cps', list_audit_checkpoints s' = Ok cps' /\ cp :: cps ≡ₚ cps'.
Proof.
  intros Hc Hs Hv Ht Hn s'. unfold list_audit_checkpoints in *. apply map_err_Ok in Hc. split.
  - unfold insert_audit_checkpoint. apply commit_Ok. unfold insert_into, insert_row.
    destruct (existsb _ (audit_checkpoints s)) eqn:E; cbn; [exfalso|done].
    apply existsb_exists in E as (row & Hin & E). cbn in E. apply Z.eqb_eq in E.
    apply list_elem_of_In in Hin. rewrite <-(order_by_perm (fun a b => ckr_sequence a <=? ckr_sequence b))
      in Hin. apply collect_Ok in Hc. apply list_elem_of_lookup in Hin as [i Hi].
    destruct (Forall2_lookup_l _ _ _ _ _ Hc Hi) as (c & Hci & Hr).
    apply not_true_iff_false in Hn. destruct Hn. apply existsb_exists. exists c.
    split; [by eapply list_elem_of_In, list_elem_of_lookup_2|].
    unfold row_to_checkpoint in Hr. apply bind_Ok_inv in Hr as (t & _ & [= <-]). cbn.
    rewrite <-E, i64_u64_round_trip by done. apply Z.eqb_refl.
  - destruct (collect_perm row_to_checkpoint
        (checkpoint_row cp :: order_by (fun a b => ckr_sequence a <=? ckr_sequence b)
           (audit_checkpoints s))
        (order_by (fun a b => ckr_sequence a <=? ckr_sequence b) (audit_checkpoints s'))
        (cp :: cps)) as (cps' & Hc' & Hp).
    + rewrite !order_by_perm. cbn. apply Permutation_cons_append.
    + cbn [collect]. by rewrite row_to_checkpoint_row, Hc.
    + exists cps'. split; [|done]. by apply map_err_Ok.
Qed.

Lemma row_to_event_ranges row e :
  row_to_event row = Ok e -> u64_range (ev_sequence e) /\ u32_range (ev_audit_key_version e).
Proof.
  unfold row_to_event. intros (id & _ & (t & _ & [= <-])%bind_Ok_inv)%bind_Ok_inv. cbn.
  unfold u64_range, u32_range, i64_as_u64, wrap_u32. split; apply Z.mod_pos_bound; lia.
Qed.

Lemma listed_event_ranges s es e :
  list_audit_events s = Ok es -> e ∈ es ->
  u64_range (ev_sequence e) /\ u32_range (ev_audit_key_version e).
Proof.
  unfold list_audit_events. intros Hl%map_err_Ok%collect_Ok Hin.
  apply list_elem_of_lookup in Hin as [i Hi].
  destruct (Forall2_lookup_r _ _ _ _ _ Hl Hi) as (row & _ & Hr). by eapply row_to_event_ranges.
Qed.

(** The checkpoint of the last event verifies, with the others. *)
Lemma closing_verifies m events e cps id key now :
  list_audit_events (database m) = Ok (events ++ [e]) ->
  list_audit_checkpoints (database m) = Ok cps -> log_verifies m ->
  trusted (database m) !! id = Some (public_key_bytes key) -> length (signing_key key) = 32%nat ->
  four_digit_year now ->
  let cp := create_audit_checkpoint (ev_sequence e) (ev_event_hash e) (ev_audit_key_version e) id
    key now in
  existsb (fun c => cp_sequence c =? cp_sequence cp) cps = false ->
  let s := set_audit_checkpoints (database m) (audit_checkpoints (database m) ++ [checkpoint_row cp]) in
  insert_audit_checkpoint cp (database m) = (Ok tt, s) /\
  log_verifies (with_database m s) /\ log_sealed (with_database m s).
Proof.
  intros He Hc (es & cps0 & ks & He' & Hc' & Hk & Hv & Hp) Ht Hl Hnow cp Hn s.
  assert (es = events ++ [e]) as -> by congruence. assert (cps0 = cps) as -> by congruence.
  assert (Hin : e ∈ events ++ [e]) by set_solver.
  destruct (listed_event_ranges _ _ _ He Hin) as [Hs Hver].
  destruct (insert_checkpoint_spec (database m) cps cp) as (Hi & cps' & Hc'' & Hperm); try done.
  split_and!; [done| |].
  - exists (events ++ [e]), cps', ks. split_and!; try done.
    apply verify_checkpoints_iff. rewrite <-Hperm. constructor; [|by apply verify_checkpoints_iff].
    exists e, (public_key_bytes key). split_and!; try done.
    + by eapply find_sequence.
    + by apply verify_own_signature.
  - intros es e0 cps0 He0 Hc0. change (list_audit_events (database m) = Ok (es ++ [e0])) in He0.
    assert (es ++ [e0] = events ++ [e]) as [-> [= ->]]%app_inj_tail_iff by congruence.
    assert (cps0 = cps') as -> by
      (enough (Ok cps0 = Ok (E := StoreError) cps') by congruence; by rewrite <-Hc'', <-Hc0).
    exists cp. split; [|done].
    rewrite <-Hperm. by left.
Qed.

(** Only the checkpoints may differ. *)
Definition same_keys m m' : Prop :=
  (forall l, secrets m' l = secrets m l) /\
  (exists rows, database m' = set_audit_checkpoints (database m) rows) /\
  m_files m' = m_files m /\ (m_writes m = None -> m_writes m' = None).

Lemma calm_same_keys m m' : calm m m' -> same_keys m m'.
Proof.
  intros []. split_and!; [done| |done|done]. exists (audit_checkpoints (database m)).
  rewrite calm_database. by destruct (database m).
Qed.

Lemma keys_up_to_same_keys bound m m' :
  same_keys m m' -> keys_up_to bound m -> keys_up_to bound m'.
Proof.
  intros (Hs & (rows & Hd) & _ & _) [[]]. constructor; [constructor|..]; rewrite ?Hd; cbn; auto.
  - intros row. rewrite Hs. auto.
  - by rewrite Hs.
Qed.

Lemma closing_checkpoint_ends C (Q : unit -> Machine P -> Prop) m id key :
  log_verifies m -> trusted (database m) !! id = Some (public_key_bytes key) ->
  length (signing_key key) = 32%nat ->
  (forall m', calm m m' -> m_writes m <> None -> C m') ->
  (forall m', same_keys m m' -> log_verifies m' -> log_sealed m' -> Q tt m') ->
  ends C Q (closing_checkpoint id key m).
Proof.
  intros Hv Ht Hl HC HQ. pose proof Hv as (es & cps & ks & He & Hc & _).
  assert (Hempty : forall m1, calm m m1 -> es = [] -> Q tt m1).
  { intros m1 Hm1 ->. apply HQ; [by apply calm_same_keys|by eapply log_verifies_calm|].
    intros es e cps' He'. rewrite (calm_database _ _ Hm1), He in He'. injection He' as E.
    by destruct es. }
  unfold closing_checkpoint.
  process_step. process_step; rewrite He; [intros ? [= <-]|by intros []].
  destruct es as [|e es _] using rev_ind; [by apply Hempty|]. rewrite rev_app_distr. cbn [head rev app].
  process_step. process_step. intros n m1 Hm1. pose proof (calm_database _ _ Hm1) as Hd.
  process_step. process_step; rewrite Hd, Hc; [intros ? [= <-]|by intros []].
  destruct (existsb _ cps) eqn:E.
  - process_step. apply HQ; [by apply calm_same_keys|by eapply log_verifies_calm|].
    eapply log_sealed_calm; [exact Hm1|]. intros es' e' cps' He' Hc'. rewrite He in He'. rewrite Hc in Hc'.
    injection Hc' as <-. injection He' as [-> [= ->]]%app_inj_tail_iff.
    apply existsb_exists in E as (c & Hin & E). exists c.
    split; [by apply list_elem_of_In | by apply Z.eqb_eq].
  - destruct (closing_verifies m es e cps id key (env_now n)) as (Hi & Hv' & Hs'); try done.
    { apply env_now_range. }
    process_step; rewrite ?Hd.
    + intros Hw. apply HC; [done|]. intros Hn. apply (calm_writes _ _ Hm1) in Hn. congruence.
    + intros [] s m2 Ei Hm2. rewrite Hi in Ei. injection Ei as <-.
      pose proof (transitivity (with_database_calm _ _ _ Hm1) Hm2) as Hm. clear Hm2.
      apply HQ; [|by eapply log_verifies_calm|by eapply log_sealed_calm]. destruct Hm. cbn in *. split_and!; eauto.
    + intros e0 s m2 Ei. by rewrite Hi in Ei.
Qed.

(** ** Rotation of the signing key *)

Lemma log_verifies_only_secret locator m m' :
  only_secret locator m m' -> (forall row, row ∈ audit_key_versions (database m) ->
    akr_key_locator row <> locator) ->
  audit_keys_named m -> log_verifies m -> audit_keys_named m' /\ log_verifies m'.
Proof.
  intros [Ho Hd _ _ _] Hl Hn Hv.
  assert (Hn' : audit_keys_named m').
  { destruct Hn. constructor; rewrite ?Hd; auto. intros row Hin. rewrite Ho; auto. }
  split; [done|]. apply (log_verifies_more m); rewrite ?Hd; try done.
  intros row Hin. exists row. split_and!; try done. by apply Ho, Hl.
Qed.

(** The table of signing keys changes, and keeps the keys it trusted. *)
Lemma log_verifies_signing m rows :
  audit_keys_named m -> log_verifies m ->
  trusted (database m) ⊆ trusted (set_trusted_signing_keys (database m) rows) ->
  let m' := with_database m (set_trusted_signing_keys (database m) rows) in
  audit_keys_named m' /\ log_verifies m'.
Proof.
  intros Hn Hv Ht m'. assert (Hn' : audit_keys_named m') by (by destruct Hn; constructor).
  split; [done|]. apply (log_verifies_more m); try done. intros row Hin. by exists row.
Qed.

Lemma log_sealed_tables m m' :
  audit_events (database m') = audit_events (database m) ->
  audit_checkpoints (database m') = audit_checkpoints (database m) ->
  log_sealed m -> log_sealed m'.
Proof.
  unfold log_sealed, list_audit_events, list_audit_checkpoints. by intros -> ->.
Qed.

(** The keys once the old one is retired and a new one is registered. *)
Lemma rotated_keys bound m m' old rows v key now :
  keys_up_to bound m -> bound < v -> 1 <= v ->
  old ∈ trusted_signing_keys (database m) -> skr_state old = "active" ->
  map skr_key_id rows = map skr_key_id (trusted_signing_keys (database m)) ->
  (forall row, row ∈ rows -> skr_state row = "active" ->
     row ∈ trusted_signing_keys (database m) /\ skr_key_id row <> skr_key_id old) ->
  let rows' := rows ++ [signing_key_row (signing_key_id v) (public_key_bytes key) "active" now] in
  signing_rows_ok rows' -> length (signing_key key) = 32%nat ->
  database m' = set_trusted_signing_keys (database m) rows' -> audit_keys_named m' ->
  secrets m' SIGNING_KEY_LOCATOR = Some (signing_key key) -> keys_up_to v m'.
Proof.
  intros [Hn Hna Hsig Hnames Hactive Hcr] Hv Hv1 Hold Hact Hids Hact' rows' Hok Hlen Hd Hn' Hsec.
  constructor; [done|by rewrite Hd..| | |by rewrite Hd].
  - rewrite Hd. intros r [Hin|Hin%list_elem_of_singleton]%elem_of_app; [|subst r; by exists v].
    assert (skr_key_id r ∈ map skr_key_id rows) as Hr
      by by apply list_elem_of_In, in_map, list_elem_of_In.
    rewrite Hids in Hr. apply list_elem_of_In, in_map_iff in Hr as (r' & Hr' & Hin').
    apply list_elem_of_In, Hnames in Hin' as (v' & Hv' & Hle). exists v'.
    split; [by rewrite <-Hr'|lia].
  - exists (signing_key_row (signing_key_id v) (public_key_bytes key) "active" now), (signing_key key).
    rewrite Hd. split_and!; try done; [apply elem_of_app; right; by left|].
    intros r [Hin|Hin%list_elem_of_singleton]%elem_of_app Ha; [|done].
    destruct (Hact' r Hin Ha) as [Hin' Hne], Hactive as (r0 & k0 & _ & _ & Huniq & _).
    destruct Hne. by rewrite (Huniq r Hin' Ha), (Huniq old Hold Hact).
Qed.

Lemma killed_hindered m m' :
  (m_writes m = None -> m_writes m' = None) -> m_writes m' = Some O -> hindered m.
Proof. intros Hw Hk. left. intros Hn. apply Hw in Hn. congruence. Qed.

Lemma fresh_signing_id m rows bound v :
  keys_up_to bound m -> map skr_key_id rows = map skr_key_id (trusted_signing_keys (database m)) ->
  bound < v -> u32_range v -> ~ signing_key_id v ∈ map skr_key_id rows.
Proof.
  intros Hk -> Hb Hr (r & Hrv & Hin)%list_elem_of_In%in_map_iff.
  apply list_elem_of_In in Hin. destruct (ku_names _ _ Hk r Hin) as (v' & Hv' & Hle).
  rewrite Hv' in Hrv. apply signing_key_id_inj in Hrv; [lia| |done]. unfold u32_range in *. lia.
Qed.

(** The two statements, from a machine [m1] with the keys of [m]. *)
Lemma replace_signing_key_ends C (Q : unit -> Machine P -> Prop) m m1 old bound v key :
  keys_up_to bound m -> database m1 = database m -> audit_keys_named m1 -> log_verifies m1 ->
  old ∈ trusted_signing_keys (database m) -> skr_state old = "active" ->
  bound < v -> u32_range v ->
  (forall m', log_verifies m' -> hindered m1 -> C m') ->
  (forall m' rows now,
     let rows' := rows ++ [signing_key_row (signing_key_id v) (public_key_bytes key) "active" now] in
     calm (with_database m1 (set_trusted_signing_keys (database m) rows')) m' ->
     signing_rows_ok rows' ->
     map skr_key_id rows = map skr_key_id (trusted_signing_keys (database m)) ->
     (forall row, row ∈ rows -> skr_state row = "active" ->
        row ∈ trusted_signing_keys (database m) /\ skr_key_id row <> skr_key_id old) ->
     audit_keys_named m' -> log_verifies m' -> Q tt m') ->
  ends C Q (replace_signing_key (skr_key_id old) (signing_key_id v) key m1).
Proof.
  intros Hk Hd1 Hn1 Hv1 Hold Hact Hb Hr HC HQ. unfold replace_signing_key.
  process_step. process_step. intros n m2 Hm2.
  pose proof (calm_database _ _ Hm2) as Hd2. rewrite Hd1 in Hd2.
  eapply log_verifies_calm in Hv1; [|exact Hm2]. eapply audit_keys_named_calm in Hn1; [|exact Hm2].
  process_step. process_step; rewrite ?Hd2.
  { intros Hw. apply HC; [done|]. by eapply killed_hindered; [apply (calm_writes _ _ Hm2)|]. }
  2: { intros e s3 m3 E _.
       destruct (retire_signing_key_spec _ _ _ _ _ E (ku_signing _ _ Hk)) as
         (_ & _ & _ & _ & _ & _ & Hno).
       exfalso. by apply (Hno ltac:(done) old). }
  intros [] s3 m3 E Hm3.
  destruct (retire_signing_key_spec _ _ _ _ _ E (ku_signing _ _ Hk)) as
    (rows3 & -> & Hsig3 & Ht3 & Hids3 & Hact3 & _). rewrite <-Hd2 in Hm3, Ht3.
  destruct (log_verifies_signing m2 rows3 Hn1 Hv1) as [Hn3 Hv3]; [by rewrite Ht3|].
  process_step. process_step. intros n' m4 Hm4. pose proof (transitivity Hm3 Hm4) as Hm.
  clear Hm3 Hm4 m3. eapply audit_keys_named_calm in Hn3; [|exact Hm].
  eapply log_verifies_calm in Hv3; [|exact Hm].
  pose proof (calm_database _ _ Hm) as Hd4.
  assert (Hrows4 : trusted_signing_keys (database m4) = rows3) by (by rewrite Hd4).
  destruct (register_signing_key_spec (signing_key_id v) (public_key_bytes key) (env_now n')
              (database m4)) as (Er & Hsig5 & Ht5 & Hnone); [|by rewrite Hrows4|].
  { rewrite Hrows4. by eapply fresh_signing_id. }
  process_step; rewrite ?Er.
  { intros Hw. apply HC; [done|]. eapply killed_hindered; [|exact Hw].
    intros Hw1. by apply (calm_writes _ _ Hm), (calm_writes _ _ Hm2). }
  2: { by intros e s m5 [=]. }
  intros [] s5 m5 [= <-] Hm5.
  edestruct (log_verifies_signing m4) as [Hn5 Hv5];
    [done|done|rewrite Ht5; by apply insert_subseteq|].
  rewrite Hrows4 in *. apply (HQ _ rows3 (env_now n')); try done.
  - etransitivity; [|exact Hm5]. rewrite Hd4, Hd2. constructor; cbn; try done.
    + intros l. etransitivity; [apply (calm_secrets _ _ Hm)|apply (calm_secrets _ _ Hm2)].
    + by rewrite (calm_files _ _ Hm); cbn; rewrite (calm_files _ _ Hm2).
    + by rewrite (calm_backups _ _ Hm); cbn; rewrite (calm_backups _ _ Hm2).
    + intros Hw. by apply (calm_writes _ _ Hm), (calm_writes _ _ Hm2).
  - by eapply audit_keys_named_calm.
  - by eapply log_verifies_calm.
Qed.

Lemma rotate_signing_key_ends C (Q : unit -> Machine P -> Prop) m old v key :
  keys_in_order m -> log_verifies m -> log_sealed m ->
  old ∈ trusted_signing_keys (database m) -> skr_state old = "active" ->
  newest (database m) < v -> u32_range v -> length (signing_key key) = 32%nat ->
  (forall m', log_verifies m' -> hindered m -> C m') ->
  (forall m', keys_up_to v m' -> log_verifies m' -> log_sealed m' ->
     audit_key_versions (database m') = audit_key_versions (database m) ->
     secrets m' SIGNING_KEY_LOCATOR = Some (signing_key key) ->
     m_files m' = <[BROKER_KEY_PUB := public_key_bytes key]> (m_files m) ->
     (m_writes m = None -> m_writes m' = None) -> Q tt m') ->
  ends C Q (rotate_signing_key (skr_key_id old) (signing_key_id v) key m).
Proof.
  intros Hk Hv Hs Hold Hact Hnew Hr Hlen HC HQ. pose proof (ku_audit _ _ Hk) as Hn.
  assert (Hsame : forall m1, only_secret SIGNING_KEY_LOCATOR m m1 ->
            audit_keys_named m1 /\ log_verifies m1).
  { intros m1 Hm1. apply (log_verifies_only_secret _ _ _ Hm1); try done.
    intros r Hin. rewrite (an_locator _ Hn r Hin). apply audit_key_not_signing. }
  unfold rotate_signing_key. process_step. process_step.
  { intros Hw. apply HC; [done|]. by eapply killed_hindered. }
  2: { intros m1 Hun Hm1. apply HC; [by apply Hsame|].
       right. intros Hrel. by rewrite Hrel in Hun. }
  intros m1 Hm1 Hsec. destruct (Hsame _ Hm1) as [Hn1 Hv1].
  process_step. eapply (replace_signing_key_ends _ _ m); try done.
  { apply (os_database _ _ _ Hm1). }
  { intros m' Hv' [Hw|Hun]; (apply HC; [done|]); [left|by right].
    intros Hw'. by apply Hw, (os_writes _ _ _ Hm1). }
  cbv beta zeta. intros m5 rows now Hm5 Hok Hids Hact' Hn5 Hv5.
  assert (W5 : m_writes m = None -> m_writes m5 = None).
  { intros Hw. by apply (calm_writes _ _ Hm5), (os_writes _ _ _ Hm1). }
  process_step.
  { intros Hw. apply HC; [done|]. by eapply killed_hindered. }
  { intros m6 Hm6 Hw. apply HC; [by apply (log_verifies_calm _ _ Hm6)|].
    eapply killed_hindered; [|exact Hw]. intros Hw'. by apply (calm_writes _ _ Hm6), W5. }
  intros m6 Hm6. pose proof (transitivity (with_file_calm _ _ _ _ Hm5) Hm6) as Hm.
  pose proof (calm_database _ _ Hm) as Hd6. cbn in Hd6.
  assert (Hsec6 : secrets m6 SIGNING_KEY_LOCATOR = Some (signing_key key)).
  { etransitivity; [apply (calm_secrets _ _ Hm)|exact Hsec]. }
  apply HQ; try done.
  - eapply (rotated_keys _ m); try done; [pose proof (newest_nonneg (database m)); lia|].
    apply (audit_keys_named_calm _ _ Hm6). by destruct Hn5.
  - by apply (log_verifies_calm _ _ Hm6).
  - apply (log_sealed_tables m); [by rewrite Hd6..|done].
  - by rewrite Hd6.
  - rewrite (calm_files _ _ Hm). cbn. by rewrite (os_files _ _ _ Hm1).
  - intros Hw. by apply (calm_writes _ _ Hm6), W5.
Qed.

(** ** Rotation of the audit key *)

Lemma audit_keys_named_rows m rows :
  audit_keys_named m -> audit_rows_ok rows ->
  (forall row, row ∈ rows -> exists row', row' ∈ audit_key_versions (database m) /\
     akr_version row' = akr_version row /\ akr_key_locator row' = akr_key_locator row) ->
  audit_keys_named (with_database m (set_audit_key_versions (database m) rows)).
Proof.
  intros [Ho Hl Hf] Ho' Hr. constructor; [done|..]; cbn; intros row Hin;
    destruct (Hr row Hin) as (row' & Hin' & Hv & Hloc).
  - rewrite <-Hv, <-Hloc. auto.
  - rewrite <-Hloc. by apply Hf.
Qed.

Lemma log_verifies_audit m rows :
  let m' := with_database m (set_audit_key_versions (database m) rows) in
  audit_keys_named m -> audit_keys_named m' -> log_verifies m ->
  (forall row, row ∈ audit_key_versions (database m) -> exists row', row' ∈ rows /\
     akr_version row' = akr_version row /\ akr_key_locator row' = akr_key_locator row) ->
  log_verifies m'.
Proof.
  intros m' Hn Hn' Hv Hr. apply (log_verifies_more m); try done. intros row Hin.
  destruct (Hr row Hin) as (row' & ? & ? & ?). by exists row'.
Qed.

Lemma next_version_ends C (Q : Z -> Machine P -> Prop) m :
  (newest (database m) = u32_max -> C m) ->
  (newest (database m) <> u32_max -> Q (newest (database m) + 1) m) ->
  ends C Q (next_version m).
Proof.
  intros HC HQ. unfold next_version. process_step. process_step; [|by intros []].
  intros vs [= <-]. cbv zeta.
  set (n := fold_left _ _ _).
  assert (n = newest (database m)) as ->.
  { unfold newest, n. f_equal. apply map_ext. by intros [[v l] st]. }
  destruct (Z.eqb_spec (newest (database m)) u32_max); [apply ends_crash|apply ends_ret]; auto.
Qed.

Lemma fresh_locator m row v :
  audit_keys_named m -> row ∈ audit_key_versions (database m) -> akr_version row < v ->
  u32_range v -> akr_key_locator row <> audit_key_locator v.
Proof.
  intros Hn Hin Hlt Hr. rewrite (an_locator _ Hn row Hin). intros E.
  apply audit_key_locator_inj in E; [lia| |done].
  destruct (an_rows _ Hn) as [_ Hall]. rewrite list.Forall_forall in Hall. auto.
Qed.

(** The versions once the old one is retired and a new one is registered. *)
Lemma rotated_versions m v now :
  audit_keys_named m -> log_verifies m ->
  (forall row, row ∈ audit_key_versions (database m) -> akr_version row < v) ->
  is_Some (secrets m (audit_key_locator v)) -> u32_range v ->
  let rows := audit_key_versions (database m) ++
    [audit_key_row v (audit_key_locator v) "active" now] in
  let m' := with_database m (set_audit_key_versions (database m) rows) in
  register_audit_key_version v (audit_key_locator v) "active" now (database m)
    = (Ok tt, set_audit_key_versions (database m) rows) /\
  audit_keys_named m' /\ log_verifies m' /\ newest (database m') = v.
Proof.
  intros Hn Hv Hlt Hsec Hr rows m'.
  pose proof (fun row Hin => fresh_locator m row v Hn Hin (Hlt row Hin) Hr) as Hfresh.
  destruct (register_audit_key_spec v (audit_key_locator v) now (database m)) as [Hreg Hok];
    [..|exact (an_rows _ Hn)|done|].
  { intros (row & Hrv & Hin%list_elem_of_In%Hlt)%list_elem_of_In%in_map_iff. lia. }
  { intros (row & Hrl & Hin%list_elem_of_In%Hfresh)%list_elem_of_In%in_map_iff. congruence. }
  assert (Hn' : audit_keys_named m').
  { constructor; [done|..]; cbn; intros row [Hin|E%list_elem_of_singleton]%elem_of_app;
      try (by subst row); [by apply (an_locator _ Hn)|by apply (an_found _ Hn)]. }
  split_and!; [done|done| |].
  - apply log_verifies_audit; try done.
    intros row Hin. exists row. split; [|done]. apply elem_of_app. by left.
  - apply Z.le_antisymm.
    + apply newest_bound; [done|unfold u32_range in Hr; lia|]. cbn.
      intros row [Hin|E%list_elem_of_singleton]%elem_of_app; [by apply Z.lt_le_incl, Hlt|by subst row].
    + apply (newest_greatest (database m') (audit_key_row v (audit_key_locator v) "active" now)
        (an_rows _ Hn')). apply elem_of_app. right. by left.
Qed.

Lemma replace_audit_key_ends C (Q : unit -> Machine P -> Prop) m old v :
  audit_keys_named m -> log_verifies m -> is_Some (secrets m (audit_key_locator v)) ->
  old ∈ audit_key_versions (database m) -> akr_state old = "active" ->
  (forall row, row ∈ audit_key_versions (database m) -> akr_version row < v) -> u32_range v ->
  (forall m', log_verifies m' -> hindered m -> C m') ->
  (forall m' rows now,
     let rows' := rows ++ [audit_key_row v (audit_key_locator v) "active" now] in
     calm (with_database m (set_audit_key_versions (database m) rows')) m' ->
     audit_keys_named m' -> log_verifies m' -> newest (database m') = v -> Q tt m') ->
  ends C Q (replace_audit_key (akr_version old) v (audit_key_locator v) m).
Proof.
  intros Hn Hv Hsec Hold Hact Hlt Hr HC HQ. unfold replace_audit_key.
  process_step. process_step. intros n m1 Hm1. pose proof (calm_database _ _ Hm1) as Hd1.
  assert (Hn1 := audit_keys_named_calm _ _ Hm1 Hn).
  assert (Hv1 := log_verifies_calm _ _ Hm1 Hv).
  process_step. process_step; rewrite ?Hd1.
  { intros Hw. apply HC; [done|]. by eapply killed_hindered; [apply (calm_writes _ _ Hm1)|]. }
  2: { intros e s m2 E _.
       destruct (retire_audit_key_spec _ _ _ _ _ E (an_rows _ Hn)) as (_ & _ & _ & _ & Hno).
       exfalso. by apply (Hno ltac:(done) old). }
  intros [] s m2 E Hm2.
  destruct (retire_audit_key_spec _ _ _ _ _ E (an_rows _ Hn)) as (rows & -> & Hok & Hids & _).
  rewrite <-Hd1 in Hm2, Hids.
  assert (Hn2 : audit_keys_named (with_database m1 (set_audit_key_versions (database m1) rows))).
  { apply audit_keys_named_rows; try done. intros row. by apply elem_of_version_locators. }
  assert (Hv2 := log_verifies_audit m1 rows Hn1 Hn2 Hv1
                   (fun row => elem_of_version_locators _ _ row Hids)).
  process_step. process_step. intros n' m3 Hm3. pose proof (transitivity Hm2 Hm3) as Hm.
  clear Hm2 Hm3 m2. eapply audit_keys_named_calm in Hn2; [|exact Hm].
  eapply log_verifies_calm in Hv2; [|exact Hm].
  pose proof (calm_database _ _ Hm) as Hd3. cbn in Hd3.
  assert (Hrows : audit_key_versions (database m3) = rows) by (by rewrite Hd3).
  destruct (rotated_versions m3 v (env_now n') Hn2 Hv2) as (Er & Hn4 & Hv4 & Hnew); try done.
  { rewrite Hrows. intros row Hin. rewrite Hd1 in Hids.
    destruct (elem_of_version_locators _ _ row (eq_sym Hids) Hin) as (r & Hr' & <- & _).
    by apply Hlt. }
  { rewrite (calm_secrets _ _ Hm). destruct Hsec as [b Hb]. exists b.
    etransitivity; [apply (calm_secrets _ _ Hm1)|done]. }
  process_step; rewrite ?Er; [|intros [] s m4 [= <-] Hm4|by intros e s m4 [=]].
  { intros Hw. apply HC; [done|]. eapply killed_hindered; [|exact Hw].
    intros Hw1. by apply (calm_writes _ _ Hm), (calm_writes _ _ Hm1). }
  rewrite <-(calm_database _ _ Hm4) in Hnew. rewrite Hrows in *.
  apply (HQ _ rows (env_now n')); [|by eapply audit_keys_named_calm|by eapply log_verifies_calm|done].
  etransitivity; [|exact Hm4]. rewrite Hd3, Hd1. constructor; cbn; try done.
  - intros l. etransitivity; [apply (calm_secrets _ _ Hm)|apply (calm_secrets _ _ Hm1)].
  - by rewrite (calm_files _ _ Hm); cbn; rewrite (calm_files _ _ Hm1).
  - by rewrite (calm_backups _ _ Hm); cbn; rewrite (calm_backups _ _ Hm1).
  - intros Hw. by apply (calm_writes _ _ Hm), (calm_writes _ _ Hm1).
Qed.

Lemma rotate_audit_key_ends C (Q : unit -> Machine P -> Prop) m v :
  keys_up_to v m -> log_verifies m -> log_sealed m -> newest (database m) < v -> u32_range v ->
  (forall m', log_verifies m' -> hindered m -> C m') ->
  (forall m', keys_in_order m' -> log_verifies m' -> log_sealed m' -> newest (database m') = v ->
     secrets m' SIGNING_KEY_LOCATOR = secrets m SIGNING_KEY_LOCATOR ->
     m_files m' = m_files m -> Q tt m') ->
  ends C Q (rotate_audit_key v m).
Proof.
  intros Hk Hv Hs Hnew Hr HC HQ. pose proof Hk as [Hn Hna Hsig Hnames Hact Hcr].
  unfold rotate_audit_key.
  destruct (active_audit_key_spec (database m) (an_rows _ Hn)) as (active & Ea & Hactive).
  process_step. process_step; rewrite Ea; [intros ? [= <-]|by intros []].
  process_step. process_step.
  2: { intros ->. destruct Hna as (row & Hin & Ha). by destruct (Hactive row Hin). }
  intros [old_version old_locator] ->. destruct Hactive as (old & Hold & <- & _ & Hoa). cbv zeta.
  process_step. process_step. intros n m1 Hm1. fold (audit_key_locator v).
  assert (Hlt : forall row, row ∈ audit_key_versions (database m) -> akr_version row < v).
  { intros row Hin. pose proof (newest_greatest _ row (an_rows _ Hn) Hin). lia. }
  assert (Hsame : forall m2, only_secret (audit_key_locator v) m1 m2 ->
            audit_keys_named m2 /\ log_verifies m2).
  { intros m2 Hm2. apply (log_verifies_only_secret _ _ _ Hm2).
    - rewrite (calm_database _ _ Hm1). intros row Hin. eapply fresh_locator; eauto.
    - by eapply audit_keys_named_calm.
    - by eapply log_verifies_calm. }
  process_step. process_step.
  { intros Hw. apply HC; [by eapply log_verifies_calm|].
    by eapply killed_hindered; [apply (calm_writes _ _ Hm1)|]. }
  2: { intros m2 Hun Hm2. apply HC; [by apply Hsame|]. right. intros Hrel. by rewrite Hrel in Hun. }
  intros m2 Hm2 Hsec. destruct (Hsame _ Hm2) as [Hn2 Hv2].
  assert (Hd2 : database m2 = database m).
  { rewrite (os_database _ _ _ Hm2). apply (calm_database _ _ Hm1). }
  cbn [fst]. eapply replace_audit_key_ends; rewrite ?Hd2; try done.
  { intros m' Hv' [Hw|Hun]; (apply HC; [done|]); [left|by right].
    intros Hw'. by apply Hw, (os_writes _ _ _ Hm2), (calm_writes _ _ Hm1). }
  cbv beta zeta. intros m6 rows now Hm6 Hn6 Hv6 Hnew6.
  pose proof (calm_database _ _ Hm6) as Hd6. cbn in Hd6.
  assert (Hsec6 : secrets m6 SIGNING_KEY_LOCATOR = secrets m SIGNING_KEY_LOCATOR).
  { rewrite (calm_secrets _ _ Hm6). etransitivity; [by apply (os_other _ _ _ Hm2)|].
    apply (calm_secrets _ _ Hm1). }
  apply HQ; try done.
  - unfold keys_in_order. rewrite Hnew6.
    constructor; [done| |by rewrite Hd6..| |by rewrite Hd6].
    + rewrite Hd6. eexists. split; [apply elem_of_app; right; by left|done].
    + rewrite Hd6, Hsec6. exact Hact.
  - apply (log_sealed_tables m); [by rewrite Hd6..|done].
  - rewrite (calm_files _ _ Hm6). cbn. by rewrite (os_files _ _ _ Hm2), (calm_files _ _ Hm1).
Qed.

(** ** The command *)

(** The key store does not fail, the process is left alone, no socket stands in
    the way and there is a version left. *)
Definition unhindered m : Prop :=
  reliable (P := P) /\ m_writes m = None /\ m_files m !! ADMIN_SOCK = None /\
  newest (database m) < u32_max.

Lemma unhindered_hindered m m' : calm m m' -> hindered m' -> ~ unhindered m.
Proof. intros Hc [Hw|Hr]%(hindered_calm _ _ Hc) (? & ? & _); auto. Qed.

(** The active signing key, as the commands look it up. *)
Lemma active_signing_key m bound :
  keys_up_to bound m -> exists row key,
    active_signing_key_id (database m) = Ok (Some (skr_key_id row)) /\
    row ∈ trusted_signing_keys (database m) /\ skr_state row = "active" /\
    secrets m SIGNING_KEY_LOCATOR = Some key /\ length key = 32%nat /\
    trusted (database m) !! skr_key_id row = Some (ed_public key).
Proof.
  intros Hk. destruct (ku_active _ _ Hk) as (row & key & Hin & Ha & Hu & Hs & Hl & Hp).
  exists row, key. split_and!; try done.
  - unfold active_signing_key_id. set (actives := order_by _ _).
    assert (Hact : forall r, r ∈ actives <-> r ∈ trusted_signing_keys (database m) /\
              skr_state r = "active").
    { intros r. unfold actives. rewrite order_by_perm. unfold select_where.
      rewrite list_elem_of_In, filter_In, <-list_elem_of_In, bool_decide_eq_true. tauto. }
    destruct actives as [|r rs]; cbn.
    + assert (row ∈ ([] : list SigningKeyRow)) by by apply Hact. set_solver.
    + do 2 f_equal. f_equal. apply Hu; apply Hact; by left.
  - rewrite <-Hp. by apply trusted_row, Hin; apply (ku_signing _ _ Hk).
Qed.

Lemma stored_key_ends C (Q : KeyPair -> Machine P -> Prop) m key :
  secrets m SIGNING_KEY_LOCATOR = Some key -> length key = 32%nat ->
  (forall m', calm m m' -> Q {| signing_key := key |} m') ->
  ends C Q (stored_key m).
Proof.
  intros Hs Hl HQ. unfold stored_key. process_step.
  process_step; intros; [|congruence]. process_step.
  - intros k Hk. apply keypair_from_bytes_Ok in Hk as [_ ->].
    replace (secret_as_bytes secret) with key by congruence. by apply HQ.
  - intros [e He]. unfold keypair_from_bytes, blen in He.
    replace (secret_as_bytes secret) with key in He by congruence. by rewrite Hl in He.
Qed.

(** What a finished rotation of [m] leaves. *)
Definition rotated m m' : Prop :=
  keys_in_order m' /\ log_sealed m' /\ newest (database m') = newest (database m) + 1 /\
  exists key, secrets m' SIGNING_KEY_LOCATOR = Some key /\
    m_files m' !! BROKER_KEY_PUB = Some (ed_public key).

Lemma rotate_to_ends C (Q : unit -> Machine P -> Prop) m old key :
  keys_in_order m -> log_verifies m -> log_sealed m ->
  old ∈ trusted_signing_keys (database m) -> skr_state old = "active" ->
  length (signing_key key) = 32%nat ->
  (forall m', log_verifies m' -> hindered m \/ newest (database m) = u32_max -> C m') ->
  (forall m', log_verifies m' -> rotated m m' -> Q tt m') ->
  ends C Q (rotate_to (skr_key_id old) key m).
Proof.
  intros Hk Hv Hs Hold Hact Hlen HC HQ. pose proof (newest_nonneg (database m)) as H0n.
  assert (Hmax : newest (database m) <= u32_max).
  { apply newest_bound; [apply (ku_audit _ _ Hk)|done|]. intros row Hin.
    destruct (an_rows _ (ku_audit _ _ Hk)) as [_ Hall]. rewrite list.Forall_forall in Hall.
    specialize (Hall row Hin). unfold u32_range, u32_max in *. lia. }
  unfold rotate_to. process_step. apply next_version_ends; [by auto|].
  intros Hmax'. cbv zeta. fold (signing_key_id (newest (database m) + 1)).
  assert (Hr : u32_range (newest (database m) + 1)) by (unfold u32_range, u32_max in *; lia).
  process_step. apply rotate_signing_key_ends; try done; try lia; [by auto|].
  intros m6 Hk6 Hv6 Hs6 Ha6 Hsec6 Hf6 W6.
  assert (Hn6 : newest (database m6) = newest (database m)).
  { unfold newest, versions. cbn. by rewrite Ha6. }
  process_step. apply rotate_audit_key_ends; try done; try lia.
  { intros m' Hv' [Hw|Hun]; (apply HC; [done|]); left; [left|by right]. auto. }
  intros m7 Hk7 Hv7 Hs7 Hn7 Hsec7 Hf7. process_step. intros m8 Hm8.
  apply HQ; [by eapply log_verifies_calm|]. split_and!.
  - by eapply keys_in_order_calm.
  - by eapply log_sealed_calm.
  - by rewrite (calm_database _ _ Hm8).
  - exists (signing_key key). split; [by rewrite (calm_secrets _ _ Hm8), Hsec7|].
    rewrite (calm_files _ _ Hm8), Hf7, Hf6. apply lookup_insert_eq.
Qed.

(** [OsRng] fills the 32 bytes it is given. *)
Hypothesis random_length : forall n, length (env_random n) = 32%nat.

Lemma keys_rotate_ends m :
  keys_in_order m -> log_verifies m ->
  ends (fun m' => log_verifies m' /\ ~ unhindered m)
    (fun _ m' => log_verifies m' /\ rotated m m') (keys_rotate m).
Proof.
  intros Hk Hv.
  assert (Hh : forall m0 m', calm m m0 -> log_verifies m' -> hindered m0 ->
            log_verifies m' /\ ~ unhindered m).
  { intros m0 m' Hm0 Hv' Hhin. split; [done|]. by eapply unhindered_hindered. }
  unfold keys_rotate.
  process_step. process_step. process_step. process_step.
  2: { intros E. split; [done|]. intros (_ & _ & Hsock & _). by rewrite Hsock in E. }
  intros _. process_step. process_step. intros m1 Hm1.
  process_step. apply verify_audit_ends;
    [|intros m2 _ Hno; destruct Hno; by eapply log_verifies_calm].
  intros _ m2 Hm2 _. pose proof (transitivity Hm1 Hm2) as Hm. clear Hm1 Hm2 m1.
  assert (Hk2 := keys_in_order_calm _ _ Hm Hk). assert (Hv2 := log_verifies_calm _ _ Hm Hv).
  pose proof (calm_database _ _ Hm) as Hd2.
  destruct (active_signing_key _ _ Hk2) as (old & key & Ea & Hold & Hact & Hsec & Hlen & Ht).
  process_step. process_step; rewrite Ea; [intros ? [= <-]|by intros []].
  process_step. process_step; [|done]. intros old_id [= <-].
  process_step. eapply stored_key_ends; [done..|]. intros m3 Hm3.
  pose proof (transitivity Hm Hm3) as Hm03. pose proof (calm_database _ _ Hm3) as Hd3.
  process_step. apply closing_checkpoint_ends; rewrite ?Hd3; try done.
  { by eapply log_verifies_calm. }
  { intros m4 Hm4 Hw. eapply (Hh m3); [done| |by left].
    by eapply log_verifies_calm, log_verifies_calm. }
  intros m4 Hm4 Hv4 Hs4. process_step. unfold generate_key.
  process_step. process_step. intros n m5 Hm5. process_step.
  assert (Hd5 : exists rows, database m5 = set_audit_checkpoints (database m) rows).
  { rewrite (calm_database _ _ Hm5), <-Hd2, <-Hd3. apply Hm4. }
  assert (Hnew : newest (database m5) = newest (database m)) by by destruct Hd5 as [rows ->].
  apply rotate_to_ends.
  - eapply keys_in_order_calm; [exact Hm5|]. unfold keys_in_order.
    rewrite <-(calm_database _ _ Hm5), Hnew, <-Hd2, <-Hd3.
    eapply keys_up_to_same_keys; [exact Hm4|]. apply (keys_in_order_calm _ _ Hm3 Hk2).
  - by eapply log_verifies_calm.
  - by eapply log_sealed_calm.
  - destruct Hd5 as [rows ->]. cbn. by rewrite <-Hd2.
  - done.
  - apply random_length.
  - intros m' Hv' Hor. split; [done|]. intros (Hrel & Hw & _ & Hlt).
    destruct Hor as [[Hw'|Hr]|Hmax]; [|done|lia]. apply Hw', (calm_writes _ _ Hm5), Hm4.
    by apply (calm_writes _ _ Hm03).
  - intros m' Hv' Hrot. split; [done|]. unfold rotated in *. by rewrite <-Hnew.
Qed.

(** C14: whichever change [secretctl keys rotate] is stopped at, the audit log of
    an installation whose keys are in order still verifies with its checkpoints;
    when it finishes, the keys are in order again, one version newer, the log is
    sealed by a checkpoint at its end and the pin on disk is that of the new key;
    and it does finish when nothing hinders it. *)
Theorem rotation_keeps_the_log m :
  keys_in_order m -> log_verifies m ->
  let '(e, m') := keys_rotate m in
  log_verifies m' /\
  match e with
  | Finished _ => rotated m m'
  | _ => ~ unhindered m
  end.
Proof.
  intros Hk Hv. assert (Ho := keys_rotate_ends m Hk Hv).
  by destruct (keys_rotate m) as [[[]| | |] m'].
Qed.
End Rotation.
