(* ===== verification/CommandProps.v ===== *)
(** * CommandProps: what the local commands keep

    Every command of [Cli.v] is run on an installation in good order: its keys in
    order and its log verifiable. Only an interrupted rotation and a restored
    backup can end that order; credentials are the other way to it, when they are
    given the name of one of the installation's own keys. *)

From S2P Require Import Prelude.
From S2P Require Import Externals.
From S2P Require Import Domain.
From S2P Require Import Policy.
From S2P Require Import Crypto.
From S2P Require Import DomView.
From S2P Require Import AuditChain.
From S2P Require Import Provider.
From S2P Require Import Table.
From S2P Require Import Store.
From S2P Require Import Protocol.
From S2P Require Import Framing.
From S2P Require Import BrokerState.
From S2P Require Import Server.
From S2P Require Import Installation.
From S2P Require Import ProcessLogic.
From S2P Require Import KeyFacts.
From S2P Require Import Startup.
From S2P Require Import Cli.
From S2P Require Import StoreProps.
From S2P Require Import KeyProps.
From S2P Require Import Rotation.

Section Commands.
Context `{ChronoLaws, Hashes, SignatureLaws, Base64, UrlParser, JsonCodec, !Environment,
  EnvLaws : !EnvironmentLaws, SqliteText, PolicySerializer, PolicyYaml, FileErrors, RecipeFiles,
  Terminal, CommandHost, Printing} {P : Type} `{SecretProviderLaws P}.
Implicit Type m : Machine P.

Hypothesis random_length : forall n, length (env_random n) = 32%nat.
(** The key store knows what it holds. *)
Hypothesis exists_agrees : forall locator (p : P) b,
  exists_secret locator p = Ok b -> b = bool_decide (is_Some (secret_at locator p)).

Definition in_order m : Prop := keys_in_order m /\ log_verifies m.

(** ** What keeps the order *)

(** The statement leaves the tables of the keys and the log alone, and puts no
    credential in their place. *)
Definition key_tables (s : Store) :=
  (audit_events s, audit_checkpoints s, trusted_signing_keys s, audit_key_versions s).
Definition credentials_aside (s : Store) : Prop :=
  forall row, row ∈ credentials s -> ~ reserved (crr_provider_locator row).
Definition leaves_keys (s s' : Store) : Prop :=
  key_tables s' = key_tables s /\ (credentials_aside s -> credentials_aside s').

Lemma leaves_keys_refl s : leaves_keys s s.
Proof. done. Qed.
Lemma leaves_keys_trans s1 s2 s3 : leaves_keys s1 s2 -> leaves_keys s2 s3 -> leaves_keys s1 s3.
Proof. unfold leaves_keys. intros [-> ?] [-> ?]. auto. Qed.

Lemma in_order_calm m m' : calm m m' -> in_order m -> in_order m'.
Proof.
  intros Hc [Hk Hv]. split; [by eapply keys_in_order_calm|by eapply log_verifies_calm].
Qed.

(** The keys that are registered stay where they are. *)
Definition same_registered_keys m m' : Prop :=
  secrets m' SIGNING_KEY_LOCATOR = secrets m SIGNING_KEY_LOCATOR /\
  forall row, row ∈ audit_key_versions (database m) ->
    secrets m' (akr_key_locator row) = secrets m (akr_key_locator row).

Lemma in_order_same_keys m m' :
  same_registered_keys m m' -> leaves_keys (database m) (database m') -> in_order m -> in_order m'.
Proof.
  intros [Hsig Hsec] [[= He Hc Ht Ha] Hcr] [[Hn Hna Hrows Hnames Hact Hcreds] Hv].
  assert (Hn' : audit_keys_named m').
  { constructor; rewrite ?Ha; [apply Hn|apply Hn|]. intros row Hin. rewrite Hsec by done.
    by apply (an_found _ Hn). }
  split.
  - unfold keys_in_order, newest, versions in *. cbn in *. rewrite Ha. constructor; try done.
    + by rewrite Ha.
    + by rewrite Ht.
    + by rewrite Ht.
    + by rewrite Ht, Hsig.
    + by apply Hcr.
  - apply (log_verifies_more m); rewrite ?Ha; try done.
    + intros row Hin. exists row. split_and!; try done. by apply Hsec.
    + unfold trusted, get_trusted_signing_keys. by rewrite Ht.
Qed.

Lemma in_order_kept m m' :
  (forall l, reserved l -> secrets m' l = secrets m l) ->
  leaves_keys (database m) (database m') -> in_order m -> in_order m'.
Proof.
  intros Hs Hl Hm. apply (in_order_same_keys m); [|done..]. split; [apply Hs; by left|].
  intros row Hin. apply Hs. right. eexists. destruct Hm as [[Hn _ _ _ _ _] _].
  by apply (an_locator _ Hn).
Qed.

Definition keeps {A : Type} (p : Process P A) : Prop :=
  forall m, in_order m -> ends in_order (fun _ => in_order) (p m).

Lemma keeps_value {A : Type} (a : A) : keeps (mret a).
Proof. by intros m Hm. Qed.
Lemma keeps_exit {A : Type} message : keeps (exit_with (A := A) message).
Proof. by intros m Hm. Qed.

Lemma keeps_sequence {A B : Type} (p : Process P A) (f : A -> Process P B) :
  keeps p -> (forall a, keeps (f a)) -> keeps (p ≫= f).
Proof.
  intros Hp Hf m Hm. apply ends_bind. eapply ends_weaken; [done| |by apply Hp].
  intros a m' Hm'. by apply Hf.
Qed.

Lemma keeps_attempting {E A : Type} (text : E -> string) (r : result E A) :
  keeps (attempting text r).
Proof. intros m Hm. by apply ends_attempting. Qed.
Lemma keeps_expecting {A : Type} message (o : option A) : keeps (expecting message o).
Proof. intros m Hm. by apply ends_expecting. Qed.
Lemma keeps_demand b message : keeps (demand b message).
Proof. intros m Hm. by apply ends_demand. Qed.
Lemma keeps_looking {A : Type} (f : Machine P -> A) : keeps (looking f).
Proof. by intros m Hm. Qed.
Lemma keeps_sampling {A : Type} (f : nat -> A) : keeps (sampling f).
Proof. intros m Hm. apply ends_sampling. intros n m' Hc. by eapply in_order_calm. Qed.
Lemma keeps_println_each lines : keeps (println_each lines).
Proof. intros m Hm. apply ends_println_each. intros m' Hc. by eapply in_order_calm. Qed.
Lemma keeps_println line : keeps (println line).
Proof. apply keeps_println_each. Qed.
Lemma keeps_open_store : keeps open_store.
Proof. intros m Hm. apply ends_open_store. intros m' Hc. by eapply in_order_calm. Qed.
Lemma keeps_selects {A : Type} (f : Store -> result StoreError A) : keeps (selects f).
Proof. intros m Hm. by apply ends_selects. Qed.
Lemma keeps_read_to_string path : keeps (read_to_string path).
Proof. intros m Hm. by apply ends_read_to_string. Qed.
Lemma keeps_read_secret locator : keeps (read_secret locator).
Proof. intros m Hm. apply ends_read_secret; intros; by eapply in_order_calm. Qed.
Lemma keeps_verify_audit : keeps verify_audit.
Proof. intros m Hm. apply verify_audit_ends; intros; by eapply in_order_calm. Qed.

Lemma keeps_change {A : Type} (f : Machine P -> A * Machine P) :
  (forall m, in_order m -> in_order (snd (f m))) -> keeps (change f).
Proof.
  intros Hf m Hm. apply ends_change; [done|intros w Hw|intros _]; [|by apply Hf].
  apply Hf. eapply in_order_calm; [|exact Hm]. by apply calm_spent.
Qed.

Lemma with_file_in_order m path bytes : in_order m -> in_order (with_file m path bytes).
Proof. by apply in_order_kept. Qed.

Lemma keeps_write_file path bytes : keeps (write_file path bytes).
Proof.
  intros m Hm. apply ends_write_file; [done|intros m' Hc _|intros m' Hc];
    by eapply in_order_calm; [exact Hc|apply with_file_in_order].
Qed.

Lemma keeps_executes_raw {A : Type} (op : Store -> result StoreError A * Store) :
  (forall s, leaves_keys s (snd (op s))) -> keeps (executes_raw op).
Proof.
  intros Hop m Hm. apply ends_executes_raw; [done|]. intros m' Hc.
  eapply in_order_calm; [exact Hc|]. apply (in_order_kept m); [done|apply Hop|done].
Qed.
Lemma keeps_executes {A : Type} (op : Store -> result StoreError A * Store) :
  (forall s, leaves_keys s (snd (op s))) -> keeps (executes op).
Proof.
  intros Hop. apply keeps_sequence; [by apply keeps_executes_raw|intros r; apply keeps_attempting].
Qed.

Lemma only_secret_in_order locator m m' :
  ~ reserved locator -> only_secret locator m m' -> in_order m -> in_order m'.
Proof.
  intros Hl [Hs Hd _ _ _]. apply in_order_kept; [|by rewrite Hd].
  intros l Hr. apply Hs. by intros ->.
Qed.

Lemma keeps_write_secret locator secret : ~ reserved locator -> keeps (write_secret locator secret).
Proof.
  intros Hl m Hm. apply ends_write_secret; [done|intros m' Ho _|intros m' _ Ho];
    by eapply only_secret_in_order.
Qed.
Lemma keeps_remove_secret locator : ~ reserved locator -> keeps (remove_secret locator).
Proof.
  intros Hl m Hm. apply ends_remove_secret; [done|intros r m' _ Ho _].
  by eapply only_secret_in_order.
Qed.

(** ** The statements of the commands *)

Lemma commit_leaves {A : Type} (body : Statement A) s :
  (forall a s', body s = Ok (a, s') -> leaves_keys s s') -> leaves_keys s (snd (commit body s)).
Proof. unfold commit. intros Hb. destruct (body s) as [[a s']|e]; [by eapply Hb|done]. Qed.

Lemma insert_agent_leaves agent s : leaves_keys s (snd (insert_agent agent s)).
Proof. apply commit_leaves. by intros [] s' (-> & _)%insert_into_Ok. Qed.

Lemma insert_credential_leaves c s :
  ~ reserved (cred_provider_locator c) -> leaves_keys s (snd (insert_credential c s)).
Proof.
  intros Hl. apply commit_leaves. intros [] s' (-> & _)%insert_into_Ok. split; [done|].
  intros Hs row [Hin|E%list_elem_of_singleton]%elem_of_app; [by apply Hs|by subst row].
Qed.

Lemma delete_credential_leaves name s : leaves_keys s (snd (delete_credential_by_name name s)).
Proof.
  apply commit_leaves. intros a s'. cbv zeta. destruct (negb _); [done|]. intros [= <- <-].
  split; [done|]. intros Hs row Hin. apply Hs. cbn in Hin. unfold delete_where in Hin.
  apply list_elem_of_In, filter_In in Hin as [Hin _]. by apply list_elem_of_In.
Qed.

Lemma revoke_grants_leaves selector reason now s :
  leaves_keys s (snd (revoke_standing_grants selector reason now s)).
Proof.
  unfold revoke_standing_grants. destruct (list_standing_grants s false) as [grants|e]; [|done].
  cbn. generalize s. induction (List.filter _ grants) as [|g gs IH]; intros s'; [done|]. cbn.
  eapply leaves_keys_trans; [|apply IH]. done.
Qed.

(** ** The locators that are not reserved *)

Lemma agent_locator_free id : ~ reserved (agent_locator id).
Proof. intros [E|[v E]]; unfold agent_locator in E; discriminate E. Qed.

Lemma credential_locator_free s name c :
  credentials_aside s -> get_credential_by_name s name = Ok c ->
  ~ reserved (cred_provider_locator c).
Proof.
  intros Hs. unfold get_credential_by_name, not_found, query_row.
  destruct (select_first _ _) as [row|] eqn:E; [|done]. apply select_first_Some in E as [Hin _].
  intros (a & _ & (b & _ & (i & _ & [= <-])%bind_Ok_inv)%bind_Ok_inv)%map_err_Ok%bind_Ok_inv.
  by apply Hs.
Qed.

(** ** The commands *)

#[local] Hint Resolve keeps_value keeps_exit keeps_attempting keeps_expecting keeps_demand
  keeps_looking keeps_sampling keeps_println keeps_println_each keeps_open_store keeps_selects
  keeps_read_to_string keeps_read_secret keeps_verify_audit keeps_write_file keeps_write_secret
  keeps_remove_secret keeps_executes keeps_executes_raw agent_locator_free insert_agent_leaves
  delete_credential_leaves revoke_grants_leaves insert_credential_leaves : keeps.

Ltac keep :=
  repeat first
    [ solve [auto with keeps]
    | apply keeps_sequence; [|intros ?]
    | match goal with
      | |- keeps (match ?x with _ => _ end) => destruct x
      | |- keeps (let '(_, _) := ?x in _) => destruct x
      end
    | progress cbv zeta ].

Lemma keeps_agent_command command : keeps (agent_command command).
Proof.
  unfold agent_command. destruct command; unfold agent_create, generate_key, agent_enroll,
    reads_host_file, decoded_key, pinned_executable, agent_sign; keep.
Qed.

Lemma keeps_queries :
  keeps grants_command /\ (forall name agent, keeps (revoke_command name agent)) /\
  (forall name, keeps (explain_command name)) /\ (forall limit, keeps (logs_command limit)).
Proof.
  split_and!; intros; unfold grants_command, revoke_command, explain_command, logs_command; keep.
Qed.

Lemma keeps_policy_command command : keeps (policy_command command).
Proof. unfold policy_command, policy_at. destruct command; keep. Qed.

Lemma keeps_audit_command command : keeps (audit_command command).
Proof. unfold audit_command, parse_time. destruct command; keep. Qed.

Lemma keeps_other_commands label path output :
  keeps (recipe_validate path) /\ keeps (doctor label) /\ keeps (backup_command output).
Proof.
  split_and!; [unfold recipe_validate|unfold doctor, secret_exists, file_exists|
    unfold backup_command]; keep.
  apply keeps_change. intros m. by apply in_order_kept.
Qed.

(** A credential is added under a name that is not one of the installation's own
    locators, whether it is given or typed. *)
Definition free_name (name : option string) : Prop :=
  match name with
  | Some name => ~ reserved name
  | None => forall n line, typed_line n = Some line -> ~ reserved (trim_string line)
  end.

Lemma given_name_ends (Q : string -> Machine P -> Prop) m name :
  free_name name -> in_order m ->
  (forall name m', ~ reserved name -> in_order m' -> Q name m') ->
  ends in_order Q (given_name name m).
Proof.
  intros Hf Hm HQ. destruct name as [name|]; cbn [given_name free_name] in *.
  - process_step. by apply HQ.
  - unfold prompted_line. process_step. process_step. intros n m' Hc.
    assert (Hm' := in_order_calm _ _ Hc Hm). process_step. process_step; [|done].
    intros line E. process_step. apply HQ; [by eapply Hf|done].
Qed.

Lemma keeps_credential_add name kind origin provider_name stdin :
  free_name name -> keeps (credential_add name kind origin provider_name stdin).
Proof.
  intros Hf m Hm. unfold credential_add. process_step.
  apply given_name_ends; [done|done|]. clear m Hm name Hf. intros name m Hf Hm.
  revert m Hm.
  match goal with |- forall m, in_order m -> ends _ _ (?p m) => change (keeps p) end.
  unfold given_origin, prompted_line, given_secret, prompt_secret. keep.
Qed.

(** What is done with a credential that was found is done at its own locator. *)
Lemma keeps_described {A : Type} name (f : CredentialDescriptor -> Process P A) :
  (forall c, ~ reserved (cred_provider_locator c) -> keeps (f c)) ->
  keeps (selects (fun s => get_credential_by_name s name) ≫= f).
Proof.
  intros Hf m Hm. process_step. process_step; [|done]. intros c Hc. apply Hf; [|done].
  eapply credential_locator_free; [|exact Hc].
  intros row Hin. by apply (ku_credentials _ _ (proj1 Hm)).
Qed.

Lemma keeps_credential_command command :
  (forall name kind origin provider_name stdin,
     command = CredentialAdd name kind origin provider_name stdin -> free_name name) ->
  keeps (credential_command command).
Proof.
  intros Hf. unfold credential_command. apply keeps_sequence; [apply keeps_open_store|intros _].
  destruct command as [name kind origin provider_name stdin|json|name|name|name].
  - apply keeps_credential_add. by eapply Hf.
  - keep.
  - apply keeps_described. intros c Hc. unfold prompt_secret. keep.
  - apply keeps_described. intros c Hc. keep.
  - apply keeps_described. intros c Hc. unfold secret_exists. keep.
Qed.

(** Initialization finds everything in place. *)
Lemma keeps_init_signing_key : keeps init_signing_key.
Proof.
  intros m Hm. unfold init_signing_key. process_step. process_step.
  process_step. process_step; [|done]. intros present Hp. apply exists_agrees in Hp.
  destruct (active_signing_key _ _ (proj1 Hm)) as (row & key & _ & _ & _ & Hs & Hl & _).
  rewrite bool_decide_eq_true_2 in Hp by by exists key. subst present.
  eapply stored_key_ends; [done..|]. intros m' Hc. by eapply in_order_calm.
Qed.

Lemma keeps_register_first_signing_key key : keeps (register_first_signing_key key).
Proof.
  intros m Hm. unfold register_first_signing_key.
  destruct (active_signing_key m _ (proj1 Hm)) as (row & key' & Ha & _).
  process_step. process_step; rewrite Ha; [|by intros []]. by intros ? [= <-].
Qed.

Lemma keeps_init_audit_key : keeps init_audit_key.
Proof.
  intros m Hm. unfold init_audit_key. process_step. process_step. process_step.
  process_step; [|done]. intros present Hp. apply exists_agrees in Hp. destruct present; [done|].
  process_step. process_step. intros n m1 Hc. assert (Hm1 := in_order_calm _ _ Hc Hm).
  assert (Hfree : forall row, row ∈ audit_key_versions (database m1) ->
            akr_key_locator row <> FIRST_AUDIT_KEY).
  { intros row Hin E. destruct (an_found _ (ku_audit _ _ (proj1 Hm1)) row Hin) as [b Hb].
    rewrite E, (calm_secrets _ _ Hc) in Hb.
    by rewrite bool_decide_eq_true_2 in Hp by by exists b. }
  assert (Hkeep : forall m2, only_secret FIRST_AUDIT_KEY m1 m2 -> in_order m2).
  { intros m2 [Ho Hd _ _ _]. apply (in_order_same_keys m1); [|by rewrite Hd|done].
    split; [by apply Ho|]. intros row Hin. by apply Ho, Hfree. }
  process_step; auto.
Qed.

Lemma keeps_register_first_audit_key : keeps register_first_audit_key.
Proof.
  intros m Hm. unfold register_first_audit_key.
  destruct (active_audit_key_spec (database m)) as (active & Ha & Hactive);
    [apply (ku_audit _ _ (proj1 Hm))|].
  process_step. process_step; rewrite Ha; [|by intros []]. intros ? [= <-].
  destruct active as [[v l]|]; [done|].
  destruct (ku_audit_active _ _ (proj1 Hm)) as (row & Hin & Hst). by destruct (Hactive row Hin).
Qed.

#[local] Hint Resolve keeps_init_signing_key keeps_register_first_signing_key keeps_init_audit_key
  keeps_register_first_audit_key : keeps.

Lemma keeps_init : keeps init.
Proof. unfold init, init_policy, file_exists. keep. Qed.

(** ** Any sequence of commands *)

(** Everything but a backup that is restored, and a credential under a name of the
    installation's own. *)
Definition careful (c : Commands) : Prop :=
  match c with
  | CredentialCommand (CredentialAdd name _ _ _ _) => free_name name
  | RestoreFrom _ => False
  | _ => True
  end.

Lemma keeps_run_command label c : careful c -> c <> KeysRotate -> keeps (run_command label c).
Proof.
  intros Hc Hr. destruct keeps_queries as (Hg & Hrev & He & Hl).
  destruct c as [|command| |name agent|name|limit|command|command|command| |path| |output|from];
    cbn [run_command].
  - apply keeps_init.
  - apply keeps_agent_command.
  - done.
  - done.
  - done.
  - done.
  - apply keeps_credential_command. intros n k o p s ->. exact Hc.
  - apply keeps_policy_command.
  - apply keeps_audit_command.
  - done.
  - apply (keeps_other_commands label path None).
  - apply (keeps_other_commands label "" None).
  - apply (keeps_other_commands label "" output).
  - destruct Hc.
Qed.

(** ** A new installation *)

(** A database without keys and without a log, and what initialization has put
    into it when it comes to the audit key. *)
Definition unused (s : Store) : Prop :=
  audit_events s = [] /\ audit_checkpoints s = [] /\ audit_key_versions s = [] /\
  credentials_aside s.
Definition blank m : Prop := unused (database m) /\ trusted_signing_keys (database m) = [].

Lemma unused_verifies m : unused (database m) -> log_verifies m.
Proof.
  intros (He & Hc & Ha & _). exists [], [], ∅.
  unfold list_audit_events, list_audit_checkpoints, versions. cbn. by rewrite He, Hc, Ha.
Qed.

Lemma stored_key_found C (Q : KeyPair -> Machine P -> Prop) m :
  (forall m', calm m m' -> C m') ->
  (forall key m', calm m m' -> secrets m SIGNING_KEY_LOCATOR = Some (signing_key key) ->
     length (signing_key key) = 32%nat -> Q key m') ->
  ends C Q (stored_key m).
Proof.
  intros HC HQ. unfold stored_key. process_step. process_step; [|auto].
  intros secret m' Hm' Hs. process_step; [|auto].
  intros key [Hl ->]%keypair_from_bytes_Ok. by apply HQ.
Qed.

Lemma init_signing_key_ends (Q : KeyPair -> Machine P -> Prop) m :
  unused (database m) ->
  (forall key m', database m' = database m -> m_files m' = m_files m ->
     secrets m' SIGNING_KEY_LOCATOR = Some (signing_key key) ->
     length (signing_key key) = 32%nat -> Q key m') ->
  ends log_verifies Q (init_signing_key m).
Proof.
  intros Hu HQ. pose proof (unused_verifies _ Hu) as Hv.
  unfold init_signing_key. process_step. process_step. process_step.
  process_step; [|done]. intros [] _.
  - apply stored_key_found; [intros m' Hc; by eapply log_verifies_calm|].
    intros key m' Hc Hs Hl. apply HQ; [apply (calm_database _ _ Hc)|apply (calm_files _ _ Hc)| |done].
    by rewrite (calm_secrets _ _ Hc).
  - process_step. unfold generate_key. process_step. process_step. intros n m1 Hc. process_step.
    process_step. process_step; [intros _; by eapply log_verifies_calm|..].
    + intros m2 Ho Hs. process_step. apply HQ; [| |done|apply random_length].
      * by rewrite (os_database _ _ _ Ho), (calm_database _ _ Hc).
      * by rewrite (os_files _ _ _ Ho), (calm_files _ _ Hc).
    + intros m2 _ Ho. apply unused_verifies. by rewrite (os_database _ _ _ Ho), (calm_database _ _ Hc).
Qed.

Lemma init_audit_key_ends (Q : unit -> Machine P -> Prop) m :
  unused (database m) ->
  (forall m', database m' = database m -> m_files m' = m_files m ->
     secrets m' SIGNING_KEY_LOCATOR = secrets m SIGNING_KEY_LOCATOR ->
     is_Some (secrets m' FIRST_AUDIT_KEY) -> Q tt m') ->
  ends log_verifies Q (init_audit_key m).
Proof.
  intros Hu HQ. pose proof (unused_verifies _ Hu) as Hv.
  unfold init_audit_key. process_step. process_step. process_step.
  process_step; [|done]. intros present Hp. apply exists_agrees in Hp. destruct present.
  - process_step. apply HQ; try done.
    exact (proj1 (bool_decide_eq_true _) (eq_sym Hp)).
  - process_step. process_step. intros n m1 Hc.
    process_step; [intros _; by eapply log_verifies_calm|..].
    + intros m2 Ho Hs. apply HQ; [| | |by rewrite Hs].
      * by rewrite (os_database _ _ _ Ho), (calm_database _ _ Hc).
      * by rewrite (os_files _ _ _ Ho), (calm_files _ _ Hc).
      * by rewrite (os_other _ _ _ Ho), (calm_secrets _ _ Hc).
    + intros m2 _ Ho. apply unused_verifies. by rewrite (os_database _ _ _ Ho), (calm_database _ _ Hc).
Qed.

Lemma init_policy_ends (Q : unit -> Machine P -> Prop) s m :
  unused s -> database m = s -> (forall m', database m' = s -> Q tt m') ->
  ends log_verifies Q (init_policy m).
Proof.
  intros Hu <- HQ. pose proof (unused_verifies _ Hu) as Hv.
  unfold init_policy. process_step. process_step. destruct (bool_decide _).
  - process_step. by apply HQ.
  - process_step; [done|intros m' Hc _; by eapply log_verifies_calm|].
    intros m' Hc. apply HQ. apply (calm_database _ _ Hc).
Qed.

(** The keys after the two registrations. *)
Lemma first_keys m key now now' s :
  unused s -> length (signing_key key) = 32%nat ->
  secrets m SIGNING_KEY_LOCATOR = Some (signing_key key) -> is_Some (secrets m FIRST_AUDIT_KEY) ->
  database m = set_audit_key_versions
    (set_trusted_signing_keys s [signing_key_row FIRST_SIGNING_KEY (public_key_bytes key) "active" now])
    [audit_key_row 1 FIRST_AUDIT_KEY "active" now'] ->
  in_order m.
Proof.
  intros (He & Hc & Ha & Hcr) Hl Hs Hf Hd.
  assert (Hn : audit_keys_named m).
  { constructor; rewrite Hd; cbn; [|by intros row ->%list_elem_of_singleton..].
    split; [apply list.NoDup_singleton|]. by apply list.Forall_singleton. }
  assert (Hnew : newest (database m) = 1) by by rewrite Hd.
  split.
  - unfold keys_in_order. rewrite Hnew. constructor; [done|..]; rewrite ?Hd; cbn.
    + eexists. split; [by left|done].
    + split; [apply list.NoDup_singleton|]. apply list.Forall_singleton. by left.
    + intros row ->%list_elem_of_singleton. by exists 1.
    + eexists _, (signing_key key). split_and!; [by left|done| |done|done|done].
      by intros row' ->%list_elem_of_singleton.
    + exact Hcr.
  - destruct Hf as [b Hb]. exists [], [], {[1 := b]}.
    unfold list_audit_events, list_audit_checkpoints, versions. rewrite Hd. cbn. rewrite He, Hc, Hb.
    split_and!; done.
Qed.

Lemma register_first_signing_key_ends (Q : unit -> Machine P -> Prop) m key :
  blank m ->
  (forall m' now, calm (with_database m (set_trusted_signing_keys (database m)
     [signing_key_row FIRST_SIGNING_KEY (public_key_bytes key) "active" now])) m' -> Q tt m') ->
  ends log_verifies Q (register_first_signing_key key m).
Proof.
  intros [Hu Ht] HQ. unfold register_first_signing_key.
  assert (Hnone : active_signing_key_id (database m) = Ok None).
  { unfold active_signing_key_id. by rewrite Ht. }
  process_step. process_step; rewrite Hnone; [intros ? [= <-]|by intros []].
  rewrite bool_decide_eq_true_2 by done. process_step. process_step. intros n m1 Hm1.
  assert (Hd1 := calm_database _ _ Hm1).
  assert (Hreg : register_signing_key FIRST_SIGNING_KEY (public_key_bytes key) "active" (env_now n)
            (database m1) = (Ok tt, set_trusted_signing_keys (database m)
              [signing_key_row FIRST_SIGNING_KEY (public_key_bytes key) "active" (env_now n)])).
  { unfold register_signing_key, commit. by rewrite Hd1, Ht. }
  process_step; [intros _; apply unused_verifies; by rewrite Hd1|rewrite Hreg..]; [|by intros ? ? ? [=]].
  intros [] s m' [= <-] Hm'. apply (HQ _ (env_now n)).
  etransitivity; [by apply with_database_calm|exact Hm'].
Qed.

Lemma register_first_audit_key_ends (Q : unit -> Machine P -> Prop) m :
  unused (database m) ->
  (forall m' now, calm (with_database m (set_audit_key_versions (database m)
     [audit_key_row 1 FIRST_AUDIT_KEY "active" now])) m' -> Q tt m') ->
  ends log_verifies Q (register_first_audit_key m).
Proof.
  intros Hu HQ. pose proof Hu as (_ & _ & Ha & _). unfold register_first_audit_key.
  assert (Hnone : active_audit_key_version (database m) = Ok None).
  { unfold active_audit_key_version, get_audit_key_versions. cbn. by rewrite Ha. }
  process_step. process_step; rewrite Hnone; [intros ? [= <-]|by intros []].
  rewrite bool_decide_eq_true_2 by done. process_step. process_step. intros n m1 Hm1.
  assert (Hd1 := calm_database _ _ Hm1).
  assert (Hreg : register_audit_key_version 1 FIRST_AUDIT_KEY "active" (env_now n) (database m1)
    = (Ok tt, set_audit_key_versions (database m) [audit_key_row 1 FIRST_AUDIT_KEY "active" (env_now n)])).
  { unfold register_audit_key_version, commit. rewrite Hd1. cbn. by rewrite Ha. }
  process_step; [intros _; apply unused_verifies; by rewrite Hd1|rewrite Hreg..]; [|by intros ? ? ? [=]].
  intros [] s m' [= <-] Hm'. apply (HQ _ (env_now n)).
  etransitivity; [by apply with_database_calm|exact Hm'].
Qed.

Lemma init_ends m :
  blank m ->
  ends log_verifies (fun _ m' => in_order m' /\
    m_files m' !! BROKER_KEY_PUB = ed_public <$> secrets m' SIGNING_KEY_LOCATOR) (init m).
Proof.
  intros [Hu Ht]. unfold init. process_step. process_step. intros m0 Hm0.
  assert (Hd0 := calm_database _ _ Hm0). clear Hm0.
  process_step. apply (init_policy_ends _ (database m)); [done|done|]. intros m1 Hd1.
  process_step. apply init_signing_key_ends; [by rewrite Hd1|].
  intros key m2 Hd2 _ Hs2 Hl. rewrite Hd1 in Hd2.
  process_step. apply register_first_signing_key_ends; [by unfold blank; rewrite Hd2|].
  intros m4 now Hm4. assert (Hd4 := calm_database _ _ Hm4). cbn in Hd4. rewrite Hd2 in Hd4.
  assert (Hs4 : secrets m4 SIGNING_KEY_LOCATOR = Some (signing_key key)).
  { by rewrite (calm_secrets _ _ Hm4). }
  assert (Hv4 := unused_verifies m4 ltac:(by rewrite Hd4)). clear Hm4.
  process_step. process_step; [done|intros m5 Hm5 _; by eapply log_verifies_calm|].
  intros m5 Hm5. assert (Hd5 := calm_database _ _ Hm5). change (database m5 = database m4) in Hd5.
  rewrite Hd4 in Hd5.
  process_step. apply init_audit_key_ends; [by rewrite Hd5|]. intros m6 Hd6 Hf6 Hs6 Ha6.
  rewrite Hd5 in Hd6.
  process_step. apply register_first_audit_key_ends; [by rewrite Hd6|]. intros m8 now' Hm8.
  process_step. process_step. intros m9 Hm9. process_step. intros m10 Hm10.
  pose proof (transitivity Hm8 (transitivity Hm9 Hm10)) as Hm. clear Hm8 Hm9 Hm10 m8 m9.
  assert (Hs10 : secrets m10 SIGNING_KEY_LOCATOR = Some (signing_key key)).
  { rewrite (calm_secrets _ _ Hm). etransitivity; [exact Hs6|]. by rewrite (calm_secrets _ _ Hm5). }
  split.
  - eapply (first_keys _ key now now' (database m)); try done.
    + rewrite (calm_secrets _ _ Hm). exact Ha6.
    + rewrite (calm_database _ _ Hm). cbn. by rewrite Hd6.
  - rewrite Hs10, (calm_files _ _ Hm). cbn. rewrite Hf6, (calm_files _ _ Hm5). apply lookup_insert_eq.
Qed.

(** ** The installation *)

(** The machines that come about when a blank one is initialized and commands are
    run on it, each with its own number of changes before it is killed; a rotation
    is run to its end. *)
Inductive installed (label : string) : Machine P -> Prop :=
| installed_init m m' : blank m -> init m = (Finished tt, m') -> installed label m'
| installed_command m budget c e m' :
    installed label m -> careful c ->
    run_command label c (set_m_writes m budget) = (e, m') ->
    (c = KeysRotate -> e = Finished tt) -> installed label m'.

Lemma set_writes_in_order m budget : in_order m -> in_order (set_m_writes m budget).
Proof. by apply in_order_kept. Qed.

Lemma installed_in_order label m : installed label m -> in_order m.
Proof.
  induction 1 as [m m' Hb E|m budget c e m' _ IH Hc E Hr].
  - pose proof (init_ends m Hb) as Ho. by rewrite E in Ho; apply Ho.
  - apply (set_writes_in_order _ budget) in IH. 
    assert (c = KeysRotate \/ c <> KeysRotate) as [->|Hk] by (destruct c; (by left) || by right).
    + rewrite (Hr eq_refl) in E.
      pose proof (keys_rotate_ends random_length _ (proj1 IH) (proj2 IH)) as Ho.
      cbn [run_command] in E. rewrite E in Ho. destruct Ho as [Hv [Hk' _]]. done.
    + assert (Ho : keeps (run_command label c)).
      { by apply keeps_run_command. }
      specialize (Ho _ IH). rewrite E in Ho. by destruct e.
Qed.

Lemma audit_verify_succeeds label m :
  log_verifies m -> fst (run_command label (Audit AuditVerify) m) = Finished tt.
Proof.
  intros Hv.
  assert (Ho : ends (fun _ => False) (fun _ _ => True) (run_command label (Audit AuditVerify) m)).
  { cbn [run_command]. unfold audit_command. process_step. process_step. intros m1 Hm1.
    process_step. apply verify_audit_ends.
    - intros n m2 _ _. process_step. done.
    - intros m2 _ Hno. apply Hno. by eapply log_verifies_calm. }
  by destruct (run_command label (Audit AuditVerify) m) as [[[]| | |] m'].
Qed.

End Commands.
