(* ===== verification/CliErrors.v ===== *)
(** * CliErrors: where the local commands fail

    The refusal to rotate and restore after a daemon has run, the secret that is
    lost when a credential is added twice, and the exit code of a broken log. *)

From S2P Require Import Prelude.
From S2P Require Import Externals.
From S2P Require Import Domain.
From S2P Require Import Policy.
From S2P Require Import Crypto.
From S2P Require Import DomView.
From S2P Require Import AuditChain.
From S2P Require Import Provider.
From S2P Require Import Table.
From S2P Require Import Store.
From S2P Require Import Protocol.
From S2P Require Import Framing.
From S2P Require Import BrokerState.
From S2P Require Import Server.
From S2P Require Import Installation.
From S2P Require Import ProcessLogic.
From S2P Require Import KeyFacts.
From S2P Require Import Startup.
From S2P Require Import Cli.
From S2P Require Import StoreProps.
From S2P Require Import KeyProps.
From S2P Require Import Rotation.
From S2P Require Import CommandProps.
From S2P Require Import DomView.
From S2P Require Import Capability.
From S2P Require Import OAuth.
From S2P Require Import Broker.
From S2P Require Import Admin.
From S2P Require Import Ui.
From S2P Require Import Pages.
From S2P Require Import Wire.
From S2P Require Import Handshake.
From S2P Require Import Daemon.

(** ** Maintenance after a daemon *)

Section Sockets.
Context `{ManagedChrome, Chrono, Hashes, Signatures, Aead, X25519, Base64, Cbor, WireCodec,
  UrlParser, JsonCodec, !JsonReader, HashIter, !Environment, HttpClient, SqliteText, UnicodeCase,
  JsonFloats, Monotonic, PeerProcess, PolicySerializer, PolicyYaml, Serde, FileErrors,
  RecipeFiles, Terminal, CommandHost, Printing} {P : Type} `{SecretProvider P, !OtherTasks P}.
Variable platform : HostPlatform.
Implicit Type m : Machine P.

Definition socket_left m : Prop := is_Some (m_files m !! ADMIN_SOCK).

Lemma bind_sockets_leaves m m' : bind_sockets m = (Finished tt, m') -> socket_left m'.
Proof.
  intros E. assert (Ho : ends (fun _ => True) (fun _ m' => socket_left m') (bind_sockets m)).
  { unfold bind_sockets. do 5 (process_step; process_step; [done|]; intros ? _).
    process_step; [done|]. intros m6 Hm. unfold socket_left.
    rewrite (calm_files _ _ Hm). cbn. by rewrite lookup_insert_eq. }
  by rewrite E in Ho.
Qed.

Lemma stop_daemon_files w interrupted m :
  m_files (snd (stop_daemon w interrupted m)) = m_files m.
Proof.
  unfold stop_daemon. destruct interrupted; [|done].
  by destruct (write_audit_checkpoint w) as [[] w'].
Qed.

Lemma keys_rotate_refused m :
  socket_left m -> keys_rotate m = (Failed "stop secretctld before rotating keys", m).
Proof.
  intros Hs. unfold keys_rotate, file_exists, looking. cbn.
  unfold mbind at 1, process_bind at 1. by rewrite bool_decide_eq_true_2.
Qed.

Lemma restore_refused from backup m :
  socket_left m -> m_backups m !! from = Some backup ->
  restore_command from m =
    (Failed "stop secretctld before restoring a database backup (`secretctl stop`)", m).
Proof.
  intros Hs Hb. unfold restore_command, file_exists, looking. unfold mbind, process_bind.
  rewrite Hb. cbn. by rewrite bool_decide_eq_true_2.
Qed.

(** Once a daemon has bound its sockets, key rotation and the restoration of a
    backup are refused, even when the daemon was stopped, in whatever way: the
    socket is still there as a file, and its presence is what they go by. The
    process exits with code 10, and nothing changes. *)
Theorem maintenance_refused_after_daemon label events interrupted m b m1 m2 :
  start_broker m = (Finished b, m1) -> bind_sockets m1 = (Finished tt, m2) ->
  let m3 := snd (daemon_process platform events interrupted m) in
  run_command label KeysRotate m3 = (Failed "stop secretctld before rotating keys", m3) /\
  exit_status (fst (run_command label KeysRotate m3)) = Some 10 /\
  (forall from backup, m_backups m3 !! from = Some backup ->
     run_command label (RestoreFrom from) m3 =
       (Failed "stop secretctld before restoring a database backup (`secretctl stop`)", m3)).
Proof.
  intros Hb Hs m3. assert (Hleft : socket_left m3).
  { subst m3. unfold daemon_process. unfold mbind, process_bind. rewrite Hb, Hs. cbn [looking].
    unfold socket_left. rewrite stop_daemon_files. by apply (bind_sockets_leaves m1). }
  clearbody m3. cbn [run_command]. rewrite keys_rotate_refused by done.
  split_and!; [done|reflexivity|]. intros from backup. by apply restore_refused.
Qed.
End Sockets.

(** ** The exit code of a broken log *)

Definition is_digit (a : ascii) : bool := (48 <=? Z.of_N (N_of_ascii a)) && (Z.of_N (N_of_ascii a) <=? 57).
Fixpoint all_chars (p : ascii -> bool) (s : string) : bool :=
  match s with EmptyString => true | String a s => p a && all_chars p s end.
Definition wordy (needle : string) : bool :=
  negb (bool_decide (needle = EmptyString)) && all_chars (fun a => negb (is_digit a)) needle.

Lemma prefix_cons a needle b s :
  String.prefix (String a needle) (String b s) =
  if ascii_dec a b then String.prefix needle s else false.
Proof. done. Qed.

Lemma prefix_digits needle s d :
  all_chars (fun a => negb (is_digit a)) needle = true -> all_chars is_digit d = true ->
  String.prefix needle (s +:+ d) = String.prefix needle s.
Proof.
  revert s. induction needle as [|a needle IH]; intros s Hn Hd; [by destruct s, d|].
  cbn [all_chars] in Hn. apply andb_prop in Hn as [Ha Hn].
  destruct s as [|b s].
  - destruct d as [|b d]; [done|]. change (EmptyString +:+ String b d) with (String b d).
    rewrite prefix_cons. destruct (ascii_dec a b) as [->|]; [|done].
    cbn [all_chars] in Hd. by destruct (is_digit b).
  - change (String b s +:+ d) with (String b (s +:+ d)). rewrite !prefix_cons.
    destruct (ascii_dec a b); [by apply IH|done].
Qed.

Lemma contains_digits needle s d :
  wordy needle = true -> all_chars is_digit d = true ->
  contains (s +:+ d) needle = contains s needle.
Proof.
  unfold wordy. intros [He Hn]%andb_prop Hd. induction s as [|a s IH].
  - change (EmptyString +:+ d) with d. transitivity false.
    + induction d as [|b d IH]; [by destruct needle|]. cbn [contains].
      cbn [all_chars] in Hd. apply andb_prop in Hd as [Hb Hd]. rewrite IH by done.
      rewrite orb_false_r. destruct needle as [|a needle]; [done|]. rewrite prefix_cons.
      destruct (ascii_dec a b) as [->|]; [|done]. cbn in Hn. by rewrite Hb in Hn.
    + by destruct needle.
  - change (String a s +:+ d) with (String a (s +:+ d)). cbn [contains]. rewrite IH. f_equal.
    change (String a (s +:+ d)) with (String a s +:+ d). by apply prefix_digits.
Qed.

Lemma string_map_app f s d : string_map f (s +:+ d) = string_map f s +:+ string_map f d.
Proof.
  induction s as [|a s IH]; [done|]. exact (f_equal (String (f a)) IH).
Qed.

Lemma lower_digits d : all_chars is_digit d = true -> to_ascii_lowercase d = d.
Proof.
  unfold to_ascii_lowercase. induction d as [|a d IH]; [done|]. cbn [all_chars string_map].
  intros [Ha Hd]%andb_prop. rewrite IH by done. f_equal. revert Ha. unfold is_digit, ascii_lower.
  clear. intros Ha. case_match; [|done]. exfalso.
  by destruct a as [[] [] [] [] [] [] [] []].
Qed.

Lemma format_unsigned_digits z : all_chars is_digit (format_unsigned z) = true.
Proof.
  unfold format_unsigned. assert (forall fuel z acc, all_chars is_digit acc = true ->
    all_chars is_digit (digits_of fuel z acc) = true) as Hd; [|by apply Hd].
  clear z. induction fuel as [|fuel IH]; intros z acc Ha; [done|]. cbn [digits_of].
  assert (all_chars is_digit (String (ascii_of_N (Z.to_N (48 + z mod 10))) acc) = true) as Ha'.
  { cbn [all_chars]. rewrite Ha, andb_true_r. unfold is_digit.
    pose proof (Z.mod_pos_bound z 10 ltac:(lia)). rewrite N_ascii_embedding by lia.
    rewrite Z2N.id by lia. apply andb_true_intro. split; apply Z.leb_le; lia. }
  destruct (_ =? 0); [done|by apply IH].
Qed.

(** A number at its end does not change the class of a message. *)
Lemma exit_code_number message z :
  exit_code_for (message +:+ format_unsigned z) = exit_code_for message.
Proof.
  pose proof (format_unsigned_digits z) as Hd.
  unfold exit_code_for, to_ascii_lowercase. rewrite string_map_app.
  change (string_map ascii_lower (format_unsigned z)) with (to_ascii_lowercase (format_unsigned z)).
  rewrite (lower_digits _ Hd). cbv zeta. by rewrite !contains_digits.
Qed.

Section Failures.
Context `{Chrono, Hashes, Signatures, Base64, UrlParser, JsonCodec, !Environment, SqliteText,
  PolicySerializer, PolicyYaml, FileErrors, RecipeFiles, Terminal, CommandHost, Printing}
  {P : Type} `{SecretProviderLaws P}.
Implicit Type m : Machine P.

Lemma verify_from_error ks idx prev es e :
  verify_from ks idx prev es = Err e ->
  (exists n, e = ChainBroken n) \/
  (exists n, e = AuditSerialization ("unknown audit key version " +:+ format_unsigned n)) \/
  e = AuditSerialization "invalid audit key version or length".
Proof.
  revert idx prev. induction es as [|ev es IH]; intros idx prev; [done|]. cbn [verify_from].
  destruct (_ || _); [intros [= <-]; eauto|].
  destruct (recompute_hash ks ev) as [h|e'] eqn:Er; cbn [mbind result_bind].
  - destruct (bool_decide _); [intros [= <-]; eauto|by apply IH].
  - intros [= <-]. revert Er. unfold recompute_hash. destruct (_ =? 0); [done|].
    destruct (ks !! _) as [k|]; cbn [ok_or mbind result_bind]; [|intros [= <-]; eauto].
    unfold compute_event_hash. destruct (_ || _); [intros [= <-]; eauto|done].
Qed.

Lemma audit_error_exit_code ks es e :
  verify_audit_chain es ks = Err e -> exit_code_for (audit_error_text e) = 10.
Proof.
  intros [[n ->]|[[n ->]| ->]]%verify_from_error; cbn [audit_error_text].
  - by rewrite exit_code_number.
  - change ("Serialization error: " +:+ ("unknown audit key version " +:+ format_unsigned n))
      with ("Serialization error: unknown audit key version " +:+ format_unsigned n).
    by rewrite exit_code_number.
  - reflexivity.
Qed.

(** [secretctl audit verify] on a log whose chain is broken fails, and it
    exits with code 10, the code of an unexpected error: the code 7 of audit
    failures is never given for what the verification finds. *)
Theorem broken_log_exits_unclassified label m events keys e :
  list_audit_events (database m) = Ok events ->
  keys_found (secrets m) (versions (database m)) = Some keys ->
  verify_audit_chain events keys = Err e ->
  fst (run_command label (Audit AuditVerify) m) = Failed (audit_error_text e) /\
  exit_status (fst (run_command label (Audit AuditVerify) m)) = Some 10.
Proof.
  intros He Hk Hv.
  enough (Hr : fst (run_command label (Audit AuditVerify) m) = Failed (audit_error_text e)).
  { rewrite Hr. split; [done|]. cbn [exit_status]. by rewrite (audit_error_exit_code _ _ _ Hv). }
  cbn [run_command]. unfold audit_command. set (m0 := set_m_database m (Some (database m))).
  change (fst ((count ← verify_audit;
    println ("verified " +:+ count_text count +:+ " audit events and all checkpoints")) m0)
    = Failed (audit_error_text e)).
  assert (Hl : ends (fun _ => False) (fun ks _ => ks = keys) (load_audit_keys m0)).
  { unfold load_audit_keys. process_step. process_step; [|by intros []]. intros vs [= <-].
    apply load_keys_ends; [intros ks m' _ Hks|intros m' _ Hks].
    - change (keys_found (secrets m) (versions (database m)) = Some ks) in Hks. congruence.
    - change (keys_found (secrets m) (versions (database m)) = None) in Hks. congruence. }
  unfold verify_audit, mbind, process_bind, selects at 1.
  change (database m0) with (database m). rewrite He. cbn [attempting].
  unfold mret, process_ret.
  destruct (load_audit_keys m0) as [[ks| | |] m1]; try done. cbn in Hl. subst ks.
  by rewrite Hv.
Qed.

(** A credential with that name, or with the identifier that is drawn next, is
    there already. *)
Definition name_taken m (name : string) : bool :=
  existsb (fun row => bool_decide (id_str (id_new KCredential (env_uuid (m_tick m)))
                                   = crr_credential_id row)
                      || bool_decide (name = crr_name row)) (credentials (database m)).

(** [secretctl credential add] with a fresh name stores the secret under that
    name and inserts the row that points to it; with a name that is taken it fails
    and deletes the secret under that name: the credential that was there stays
    listed and its secret is gone. *)
Theorem credential_add_decides m name kind o origin provider_name text :
  name <> EmptyString -> origin_parse o = Ok origin ->
  (forall n, typed_input n = Some text) -> m_writes m = None -> reliable (P := P) ->
  (forall l (p : P), is_ok (fst (delete_secret l p)) = true) ->
  let '(e, m') := credential_add (Some name) kind (Some o) provider_name true m in
  if name_taken m name then
    e <> Finished tt /\ secrets m' name = None /\
    credentials (database m') = credentials (database m)
  else
    e = Finished tt /\ secrets m' name = Some (as_bytes (trim_end text)) /\
    exists row, credentials (database m') = credentials (database m) ++ [row] /\
      crr_name row = name /\ crr_provider_locator row = name.
Proof.
  intros Hname Ho Htext Hw Hrel Hdel.
  enough (He : ends
    (fun m' => name_taken m name = true /\ secrets m' name = None /\
       credentials (database m') = credentials (database m))
    (fun _ m' => name_taken m name = false /\ secrets m' name = Some (as_bytes (trim_end text)) /\
       exists row, credentials (database m') = credentials (database m) ++ [row] /\
         crr_name row = name /\ crr_provider_locator row = name)
    (credential_add (Some name) kind (Some o) provider_name true m)).
  { destruct (credential_add _ _ _ _ _ m) as [[[]| | |] m']; cbn in He;
      destruct He as [-> He]; done. }
  unfold credential_add, given_name, given_origin, given_secret.
  process_step. process_step. process_step.
  rewrite (bool_decide_eq_false_2 (name = EmptyString)) by done. process_step; [intros _|done].
  process_step. process_step. process_step. process_step; [|intros []; congruence].
  rewrite Ho. intros ? [= <-]. process_step. 
  set (m1 := set_m_tick m (S (m_tick m))).
  change (sampling env_uuid m) with (Finished (env_uuid (m_tick m)), m1). cbn [ends].
  assert (Hm1 : calm m m1) by by constructor. clearbody m1.
  process_step. process_step. process_step. intros n m2 Hm2. process_step.
  process_step; rewrite Htext; [intros ? [= <-]|done]. process_step.
  assert (Hm := transitivity Hm1 Hm2). clear Hm1 Hm2 m1.
  assert (Hw2 := calm_writes _ _ Hm Hw). assert (Hd2 := calm_database _ _ Hm).
  process_step. process_step; [congruence| |intros m3 Hun; by rewrite Hrel in Hun].
  intros m3 Hm3 Hs3. assert (Hd3 := os_database _ _ _ Hm3). rewrite Hd2 in Hd3.
  assert (Hw3 := os_writes _ _ _ Hm3 Hw2).
  process_step. process_step; [congruence|]. rewrite Hd3.
  unfold insert_credential, commit, insert_into, insert_row.
  match goal with |- context [existsb ?f (credentials (database m))] =>
    change (existsb f (credentials (database m))) with (name_taken m name) end.
  destruct (name_taken m name); cbn; intros m4 Hm4.
  - assert (Hw4 := calm_writes _ _ Hm4 Hw3). process_step. process_step; [congruence|].
    intros r m5 -> Hm5 Hs5. process_step. split_and!; [done| |].
    + by apply Hs5.
    + rewrite (os_database _ _ _ Hm5), (calm_database _ _ Hm4). done.
  - split_and!; [done| |].
    + change (secrets m4 name = Some (as_bytes (trim_end text))).
      rewrite (calm_secrets _ _ Hm4). exact Hs3.
    + eexists. change (default empty_store (m_database m4)) with (database m4).
      by rewrite (calm_database _ _ Hm4).
Qed.
End Failures.
