(* ===== verification/AdminClient.v ===== *)
(** * AdminClient: the clients of the administrative socket

    Models the client of the command line ([AdminClient] of
    [secretctl-cli/src/main.rs]) and of the desktop application
    ([desktop/src-tauri/src/admin.rs]): the handshake under the pinned key, the
    calls over the channel, and the connection that the desktop application
    renews and tries again.

    The daemon and the rest of the machine are a type [W] with the interface
    [AdminPeer]. [Broker] is not mentioned here; [AdminAgreement.v] puts the
    broker's socket behind the interface. *)

From S2P Require Import Prelude.
From S2P Require Import Externals.
From S2P Require Import Domain.
From S2P Require Import Crypto.
From S2P Require Import Protocol.
From S2P Require Import Framing.
From S2P Require Import Wire.
From S2P Require Import Handshake.
From S2P Require Import Bridge.
From S2P Require Import Server.
From S2P Require Import Installation.

(** ** The other side *)

(** What the stream gives after a message was sent. *)
Inductive Reply : Type :=
| Frame (wire : list byte)
| Closed
| Broken (message : string).

(** [peer_keys] are the secret in the key store and the pinned key on disk;
    [peer_dial] opens a connection, in the place of an earlier one;
    [peer_exchange] sends a frame and waits for one. *)
Class AdminPeer (W : Type) := {
  peer_keys : W -> result string (list byte * list byte);
  peer_dial : W -> result string unit * W;
  peer_exchange : list byte -> W -> Reply * W;
  peer_random : W -> list byte * W;
  peer_clock : W -> Z * W
}.

(** [BrokerError] is told apart from every other failure. *)
Inductive ClientError : Type :=
| ClientFailure (message : string)
| BrokerRefusal (code : Z) (message : string).

Definition client_error_text (e : ClientError) : string :=
  match e with
  | ClientFailure message => message
  | BrokerRefusal code message => message +:+ " (" +:+ format_int code +:+ ")"
  end.

Definition Client (W A : Type) : Type := W -> result ClientError A * W.

Section Client.
Context {W : Type}.

#[global] Instance client_ret : MRet (Client W) := fun A a w => (Ok a, w).
#[global] Instance client_bind : MBind (Client W) := fun A B f m w =>
  match m w with (Ok a, w) => f a w | (Err e, w) => (Err e, w) end.

Definition client_fail {A : Type} (message : string) : Client W A :=
  fun w => (Err (ClientFailure message), w).
Definition client_try {E A : Type} (text : E -> string) (r : result E A) : Client W A :=
  match r with Ok a => mret a | Err e => client_fail (text e) end.
Definition client_some {A : Type} (message : string) (o : option A) : Client W A :=
  match o with Some a => mret a | None => client_fail message end.
Definition client_ensure (condition : bool) (message : string) : Client W unit :=
  if condition then mret tt else client_fail message.
End Client.

(** ** The session *)

Record AdminClient : Type := { ac_channel : SecureChannel; ac_next_id : Z }.

(** How the answers of the handshake are read: strictly by the command line,
    and by plain [serde_json] in the desktop application, which also puts texts
    of its own in front of some errors. *)
Definition Reader : Type := forall A : Type, (Json -> result string A) -> list byte ->
  result string A.

Section Session.
Context `{Hashes, Signatures, Aead, X25519, Base64, JsonCodec, !JsonReader} {W : Type}
  `{AdminPeer W}.

Definition strict_reader : Reader := fun A from wire =>
  map_err protocol_error_text (from_slice_strict from wire).
Definition plain_reader : Reader := fun A from wire => v ← json_read wire; from v.

Definition admin_request (id method : string) (params : Json) : RpcRequest :=
  bridge_request_of id method params.

(** [framed.send] and [framed.next]. *)
Definition next_frame (closed : string) (payload : list byte) : Client W (list byte) := fun w =>
  match peer_exchange payload w with
  | (Frame wire, w) => (Ok wire, w)
  | (Closed, w) => (Err (ClientFailure closed), w)
  | (Broken message, w) => (Err (ClientFailure message), w)
  end.
Definition exchange (closed : string) (payload : list byte) : Client W (list byte) :=
  client_try protocol_error_text (encode for_agent payload []);; next_frame closed payload.

Definition draw_random : Client W (list byte) := fun w =>
  let '(bytes, w) := peer_random w in (Ok bytes, w).

Definition read_clock : Client W Z := fun w => let '(now, w) := peer_clock w in (Ok now, w).

(** [random_nonce]. *)
Definition random_nonce : Client W string := bytes ← draw_random; mret (b64_encode bytes).

(** The signing key of the installation, which has to be the one that is
    pinned on disk. *)
Definition admin_identity : Client W (KeyPair * list byte) := fun w =>
  match peer_keys w with
  | Err message => (Err (ClientFailure message), w)
  | Ok (secret, pinned_public) =>
      (signing_key ← client_try crypto_error_text (keypair_from_bytes secret);
       client_ensure (bool_decide (pinned_public = public_key_bytes signing_key))
         "broker key pin does not match the Keychain key";;
       mret (signing_key, pinned_public)) w
  end.

Definition dial : Client W unit := fun w =>
  match peer_dial w with
  | (Ok _, w) => (Ok tt, w)
  | (Err message, w) => (Err (ClientFailure message), w)
  end.

Definition admin_hello (client_nonce : string) : SessionHelloParams := {|
  sh_protocol_version := "1.0"; sh_role := "admin"; sh_principal_id := "local-admin";
  sh_client_nonce := client_nonce; sh_supported_suites := [SUITE] |}.

(** [RpcResponse<T>], with the result read as a [T]. *)
Definition typed_response {A : Type} (from : Json -> result string A) (v : Json) :
    result string (option A * bool) :=
  response ← response_from_value v;
  result ← match response_result response with
    | Some v => a ← from v; Ok (Some a)
    | None => Ok None
    end;
  Ok (result, bool_decide (is_Some (response_error response))).

(** The daemon's half of the exchange, under the pinned key. *)
Definition checked_answer (pinned_public : list byte) (hello : SessionHelloParams)
    (server : SessionHelloResult) : result string (list byte) :=
  server_public ← b64_decode (hr_ephemeral_public_key server);
  server_public ← ok_or "invalid daemon ephemeral key" (key_of_slice server_public);
  signature ← b64_decode (hr_signature server);
  _ ← map_err crypto_error_text (verify_signature pinned_public
        (hello_transcript (sh_client_nonce hello) (hr_server_nonce server)
           (sh_principal_id hello) server_public) signature);
  Ok server_public.

Definition connect (read : Reader) : Client W AdminClient :=
  '(signing_key, pinned_public) ← admin_identity;
  dial;;
  client_nonce ← random_nonce;
  let hello := admin_hello client_nonce in
  hello_wire ← exchange "daemon closed during hello"
    (to_vec (request_to_value (admin_request "hello" "session.hello" (hello_to_value hello))));
  hello_response ← client_try id (read _ (typed_response hello_result_from_value) hello_wire);
  server ← client_some "daemon rejected admin hello" (fst hello_response);
  server_public ← client_try id (checked_answer pinned_public hello server);
  secret ← draw_random;
  let client_ephemeral := {| x_secret := secret |} in
  auth_wire ← exchange "daemon closed during authentication"
    (to_vec (request_to_value (admin_request "auth" "session.authenticate"
      (authenticate_to_value
        (authentication signing_key hello (hr_server_nonce server) server_public
           client_ephemeral)))));
  auth_response ← client_try id (read _ (typed_response Ok) auth_wire);
  client_ensure (negb (snd auth_response)) "daemon rejected admin authentication";;
  mret {| ac_channel := new_client (diffie_hellman client_ephemeral server_public)
            (as_bytes (hr_server_nonce server)) ADMIN_INFO;
          ac_next_id := 1 |}.

(** What an answer says, once it is opened. *)
Definition answer_of (message : list byte) : result ClientError Json :=
  response ← map_err (fun e => ClientFailure (protocol_error_text e))
    (from_slice_strict response_from_value message);
  match response_error response with
  | Some e => Err (BrokerRefusal (rpc_code e) (rpc_message e))
  | None => ok_or (ClientFailure "daemon returned no result") (response_result response)
  end.

(** [AdminClient::call]: the client after the call keeps its place in the
    channel, however the call ended. *)
Definition call (c : AdminClient) (method : string) (params : Json) (w : W) :
    (result ClientError Json * AdminClient) * W :=
  let request := admin_request (format_unsigned (ac_next_id c)) method params in
  let '(sealed, channel) := encrypt (ac_channel c) (to_vec (request_to_value request)) in
  let c := {| ac_channel := channel; ac_next_id := ac_next_id c + 1 |} in
  match (encrypted ← client_try crypto_error_text sealed;
         exchange "daemon closed admin session" encrypted) w with
  | (Err e, w) => ((Err e, c), w)
  | (Ok response_wire, w) =>
      let '(opened, channel) := decrypt channel response_wire in
      ((message ← map_err (fun e => ClientFailure (crypto_error_text e)) opened;
        answer_of message,
        {| ac_channel := channel; ac_next_id := ac_next_id c |}), w)
  end.

(** A call whose failure ends the command. *)
Definition call_or_exit (c : AdminClient) (method : string) (params : Json) :
    Client W (Json * AdminClient) := fun w =>
  match call c method params w with
  | ((Ok v, c), w) => (Ok (v, c), w)
  | ((Err e, _), w) => (Err e, w)
  end.

(** ** The connection of the desktop application *)

Definition SESSION_MAX_AGE : Z := 480.

Record AdminSession : Type := { as_client : AdminClient; as_established_at : Z }.

Definition is_expiring (s : AdminSession) (now : Z) : bool :=
  SESSION_MAX_AGE * nanos_per_second <=? Z.max 0 (now - as_established_at s).

Definition new_session : Client W AdminSession :=
  client ← connect plain_reader;
  now ← read_clock;
  mret {| as_client := client; as_established_at := now |}.

(** The session that carries the next call: the one there is, unless it is about
    to expire. *)
Definition usable_session (guard : option AdminSession) (w : W) : option AdminSession * W :=
  match guard with
  | Some s => let '(now, w) := peer_clock w in (if is_expiring s now then None else Some s, w)
  | None => (None, w)
  end.

Definition session_call (s : AdminSession) (method : string) (params : Json) (w : W) :
    (result ClientError Json * AdminSession) * W :=
  let '((r, c), w) := call (as_client s) method params w in
  ((r, {| as_client := c; as_established_at := as_established_at s |}), w).

(** [AdminConnection::call]. A refusal of the broker keeps the session; after
    any other failure the call is made once more on a new session, which is kept
    when that call succeeds. *)
Definition connection_call (guard : option AdminSession) (method : string) (params : Json)
    (w : W) : (result ClientError Json * option AdminSession) * W :=
  let '(guard, w) := usable_session guard w in
  let '(established, w) := match guard with
    | Some s => (Ok s, w)
    | None => new_session w
    end in
  match established with
  | Err e => ((Err e, None), w)
  | Ok s =>
      match session_call s method params w with
      | ((Ok value, s), w) => ((Ok value, Some s), w)
      | ((Err (BrokerRefusal code message), s), w) =>
          ((Err (BrokerRefusal code message), Some s), w)
      | ((Err transport_error, _), w) =>
          match new_session w with
          | (Err _, w) => ((Err transport_error, None), w)
          | (Ok s, w) =>
              match session_call s method params w with
              | ((Ok value, s), w) => ((Ok value, Some s), w)
              | ((Err e, _), w) => ((Err e, None), w)
              end
          end
      end
  end.
End Session.
