(* ===== verification/CliAdmin.v ===== *)
(** * CliAdmin: the commands of the command line client that ask the daemon

    Models the rest of [secretctl-cli/src/main.rs]: each command opens a session
    of [AdminClient.v], makes its calls and returns the lines it prints. The
    parameters of a call are the JSON the code writes. *)

From S2P Require Import Prelude.
From S2P Require Import Externals.
From S2P Require Import Domain.
From S2P Require Import Policy.
From S2P Require Import Crypto.
From S2P Require Import OAuth.
From S2P Require Import Protocol.
From S2P Require Import Framing.
From S2P Require Import BrokerState.
From S2P Require Import Admin.
From S2P Require Import Wire.
From S2P Require Import Server.
From S2P Require Import Installation.
From S2P Require Import AdminClient.
From S2P Require Import Cli.

(** The JSON of an approval when it is printed, and of an instant. *)
Class ApprovalText := { approval_json : Approval -> string; instant_text : Instant -> string }.

Definition bytes_json (bytes : list byte) : Json :=
  JArray (map (fun b => JNumber (byte_to_Z b)) bytes).
Definition text_or_null (text : option string) : Json :=
  match text with Some text => JString text | None => JNull end.

Section Commands.
Context `{Chrono, Hashes, Signatures, Aead, X25519, Base64, JsonCodec, !JsonReader,
  PolicySerializer, PolicyYaml, Serde, ApprovalText} {W : Type} `{AdminPeer W}.

Definition cli_connect : Client W AdminClient := connect strict_reader.

(** ** Status *)

Definition status_command (json : bool) : Client W (list string) := fun w =>
  let '(r, w) := cli_connect w in
  let running := is_ok r in
  if json then
    (Ok [json_print (JObject [("status", JString (if running then "running" else "unavailable"))])],
     w)
  else if running then (Ok ["secretctld is running and authenticated"], w)
  else (Err (ClientFailure "secretctld is unavailable"), w).

(** ** The managed browser *)

Definition instance_params (instance_id : string) : Json :=
  JObject [("instance_id", JString instance_id)].

Definition launch_params (chrome extension native_host : string) (profile : option string)
    (headless : bool) : Json :=
  JObject [("chrome_binary", JString chrome); ("extension_path", JString extension);
    ("native_host_binary", JString native_host); ("profile_dir", text_or_null profile);
    ("headless", JBool headless)].

Definition NOT_ATTESTED : string :=
  "managed extension did not attest within 20 seconds; install the native host first".

(** The polls for the session of the browser, [attempts] of them. *)
Fixpoint await_attestation (attempts : nat) (instance_id : string) (admin : AdminClient) :
    Client W (list string) :=
  match attempts with
  | O => client_fail NOT_ATTESTED
  | S attempts =>
      '(answer, admin) ← call_or_exit admin "browser.launch_status" (instance_params instance_id);
      status ← client_try id (from_value WBrowserLaunched answer);
      match lr_browser_session_id status with
      | Some session_id => mret ["Managed browser ready";
          "Instance ID: " +:+ id_str (lr_instance_id status);
          "Browser session ID: " +:+ id_str session_id;
          "Gateway: " +:+ lr_gateway_endpoint status]
      | None => await_attestation attempts instance_id admin
      end
  end.

Definition browser_launch (params : Json) : Client W (list string) :=
  admin ← cli_connect;
  '(answer, admin) ← call_or_exit admin "browser.launch" params;
  launched ← client_try id (from_value WBrowserLaunched answer);
  await_attestation 80 (id_str (lr_instance_id launched)) admin.

Definition browser_close (instance_id : string) : Client W (list string) :=
  admin ← cli_connect;
  _ ← call_or_exit admin "browser.close" (instance_params instance_id);
  mret ["closed managed browser " +:+ instance_id].

(** ** Policy *)

(** The daemon is told the hash it has to compute. *)
Definition policy_reload_command (content : string) : Client W (list string) :=
  document ← client_try id (from_yaml content);
  let expected_hash := b64_encode (pe_policy_hash (evaluator_new document)) in
  admin ← cli_connect;
  '(result, _) ← call_or_exit admin "policy.reload"
    (JObject [("policy_yaml", JString content); ("expected_hash", JString expected_hash)]);
  mret [json_print result].

(** ** Approvals *)

Definition pending_params : Json := JObject [("state", JString "pending")].

Definition pending_approvals (admin : AdminClient) : Client W (list Approval * AdminClient) :=
  '(answer, admin) ← call_or_exit admin "approval.list" pending_params;
  approvals ← client_try id (from_value WApprovals answer);
  mret (approvals, admin).

Definition approval_line (approval : Approval) : string :=
  id_str (apr_approval_id approval) +:+ tab +:+ id_str (apr_request_id approval) +:+ tab
  +:+ instant_text (apr_expires_at approval).

(** One round of [approvals watch]. *)
Definition approvals_watch_round (json : bool) : Client W (list string) :=
  admin ← cli_connect;
  '(approvals, _) ← pending_approvals admin;
  mret (map (if json then approval_json else approval_line) approvals).

Definition decision_params (approval : Approval) (decision : string) (presence : bool) : Json :=
  JObject [("approval_id", JString (id_str (apr_approval_id approval)));
    ("decision", JString decision); ("context_digest", bytes_json (apr_context_digest approval));
    ("presence_verified", JBool presence)].

(** The decision names the digest the daemon listed with the approval. *)
Definition decide_approval_command (approval_id decision : string) (presence : bool) :
    Client W (list string) :=
  admin ← cli_connect;
  '(approvals, admin) ← pending_approvals admin;
  approval ← client_some "approval is not pending"
    (List.find (fun a => bool_decide (id_str (apr_approval_id a) = approval_id)) approvals);
  '(result, _) ← call_or_exit admin "approval.decide" (decision_params approval decision presence);
  mret [json_print result].

Definition approve_command (approval_id : string) (presence : bool) : Client W (list string) :=
  decide_approval_command approval_id "approve" presence.
Definition deny_command (approval_id : string) : Client W (list string) :=
  decide_approval_command approval_id "deny" false.

(** ** Capabilities *)

Definition capability_line (c : CapabilitySummary) : string :=
  id_str (cs_capability_id c) +:+ tab +:+ cs_state c.

Definition capability_list (active json : bool) : Client W (list string) :=
  admin ← cli_connect;
  '(result, _) ← call_or_exit admin "capability.list"
    (JObject [("state", text_or_null (if active then Some "issued" else None))]);
  if json then mret [json_print result]
  else
    listed ← client_try id (from_value WCapabilities result);
    mret (map capability_line listed).

Definition capability_revoke (capability_id : string) : Client W (list string) :=
  admin ← cli_connect;
  capability_id ← client_try domain_error_text (id_parse KCapability capability_id);
  '(result, _) ← call_or_exit admin "capability.revoke"
    (JObject [("capability_id", JString (id_str capability_id)); ("reason", JString "local_admin")]);
  mret [json_print result].
End Commands.
