(* ===== verification/AdminAgreement.v ===== *)
(** * AdminAgreement: the administrative client talks to the broker

    Puts the administrative socket of [Server.v] behind the interface the clients
    of [AdminClient.v] use, and shows that a session of theirs is one with the
    broker: a call is one run of the method it names. *)

From S2P Require Import Prelude.
From S2P Require Import Externals.
From S2P Require Import Domain.
From S2P Require Import Policy.
From S2P Require Import Crypto.
From S2P Require Import DomView.
From S2P Require Import Capability.
From S2P Require Import Provider.
From S2P Require Import Store.
From S2P Require Import OAuth.
From S2P Require Import Protocol.
From S2P Require Import Framing.
From S2P Require Import FramingProps.
From S2P Require Import BrokerState.
From S2P Require Import Broker.
From S2P Require Import Admin.
From S2P Require Import Ui.
From S2P Require Import Pages.
From S2P Require Import Wire.
From S2P Require Import Handshake.
From S2P Require Import Bridge.
From S2P Require Import Server.
From S2P Require Import ServerProps.
From S2P Require Import Agreement.
From S2P Require Import Installation.
From S2P Require Import AdminClient.

(** ** The broker's socket as the other side *)

(** The broker's world, the connection there is, and what the client reads as
    the keys of the installation. *)
Record AdminLink `{ManagedChrome} {P : Type} : Type := {
  al_world : World P;
  al_connection : option (SocketConnection unit);
  al_keys : result string (list byte * list byte)
}.
Arguments AdminLink {_} P.

Section Link.
Context `{ManagedChrome, Chrono, Hashes, Signatures, Aead, X25519, Base64, Cbor, WireCodec,
  UrlParser, JsonCodec, !JsonReader, HashIter, Environment, HttpClient, SqliteText,
  Monotonic, PeerProcess, PolicySerializer, PolicyYaml, Serde} {P : Type}
  `{SecretProvider P, !OtherTasks P}.
Variables (socket_uid : Z) (cred : UCred).

Definition with_world (l : AdminLink P) (w : World P) (c : option (SocketConnection unit)) :
    AdminLink P := {| al_world := w; al_connection := c; al_keys := al_keys l |}.
Definition later (w : World P) : World P :=
  {| w_broker := w_broker w; w_tick := S (w_tick w) |}.

(** A peer that is not the owner is let in, and the connection is closed. *)
Definition link_dial (l : AdminLink P) : result string unit * AdminLink P :=
  match admin_connect socket_uid cred (al_world l) with
  | (Done c, w) => (Ok tt, with_world l w (Some c))
  | (_, w) => (Ok tt, with_world l w None)
  end.

(** The other tasks of the broker run before a message is handled. *)
Definition link_exchange (wire : list byte) (l : AdminLink P) : Reply * AdminLink P :=
  match al_connection l with
  | None => (Closed, l)
  | Some c =>
      match socket_message admin_socket c wire (other_tasks (al_world l)) with
      | (Done (sent, c), w) => (Frame sent, with_world l w (Some c))
      | (_, w) => (Closed, with_world l w None)
      end
  end.

Definition broker_peer : AdminPeer (AdminLink P) := {|
  peer_keys := al_keys;
  peer_dial := link_dial;
  peer_exchange := link_exchange;
  peer_random l := (env_random (w_tick (al_world l)),
                    with_world l (later (al_world l)) (al_connection l));
  peer_clock l := (instant_now (w_tick (al_world l)),
                   with_world l (later (al_world l)) (al_connection l))
|}.
End Link.

(** ** What the messages of a session are *)

Section Agreement.
Context `{ManagedChrome, Chrono, Hashes, Signatures, Aead, X25519, Base64, Cbor, WireCodec,
  UrlParser, JsonCodec, !JsonReader, HashIter, Environment, HttpClient, SqliteText,
  Monotonic, PeerProcess, PolicySerializer, PolicyYaml, Serde} {P : Type}
  `{SecretProvider P, !OtherTasks P}
  `{!SignatureLaws, !Base64Laws, !X25519Laws, !JsonReaderLaws, !AeadLaws}.
Variables (socket_uid : Z) (cred : UCred).
#[local] Existing Instance broker_peer.
#[local] Instance link_peer : AdminPeer (AdminLink P) := broker_peer socket_uid cred.
Implicit Types (l : AdminLink P) (w : World P).

(** Both readers read back what the broker writes. *)
Definition reads_back (read : Reader) : Prop := forall A (from : Json -> result string A) v a,
  strictly_readable v -> from v = Ok a -> read A from (to_vec v) = Ok a.

Lemma strict_reads_back : reads_back strict_reader.
Proof. intros A from v a Hv Ha. unfold strict_reader. by rewrite read_back, Ha. Qed.
Lemma plain_reads_back : reads_back plain_reader.
Proof. intros A from v a _ Ha. unfold plain_reader. rewrite json_read_print. exact Ha. Qed.

Lemma checked_answer_Ok pinned hello server k :
  check_hello_answer pinned hello server = Ok k -> checked_answer pinned hello server = Ok k.
Proof.
  unfold check_hello_answer, checked_answer.
  destruct (b64_decode (hr_ephemeral_public_key server)) as [p|]; [|done].
  cbn [map_err mbind result_bind]. destruct (key_of_slice p) as [q|]; [|done].
  cbn [ok_or mbind result_bind]. destruct (b64_decode (hr_signature server)) as [s|]; [|done].
  cbn [map_err mbind result_bind]. destruct (verify_signature _ _ _) as [[]|]; cbn; congruence.
Qed.

(** *** The handshake *)

Definition hello_sent l : SessionHelloParams :=
  admin_hello (b64_encode (env_random (w_tick (al_world l)))).
Definition at_hello l : World P := other_tasks (later (al_world l)).
Definition answered l : SessionHelloResult := answer_in (hello_sent l) (at_hello l).
Definition server_half l : StaticX25519 := {| x_secret := env_random (S (w_tick (at_hello l))) |}.
Definition client_half l : StaticX25519 :=
  {| x_secret := env_random (S (S (w_tick (at_hello l)))) |}.
Definition auth_sent (k : KeyPair) l : SessionAuthenticateParams :=
  authentication k (hello_sent l) (env_uuid (w_tick (at_hello l)))
    (ephemeral_public (server_half l)) (client_half l).
Definition hello_request_bytes l : list byte :=
  to_vec (request_to_value (admin_request "hello" "session.hello" (hello_to_value (hello_sent l)))).
Definition hello_reply_bytes l : list byte :=
  to_vec (response_to_value
    (rpc_success (RpcString "hello") (hello_result_to_value (answered l)))).
Definition auth_request_bytes (k : KeyPair) l : list byte :=
  to_vec (request_to_value
    (admin_request "auth" "session.authenticate" (authenticate_to_value (auth_sent k l)))).
Definition auth_reply_bytes : list byte :=
  to_vec (response_to_value
    (rpc_success (RpcString "auth") (authenticated_to_value authentication_result))).

(** A daemon the client can talk to: it holds the key the client pins, the
    client's user owns the socket, the other tasks leave the key alone, the
    generator gives the 32 bytes asked of it and the messages fit the frames. *)
Record reachable (k : KeyPair) l : Prop := {
  ra_keys : al_keys l = Ok (signing_key k, public_key_bytes k);
  ra_broker : broker_key (w_broker (at_hello l)) = k;
  ra_others : forall w, broker_key (w_broker (other_tasks w)) = broker_key (w_broker w);
  ra_length : length (signing_key k) = 32%nat;
  ra_owner : socket_uid = peer_uid cred;
  ra_random : forall n, length (env_random n) = 32%nat;
  ra_hello : fits for_agent (hello_request_bytes l);
  ra_hello_reply : fits for_agent (hello_reply_bytes l);
  ra_auth : fits for_agent (auth_request_bytes k l);
  ra_auth_reply : fits for_agent auth_reply_bytes
}.

(** The two ends of one channel, both in use. *)
Definition linked (c : AdminClient) l : Prop := exists ch since,
  al_connection l = Some (Established tt ch since) /\
  ch_tx_key (ac_channel c) = ch_rx_key ch /\ ch_rx_key (ac_channel c) = ch_tx_key ch /\
  ch_tx_nonce (ac_channel c) = ch_rx_nonce ch /\ ch_rx_nonce (ac_channel c) = ch_tx_nonce ch.

Lemma encode_fits payload : fits for_agent payload -> is_ok (encode for_agent payload []) = true.
Proof.
  intros Hf. unfold encode. by rewrite (proj2 (Z.ltb_ge _ _) Hf).
Qed.

Lemma client_bind_run {A B : Type} (m : Client (AdminLink P) A) (f : A -> Client (AdminLink P) B)
    l a l1 : m l = (Ok a, l1) -> (m ≫= f) l = f a l1.
Proof. unfold mbind, client_bind. by intros ->. Qed.

Lemma client_bind_pure {A B : Type} (m : Client (AdminLink P) A)
    (f : A -> Client (AdminLink P) B) l a : m l = (Ok a, l) -> (m ≫= f) l = f a l.
Proof. apply client_bind_run. Qed.

(** The client's [exchange], once the socket's turn is known. *)
Lemma exchange_frame closed payload l c sent c' w' :
  fits for_agent payload -> al_connection l = Some c ->
  socket_message admin_socket c payload (other_tasks (al_world l)) = (Done (sent, c'), w') ->
  exchange closed payload l = (Ok sent, with_world l w' (Some c')).
Proof.
  intros Hf Hc Hs. pose proof (encode_fits payload Hf) as He. unfold exchange.
  destruct (encode for_agent payload []) as [x|]; [|done].
  rewrite (client_bind_run _ _ l x l) by done. unfold next_frame.
  change (peer_exchange payload l) with (link_exchange payload l).
  unfold link_exchange. by rewrite Hc, Hs.
Qed.

Lemma admin_hello_distinct nonce :
  json_depth (hello_to_value (admin_hello nonce)) <= 31 /\
  keys_distinct (hello_to_value (admin_hello nonce)).
Proof. split; [by vm_compute|]. apply distinct_keys; [by vm_compute|]. by repeat constructor. Qed.

Lemma hello_turn_admin l :
  fits for_agent (hello_reply_bytes l) ->
  socket_message admin_socket AwaitHello (hello_request_bytes l) (at_hello l)
  = (Done (hello_reply_bytes l, AwaitAuthentication tt (started_in (hello_sent l) (at_hello l))),
     {| w_broker := w_broker (at_hello l); w_tick := S (S (w_tick (at_hello l))) |}).
Proof.
  intros Hf. set (w := at_hello l) in *. set (hello := hello_sent l).
  destruct (admin_hello_distinct (b64_encode (env_random (w_tick (al_world l))))) as [Hd Hk].
  unfold socket_message, hello_request_bytes. fold hello w.
  rewrite (task_bind_run _ _ w _ w (read_request_run _ _ _ w Hd Hk ltac:(done))).
  rewrite (task_bind_run _ _ w tt w) by done.
  rewrite (task_bind_run _ _ w hello w) by (apply from_params_run; exact (hello_round_trip hello)).
  rewrite (task_bind_run _ _ w tt w) by done.
  rewrite (task_bind_run _ _ w _ _ (start_handshake_run hello w)).
  erewrite task_bind_run; [|apply send_run, Hf]. done.
Qed.

Lemma authentication_turn_admin k started auth secret w :
  broker_key (w_broker w) = k ->
  check_authentication (public_key_bytes k) (hs_hello started) (hs_server_nonce started)
    (hs_server_ephemeral started) auth = Ok secret ->
  fits for_agent auth_reply_bytes ->
  socket_message admin_socket (AwaitAuthentication tt started)
    (to_vec (request_to_value
      (admin_request "auth" "session.authenticate" (authenticate_to_value auth)))) w
  = (Done (auth_reply_bytes, Established tt
      (new_server secret (as_bytes (hs_server_nonce started)) ADMIN_INFO)
      (instant_now (w_tick w))), later w).
Proof.
  intros <- Ha Hf. destruct (authenticate_distinct auth) as [Hd Hk].
  unfold socket_message.
  rewrite (task_bind_run _ _ w _ w (read_request_run _ _ _ w Hd Hk ltac:(done))).
  rewrite (task_bind_run _ _ w tt w) by done.
  rewrite (task_bind_run _ _ w auth w)
    by (apply from_params_run; exact (authenticate_round_trip auth)).
  rewrite (task_bind_run _ _ w (public_key_bytes (broker_key (w_broker w))) w) by done.
  erewrite task_bind_run; [|unfold finish_handshake; rewrite Ha; reflexivity].
  erewrite task_bind_run; [|apply send_run, Hf]. done.
Qed.

Lemma typed_hello_response r :
  typed_response hello_result_from_value
    (response_to_value (rpc_success (RpcString "hello") (hello_result_to_value r)))
  = Ok (Some r, false).
Proof.
  unfold typed_response. rewrite success_round_trip by done.
  cbn [mbind result_bind rpc_success response_result response_error].
  by rewrite hello_result_round_trip.
Qed.
Lemma typed_auth_response :
  exists v, typed_response Ok
    (response_to_value (rpc_success (RpcString "auth") (authenticated_to_value authentication_result)))
  = Ok (v, false).
Proof. unfold typed_response. rewrite success_round_trip by done. by eexists. Qed.

(** The session the client has in the end, and the link. *)
Definition shared_secret l : list byte :=
  diffie_hellman (client_half l) (ephemeral_public (server_half l)).
Definition at_authentication l : World P :=
  other_tasks {| w_broker := w_broker (at_hello l); w_tick := S (S (S (w_tick (at_hello l)))) |}.
Definition established l : AdminLink P :=
  with_world l (later (at_authentication l))
    (Some (Established tt
      (new_server (shared_secret l) (as_bytes (env_uuid (w_tick (at_hello l)))) ADMIN_INFO)
      (instant_now (w_tick (at_authentication l))))).

Lemma connect_run read k l :
  reads_back read -> reachable k l ->
  connect read l
  = (Ok {| ac_channel := new_client (shared_secret l)
             (as_bytes (env_uuid (w_tick (at_hello l)))) ADMIN_INFO; ac_next_id := 1 |},
     established l).
Proof.
  intros Hread [Hkeys Hb Ho Hl Hu Hr Hf1 Hf2 Hf3 Hf4]. unfold connect.
  rewrite (client_bind_run _ _ l (k, public_key_bytes k) l); cycle 1.
  { unfold admin_identity. cbn [peer_keys link_peer broker_peer]. rewrite Hkeys.
    rewrite (proj2 (keypair_from_bytes_Ok (signing_key k) k)) by (by destruct k).
    rewrite (client_bind_pure _ _ l k), bool_decide_eq_true_2 by done. done. }
  cbn beta iota.
  rewrite (client_bind_run _ _ l tt (with_world l (al_world l) (Some AwaitHello))); cycle 1.
  { unfold dial. cbn [peer_dial link_peer broker_peer]. unfold link_dial, admin_connect, ensure.
    by rewrite Hu, Z.eqb_refl. }
  rewrite (client_bind_run _ _ _ (b64_encode (env_random (w_tick (al_world l))))
    (with_world l (later (al_world l)) (Some AwaitHello))) by done.
  fold (hello_sent l). fold (hello_request_bytes l).
  erewrite client_bind_run; cycle 1.
  { eapply exchange_frame; [exact Hf1|done|exact (hello_turn_admin l Hf2)]. }
  destruct (hello_result_distinct (answered l)) as [Hd Hk].
  rewrite (client_bind_pure _ _ _ (Some (answered l), false)); cycle 1.
  { unfold hello_reply_bytes. rewrite (Hread _ _ _ _ (readable_success _ _ Hd Hk) (typed_hello_response _)).
    done. }
  cbn [fst].
  rewrite (client_bind_pure _ _ _ (answered l)) by done.
  rewrite (client_bind_pure _ _ _ (ephemeral_public (server_half l))); cycle 1.
  { rewrite (checked_answer_Ok _ _ _ (ephemeral_public (server_half l))); [done|].
    unfold answered, answer_in. rewrite Hb.
    exact (honest_hello_answer k _ (hello_sent l) _ (server_half l) Hl (Hr _)). }
  rewrite (client_bind_run _ _ _ (x_secret (client_half l))
    (with_world l {| w_broker := w_broker (at_hello l); w_tick := S (S (S (w_tick (at_hello l)))) |}
       (Some (AwaitAuthentication tt (started_in (hello_sent l) (at_hello l)))))) by done.
  erewrite client_bind_run; cycle 1.
  { eapply exchange_frame; [exact Hf3|done|].
    eapply (authentication_turn_admin k); [|..|exact Hf4].
    - cbn [al_world with_world]. by rewrite Ho.
    - apply (honest_authentication k (hello_sent l) (env_uuid (w_tick (at_hello l)))
        (server_half l) (client_half l)); [done|apply Hr..]. }
  destruct typed_auth_response as (v & Hv).
  destruct (authenticated_distinct authentication_result) as [Hd' Hk'].
  rewrite (client_bind_pure _ _ _ (v, false)); cycle 1.
  { unfold auth_reply_bytes. by rewrite (Hread _ _ _ _ (readable_success _ _ Hd' Hk') Hv). }
  by rewrite (client_bind_pure _ _ _ tt).
Qed.

(** *** A call *)

(** The method a request names, as the socket finds it. *)
Definition served (method : string) : Method P := fun id params =>
  match find_method method admin_methods with
  | Some m => m id params
  | None => mret (method_not_found id)
  end.

(** What a response says to the caller. *)
Definition response_outcome (r : RpcResponse) : result ClientError Json :=
  match response_error r with
  | Some e => Err (BrokerRefusal (rpc_code e) (rpc_message e))
  | None => ok_or (ClientFailure "daemon returned no result") (response_result r)
  end.

(** A response that survives being written and read. *)
Definition readable_response (r : RpcResponse) : Prop :=
  strictly_readable (response_to_value r) /\
  response_from_value (response_to_value r) = Ok r.

Lemma answer_of_response r : readable_response r -> answer_of (to_vec (response_to_value r)) = response_outcome r.
Proof. intros [Hr Hb]. unfold answer_of. rewrite read_back by done. by rewrite Hb. Qed.

(** The bytes of a call and of its answer. *)
Definition call_bytes (c : AdminClient) (method : string) (params : Json) : list byte :=
  to_vec (request_to_value (admin_request (format_unsigned (ac_next_id c)) method params)).

Lemma decrypt_run ch m x :
  aead_decrypt (ch_rx_key ch) (format_nonce (ch_rx_nonce ch)) x = Some m ->
  ch_rx_nonce ch <> u64_max ->
  decrypt ch x = (Ok m, set_rx_nonce ch (ch_rx_nonce ch + 1)).
Proof.
  intros Hx Hn. unfold decrypt, checked_succ. rewrite Hx.
  by rewrite (proj2 (Z.eqb_neq _ _) Hn).
Qed.
Lemma encrypt_run ch m x :
  aead_encrypt (ch_tx_key ch) (format_nonce (ch_tx_nonce ch)) m = Some x ->
  ch_tx_nonce ch <> u64_max ->
  encrypt ch m = (Ok x, set_tx_nonce ch (ch_tx_nonce ch + 1)).
Proof.
  intros Hx Hn. unfold encrypt, checked_succ. rewrite (proj2 (Z.eqb_neq _ _) Hn).
  by rewrite Hx.
Qed.

(** The turn of the socket that serves a call. *)
Lemma served_turn ch since id method params wire sealed response w w2 :
  json_depth params <= 31 -> keys_distinct params -> params <> JNull ->
  elapsed_seconds since (instant_now (w_tick w)) < REKEY_SECONDS ->
  ch_rx_nonce ch <> u64_max -> ch_tx_nonce ch <> u64_max ->
  aead_encrypt (ch_rx_key ch) (format_nonce (ch_rx_nonce ch))
    (to_vec (request_to_value (admin_request id method params))) = Some wire ->
  served method (RpcString id) (Some params) (later w) = (Done response, w2) ->
  aead_encrypt (ch_tx_key ch) (format_nonce (ch_tx_nonce ch)) (to_vec (response_to_value response))
    = Some sealed ->
  fits for_agent sealed ->
  socket_message admin_socket (Established tt ch since) wire w
  = (Done (sealed, Established tt
       (set_tx_nonce (set_rx_nonce ch (ch_rx_nonce ch + 1)) (ch_tx_nonce ch + 1)) since), w2).
Proof.
  intros Hd Hk Hp Ht Hrx Htx Hw Hs Hx Hf. unfold socket_message.
  rewrite (task_bind_run _ _ w (instant_now (w_tick w)) (later w)) by done.
  rewrite (task_bind_run _ _ _ tt (later w)) by (by rewrite (proj2 (Z.ltb_lt _ _) Ht)).
  apply aead_round_trip in Hw.
  erewrite task_bind_run; cycle 1.
  { unfold unseal. rewrite (decrypt_run _ _ _ Hw Hrx). reflexivity. }
  cbn beta iota.
  rewrite (task_bind_run _ _ _ _ (later w) (read_request_run _ _ _ (later w) Hd Hk Hp)).
  cbn [admin_request bridge_request_of request_rpc_id request_method request_params k_methods
    admin_socket].
  rewrite (task_bind_run _ _ (later w) response w2) by exact Hs.
  erewrite task_bind_run; cycle 1.
  { unfold seal. rewrite (encrypt_run (set_rx_nonce ch (ch_rx_nonce ch + 1)) _ sealed Hx Htx).
    reflexivity. }
  cbn beta iota. by erewrite task_bind_run; [|apply send_run, Hf].
Qed.

(** A call that the method it names answers: the parameters and the answer can be
    read, the channel is not used up or too old, and the frames hold them. *)
Record served_call (c : AdminClient) l (method : string) (params : Json)
    (response : RpcResponse) (w2 : World P) : Prop := {
  sc_depth : json_depth params <= 31;
  sc_distinct : keys_distinct params;
  sc_params : params <> JNull;
  sc_time ch since : al_connection l = Some (Established tt ch since) ->
    elapsed_seconds since (instant_now (w_tick (other_tasks (al_world l)))) < REKEY_SECONDS;
  sc_nonces : ch_tx_nonce (ac_channel c) <> u64_max /\ ch_rx_nonce (ac_channel c) <> u64_max;
  sc_request : exists wire,
    aead_encrypt (ch_tx_key (ac_channel c)) (format_nonce (ch_tx_nonce (ac_channel c)))
      (call_bytes c method params) = Some wire /\ fits for_agent wire;
  sc_method : served method (RpcString (format_unsigned (ac_next_id c))) (Some params)
    (later (other_tasks (al_world l))) = (Done response, w2);
  sc_readable : readable_response response;
  sc_response : exists sealed,
    aead_encrypt (ch_rx_key (ac_channel c)) (format_nonce (ch_rx_nonce (ac_channel c)))
      (to_vec (response_to_value response)) = Some sealed /\ fits for_agent sealed
}.

Lemma call_run c l method params response w2 :
  linked c l -> served_call c l method params response w2 ->
  exists c' l', call c method params l = ((response_outcome response, c'), l') /\
    al_world l' = w2 /\ linked c' l' /\ ac_next_id c' = ac_next_id c + 1.
Proof.
  intros (ch & since & Hc & Htk & Hrk & Htn & Hrn) [Hd Hk Hp Ht [Hn1 Hn2] (wire & Hw & Hf) Hm Hr
    (sealed & Hs & Hfs)].
  specialize (Ht ch since Hc).
  assert (Hturn := served_turn ch since (format_unsigned (ac_next_id c)) method params wire sealed
    response (other_tasks (al_world l)) w2 Hd Hk Hp Ht).
  rewrite Htk, Htn in Hw. rewrite Hrk, Hrn in Hs. rewrite Htn in Hn1. rewrite Hrn in Hn2.
  specialize (Hturn Hn1 Hn2 Hw Hm Hs Hfs).
  unfold call. fold (call_bytes c method params).
  rewrite (encrypt_run (ac_channel c) _ wire) by (rewrite ?Htk, ?Htn; done).
  erewrite client_bind_pure by reflexivity.
  rewrite (exchange_frame _ _ _ _ _ _ _ Hf Hc Hturn).
  apply aead_round_trip in Hs.
  rewrite (decrypt_run _ (to_vec (response_to_value response)))
    by (cbn [set_tx_nonce ch_rx_key ch_rx_nonce]; rewrite ?Hrk, ?Hrn; done).
  cbn [map_err mbind result_bind]. rewrite answer_of_response by done.
  eexists _, _. split; [reflexivity|]. split; [done|]. split; [|done].
  exists (set_tx_nonce (set_rx_nonce ch (ch_rx_nonce ch + 1)) (ch_tx_nonce ch + 1)), since.
  cbn. by rewrite Hrk, Htk, Hrn, Htn.
Qed.

Lemma connected_linked read k l :
  reads_back read -> reachable k l ->
  exists c l', connect read l = (Ok c, l') /\ linked c l' /\ ac_next_id c = 1.
Proof.
  intros Hread Hl. eexists _, _. split; [by apply (connect_run read k)|]. split; [|done].
  by exists (new_server (shared_secret l) (as_bytes (env_uuid (w_tick (at_hello l)))) ADMIN_INFO),
    (instant_now (w_tick (at_authentication l))).
Qed.

(** C4: a call of the administrative client is one run of the broker's method.
    The command line client and the desktop application both reach a daemon that
    holds the key they pin: the handshake ends with the two ends of one channel.
    From then on, a call over a channel in use runs exactly the method it names,
    once, in the broker's world, and the caller is told what the method's
    response says: its result, or its refusal with code and message. The two ends
    stay in step, so the next call can be made. *)
Theorem admin_call_is_one_method_run k l :
  reachable k l ->
  (exists c l', connect strict_reader l = (Ok c, l') /\ linked c l') /\
  (exists c l', connect plain_reader l = (Ok c, l') /\ linked c l') /\
  forall c l0 method params response w2,
    linked c l0 -> served_call c l0 method params response w2 ->
    exists c' l', call c method params l0 = ((response_outcome response, c'), l') /\
      al_world l' = w2 /\ linked c' l'.
Proof.
  intros Hl.
  destruct (connected_linked strict_reader k l strict_reads_back Hl) as (c1 & l1 & Hr1 & L1 & _).
  destruct (connected_linked plain_reader k l plain_reads_back Hl) as (c2 & l2 & Hr2 & L2 & _).
  split; [eauto|]. split; [eauto|]. intros c l0 method params response w2 Hc Hs.
  destruct (call_run c l0 method params response w2 Hc Hs) as (c' & l' & Hr & Hw & Hk & _). eauto.
Qed.
End Agreement.
