(* ===== verification/HostInstall.v ===== *)
(** * HostInstall: the native messaging host is installed and started

    Models [secretctl-native-host/src/main.rs] and [manifest.rs] on the machine of
    [Installation.v]: the installation, which makes the host an enrolled executor
    of the broker, and the start by the browser, up to the bridge of [Bridge.v].
    The manifest, which is outside the installation directory, has its own path
    among the files; file modes are not modelled. *)

From S2P Require Import Prelude.
From S2P Require Import Externals.
From S2P Require Import Domain.
From S2P Require Import Policy.
From S2P Require Import Crypto.
From S2P Require Import Enrollment.
From S2P Require Import Provider.
From S2P Require Import Store.
From S2P Require Import OAuth.
From S2P Require Import Protocol.
From S2P Require Import BrokerState.
From S2P Require Import Broker.
From S2P Require Import Server.
From S2P Require Import Installation.
From S2P Require Import Startup.
From S2P Require Import Cli.

(** ** The manifest ([manifest.rs]) *)

Definition HOST_NAME : string := "com.secretctl.native_host".

Record NativeHostManifest : Type := {
  nm_name : string;
  nm_description : string;
  nm_path : string;
  nm_type : string;
  nm_allowed_origins : list string
}.

Definition extension_origin (extension_id : string) : string :=
  "chrome-extension://" +:+ extension_id +:+ "/".

Definition manifest_new (binary_path allowed_extension_id : string) : NativeHostManifest := {|
  nm_name := HOST_NAME; nm_description := "secretctl Chrome Native Messaging Host";
  nm_path := binary_path; nm_type := "stdio";
  nm_allowed_origins := [extension_origin allowed_extension_id] |}.

(** ** The configuration of the host *)

Record HostConfig : Type := {
  hc_principal_id : AgentId;
  hc_extension_id : string;
  hc_key_locator : string
}.

(** The derived JSON of the records of the host. *)
Class HostRecords := {
  config_from_slice : list byte -> result string HostConfig;
  config_to_vec : HostConfig -> list byte;
  enrollment_from_slice : list byte -> result string ExtensionEnrollment;
  enrollment_to_vec : ExtensionEnrollment -> list byte;
  manifest_to_string : NativeHostManifest -> list byte
}.

(** The executable of the process, as the n-th look at the system finds it. *)
Class OwnExecutable := { current_exe : nat -> option string }.

Definition NATIVE_HOST_JSON : string := "native-host.json".
Definition ENROLLMENT_JSON : string := "extension-enrollment.json".

Definition host_locator (principal_id : string) : string := "native-host-signing-" +:+ principal_id.

Section Host.
Context `{Chrono, Hashes, Signatures, Base64, UrlParser, JsonCodec, !Environment, SqliteText,
  FileErrors, CommandHost, HostRecords, OwnExecutable} {P : Type} `{SecretProvider P}.
Variable platform : HostPlatform.
Implicit Type m : Machine P.

Definition default_manifest_path : string :=
  match platform with
  | Macos => default "." (environment_variable "HOME")
      +:+ "/Library/Application Support/Google/Chrome/NativeMessagingHosts/" +:+ HOST_NAME +:+ ".json"
  | Linux => default "." (environment_variable "HOME")
      +:+ "/.config/google-chrome/NativeMessagingHosts/" +:+ HOST_NAME +:+ ".json"
  | Windows => default "." (environment_variable "LOCALAPPDATA")
      +:+ "\secretctl\" +:+ HOST_NAME +:+ ".json"
  end.

(** [NativeHostManifest::install] *)
Definition manifest_install (manifest : NativeHostManifest) : Process P string :=
  write_file default_manifest_path (manifest_to_string manifest);;
  mret default_manifest_path.

Definition load_config : Process P HostConfig :=
  bytes ← read_bytes NATIVE_HOST_JSON; attempting id (config_from_slice bytes).

(** *** The installation *)

Definition prior_config : Process P (option HostConfig) :=
  present ← file_exists NATIVE_HOST_JSON;
  if (present : bool) then config ← load_config; mret (Some config) else mret None.

Definition host_key (key_locator : string) : Process P KeyPair :=
  present ← secret_exists key_locator;
  present ← attempting provider_error_text present;
  if (present : bool) then
    secret ← read_secret key_locator;
    attempting crypto_error_text (keypair_from_bytes (secret_as_bytes secret))
  else
    key ← generate_key;
    write_secret key_locator (keypair_to_bytes key);;
    mret key.

Definition own_executable : Process P (string * list byte) :=
  path ← sampling current_exe;
  path ← expecting missing_file_text path;
  canonical ← sampling (fun n => canonical_path n path);
  canonical ← expecting missing_file_text canonical;
  bytes ← reads_host_file canonical;
  mret (canonical, bytes).

Definition host_principal (principal_id : AgentId) (key : KeyPair) (executable : string)
    (bytes : list byte) (now : Instant) : AgentPrincipal :=
  new_principal principal_id "executor" (public_key_bytes key) "secretctl packaged native host"
    (Some executable) (Some (sha256_digest bytes)) now.

Definition extension_enrollment (extension_id : string) : Process P ExtensionEnrollment :=
  present ← file_exists ENROLLMENT_JSON;
  if (present : bool) then
    bytes ← read_bytes ENROLLMENT_JSON; attempting id (enrollment_from_slice bytes)
  else
    random ← sampling env_random;
    mret (enrollment_new extension_id random).

Definition host_install (extension_id : string) : Process P unit :=
  demand (bool_decide (extension_id = MANAGED_EXTENSION_ID))
    "only the packaged secretctl extension ID may be enrolled";;
  prior ← prior_config;
  principal_id ← match prior with
    | Some config => mret (hc_principal_id config)
    | None => uuid ← sampling env_uuid; mret (id_new KAgent uuid)
    end;
  let key_locator := match hc_key_locator <$> prior with
    | Some locator => if bool_decide (locator = EmptyString)
                      then host_locator (id_str principal_id) else locator
    | None => host_locator (id_str principal_id)
    end in
  signing_key ← host_key key_locator;
  '(executable, bytes) ← own_executable;
  open_store;;
  now ← sampling env_now;
  executes (upsert_agent (host_principal principal_id signing_key executable bytes now));;
  write_file NATIVE_HOST_JSON (config_to_vec {|
    hc_principal_id := principal_id; hc_extension_id := extension_id;
    hc_key_locator := key_locator |});;
  installed_at ← manifest_install (manifest_new executable extension_id);
  enrollment ← extension_enrollment extension_id;
  write_file ENROLLMENT_JSON (enrollment_to_vec enrollment);;
  println ("Installed native messaging manifest to " +:+ installed_at);;
  match pending_pairing_code enrollment with
  | Some code => println_each ["Pairing code: " +:+ code;
      "Confirm that the extension popup shows the same code."]
  | None => mret tt
  end.

(** *** The start by the browser *)

Definition NOT_INVOKED : string :=
  "native host must be invoked by the enrolled Chrome extension".

(** What the bridge is started with. *)
Record HostStart : Type := {
  st_principal_id : string;
  st_signing_key : KeyPair;
  st_broker_public_key : list byte
}.

Definition is_caller_origin (argument : string) : bool := starts_with argument "chrome-extension://".

Definition host_start (caller_origin : string) : Process P HostStart :=
  config ← load_config;
  demand (bool_decide (caller_origin = extension_origin (hc_extension_id config)))
    "native messaging caller origin rejected";;
  let key_locator :=
    if bool_decide (hc_key_locator config = EmptyString)
    then host_locator (id_str (hc_principal_id config)) else hc_key_locator config in
  secret ← read_secret key_locator;
  signing_key ← attempting crypto_error_text (keypair_from_bytes (secret_as_bytes secret));
  broker_public_key ← read_bytes BROKER_KEY_PUB;
  demand (blen broker_public_key =? 32) "invalid broker public-key pin";;
  mret {| st_principal_id := id_str (hc_principal_id config); st_signing_key := signing_key;
          st_broker_public_key := broker_public_key |}.

(** The first argument, when it is an origin, and otherwise what the parsed
    arguments ask for: the installation for an extension, or nothing. *)
Definition host_main (argument : option string) (command : option string) :
    Process P (option HostStart) :=
  match argument, command with
  | Some argument, _ =>
      if is_caller_origin argument then start ← host_start argument; mret (Some start)
      else match command with
        | Some extension_id => host_install extension_id;; mret None
        | None => exit_with NOT_INVOKED
        end
  | None, Some extension_id => host_install extension_id;; mret None
  | None, None => exit_with NOT_INVOKED
  end.
End Host.
