(* ===== verification/HostProps.v ===== *)
(** * HostProps: an installed native messaging host is one the broker knows

    [installed_as] is what an installation that finishes leaves on the machine;
    from it the start by the browser finds the principal and its key, and the
    broker over that database accepts the handshake of [Agreement.v]. *)

From S2P Require Import Prelude.
From S2P Require Import Externals.
From S2P Require Import Domain.
From S2P Require Import Policy.
From S2P Require Import Crypto.
From S2P Require Import Enrollment.
From S2P Require Import AuditChain.
From S2P Require Import Capability.
From S2P Require Import Provider.
From S2P Require Import Table.
From S2P Require Import Store.
From S2P Require Import StoreTypes.
From S2P Require Import OAuth.
From S2P Require Import Protocol.
From S2P Require Import Framing.
From S2P Require Import BrokerState.
From S2P Require Import Broker.
From S2P Require Import Pages.
From S2P Require Import Wire.
From S2P Require Import Handshake.
From S2P Require Import Server.
From S2P Require Import Agreement.
From S2P Require Import Installation.
From S2P Require Import ProcessLogic.
From S2P Require Import Startup.
From S2P Require Import Cli.
From S2P Require Import HostInstall.

(** What is written is read back. *)
Class HostRecordsLaws `{HostRecords} := {
  config_round_trip c : config_from_slice (config_to_vec c) = Ok c;
  enrollment_round_trip e : enrollment_from_slice (enrollment_to_vec e) = Ok e
}.

(** ** The agent an upsert leaves *)

Section Upsert.
Context `{ChronoLaws, JsonCodec, UrlParser}.

(** The row of an agent, but for its creation time. *)
Definition describes (a : AgentPrincipal) (row : AgentRow) : Prop :=
  agr_agent_id row = id_str (ag_agent_id a) /\ agr_role row = ag_role a /\
  agr_public_key row = ag_public_key a /\ agr_executable_hash row = ag_executable_hash a /\
  agr_executable_path row = ag_executable_path a /\ agr_peer_uid row = ag_peer_uid a /\
  agr_state row = ag_state a.

Lemma upsert_agent_rows a s r s' :
  upsert_agent a s = (r, s') -> r = Ok tt /\
  (exists row, row ∈ agents s' /\ describes a row) /\
  (forall row, row ∈ agents s' -> agr_agent_id row = id_str (ag_agent_id a) -> describes a row).
Proof.
  unfold upsert_agent, commit. cbv zeta. set (conflicts := agent_conflicts (agent_row a)).
  assert (Hc : forall row, conflicts row = true <-> id_str (ag_agent_id a) = agr_agent_id row).
  { intros row. apply bool_decide_eq_true. }
  destruct (existsb _ _) eqn:E; intros [= <- <-]; cbn [agents set_agents].
  - apply existsb_exists in E as (row & Hin & Hrow). split; [done|]. split.
    + eexists. rewrite elem_of_update_where. split; [exists row; rewrite Hrow|].
      { split; [by apply list_elem_of_In|done]. }
      apply Hc in Hrow. by repeat split.
    + intros r (r0 & Hr0 & ->)%elem_of_update_where. destruct (conflicts r0) eqn:Er.
      * apply Hc in Er. by repeat split.
      * intros Hid. symmetry in Hid. apply Hc in Hid. congruence.
  - split; [done|]. split.
    + exists (agent_row a). split; [set_solver|by repeat split].
    + intros r [Hr|Hr%list_elem_of_singleton]%elem_of_app Hid; [|by subst r; repeat split].
      apply not_true_iff_false in E. destruct E. apply existsb_exists. exists r.
      split; [by apply list_elem_of_In|]. by apply Hc.
Qed.

(** The broker finds it. *)
Lemma upsert_enrolled a s r s' :
  well_typed s -> agent_ok a -> ag_state a = "enrolled" ->
  match ag_peer_uid a with Some uid => u32_range uid | None => True end ->
  upsert_agent a s = (r, s') -> exists b, get_enrolled_agent s' (id_str (ag_agent_id a)) = Ok b /\
    ag_role b = ag_role a /\ ag_public_key b = ag_public_key a /\ ag_peer_uid b = ag_peer_uid a /\
    ag_executable_path b = ag_executable_path a /\ ag_executable_hash b = ag_executable_hash a.
Proof.
  intros Hs Ha Hstate Huid Hup. pose proof (wt_upsert_agent a s Ha Hs) as Hs'.
  rewrite Hup in Hs'. cbn in Hs'. destruct (upsert_agent_rows _ _ _ _ Hup) as (_ & Hex & Hall).
  unfold get_enrolled_agent, query_row. destruct (select_first _ _) as [row|] eqn:Hf.
  - apply select_first_Some in Hf as [Hin Hen]. unfold enrolled in Hen.
    apply andb_true_iff in Hen as [Hid%bool_decide_eq_true _].
    destruct (Hall row Hin Hid) as (_ & Hro & Hpk & Hh & Hp & Hu & _).
    destruct (table_typed _ _ _ _ (wt_agents _ Hs') Hin) as [Hi Ht].
    destruct (StoreTypes.read_id _ _ 0 Hi) as [i ->], (read_time 8 _ Ht) as [t ->].
    eexists. split; [done|]. cbn. split_and!; try done. rewrite Hu.
    destruct (ag_peer_uid a); [|done]. cbn. f_equal. by apply Z.mod_small.
  - destruct Hex as (row & Hin & Hid & _ & _ & _ & _ & _ & Hst).
    rewrite select_first_None in Hf. specialize (Hf row Hin). unfold enrolled in Hf.
    by rewrite Hid, Hst, Hstate, !bool_decide_eq_true_2 in Hf by done.
Qed.
End Upsert.

(** ** The installation *)

Section Host.
Context `{ChronoLaws, Hashes, SignatureLaws, Base64, UrlParser, JsonCodec, !Environment,
  EnvLaws : !EnvironmentLaws, SqliteText, FileErrors, CommandHost, !HostRecords,
  HostLaws : !HostRecordsLaws, OwnExecutable} {P : Type} `{SecretProviderLaws P}.
Variable platform : HostPlatform.
Implicit Type m : Machine P.

(** [OsRng] fills the 32 bytes it is given, the key store finds what it holds,
    and the owner of the directory is a user. *)
Hypothesis random_length : forall n, length (env_random n) = 32%nat.
Hypothesis exists_agrees : forall locator (p : P) b,
  exists_secret locator p = Ok b -> b = bool_decide (is_Some (secret_at locator p)).
Hypothesis owner_uid : match directory_owner with Some uid => u32_range uid | None => True end.

Lemma manifest_elsewhere path :
  slen path <= 30 -> default_manifest_path platform <> path.
Proof.
  intros Hp <-. destruct platform; unfold default_manifest_path in Hp; rewrite !slen_app in Hp;
    change (slen HOST_NAME) with 25 in Hp; unfold slen in Hp; cbn in Hp; lia.
Qed.

Lemma ends_read_bytes C (Q : list byte -> Machine P -> Prop) path m :
  (forall bytes, m_files m !! path = Some bytes -> Q bytes m) ->
  (m_files m !! path = None -> C m) -> ends C Q (read_bytes path m).
Proof. intros HQ HC. unfold read_bytes. destruct (m_files m !! path); cbn; auto. Qed.

(** The configuration that is on disk, when there is one that reads. *)
Definition configured m (config : HostConfig) : Prop := exists bytes,
  m_files m !! NATIVE_HOST_JSON = Some bytes /\ config_from_slice bytes = Ok config.

Lemma load_config_ends C (Q : HostConfig -> Machine P -> Prop) m :
  (forall config, configured m config -> Q config m) -> C m -> ends C Q (load_config m).
Proof.
  intros HQ HC. unfold load_config. process_step. apply ends_read_bytes; [|done].
  intros bytes Hb. process_step; [|done]. intros config Hc. apply HQ. by exists bytes.
Qed.

Lemma prior_config_ends C (Q : option HostConfig -> Machine P -> Prop) m :
  (forall config, configured m config -> Q (Some config) m) ->
  (m_files m !! NATIVE_HOST_JSON = None -> Q None m) -> C m -> ends C Q (prior_config m).
Proof.
  intros HQ HN HC. unfold prior_config. process_step. process_step. case_bool_decide as Hp.
  - process_step. apply load_config_ends; [|done]. intros config Hc. process_step. by apply HQ.
  - process_step. apply HN. by apply eq_None_not_Some.
Qed.

(** The key is the one that is stored, and stored when there was none. *)
Lemma host_key_ends (Q : KeyPair -> Machine P -> Prop) locator m :
  (forall key m', only_secret locator m m' -> length (signing_key key) = 32%nat ->
     secrets m' locator = Some (signing_key key) ->
     (forall bytes, secrets m locator = Some bytes -> bytes = signing_key key) -> Q key m') ->
  ends (fun _ => True) Q (host_key locator m).
Proof.
  intros HQ. unfold host_key. process_step. process_step. process_step. process_step; [|done].
  intros b Hb. pose proof (exists_agrees _ _ _ Hb) as ->. clear Hb.
  fold (secrets m locator). case_bool_decide as Hp.
  - process_step. process_step; [|done]. intros secret m1 Hm1 Hs. process_step; [|done].
    intros key [Hl ->]%keypair_from_bytes_Ok. pose proof Hm1 as [Hsec ? ? ? ?].
    apply HQ; [by constructor|done| |].
    + by rewrite Hsec.
    + intros bytes Hb. cbn. congruence.
  - unfold generate_key. process_step. process_step. process_step. intros n m1 Hm1.
    process_step. process_step. process_step; [done| |done]. intros m2 Hm2 Hs. process_step.
    pose proof Hm1 as [Hsec ? ? ? ?]. pose proof Hm2 as [Ho ? ? ? ?].
    apply HQ; [|apply random_length|done|].
    + constructor; try congruence; [|by auto].
      intros l Hl. rewrite Ho by done. apply Hsec.
    + intros bytes Hb. destruct Hp. by eexists.
Qed.

(** What an installation leaves: the configuration, the key it names, and the
    agent under its name, pinned to the executable with those bytes. *)
Record installed_as (config : HostConfig) (key : KeyPair) (path : string) (bytes : list byte) m :
    Prop := {
  ia_config : configured m config;
  ia_extension : hc_extension_id config = MANAGED_EXTENSION_ID;
  ia_principal : id_ok (hc_principal_id config);
  ia_locator : hc_key_locator config <> EmptyString;
  ia_key : secrets m (hc_key_locator config) = Some (signing_key key);
  ia_length : length (signing_key key) = 32%nat;
  ia_agent : exists a, get_enrolled_agent (database m) (id_str (hc_principal_id config)) = Ok a /\
    ag_role a = "executor" /\ ag_public_key a = public_key_bytes key /\
    ag_peer_uid a = directory_owner /\ ag_executable_path a = Some path /\
    ag_executable_hash a = Some (sha256_digest bytes)
}.

Definition readable_config m : Prop :=
  forall config, configured m config -> id_ok (hc_principal_id config).

(** The enrollment of the extension, when there is one. *)
Definition extension_enrolled m (e : ExtensionEnrollment) : Prop := exists bytes,
  m_files m !! ENROLLMENT_JSON = Some bytes /\ enrollment_from_slice bytes = Ok e.

Lemma configured_unique m c c' : configured m c -> configured m c' -> c = c'.
Proof. intros (b & Hb & Hc) (b' & Hb' & Hc'). congruence. Qed.

Definition chosen_locator (prior : option HostConfig) (principal_id : AgentId) : string :=
  match hc_key_locator <$> prior with
  | Some locator => if bool_decide (locator = EmptyString)
                    then host_locator (id_str principal_id) else locator
  | None => host_locator (id_str principal_id)
  end.

Lemma chosen_locator_nonempty prior id : chosen_locator prior id <> EmptyString.
Proof. unfold chosen_locator. destruct prior; cbn; [case_bool_decide|]; done. Qed.

(** The part of an installation after the key: what it leaves of the files. *)
Definition host_files (config : HostConfig) (executable : string) : Process P unit :=
  write_file NATIVE_HOST_JSON (config_to_vec config);;
  installed_at ← manifest_install platform (manifest_new executable (hc_extension_id config));
  enrollment ← extension_enrollment (hc_extension_id config);
  write_file ENROLLMENT_JSON (enrollment_to_vec enrollment);;
  println ("Installed native messaging manifest to " +:+ installed_at);;
  match pending_pairing_code enrollment with
  | Some code => println_each ["Pairing code: " +:+ code;
      "Confirm that the extension popup shows the same code."]
  | None => mret tt
  end.

Record host_files_written (config : HostConfig) m m' : Prop := {
  hf_config : configured m' config;
  hf_pin : m_files m' !! BROKER_KEY_PUB = m_files m !! BROKER_KEY_PUB;
  hf_enrolled : exists e, extension_enrolled m' e;
  hf_enrollment e : extension_enrolled m e -> extension_enrolled m' e;
  hf_database : database m' = database m;
  hf_secrets l : secrets m' l = secrets m l
}.

Lemma extension_enrollment_ends C (Q : ExtensionEnrollment -> Machine P -> Prop) id m :
  (forall e m', calm m m' -> (forall e', extension_enrolled m e' -> e' = e) -> Q e m') -> C m ->
  ends C Q (extension_enrollment id m).
Proof.
  intros HQ HC. unfold extension_enrollment. process_step. process_step. case_bool_decide as Hp.
  - process_step. apply ends_read_bytes; [|done]. intros bytes Hb. process_step; [|done].
    intros e He. apply HQ; [done|]. intros e' (b & Hb' & He'). congruence.
  - process_step. process_step. intros n m1 Hm1. process_step. apply HQ; [done|].
    intros e' (b & Hb & _). destruct Hp. by eexists.
Qed.

Lemma host_files_ends config executable m :
  ends (fun _ => True) (fun _ => host_files_written config m) (host_files config executable m).
Proof.
  unfold host_files, manifest_install.
  process_step. process_step; [done..|]. intros m1 [Hs1 Hd1 Hf1 _ _].
  process_step. process_step. process_step; [done..|]. intros m2 [Hs2 Hd2 Hf2 _ _].
  process_step. process_step. apply extension_enrollment_ends; [|done]. intros e m3 [Hs3 Hd3 Hf3 _ _] He.
  process_step. process_step; [done..|]. intros m4 [Hs4 Hd4 Hf4 _ _].
  process_step. process_step. intros m5 Hm5.
  enough (host_files_written config m m5) as Hw.
  { destruct (pending_pairing_code e); process_step; [|done]. intros m6 [Hs Hd Hf _ _].
    destruct Hw. constructor; unfold configured, extension_enrolled in *; rewrite ?Hf, ?Hd; auto.
    intros l. by rewrite Hs. }
  destruct Hm5 as [Hs5 Hd5 Hf5 _ _].
  assert (Hfiles : forall path, path <> NATIVE_HOST_JSON -> path <> ENROLLMENT_JSON ->
            slen path <= 30 -> m_files m5 !! path = m_files m !! path).
  { intros path Hn He' Hl. pose proof (manifest_elsewhere path Hl).
    rewrite Hf5, Hf4. cbn. rewrite lookup_insert_ne, Hf3, Hf2 by done. cbn.
    rewrite lookup_insert_ne, Hf1 by done. cbn. by rewrite lookup_insert_ne. }
  assert (He5 : m_files m5 !! ENROLLMENT_JSON = Some (enrollment_to_vec e))
    by (rewrite Hf5, Hf4; cbn; by rewrite lookup_insert_eq).
  constructor.
  - exists (config_to_vec config). split; [|apply config_round_trip].
    rewrite Hf5, Hf4. cbn. rewrite lookup_insert_ne, Hf3, Hf2 by done. cbn.
    rewrite lookup_insert_ne, Hf1 by by apply manifest_elsewhere. cbn. by rewrite lookup_insert_eq.
  - by apply Hfiles.
  - exists e. exists (enrollment_to_vec e). split; [done|apply enrollment_round_trip].
  - intros e' (b & Hb & He'). exists (enrollment_to_vec e). split; [done|].
    rewrite (He e'); [apply enrollment_round_trip|]. exists b. split; [|done].
    rewrite Hf2. cbn. rewrite lookup_insert_ne, Hf1 by by apply manifest_elsewhere. cbn.
    by rewrite lookup_insert_ne.
  - rewrite Hd5. etransitivity; [exact Hd4|]. etransitivity; [exact Hd3|].
    etransitivity; [exact Hd2|]. exact Hd1.
  - intros l. rewrite Hs5. etransitivity; [apply Hs4|]. etransitivity; [apply Hs3|].
    etransitivity; [apply Hs2|]. apply Hs1.
Qed.

(** The part of an installation from the key on. *)
Definition host_enrolled (prior : option HostConfig) (principal_id : AgentId) : Process P unit :=
  let key_locator := chosen_locator prior principal_id in
  signing_key ← host_key key_locator;
  '(executable, bytes) ← own_executable;
  open_store;;
  now ← sampling env_now;
  executes (upsert_agent (host_principal principal_id signing_key executable bytes now));;
  host_files {| hc_principal_id := principal_id; hc_extension_id := MANAGED_EXTENSION_ID;
                hc_key_locator := key_locator |} executable.

Lemma host_install_eq m :
  host_install platform MANAGED_EXTENSION_ID m
  = (prior ← prior_config;
     principal_id ← match prior with
       | Some config => mret (hc_principal_id config)
       | None => uuid ← sampling env_uuid; mret (id_new KAgent uuid)
       end;
     host_enrolled prior principal_id) m.
Proof. reflexivity. Qed.

(** The canonical path of an executable of the process, and bytes of the file. *)
Definition executable_found (path : string) (bytes : list byte) : Prop :=
  exists i j k exe, current_exe i = Some exe /\ canonical_path j exe = Some path /\
    host_file k path = Some bytes.

Lemma own_executable_ends C (Q : string * list byte -> Machine P -> Prop) m :
  (forall path bytes m', calm m m' -> executable_found path bytes -> Q (path, bytes) m') ->
  (forall m', C m') ->
  ends C Q (own_executable m).
Proof.
  intros HQ HC. unfold own_executable, reads_host_file.
  process_step. process_step. intros n1 m1 Hm1. process_step. process_step; [|done]. intros exe Hexe.
  process_step. process_step. intros n2 m2 Hm2. process_step. process_step; [|done]. intros path Hpath.
  process_step. process_step. process_step. intros n3 m3 Hm3. process_step; [|done]. intros bytes Hbytes.
  process_step. apply HQ; [|by exists n1, n2, n3, exe]. etransitivity; [exact Hm1|]. by etransitivity.
Qed.

Lemma host_enrolled_ends prior principal_id m :
  well_typed (database m) -> id_ok principal_id ->
  ends (fun _ => True) (fun _ m' => exists config key path bytes,
      installed_as config key path bytes m' /\ executable_found path bytes /\
      well_typed (database m') /\
      hc_principal_id config = principal_id /\
      hc_key_locator config = chosen_locator prior principal_id /\
      (forall b, secrets m (hc_key_locator config) = Some b -> b = signing_key key) /\
      (forall e, extension_enrolled m e -> extension_enrolled m' e) /\
      (exists e, extension_enrolled m' e) /\
      m_files m' !! BROKER_KEY_PUB = m_files m !! BROKER_KEY_PUB)
    (host_enrolled prior principal_id m).
Proof.
  intros Hwt Hid. unfold host_enrolled. cbv zeta.
  process_step. apply host_key_ends. intros key m1 Hm1 Hlen Hsec1 Hkept.
  process_step. apply own_executable_ends; [|done]. intros path bytes m2 Hm2 Hexe.
  process_step. process_step. intros m3 Hm3. process_step. process_step. intros n m4 Hm4.
  assert (Hm14 : calm m1 m4) by (etransitivity; [|done]; by etransitivity).
  assert (Hd4 : database m4 = database m).
  { rewrite (calm_database _ _ Hm14). apply (os_database _ _ _ Hm1). }
  process_step. process_step; [done| |done]. intros r s m5 Hup Hm5. rewrite Hd4 in Hup.
  assert (Hok : agent_ok (host_principal principal_id key path bytes (env_now n))).
  { split; [done|]. apply env_now_range. }
  destruct (upsert_enrolled _ _ _ _ Hwt Hok eq_refl owner_uid Hup) as (a & Ha & Hr).
  pose proof (wt_upsert_agent _ _ Hok Hwt) as Hwt5. rewrite Hup in Hwt5. cbn in Hwt5.
  eapply ends_weaken; [done| |apply host_files_ends].
  intros _ m6 [Hc Hpin He Hkeep Hd Hs].
  assert (Hd6 : database m6 = s) by (rewrite Hd; apply (calm_database _ _ Hm5)).
  assert (Hs6 : forall l, secrets m6 l = secrets m1 l).
  { intros l. rewrite Hs. etransitivity; [apply (calm_secrets _ _ Hm5)|]. apply (calm_secrets _ _ Hm14). }
  assert (Hf : m_files m5 = m_files m).
  { rewrite (calm_files _ _ Hm5). cbn. by rewrite (calm_files _ _ Hm14), (os_files _ _ _ Hm1). }
  exists {| hc_principal_id := principal_id; hc_extension_id := MANAGED_EXTENSION_ID;
            hc_key_locator := chosen_locator prior principal_id |}, key, path, bytes.
  cbn [hc_key_locator hc_principal_id]. split_and!; try done.
  - constructor; try done; cbn [hc_key_locator hc_principal_id].
    + apply chosen_locator_nonempty.
    + by rewrite Hs6.
    + rewrite Hd6. by exists a.
  - by rewrite Hd6.
  - intros e (b & Hb & He'). apply Hkeep. exists b. by rewrite Hf.
  - by rewrite Hpin, Hf.
Qed.

(** What an installation of [m] leaves: whatever of the host was there is kept. *)
Record host_left m m' (config : HostConfig) (key : KeyPair) (path : string) (bytes : list byte) :
    Prop := {
  hl_installed : installed_as config key path bytes m';
  hl_executable : executable_found path bytes;
  hl_typed : well_typed (database m');
  hl_principal prior : configured m prior -> hc_principal_id config = hc_principal_id prior;
  hl_locator prior : configured m prior -> hc_key_locator prior <> EmptyString ->
    hc_key_locator config = hc_key_locator prior;
  hl_key b : secrets m (hc_key_locator config) = Some b -> b = signing_key key;
  hl_enrollment e : extension_enrolled m e -> extension_enrolled m' e;
  hl_pin : m_files m' !! BROKER_KEY_PUB = m_files m !! BROKER_KEY_PUB
}.

Lemma host_install_ends m :
  well_typed (database m) -> readable_config m ->
  ends (fun _ => True) (fun _ m' => exists config key path bytes, host_left m m' config key path bytes)
    (host_install platform MANAGED_EXTENSION_ID m).
Proof.
  intros Hwt Hread. rewrite host_install_eq. process_step. apply prior_config_ends; [| |done].
  - intros prior Hprior. process_step. process_step. eapply ends_weaken;
      [done| |apply (host_enrolled_ends (Some prior)); [done|by apply Hread]].
    intros _ m' (config & key & path & bytes & Hi & Hexe & Hwt' & Hp & Hl & Hk & He & _ & Hpin).
    exists config, key, path, bytes. constructor; try done.
    + intros prior' Hprior'. by rewrite (configured_unique _ _ _ Hprior' Hprior).
    + intros prior' Hprior'. rewrite (configured_unique _ _ _ Hprior' Hprior). intros Hne.
      rewrite Hl. unfold chosen_locator. cbn. by rewrite bool_decide_eq_false_2.
  - intros Hnone. assert (Hno : forall prior, ~ configured m prior).
    { intros prior (b & Hb & _). congruence. }
    process_step. process_step. process_step. intros n m1 Hm1. process_step.
    pose proof Hm1 as [Hs1 Hd1 Hf1 _ _].
    eapply ends_weaken; [done| |apply host_enrolled_ends].
    2: { by rewrite Hd1. }
    2: { apply id_parse_new, env_uuid_nonempty. }
    intros _ m' (config & key & path & bytes & Hi & Hexe & Hwt' & Hp & Hl & Hk & He & _ & Hpin).
    exists config, key, path, bytes. constructor; try done.
    + intros prior Hprior. by destruct (Hno prior).
    + intros prior Hprior. by destruct (Hno prior).
    + intros b Hb. apply Hk. by rewrite Hs1.
    + intros e (b & Hb & He'). apply He. exists b. by rewrite Hf1.
    + by rewrite Hpin, Hf1.
Qed.

Lemma host_install_other extension_id m :
  extension_id <> MANAGED_EXTENSION_ID -> exists message,
    host_install platform extension_id m = (Failed message, m).
Proof.
  intros Hne. eexists. unfold host_install.
  by rewrite bool_decide_eq_false_2.
Qed.

(** *** The start *)

Definition started_as (config : HostConfig) (key : KeyPair) (pin : list byte) : HostStart := {|
  st_principal_id := id_str (hc_principal_id config); st_signing_key := key;
  st_broker_public_key := pin |}.

Lemma host_start_ends config key path bytes pin m :
  installed_as config key path bytes m -> m_files m !! BROKER_KEY_PUB = Some pin ->
  length pin = 32%nat ->
  ends (fun _ => False) (fun st _ => st = started_as config key pin)
    (host_start (extension_origin MANAGED_EXTENSION_ID) m).
Proof.
  intros [Hc Hx _ Hne Hk Hl _] Hpin Hlen. unfold host_start.
  destruct Hc as (b & Hb & Hcfg). process_step. unfold load_config. process_step.
  apply ends_read_bytes; rewrite Hb; [intros ? [= <-]|done]. rewrite Hcfg. process_step;
    [intros c [= <-]|by intros []].
  process_step. process_step; [intros _|intros Hno; bool_to_prop; by rewrite Hx in Hno].
  rewrite bool_decide_eq_false_2 by done. process_step. process_step.
  2: { intros m' _ Hno. congruence. }
  intros secret m1 Hm1 Hs. rewrite Hk in Hs. injection Hs as Hs.
  process_step. rewrite <-Hs, (proj2 (keypair_from_bytes_Ok _ key)) by (by destruct key).
  process_step; [intros k [= <-]|by intros []].
  process_step. apply ends_read_bytes; rewrite (calm_files _ _ Hm1), Hpin; [intros ? [= <-]|done].
  process_step. process_step; [intros _; process_step; done|].
  unfold blen. by rewrite Hlen.
Qed.

Lemma host_start_finishes config key path bytes pin m :
  installed_as config key path bytes m -> m_files m !! BROKER_KEY_PUB = Some pin ->
  length pin = 32%nat ->
  fst (host_start (extension_origin MANAGED_EXTENSION_ID) m) = Finished (started_as config key pin).
Proof.
  intros Hi Hp Hl. pose proof (host_start_ends _ _ _ _ _ _ Hi Hp Hl) as He.
  destruct (host_start _ m) as [[st| | |] m']; [|done..]. cbn in *. by rewrite He.
Qed.

Lemma host_start_other config key path bytes origin m :
  installed_as config key path bytes m -> origin <> extension_origin MANAGED_EXTENSION_ID ->
  fst (host_start origin m) = Failed "native messaging caller origin rejected".
Proof.
  intros [(b & Hb & Hcfg) Hx _ _ _ _ _] Hne. unfold host_start, load_config, read_bytes.
  unfold mbind, process_bind. rewrite Hb. cbn [expecting mret process_ret]. rewrite Hcfg.
  cbn [attempting mret process_ret]. by rewrite Hx, bool_decide_eq_false_2.
Qed.
End Host.

(** ** The host and its broker *)

Section Enrolled.
Context `{ManagedChrome, ChronoLaws, Hashes, SignatureLaws, Base64, UrlParser, JsonCodec,
  !Environment, EnvLaws : !EnvironmentLaws, SqliteText, FileErrors, CommandHost, !HostRecords,
  HostLaws : !HostRecordsLaws, OwnExecutable, PeerProcess} {P : Type} `{SecretProviderLaws P}.
Variable platform : HostPlatform.
Hypothesis random_length : forall n, length (env_random n) = 32%nat.
Hypothesis exists_agrees : forall locator (p : P) b,
  exists_secret locator p = Ok b -> b = bool_decide (is_Some (secret_at locator p)).
Hypothesis owner_uid : match directory_owner with Some uid => u32_range uid | None => True end.

(** A process of the owner that runs the executable at that path, with the digest
    of those bytes. *)
Record runs (cred : UCred) (path : string) (bytes : list byte) (w : World P) : Prop := {
  rn_uid uid : directory_owner = Some uid -> peer_uid cred = uid;
  rn_executable : exists pid running found, peer_pid cred = Some pid /\
    executable_of (w_tick w) pid = Some running /\ path_eqb path running = true /\
    read_file (S (w_tick w)) running = Some found /\ sha256_digest found = sha256_digest bytes
}.

Lemma io_Some {A : Type} (f : nat -> option A) a (w : World P) :
  f (w_tick w) = Some a ->
  io f w = (Done a, {| w_broker := w_broker w; w_tick := S (w_tick w) |}).
Proof.
  intros Hf. unfold io. erewrite task_bind_run by (unfold drawing; reflexivity). by rewrite Hf.
Qed.

Lemma io_None {A : Type} (f : nat -> option A) (w : World P) :
  f (w_tick w) = None -> forall a, fst (io f w) <> Done a.
Proof.
  intros Hf a. unfold io. erewrite task_bind_run by (unfold drawing; reflexivity). by rewrite Hf.
Qed.

Lemma task_bind_fails {A B : Type} (m : Task P A) (f : A -> Task P B) w :
  (forall a, fst (m w) <> Done a) -> forall b, fst ((m ≫= f) w) <> Done b.
Proof.
  intros Hm b. unfold mbind, task_bind. destruct (m w) as [[a|e|] w1]; [|done..].
  by destruct (Hm a).
Qed.

(** A peer is who the agent is pinned to exactly when it is such a process. *)
Lemma verify_pinned (a : AgentPrincipal) cred path bytes (w : World P) :
  ag_peer_uid a = directory_owner -> ag_executable_path a = Some path ->
  ag_executable_hash a = Some (sha256_digest bytes) ->
  fst (verify_peer_identity a cred w) = Done true <-> runs cred path bytes w.
Proof.
  intros Hu Hp Hh. unfold verify_peer_identity. rewrite Hu, Hp, Hh.
  destruct (is_some_and (fun uid => negb (uid =? peer_uid cred)) directory_owner) eqn:Huid.
  { split; [done|]. intros [Hr _]. destruct directory_owner as [uid|]; [|done].
    cbn in Huid. rewrite (Hr uid), Z.eqb_refl in Huid by done. done. }
  assert (Howner : forall uid, directory_owner = Some uid -> peer_uid cred = uid).
  { intros uid E. rewrite E in Huid. cbn in Huid. apply negb_false_iff, Z.eqb_eq in Huid. done. }
  clear Huid. destruct (peer_pid cred) as [pid|] eqn:Hpid.
  2: { split; [done|]. intros [_ (pid & ? & ? & E & _)]. congruence. }
  destruct (executable_of (w_tick w) pid) as [running|] eqn:Hx.
  2: { split; [intros Hd; by apply task_bind_fails in Hd; [|apply io_None]|].
       intros [_ (pid' & ? & ? & E & Hx' & _)]. congruence. }
  rewrite (task_bind_run _ _ w _ _ (io_Some (fun n => executable_of n pid) _ _ Hx)).
  cbn [is_some_and]. set (w1 := {| w_broker := _ |}).
  destruct (path_eqb path running) eqn:He; cbn [negb].
  2: { split; [done|]. intros [_ (pid' & r' & ? & E & Hx' & He' & _)]. congruence. }
  destruct (read_file (S (w_tick w)) running) as [found|] eqn:Hr.
  2: { split; [intros Hd; by apply task_bind_fails in Hd; [|apply io_None]|].
       intros [_ (pid' & r' & ? & E & Hx' & _ & Hr' & _)]. congruence. }
  rewrite (task_bind_run _ _ _ _ _ (io_Some (fun n => read_file n running) _ w1 Hr)).
  cbn [fst mret task_ret]. split.
  - intros [= Hd]. apply bool_decide_eq_true in Hd. split; [done|].
    by exists pid, running, found.
  - intros [_ (pid' & r' & found' & E & Hx' & _ & Hr' & Hd)].
    replace found with found' by congruence. by rewrite bool_decide_true.
Qed.

(** Whom the executor's socket accepts under the name of such an agent. *)
Lemma executor_accept_pinned cred path bytes hello (w : World P) a b w1 :
  get_enrolled_agent (store (w_broker w)) (sh_principal_id hello) = Ok a ->
  ag_peer_uid a = directory_owner -> ag_executable_path a = Some path ->
  ag_executable_hash a = Some (sha256_digest bytes) ->
  executor_accept cred hello w = (Done b, w1) -> runs cred path bytes w.
Proof.
  intros Hf Hu Hp Hh. unfold executor_accept.
  destruct (_ && offers_suite hello); [|done].
  rewrite (task_bind_run _ _ w tt w) by done.
  rewrite (task_bind_run _ _ w (Ok a) w) by (unfold asks; by rewrite Hf).
  rewrite (task_bind_run _ _ w a w) by done.
  case_bool_decide; [|done]. intros Hd. apply (verify_pinned a cred path bytes w Hu Hp Hh).
  unfold mbind, task_bind in Hd. destruct (verify_peer_identity a cred w) as [[[]|e|] w2]; done.
Qed.

(** C6: an installation of the native messaging host that finishes is of the
    managed extension and leaves a host the broker knows. Started by that
    extension, and by no other origin, it has its principal, the key of it and
    the pinned key of the broker; over the database it leaves, the broker knows
    that principal by that key, and its executors' socket accepts a greeting in
    its name from a process of the owner that runs the installed executable, and
    from no other peer: of another user, without a process, at another path, or
    with bytes of another digest; and installing it again changes neither the
    principal, nor the key, nor the enrolled extension. *)
Theorem installed_host_is_enrolled extension_id (m m' : Machine P) pin :
  well_typed (database m) -> readable_config m ->
  m_files m !! BROKER_KEY_PUB = Some pin -> length pin = 32%nat ->
  host_install platform extension_id m = (Finished tt, m') ->
  extension_id = MANAGED_EXTENSION_ID /\
  exists config key path bytes, executable_found path bytes /\
    fst (host_start (extension_origin extension_id) m') = Finished (started_as config key pin) /\
    (forall origin, origin <> extension_origin extension_id ->
       fst (host_start origin m') = Failed "native messaging caller origin rejected") /\
    (forall w cred, store (w_broker w) = database m' ->
       (runs cred path bytes w -> exists enrolled,
        enrolled_executor cred (id_str (hc_principal_id config)) key w enrolled) /\
       (forall hello, sh_principal_id hello = id_str (hc_principal_id config) ->
        ~ runs cred path bytes w ->
        forall enrolled w', executor_accept cred hello w <> (Done enrolled, w'))) /\
    (forall m2, host_install platform extension_id m' = (Finished tt, m2) ->
       fst (host_start (extension_origin extension_id) m2) = Finished (started_as config key pin) /\
       forall e, extension_enrolled m' e -> extension_enrolled m2 e).
Proof.
  intros Hwt Hread Hpin Hlen Hrun.
  destruct (decide (extension_id = MANAGED_EXTENSION_ID)) as [->|Hne].
  2: { apply (host_install_other platform _ m) in Hne as [e He]. congruence. }
  split; [done|].
  pose proof (host_install_ends platform random_length exists_agrees owner_uid m Hwt Hread) as Hi.
  rewrite Hrun in Hi. destruct Hi as (config & key & path & bytes & [Hi Hexe Hwt' _ _ _ _ Hpin']).
  rewrite Hpin in Hpin'. exists config, key, path, bytes. split_and!; [done|..].
  - by eapply host_start_finishes.
  - intros origin. by eapply host_start_other.
  - intros w cred Hw.
    destruct (ia_agent _ _ _ _ _ Hi) as (a & Ha & Hrole & Hkey & Hu & Hp & Hh). split.
    + intros Hruns. exists a. constructor; try done; [by rewrite Hw|by apply Hi|].
      pose proof (proj2 (verify_pinned a cred path bytes w Hu Hp Hh) Hruns) as Hv.
      destruct (verify_peer_identity a cred w) as [r w']. cbn in *. by rewrite Hv.
    + intros hello Hid Hno b w1 Hacc. apply Hno.
      eapply executor_accept_pinned; [|exact Hu|exact Hp|exact Hh|exact Hacc]. by rewrite Hw, Hid.
  - intros m2 Hrun2.
    assert (Hread' : readable_config m').
    { intros c Hc. rewrite (configured_unique _ _ _ Hc (ia_config _ _ _ _ _ Hi)). apply Hi. }
    pose proof (host_install_ends platform random_length exists_agrees owner_uid m' Hwt' Hread')
      as Hi2. rewrite Hrun2 in Hi2.
    destruct Hi2 as (config2 & key2 & path2 & bytes2 & [Hi2 _ _ Hid2 Hl2 Hk2 He2 Hpin2]).
    split; [|done]. rewrite Hpin' in Hpin2.
    rewrite (host_start_finishes _ _ _ _ _ _ Hi2 Hpin2 Hlen). f_equal. unfold started_as.
    pose proof (ia_config _ _ _ _ _ Hi) as Hc. rewrite (Hid2 _ Hc). f_equal.
    rewrite (Hl2 _ Hc (ia_locator _ _ _ _ _ Hi)) in Hk2.
    specialize (Hk2 _ (ia_key _ _ _ _ _ Hi)). destruct key, key2. cbn in *. by rewrite Hk2.
Qed.
End Enrolled.
