(* ===== verification/Launcher.v ===== *)
(** * Launcher: the managed Chrome is started and stopped

    Models [launcher.rs] and [gateway.rs] of [secretctl-browser-gateway] over the
    files and the processes of the operating system. What Chrome answers is the
    incoming half of the pipe of [Gateway.v]. Directories and file modes are only
    calls that may fail. *)

From S2P Require Import Prelude.
From S2P Require Import Externals.
From S2P Require Import Domain.
From S2P Require Import Policy.
From S2P Require Import Crypto.
From S2P Require Import DomView.
From S2P Require Import Gateway.
From S2P Require Import Protocol.
From S2P Require Import BrokerState.
From S2P Require Import Broker.

Record BrowserInstance : Type := {
  bi_instance_id : BrowserInstanceId;
  bi_launcher_nonce : string;
  bi_binary_hash : option (list byte);
  bi_extension_key_id : string;
  bi_private_cdp_endpoint : string;
  bi_created_at : Instant
}.

(** A command as it is spawned. *)
Record ChromeCommand : Type := {
  cc_binary : string;
  cc_environment : list (string * string);
  cc_arguments : list string
}.

(** ** The operating system

    At the n-th call: whether a call on a directory, a mode, a pipe or a file that
    is written fails, what a path resolves to, what is read of a binary, and what
    a spawned Chrome is: its ends of the pipes, and the lines of its standard
    error, up to one that is not text. *)
Class ChromeHost := {
  temp_dir : string;
  system_error : nat -> option string;
  resolve_path : nat -> string -> result string string;
  open_binary : nat -> string -> result string (result string (list byte));
  is_file : nat -> string -> bool;
  path_exists : nat -> string -> bool;
  which : nat -> string -> option string;
  map_descriptors : nat -> option string;
  spawn_chrome : nat -> ChromeCommand -> result string (CdpPipe * list (option string));
  kill_error : nat -> option string;
  json_pretty : Json -> list byte
}.

(** The files that were written, and the children that are running. *)
Record LaunchWorld : Type := {
  lw_files : gmap string (list byte);
  lw_children : gmap nat ChromeCommand;
  lw_tick : nat
}.

Definition Launch (A : Type) : Type := LaunchWorld -> result GatewayError A * LaunchWorld.

Section Monad.
#[global] Instance launch_ret : MRet Launch := fun A a w => (Ok a, w).
#[global] Instance launch_bind : MBind Launch := fun A B f m w =>
  match m w with (Ok a, w) => f a w | (Err e, w) => (Err e, w) end.

Definition fails {A : Type} (e : GatewayError) : Launch A := fun w => (Err e, w).
Definition launch_try {A : Type} (r : result GatewayError A) : Launch A := fun w => (r, w).
Definition asking {A : Type} (f : nat -> A) : Launch A := fun w =>
  (Ok (f (lw_tick w)), {| lw_files := lw_files w; lw_children := lw_children w;
                          lw_tick := S (lw_tick w) |}).

Definition record_file (path : string) (bytes : list byte) : Launch unit := fun w =>
  (Ok tt, {| lw_files := <[path := bytes]> (lw_files w); lw_children := lw_children w;
             lw_tick := lw_tick w |}).
(** A child is known by the tick at which it was spawned. *)
Definition started (child : nat) (c : ChromeCommand) : Launch unit := fun w =>
  (Ok tt, {| lw_files := lw_files w; lw_children := <[child := c]> (lw_children w);
             lw_tick := lw_tick w |}).
(** [kill] and [wait] *)
Definition stopped (child : nat) : Launch unit := fun w =>
  (Ok tt, {| lw_files := lw_files w; lw_children := delete child (lw_children w);
             lw_tick := lw_tick w |}).
End Monad.

Definition path_join (base name : string) : string :=
  if bool_decide (base = EmptyString) || ends_with base "/" then base +:+ name
  else base +:+ "/" +:+ name.

(** ** The diagnostics *)

Section Diagnostics.

(** [str::replace], on the bytes, with so many bytes of a match still to skip. *)
Fixpoint replace_from (pattern by_ : list byte) (skip : nat) (text : list byte) : list byte :=
  match text with
  | [] => []
  | b :: rest =>
      match skip with
      | S skip => replace_from pattern by_ skip rest
      | O => if bool_decide (take (length pattern) text = pattern)
             then by_ ++ replace_from pattern by_ (length pattern - 1) rest
             else b :: replace_from pattern by_ 0 rest
      end
  end.

(** An empty pattern matches at every character. *)
Definition str_replace (pattern by_ text : string) : string :=
  if bool_decide (pattern = EmptyString)
  then from_bytes (as_bytes by_ ++ flat_map (fun c => encode_char c ++ as_bytes by_) (chars text))
  else from_bytes (replace_from (as_bytes pattern) (as_bytes by_) 0 (as_bytes text)).

Definition sanitized_line (profile line : string) : string :=
  from_bytes (encode_text (truncate_chars (chars (str_replace profile "[managed-profile]" line)) 500)).

(** [map_while(Result::ok)] *)
Fixpoint while_text (lines : list (option string)) : list string :=
  match lines with
  | Some line :: lines => line :: while_text lines
  | _ => []
  end.

Definition diagnostics_of (profile : string) (lines : list (option string)) : list string :=
  map (sanitized_line profile) (take 100 (while_text lines)).
End Diagnostics.

(** ** The launch *)

Record BrowserLauncher : Type := {
  la_chrome_binary_path : string;
  la_extension_path : string;
  la_native_host_binary_path : option string;
  la_headless : bool
}.

Record LaunchedBrowser : Type := {
  lb_instance : BrowserInstance;
  lb_profile_dir : string;
  lb_process : option nat;
  lb_cdp_pipe : option CdpPipe;
  lb_startup_diagnostics : list string
}.

Definition launcher_new (chrome_binary_path extension_path : string) : BrowserLauncher := {|
  la_chrome_binary_path := chrome_binary_path; la_extension_path := extension_path;
  la_native_host_binary_path := None; la_headless := false |}.
Definition with_native_host (path : string) (l : BrowserLauncher) : BrowserLauncher := {|
  la_chrome_binary_path := la_chrome_binary_path l; la_extension_path := la_extension_path l;
  la_native_host_binary_path := Some path; la_headless := la_headless l |}.
Definition with_headless (headless : bool) (l : BrowserLauncher) : BrowserLauncher := {|
  la_chrome_binary_path := la_chrome_binary_path l; la_extension_path := la_extension_path l;
  la_native_host_binary_path := la_native_host_binary_path l; la_headless := headless |}.

Section Launcher.
Context `{Environment, ChromeHost, Hashes, JsonCodec}.

(** A call of the system whose error is an I/O error. *)
Definition system_call : Launch unit :=
  e ← asking system_error;
  match e with Some message => fails (GatewayIo message) | None => mret tt end.
Definition write_at (path : string) (bytes : list byte) : Launch unit :=
  system_call;; record_file path bytes.

Definition managed_manifest (native_host_binary : string) : Json :=
  JObject [("name", JString "com.secretctl.native_host");
    ("description", JString "secretctl Chrome Native Messaging Host");
    ("path", JString native_host_binary); ("type", JString "stdio");
    ("allowed_origins", JArray [JString ("chrome-extension://" +:+ MANAGED_EXTENSION_ID +:+ "/")])].
Definition manifest_path (profile_dir : string) : string :=
  path_join (path_join profile_dir "NativeMessagingHosts") "com.secretctl.native_host.json".

Definition managed_profile (custom : option string) (id : BrowserInstanceId) : Launch string :=
  profile_dir ← match custom with
    | Some p => mret p
    | None => system_call;; mret (path_join temp_dir ("secretctl_browser_" +:+ id_str id))
    end;
  system_call;; system_call;; mret profile_dir.

Definition write_manifest (l : BrowserLauncher) (profile_dir : string) : Launch unit :=
  match la_native_host_binary_path l with
  | None => fails (LaunchFailed "Native host binary was not configured")
  | Some binary =>
      r ← asking (fun n => resolve_path n binary);
      native_host_binary ← launch_try (map_err (fun e => LaunchFailed
        ("Native host binary cannot be resolved: " +:+ e)) r);
      system_call;; system_call;;
      write_at (manifest_path profile_dir) (json_pretty (managed_manifest native_host_binary));;
      system_call
  end.

Definition chrome_hash (l : BrowserLauncher) : Launch (list byte) :=
  binary ← asking (fun n => open_binary n (la_chrome_binary_path l));
  match binary with
  | Err e => fails (LaunchFailed ("Chrome binary is unavailable: " +:+ e))
  | Ok (Err e) => fails (GatewayIo e)
  | Ok (Ok bytes) => mret (sha256_digest bytes)
  end.

Definition chrome_command (l : BrowserLauncher) (instance : BrowserInstance) (profile_dir : string) :
    ChromeCommand := {|
  cc_binary := la_chrome_binary_path l;
  cc_environment := [
    ("SECRETCTL_BROWSER_INSTANCE_ID", id_str (bi_instance_id instance));
    ("SECRETCTL_BROWSER_LAUNCH_NONCE", bi_launcher_nonce instance);
    ("SECRETCTL_BROWSER_PROFILE_ID", id_str (bi_instance_id instance))];
  cc_arguments := ["--user-data-dir=" +:+ profile_dir; "--enable-unsafe-extension-debugging";
    "--no-first-run"; "--no-default-browser-check"; "--remote-debugging-pipe";
    "--disable-background-networking"; "--disable-component-update"]
    ++ (if la_headless l then ["--headless=new"] else []) |}.

(** Chrome with its pipes: the child, this end of the pipes, and its lines. *)
Definition spawned (c : ChromeCommand) : Launch (nat * CdpPipe * list (option string)) :=
  system_call;; system_call;;
  mapped ← asking map_descriptors;
  match mapped with Some e => fails (LaunchFailed e) | None => mret tt end;;
  child ← (fun w => (Ok (lw_tick w), w)) : Launch nat;
  r ← asking (fun n => spawn_chrome n c);
  '(pipe, lines) ← launch_try (map_err (fun e => LaunchFailed
    ("Failed to spawn Chrome process: " +:+ e)) r);
  started child c;;
  mret (child, pipe, lines).

Definition json_as_bool (v : Json) : option bool :=
  match v with JBool b => Some b | _ => None end.
Definition has_managed_id (result : Json) : bool :=
  bool_decide (json_get "id" result ≫= json_as_str = Some MANAGED_EXTENSION_ID).
Definition approved (installed : Json) : bool :=
  match json_get "extensions" installed with
  | Some (JArray [extension]) =>
      has_managed_id extension
      && bool_decide (json_get "version" extension ≫= json_as_str = Some "1.0.0")
        && bool_decide (json_get "enabled" extension ≫= json_as_bool = Some true)
  | _ => false
  end.

(** What a child that is killed is reported as. *)
Definition rejected {A : Type} (child : nat) (message : string) : Launch A :=
  stopped child;; fails (LaunchFailed message).

(** The extension is loaded, and found to be the only one. *)
Definition verified_pipe (child : nat) (pipe : CdpPipe) (extension_path : string) : Launch CdpPipe :=
  let '(load_result, pipe) := Gateway.request ∅ "Extensions.loadUnpacked" None
    (JObject [("path", JString extension_path)]) pipe in
  match load_result with
  | Err e => rejected child ("Chrome could not load the managed extension: " +:+ gateway_error_text e)
  | Ok loaded =>
      if negb (has_managed_id loaded)
      then rejected child "Chrome loaded an extension with an unexpected identity"
      else
        let '(installed, pipe) := Gateway.request ∅ "Extensions.getExtensions" None (JObject []) pipe in
        installed ← launch_try installed;
        if negb (approved installed) then rejected child "Managed extension verification failed"
        else mret pipe
  end.

Definition launch (l : BrowserLauncher) (custom_profile_dir : option string) (mock_mode : bool) :
    Launch LaunchedBrowser :=
  uuid ← asking env_uuid;
  let instance_id := id_new KBrowserInstance uuid in
  launcher_nonce ← asking env_uuid;
  profile_dir ← managed_profile custom_profile_dir instance_id;
  (if mock_mode then mret tt else write_manifest l profile_dir);;
  binary_hash ← (if mock_mode then mret None else hash ← chrome_hash l; mret (Some hash));
  created_at ← asking env_now;
  let instance := {| bi_instance_id := instance_id; bi_launcher_nonce := launcher_nonce;
    bi_binary_hash := binary_hash; bi_extension_key_id := MANAGED_EXTENSION_ID;
    bi_private_cdp_endpoint := "pipe:0"; bi_created_at := created_at |} in
  if mock_mode then
    mret {| lb_instance := instance; lb_profile_dir := profile_dir; lb_process := None;
            lb_cdp_pipe := None; lb_startup_diagnostics := [] |}
  else
    packaged ← asking (fun n => is_file n (path_join (la_extension_path l) "manifest.json"));
    (if packaged : bool then mret tt
     else fails (LaunchFailed "Packaged extension directory is missing manifest.json"));;
    r ← asking (fun n => resolve_path n (la_extension_path l));
    extension_path ← launch_try (map_err (fun e => LaunchFailed
      ("Extension path cannot be resolved: " +:+ e)) r);
    '(child, pipe, lines) ← spawned (chrome_command l instance profile_dir);
    pipe ← verified_pipe child pipe extension_path;
    mret {| lb_instance := instance; lb_profile_dir := profile_dir; lb_process := Some child;
            lb_cdp_pipe := Some pipe; lb_startup_diagnostics := diagnostics_of profile_dir lines |}.

(** [shutdown]: the browser afterwards is given with the outcome. *)
Definition without_process (b : LaunchedBrowser) : LaunchedBrowser := {|
  lb_instance := lb_instance b; lb_profile_dir := lb_profile_dir b; lb_process := None;
  lb_cdp_pipe := lb_cdp_pipe b; lb_startup_diagnostics := lb_startup_diagnostics b |}.
Definition without_pipe (b : LaunchedBrowser) : LaunchedBrowser := {|
  lb_instance := lb_instance b; lb_profile_dir := lb_profile_dir b; lb_process := lb_process b;
  lb_cdp_pipe := None; lb_startup_diagnostics := lb_startup_diagnostics b |}.

Definition shutdown (b : LaunchedBrowser) : Launch (option string * LaunchedBrowser) :=
  match lb_process b with
  | Some child =>
      killed ← asking kill_error;
      match killed with
      | Some e => mret (Some e, without_process b)
      | None => stopped child;; mret (None, without_pipe (without_process b))
      end
  | None => mret (None, without_pipe b)
  end.

(** [Drop]: what is left of the browser is let go. *)
Definition drop_browser (b : LaunchedBrowser) : Launch unit := shutdown b;; mret tt.

Definition find_default_chrome_binary (platform : HostPlatform) : Launch string :=
  let installed := "/Applications/Google Chrome.app/Contents/MacOS/Google Chrome" in
  match platform with
  | Macos =>
      present ← asking (fun n => path_exists n installed);
      mret (if present : bool then installed else "google-chrome")
  | Linux =>
      chrome ← asking (fun n => which n "google-chrome");
      match chrome with
      | Some path => mret path
      | None => chromium ← asking (fun n => which n "chromium");
                mret (default "google-chrome" chromium)
      end
  | Windows => mret "google-chrome"
  end.

(** ** The broker's browsers

    The launcher as the broker calls it, over the world each launch finds. *)
Definition launcher_for (params : BrowserLaunchParams) : BrowserLauncher :=
  with_headless (bl_headless params)
    (with_native_host (bl_native_host_binary params)
       (launcher_new (bl_chrome_binary params) (bl_extension_path params))).

Definition launched_chrome (found : nat -> LaunchWorld) : ManagedChrome := {|
  Launched := LaunchedBrowser * LaunchWorld;
  launch_chrome n params :=
    match launch (launcher_for params) (bl_profile_dir params) false (found n) with
    | (Ok b, w) => Some (b, w)
    | (Err _, _) => None
    end;
  launched_instance_id b := bi_instance_id (lb_instance b.1);
  launched_cdp_pipe b := lb_cdp_pipe b.1;
  shutdown_chrome b :=
    match shutdown b.1 b.2 with (Ok (None, _), _) => true | _ => false end;
  startup_diagnostics n b := lb_startup_diagnostics b.1
|}.
End Launcher.

(** ** The gateway ([gateway.rs]) *)

Record BrowserGateway : Type := {
  bg_session_id : BrowserSessionId;
  bg_filter : CdpFilter;
  bg_listening_addr : string
}.
Definition gateway_new (session_id : BrowserSessionId) (listening_addr : string) : BrowserGateway := {|
  bg_session_id := session_id; bg_filter := ∅; bg_listening_addr := listening_addr |}.
Definition process_cdp_command (g : BrowserGateway) (method : string) (tab_id : option Z) :
    result GatewayError unit := validate_cdp_command (bg_filter g) method tab_id.
Definition process_cdp_response (method : string) (payload : Json) : Json :=
  sanitize_cdp_response method payload.
