(* ===== verification/LauncherProps.v ===== *)
(** * LauncherProps: a managed Chrome runs the managed extension alone

    What a launch leaves running, and what it has checked by then. *)

From S2P Require Import Prelude.
From S2P Require Import Externals.
From S2P Require Import Domain.
From S2P Require Import Crypto.
From S2P Require Import Gateway.
From S2P Require Import Protocol.
From S2P Require Import BrokerState.
From S2P Require Import Launcher.

(** ** Reasoning about launches *)

Definition leaves {A : Type} (E : GatewayError -> LaunchWorld -> Prop)
    (Q : A -> LaunchWorld -> Prop) (r : result GatewayError A * LaunchWorld) : Prop :=
  match r with (Ok a, w) => Q a w | (Err e, w) => E e w end.

Lemma leaves_bind {A B : Type} E (Q : B -> LaunchWorld -> Prop) (m : Launch A) (f : A -> Launch B) w :
  leaves E (fun a w' => leaves E Q (f a w')) (m w) -> leaves E Q ((m ≫= f) w).
Proof. unfold mbind, launch_bind, leaves. by destruct (m w) as [[] w']. Qed.

Lemma leaves_weaken {A : Type} (E E' : GatewayError -> LaunchWorld -> Prop)
    (Q Q' : A -> LaunchWorld -> Prop) r :
  (forall e w, E e w -> E' e w) -> (forall a w, Q a w -> Q' a w) -> leaves E Q r -> leaves E' Q' r.
Proof. intros HE HQ. destruct r as [[] w']; cbn; auto. Qed.

Lemma leaves_try {A : Type} E (Q : A -> LaunchWorld -> Prop) r w :
  (forall a, r = Ok a -> Q a w) -> (forall e, r = Err e -> E e w) -> leaves E Q (launch_try r w).
Proof. destruct r; cbn; auto. Qed.

(** [quiet w w']: the same children, no earlier. *)
Record quiet (w w' : LaunchWorld) : Prop := {
  quiet_children : lw_children w' = lw_children w;
  quiet_tick : (lw_tick w <= lw_tick w')%nat;
  quiet_files : lw_files w' = lw_files w
}.
#[global] Instance quiet_preorder : PreOrder quiet.
Proof.
  split; [by constructor|]. intros x y z [] []. constructor; [congruence|lia|congruence].
Qed.

Lemma leaves_asking {A : Type} E (Q : A -> LaunchWorld -> Prop) f w :
  (forall n w', quiet w w' -> (lw_tick w < lw_tick w')%nat -> Q (f n) w') ->
  leaves E Q (asking f w).
Proof. intros HQ. apply HQ; [|cbn; lia]. constructor; cbn; [done|lia|done]. Qed.

Lemma launch_map_err_Ok {A E E' : Type} (f : E -> E') (r : result E A) a :
  map_err f r = Ok a -> r = Ok a.
Proof. by destruct r; intros [= <-]. Qed.

Ltac launch_step :=
  cbv beta;
  lazymatch goal with
  | |- leaves _ _ ((_ ≫= _) _) => apply leaves_bind
  | |- leaves _ _ (mret _ _) => cbn [leaves mret launch_ret]
  | |- leaves _ _ (fails _ _) => cbn [leaves fails]
  | |- leaves _ _ (launch_try _ _) => apply leaves_try
  | |- leaves _ _ (asking _ _) => apply leaves_asking
  end.

Section Launched.
Context `{Environment, ChromeHost, Hashes, JsonCodec}.

(** The failures before Chrome is there. *)
Definition same_children (w : LaunchWorld) (e : GatewayError) (w' : LaunchWorld) : Prop :=
  lw_children w' = lw_children w.

Lemma system_call_leaves w0 (Q : unit -> LaunchWorld -> Prop) w :
  lw_children w = lw_children w0 -> (forall w', quiet w w' -> Q tt w') ->
  leaves (same_children w0) Q (system_call w).
Proof.
  intros Hw HQ. unfold system_call. launch_step. launch_step. intros n w' Hw' _.
  destruct (system_error n); launch_step; [|by apply HQ].
  unfold same_children. by rewrite (quiet_children _ _ Hw').
Qed.

Lemma managed_profile_leaves w0 (Q : string -> LaunchWorld -> Prop) custom id w :
  lw_children w = lw_children w0 ->
  (forall p w', quiet w w' -> (forall q, custom = Some q -> p = q) -> Q p w') ->
  leaves (same_children w0) Q (managed_profile custom id w).
Proof.
  intros Hw HQ. unfold managed_profile. launch_step.
  enough (forall p w', quiet w w' -> (forall q, custom = Some q -> p = q) ->
    leaves (same_children w0) Q ((system_call;; system_call;; mret p : Launch string) w')) as Hrest.
  { destruct custom as [p|]; [apply Hrest; [done|by intros q [= ->]]|].
    launch_step. apply system_call_leaves; [done|].
    intros w1 Hw1. launch_step. by apply Hrest. }
  intros p w1 Hw1 Hp. launch_step. apply system_call_leaves; [by rewrite (quiet_children _ _ Hw1)|].
  intros w2 Hw2. launch_step. apply system_call_leaves.
  { by rewrite (quiet_children _ _ Hw2), (quiet_children _ _ Hw1). }
  intros w3 Hw3. launch_step. apply HQ; [|done]. etransitivity; [done|]. by etransitivity.
Qed.

(** A native messaging manifest that starts that program, and lets one extension
    talk to it. *)
Record admits_only (extension : string) (host : string) (manifest : Json) : Prop := {
  ao_name : json_get "name" manifest = Some (JString "com.secretctl.native_host");
  ao_path : json_get "path" manifest = Some (JString host);
  ao_type : json_get "type" manifest = Some (JString "stdio");
  ao_origins : json_get "allowed_origins" manifest
    = Some (JArray [JString ("chrome-extension://" +:+ extension +:+ "/")])
}.

(** The manifest that is written names the resolved native host, and admits the
    managed extension alone. *)
Definition manifest_written (l : BrowserLauncher) (profile_dir : string) (w : LaunchWorld) : Prop :=
  exists n configured host manifest, la_native_host_binary_path l = Some configured /\
    resolve_path n configured = Ok host /\ admits_only MANAGED_EXTENSION_ID host manifest /\
    lw_files w !! manifest_path profile_dir = Some (json_pretty manifest).

Lemma write_manifest_leaves w0 (Q : unit -> LaunchWorld -> Prop) l profile_dir w :
  lw_children w = lw_children w0 ->
  (forall w', lw_children w' = lw_children w -> (lw_tick w <= lw_tick w')%nat ->
     manifest_written l profile_dir w' -> Q tt w') ->
  leaves (same_children w0) Q (write_manifest l profile_dir w).
Proof.
  intros Hw HQ. unfold write_manifest. destruct (la_native_host_binary_path l) as [p|] eqn:Hp;
    [|launch_step; done].
  launch_step. launch_step. intros n w1 Hw1 _. launch_step. launch_step.
  2: { intros e _. unfold same_children. by rewrite (quiet_children _ _ Hw1). }
  intros host Hhost%launch_map_err_Ok.
  assert (Hq : forall w', quiet w1 w' -> lw_children w' = lw_children w0).
  { intros w' Hw'. by rewrite (quiet_children _ _ Hw'), (quiet_children _ _ Hw1). }
  launch_step. apply system_call_leaves; [by apply Hq|]. intros w2 Hw2.
  launch_step. apply system_call_leaves; [by apply Hq|]. intros w3 Hw3.
  pose proof (transitivity Hw2 Hw3) as Hw13.
  launch_step. unfold write_at. launch_step. apply system_call_leaves; [by apply Hq|]. intros w4 Hw4.
  pose proof (transitivity Hw13 Hw4) as Hw14.
  set (w5 := snd (record_file (manifest_path profile_dir) (json_pretty (managed_manifest host)) w4)).
  change (leaves (same_children w0) Q (system_call w5)).
  assert (Hc : lw_children w5 = lw_children w0) by exact (Hq w4 Hw14).
  apply system_call_leaves; [done|]. intros w6 Hw6. apply HQ.
  - rewrite (quiet_children _ _ Hw6), Hc. done.
  - pose proof (quiet_tick _ _ Hw6). pose proof (quiet_tick _ _ Hw1). pose proof (quiet_tick _ _ Hw14).
    cbn in *. lia.
  - exists n, p, host, (managed_manifest host). split_and!; [done|done|by constructor|]. rewrite (quiet_files _ _ Hw6). apply lookup_insert_eq.
Qed.

Definition hash_of_chrome (l : BrowserLauncher) (hash : list byte) : Prop := exists n bytes,
  open_binary n (la_chrome_binary_path l) = Ok (Ok bytes) /\ hash = sha256_digest bytes.

Lemma chrome_hash_leaves w0 (Q : list byte -> LaunchWorld -> Prop) l w :
  lw_children w = lw_children w0 ->
  (forall hash w', quiet w w' -> hash_of_chrome l hash -> Q hash w') ->
  leaves (same_children w0) Q (chrome_hash l w).
Proof.
  intros Hw HQ. unfold chrome_hash. launch_step. launch_step. intros n w1 Hw1 _.
  assert (lw_children w1 = lw_children w0) by by rewrite (quiet_children _ _ Hw1).
  destruct (open_binary n _) as [[bytes|e]|e] eqn:E; launch_step; [|done|done].
  apply HQ; [done|]. by exists n, bytes.
Qed.

Lemma spawned_leaves w0 (Q : nat * CdpPipe * list (option string) -> LaunchWorld -> Prop) c w :
  lw_children w = lw_children w0 ->
  (forall child pipe lines n w', spawn_chrome n c = Ok (pipe, lines) -> (lw_tick w <= child)%nat ->
     lw_children w' = <[child := c]> (lw_children w0) -> lw_files w' = lw_files w ->
     Q (child, pipe, lines) w') ->
  leaves (same_children w0) Q (spawned c w).
Proof.
  intros Hw HQ. unfold spawned.
  launch_step. apply system_call_leaves; [done|]. intros w1 Hw1.
  launch_step. apply system_call_leaves; [by rewrite (quiet_children _ _ Hw1)|]. intros w2 Hw2.
  launch_step. launch_step. intros n w3 Hw3 _.
  pose proof (transitivity (transitivity Hw1 Hw2) Hw3) as Hq.
  assert (Hc : lw_children w3 = lw_children w0) by (by rewrite (quiet_children _ _ Hq)).
  launch_step. destruct (map_descriptors n); launch_step; [done|].
  launch_step. cbn [leaves]. launch_step. launch_step. intros n' w4 Hw4 _.
  launch_step. launch_step.
  2: { intros e _. unfold same_children. by rewrite (quiet_children _ _ Hw4). }
  intros [pipe lines] Hs%launch_map_err_Ok. launch_step. unfold started. cbn [leaves]. launch_step.
  eapply HQ; [exact Hs|apply (quiet_tick _ _ Hq)| |].
  - cbn. by rewrite (quiet_children _ _ Hw4), Hc.
  - cbn. by rewrite (quiet_files _ _ Hw4), (quiet_files _ _ Hq).
Qed.

(** An answer about one extension that bears an identity, and a list of extensions
    with one entry: that one, in the packaged version and enabled. *)
Definition identified (id : string) (answer : Json) : Prop :=
  json_get "id" answer = Some (JString id).
Definition lists_only (id : string) (answer : Json) : Prop :=
  exists extension, json_get "extensions" answer = Some (JArray [extension]) /\
    identified id extension /\ json_get "version" extension = Some (JString "1.0.0") /\
    json_get "enabled" extension = Some (JBool true).

Lemma text_entry key v s : json_get key v ≫= json_as_str = Some s <-> json_get key v = Some (JString s).
Proof. destruct (json_get key v) as [[]|]; cbn; split; congruence. Qed.
Lemma bool_entry key v b : json_get key v ≫= json_as_bool = Some b <-> json_get key v = Some (JBool b).
Proof. destruct (json_get key v) as [[]|]; cbn; split; congruence. Qed.

(** The checks of the launch decide these. *)
Lemma has_managed_id_spec answer :
  has_managed_id answer = true <-> identified MANAGED_EXTENSION_ID answer.
Proof. unfold has_managed_id. rewrite bool_decide_eq_true. apply text_entry. Qed.
Lemma approved_spec answer : approved answer = true <-> lists_only MANAGED_EXTENSION_ID answer.
Proof.
  unfold approved, lists_only. split.
  - destruct (json_get "extensions" answer) as [[| | | | |[|e [|]]|]|]; try done.
    intros [[Hi Hv]%andb_true_iff He]%andb_true_iff. exists e.
    rewrite <-has_managed_id_spec, <-text_entry, <-bool_entry. by bool_to_prop.
  - intros (e & -> & Hi & Hv & He).
    rewrite (proj2 (has_managed_id_spec _) Hi), !bool_decide_true; [done| |].
    + by apply bool_entry.
    + by apply text_entry.
Qed.

(** Chrome, over its pipe, loaded the managed extension and has no other. *)
Definition admitted (extension_path : string) (pipe pipe' : CdpPipe) : Prop :=
  exists loaded pipe1 installed,
    Gateway.request ∅ "Extensions.loadUnpacked" None (JObject [("path", JString extension_path)]) pipe
    = (Ok loaded, pipe1) /\ identified MANAGED_EXTENSION_ID loaded /\
    Gateway.request ∅ "Extensions.getExtensions" None (JObject []) pipe1 = (Ok installed, pipe') /\
    lists_only MANAGED_EXTENSION_ID installed.

(** The list of the extensions could not be read. *)
Definition unlisted (extension_path : string) (pipe : CdpPipe) (e : GatewayError) : Prop :=
  exists loaded pipe1,
    Gateway.request ∅ "Extensions.loadUnpacked" None (JObject [("path", JString extension_path)]) pipe
    = (Ok loaded, pipe1) /\ identified MANAGED_EXTENSION_ID loaded /\
    fst (Gateway.request ∅ "Extensions.getExtensions" None (JObject []) pipe1) = Err e.

Lemma verified_pipe_leaves w0 child c pipe path w :
  lw_children w0 !! child = None -> lw_children w = <[child := c]> (lw_children w0) ->
  leaves (fun e w' => same_children w0 e w' \/ w' = w /\ unlisted path pipe e)
    (fun pipe' w' => w' = w /\ admitted path pipe pipe') (verified_pipe child pipe path w).
Proof.
  intros Hfresh Hw. unfold verified_pipe, rejected.
  assert (Hs : lw_children (snd (stopped child w)) = lw_children w0).
  { cbn. rewrite Hw. apply delete_insert_id, Hfresh. }
  destruct (Gateway.request ∅ "Extensions.loadUnpacked" _ _ _) as [[loaded|e] pipe1] eqn:El.
  2: { launch_step. cbn [leaves stopped fails]. by left. }
  destruct (has_managed_id loaded) eqn:Hid; cbn [negb]; [apply has_managed_id_spec in Hid|].
  2: { launch_step. cbn [leaves stopped fails]. by left. }
  destruct (Gateway.request ∅ "Extensions.getExtensions" _ _ _) as [[installed|e] pipe2] eqn:Eg.
  2: { launch_step. cbn [leaves launch_try]. right. split; [done|].
       exists loaded, pipe1. by rewrite Eg. }
  launch_step. cbn [leaves launch_try]. destruct (approved installed) eqn:Ha; cbn [negb].
  2: { launch_step. cbn [leaves stopped fails]. by left. }
  apply approved_spec in Ha. launch_step. split; [done|]. by exists loaded, pipe1, installed.
Qed.

(** A Chrome that was spawned for a launch of [l]. *)
Record chrome_of (l : BrowserLauncher) (custom : option string) (i : BrowserInstance)
    (profile_dir extension_path : string) (pipe : CdpPipe) : Prop := {
  co_profile p : custom = Some p -> profile_dir = p;
  co_hash : exists hash, bi_binary_hash i = Some hash /\ hash_of_chrome l hash;
  co_extension : bi_extension_key_id i = MANAGED_EXTENSION_ID;
  co_path : exists n, resolve_path n (la_extension_path l) = Ok extension_path;
  co_packaged : exists n, is_file n (path_join (la_extension_path l) "manifest.json") = true;
  co_spawned : exists n lines, spawn_chrome n (chrome_command l i profile_dir) = Ok (pipe, lines)
}.

Definition launch_outcome (l : BrowserLauncher) (custom : option string) (w : LaunchWorld)
    (r : result GatewayError LaunchedBrowser * LaunchWorld) : Prop :=
  match r with
  | (Ok b, w') => exists child extension_path pipe pipe',
      chrome_of l custom (lb_instance b) (lb_profile_dir b) extension_path pipe /\
      admitted extension_path pipe pipe' /\ lb_cdp_pipe b = Some pipe' /\
      manifest_written l (lb_profile_dir b) w' /\
      lb_process b = Some child /\ lw_children w !! child = None /\
      lw_children w' = <[child := chrome_command l (lb_instance b) (lb_profile_dir b)]> (lw_children w)
  | (Err e, w') =>
      lw_children w' = lw_children w \/
      exists child i profile_dir extension_path pipe,
        chrome_of l custom i profile_dir extension_path pipe /\ unlisted extension_path pipe e /\
        lw_children w !! child = None /\
        lw_children w' = <[child := chrome_command l i profile_dir]> (lw_children w)
  end.

Definition ticks_ahead (w : LaunchWorld) : Prop :=
  forall child, is_Some (lw_children w !! child) -> (child < lw_tick w)%nat.

Lemma leaves_same {A : Type} E (Q : A -> LaunchWorld -> Prop) w0 r :
  (forall e w', lw_children w' = lw_children w0 -> E e w') -> leaves (same_children w0) Q r ->
  leaves E Q r.
Proof. intros HE. by apply leaves_weaken. Qed.

Lemma launch_leaves l custom w :
  ticks_ahead w -> launch_outcome l custom w (launch l custom false w).
Proof.
  intros Hfresh.
  enough (leaves (fun e w' => launch_outcome l custom w (Err e, w'))
            (fun b w' => launch_outcome l custom w (Ok b, w')) (launch l custom false w)) as Ho.
  { by destruct (launch l custom false w) as [[] w']. }
  unfold launch. launch_step. launch_step. intros n1 w1 Hw1 _. cbv zeta.
  launch_step. launch_step. intros n2 w2 Hw2 _.
  pose proof (transitivity Hw1 Hw2) as Hq.
  launch_step. apply (leaves_same _ _ w); [by left|].
  apply managed_profile_leaves; [by apply Hq|]. intros profile_dir w3 Hw3 Hprofile.
  assert (Hc3 : lw_children w3 = lw_children w)
    by (rewrite (quiet_children _ _ Hw3); apply Hq).
  pose proof (quiet_tick _ _ Hw3) as Ht3. pose proof (quiet_tick _ _ Hq) as Ht.
  launch_step. apply (leaves_same _ _ w); [by left|]. apply write_manifest_leaves; [done|].
  intros w4 Hc4 Ht4 Hm. cbv beta. rewrite Hc3 in Hc4.
  launch_step. launch_step. apply (leaves_same _ _ w); [by left|].
  apply chrome_hash_leaves; [done|]. intros hash w5 Hw5 Hh. launch_step.
  launch_step. launch_step. intros n6 w6 Hw6 _. launch_step. launch_step. intros n7 w7 Hw7 _.
  pose proof (transitivity (transitivity Hw5 Hw6) Hw7) as Hq7.
  assert (Hc7 : lw_children w7 = lw_children w) by by rewrite (quiet_children _ _ Hq7).
  launch_step. destruct (is_file n7 _) eqn:Hfile; launch_step; [|by left].
  launch_step. launch_step. intros n8 w8 Hw8 _. pose proof (transitivity Hq7 Hw8) as Hq8.
  assert (Hc8 : lw_children w8 = lw_children w) by by rewrite (quiet_children _ _ Hq8).
  launch_step. launch_step; [|by left]. intros path Hpath%launch_map_err_Ok.
  launch_step. apply (leaves_same _ _ w); [by left|]. apply spawned_leaves; [done|].
  intros child pipe lines n9 w9 Hspawn Hchild Hc9 Hf9.
  assert (Hnew : lw_children w !! child = None).
  { apply eq_None_not_Some. intros Hsome%Hfresh. pose proof (quiet_tick _ _ Hq8). lia. }
  set (i := {| bi_instance_id := _ |}) in *.
  assert (Hof : chrome_of l custom i profile_dir path pipe).
  { constructor; [by intros q Hq'; apply Hprofile|by exists hash|done|by eexists|by eexists|by eexists n9, lines]. }
  launch_step.
  refine (leaves_weaken _ _ _ _ _ _ _ (verified_pipe_leaves w child _ pipe path w9 Hnew Hc9)).
  - intros e w' [Hs|[-> Hu]]; [by left|right]. by exists child, i, profile_dir, path, pipe.
  - intros pipe' w' [-> Ha]. launch_step.
    exists child, path, pipe, pipe'. cbn [lb_instance lb_profile_dir lb_cdp_pipe lb_process].
    split_and!; try done. destruct Hm as (n & c & h & v & ? & ? & ? & Hf). exists n, c, h, v.
    split_and!; [done..|]. by rewrite Hf9, (quiet_files _ _ Hq8).
Qed.

(** Stopping a browser stops its child. *)
Lemma shutdown_stops b child w :
  lb_process b = Some child ->
  match shutdown b w with
  | (Ok (None, b'), w') => lw_children w' = delete child (lw_children w) /\
      lb_process b' = None /\ lb_cdp_pipe b' = None
  | (Ok (Some _, b'), w') => lw_children w' = lw_children w /\ lb_process b' = None /\
      lb_cdp_pipe b' = lb_cdp_pipe b
  | (Err _, _) => False
  end.
Proof.
  intros Hp. unfold shutdown. rewrite Hp. unfold mbind, launch_bind, asking.
  by destruct (kill_error _).
Qed.

(** C38: a launch that succeeds leaves one more process running, the Chrome of that
    launch: a binary whose digest was recorded, with a profile whose native
    messaging manifest admits the managed extension alone, that has loaded the
    packaged extension under the managed identity and has no other extension; its
    shutdown, when the process can be killed, leaves the processes as they were.
    A launch that fails leaves the processes as they were, except when the list of
    the extensions could not be read: the unverified Chrome is then left running. *)
Theorem launch_admits_the_managed_extension l custom w :
  ticks_ahead w ->
  launch_outcome l custom w (launch l custom false w) /\
  match launch l custom false w with
  | (Ok b, w') =>
      match shutdown b w' with
      | (Ok (None, b'), w'') => lw_children w'' = lw_children w /\ lb_cdp_pipe b' = None
      | (Ok (Some _, b'), w'') => lw_children w'' = lw_children w' /\ lb_process b' = None
      | (Err _, _) => False
      end
  | (Err _, _) => True
  end.
Proof.
  intros Hfresh. pose proof (launch_leaves l custom w Hfresh) as Ho. split; [done|].
  destruct (launch l custom false w) as [[b|e] w']; [|done].
  destruct Ho as (child & path & pipe & pipe' & _ & _ & _ & _ & Hp & Hnew & Hc).
  pose proof (shutdown_stops b child w' Hp) as Hs.
  destruct (shutdown b w') as [[[[|] b']|] w'']; [naive_solver| |done].
  destruct Hs as (Hd & _ & Hn). split; [|done]. rewrite Hd, Hc. by apply delete_insert_id.
Qed.
End Launched.
