(* ===== verification/Desktop.v ===== *)
(** * Desktop: the desktop application

    Models [desktop/src-tauri/src] beside its connection ([AdminClient.v]): the
    windows and the icon ([windows.rs], [tray.rs]), the settings
    ([settings.rs]), the presence of the user ([presence.rs]), the commands of
    the frontend ([commands.rs]), the background loop ([watcher.rs]) and how they
    are put together ([lib.rs]).

    The broker and the rest of the machine are the [AdminPeer] of the connection;
    the windows belong to the window system, an interface with its laws in
    [DesktopProps.v]. The loop and the commands run concurrently and meet at the
    lock of the connection: they are operations on one state, the loop in two
    halves, one for each of its calls. *)

From Stdlib Require Import SpecFloat.
From S2P Require Import Prelude.
From S2P Require Import Externals.
From S2P Require Import Domain.
From S2P Require Import Crypto.
From S2P Require Import DomView.
From S2P Require Import OAuth.
From S2P Require Import Protocol.
From S2P Require Import Framing.
From S2P Require Import BrokerState.
From S2P Require Import Admin.
From S2P Require Import Ui.
From S2P Require Import Wire.
From S2P Require Import Server.
From S2P Require Import Installation.
From S2P Require Import Startup.
From S2P Require Import Cli.
From S2P Require Import AdminClient.
From S2P Require Import CliAdmin.

(** ** The surroundings *)

(** A window: the route it was loaded with, or was sent to, and whether it is
    shown. *)
Record Window : Type := { win_route : string; win_visible : bool }.

Definition f64 : Type := spec_float.

(** [close_window] asks the handler of the application first, which may prevent
    it ([api.prevent_close]) and do something else. *)
Class WindowSystem (S : Type) := {
  window_at : string -> S -> option Window;
  build_window : string -> Window -> S -> result string unit * S;
  show_window : string -> S -> result string unit * S;
  hide_window : string -> S -> result string unit * S;
  focus_window : string -> S -> result string unit * S;
  size_window : string -> S -> result string unit * S;
  scale_factor : string -> S -> result string f64;
  place_window : string -> f64 -> f64 -> S -> result string unit * S;
  send_window : string -> string -> S -> result string unit * S;
  close_window : (string -> S -> bool * S) -> string -> S -> result string unit * S
}.

Inductive PresenceOutcome : Type :=
| PresenceUnavailable
| PresenceReplied (confirmed : bool)
| PresenceTimedOut
| PresenceLost.

(** What the system answers when it is asked to confirm the presence of the user
    for the n-th time. *)
Class LocalAuthentication := { presence_outcome : nat -> PresenceOutcome }.

(** ** The settings ([settings.rs]) *)

Module NotificationDetail.
Inductive t : Type := Minimal | Detailed | Disabled.
#[global] Instance t_eq_dec : EqDecision t.
Proof. solve_decision. Defined.
End NotificationDetail.

Record Settings : Type := {
  notification_detail : NotificationDetail.t;
  confirm_completion : bool
}.
Definition default_settings : Settings := {|
  notification_detail := NotificationDetail.Minimal; confirm_completion := true |}.

(** The derived serialisation of the settings. *)
Class SettingsFile := {
  settings_from_slice : list byte -> option Settings;
  settings_to_vec_pretty : Settings -> list byte
}.

(** Why a file cannot be written, if it cannot. *)
Class WritableFiles := {
  write_error : string -> gmap string (list byte) -> option string
}.

Definition SETTINGS_JSON : string := "desktop-settings.json".
Definition ONBOARDED : string := "desktop-onboarded".

(** ** The state *)

Inductive Emitted : Type :=
| EmitStatus (status : UiStatus)
| EmitPending (pending : list UiAuthorizationRequest).

(** What the loop remembers. *)
Record Watcher : Type := {
  announced : gset string;
  previous_state : option UiProtectionState.t;
  confirmed_completion : bool
}.

(** [app_tray] is the state whose glyph and words the icon shows,
    [app_notified] and [app_emitted] what was posted and emitted so far, and
    [app_prompts] how often the system was asked for the presence of the user. *)
Record App {W S : Type} : Type := {
  app_peer : W;
  app_session : option AdminSession;
  app_windows : S;
  app_tray : option UiProtectionState.t;
  app_notified : list (string * string);
  app_emitted : list Emitted;
  app_files : gmap string (list byte);
  app_prompts : nat;
  app_watcher : Watcher
}.
Arguments App : clear implicits.

Section State.
Context {W S : Type}.
Implicit Type app : App W S.

Definition with_connection app (guard : option AdminSession) (w : W) : App W S := {|
  app_peer := w; app_session := guard; app_windows := app_windows app; app_tray := app_tray app;
  app_notified := app_notified app; app_emitted := app_emitted app; app_files := app_files app;
  app_prompts := app_prompts app; app_watcher := app_watcher app |}.
Definition with_windows app (s : S) : App W S := {|
  app_peer := app_peer app; app_session := app_session app; app_windows := s;
  app_tray := app_tray app; app_notified := app_notified app; app_emitted := app_emitted app;
  app_files := app_files app; app_prompts := app_prompts app; app_watcher := app_watcher app |}.
Definition with_tray app (tray : option UiProtectionState.t) : App W S := {|
  app_peer := app_peer app; app_session := app_session app; app_windows := app_windows app;
  app_tray := tray; app_notified := app_notified app; app_emitted := app_emitted app;
  app_files := app_files app; app_prompts := app_prompts app; app_watcher := app_watcher app |}.
Definition notify (title body : string) app : App W S := {|
  app_peer := app_peer app; app_session := app_session app; app_windows := app_windows app;
  app_tray := app_tray app; app_notified := app_notified app ++ [(title, body)];
  app_emitted := app_emitted app; app_files := app_files app; app_prompts := app_prompts app;
  app_watcher := app_watcher app |}.
Definition emit (e : Emitted) app : App W S := {|
  app_peer := app_peer app; app_session := app_session app; app_windows := app_windows app;
  app_tray := app_tray app; app_notified := app_notified app;
  app_emitted := app_emitted app ++ [e]; app_files := app_files app;
  app_prompts := app_prompts app; app_watcher := app_watcher app |}.
Definition with_app_file app (path : string) (bytes : list byte) : App W S := {|
  app_peer := app_peer app; app_session := app_session app; app_windows := app_windows app;
  app_tray := app_tray app; app_notified := app_notified app; app_emitted := app_emitted app;
  app_files := <[path := bytes]> (app_files app); app_prompts := app_prompts app;
  app_watcher := app_watcher app |}.
Definition prompted app : App W S := {|
  app_peer := app_peer app; app_session := app_session app; app_windows := app_windows app;
  app_tray := app_tray app; app_notified := app_notified app; app_emitted := app_emitted app;
  app_files := app_files app; app_prompts := Datatypes.S (app_prompts app);
  app_watcher := app_watcher app |}.
Definition with_watcher app (watcher : Watcher) : App W S := {|
  app_peer := app_peer app; app_session := app_session app; app_windows := app_windows app;
  app_tray := app_tray app; app_notified := app_notified app; app_emitted := app_emitted app;
  app_files := app_files app; app_prompts := app_prompts app; app_watcher := watcher |}.
End State.

Definition set_announced (w : Watcher) (ids : gset string) : Watcher := {|
  announced := ids; previous_state := previous_state w;
  confirmed_completion := confirmed_completion w |}.
Definition set_previous (w : Watcher) (state : UiProtectionState.t) : Watcher := {|
  announced := announced w; previous_state := Some state;
  confirmed_completion := confirmed_completion w |}.
Definition set_confirmed (w : Watcher) (confirmed : bool) : Watcher := {|
  announced := announced w; previous_state := previous_state w;
  confirmed_completion := confirmed |}.

(** [CommandError] of [commands.rs], and what a failure of the connection or of a
    window becomes. *)
Record CommandError : Type := {
  ce_message : string;
  ce_code : option Z;
  ce_disconnected : bool
}.
Definition plain_error (message : string) : CommandError := {|
  ce_message := message; ce_code := None; ce_disconnected := false |}.
Definition from_anyhow (e : ClientError) : CommandError :=
  match e with
  | BrokerRefusal code message => {|
      ce_message := message; ce_code := Some code; ce_disconnected := false |}
  | ClientFailure message => {|
      ce_message := message; ce_code := None; ce_disconnected := true |}
  end.

(** A command, and an operation on the windows. *)
Definition UiTask (W S E A : Type) : Type := App W S -> result E A * App W S.

Section Monad.
Context {W S E : Type}.
#[global] Instance ui_ret : MRet (UiTask W S E) := fun A a app => (Ok a, app).
#[global] Instance ui_bind : MBind (UiTask W S E) := fun A B f m app =>
  match m app with (Ok a, app) => f a app | (Err e, app) => (Err e, app) end.

Definition ui_try {A : Type} (r : result E A) : UiTask W S E A := fun app => (r, app).
Definition ui_ensure (condition : bool) (e : E) : UiTask W S E unit :=
  if condition then mret tt else ui_try (Err e).
Definition ui_asks {A : Type} (f : App W S -> A) : UiTask W S E A := fun app => (Ok (f app), app).
(** [let _ = ..] *)
Definition ignoring {A E' : Type} (m : UiTask W S E' A) : UiTask W S E unit :=
  fun app => (Ok tt, snd (m app)).
Definition ui_map_err {A E' : Type} (f : E' -> E) (m : UiTask W S E' A) : UiTask W S E A :=
  fun app => let '(r, app) := m app in (map_err f r, app).
End Monad.

(** ** The windows ([windows.rs]) *)

Definition POPOVER : string := "popover".
Definition APPROVAL : string := "approval".
Definition MANAGE : string := "manage".
Definition ONBOARDING : string := "onboarding".
Definition SECTIONS : list string := [
  "activity"; "agents"; "grants"; "credentials"; "browsers"; "settings"; "diagnostics"].

Definition route (path : string) : string := "index.html#" +:+ path.
Definition visible_at (path : string) : Window := {|
  win_route := route path; win_visible := true |}.

(** Binary64 arithmetic. *)
Definition f64_of_int (n : Z) : f64 := binary_normalize 53 1024 n 0 false.
Definition f64_add : f64 -> f64 -> f64 := SFadd 53 1024.
Definition f64_sub : f64 -> f64 -> f64 := SFsub 53 1024.
Definition f64_div : f64 -> f64 -> f64 := SFdiv 53 1024.
Definition f64_max (a b : f64) : f64 :=
  match a with
  | S754_nan => b
  | _ => if SFltb a b then b else a
  end.
Definition POPOVER_WIDTH : Z := 360.
Definition popover_place (scale icon_x icon_y icon_width : f64) : f64 * f64 :=
  (f64_max (f64_sub (f64_add (f64_div icon_x scale)
                             (f64_div (f64_div icon_width scale) (f64_of_int 2)))
                    (f64_div (f64_of_int POPOVER_WIDTH) (f64_of_int 2))) (f64_of_int 8),
   f64_add (f64_div icon_y scale) (f64_of_int 6)).

(** An identifier the broker made. *)
Definition well_formed_id (approval_id : string) : bool :=
  forallb (fun a => is_ascii_alphanumeric a || bool_decide (a = "_"%char)
                    || bool_decide (a = "-"%char)) (String.list_ascii_of_string approval_id).

Section Windows.
Context {W S : Type} `{WindowSystem S}.
Notation Shell := (UiTask W S string).

Definition on_windows {A : Type} (f : S -> result string A * S) : Shell A := fun app =>
  let '(r, s) := f (app_windows app) in (r, with_windows app s).
Definition window_exists (label : string) : Shell bool :=
  ui_asks (fun app => bool_decide (is_Some (window_at label (app_windows app)))).

(** The handler of [lib.rs] for the events of windows: whether the window is
    kept. *)
Definition on_close_requested (label : string) (s : S) : bool * S :=
  if bool_decide (label = ONBOARDING) then (false, s) else (true, snd (hide_window label s)).
Definition close (label : string) : Shell unit := on_windows (close_window on_close_requested label).

Definition build_popover : Shell unit :=
  on_windows (build_window POPOVER {| win_route := route "/popover"; win_visible := false |}).

Definition toggle_popover (tray_rect : option (f64 * f64 * f64)) : Shell unit :=
  present ← window_exists POPOVER;
  (if (present : bool) then mret tt else build_popover);;
  shown ← ui_asks (fun app => bool_decide
            (win_visible <$> window_at POPOVER (app_windows app) = Some true));
  if (shown : bool) then on_windows (hide_window POPOVER)
  else
    match tray_rect with
    | Some (icon_x, icon_y, icon_width) =>
        scale ← ui_asks (fun app => default (f64_of_int 1)
                  (result_ok (scale_factor POPOVER (app_windows app))));
        let '(x, y) := popover_place scale icon_x icon_y icon_width in
        on_windows (place_window POPOVER x y)
    | None => mret tt
    end;;
    on_windows (show_window POPOVER);;
    on_windows (focus_window POPOVER).

Definition hide_popover : Shell unit :=
  present ← window_exists POPOVER;
  if (present : bool) then ignoring (on_windows (hide_window POPOVER)) else mret tt.

Definition open_approval (approval_id : string) : Shell unit :=
  ui_ensure (well_formed_id approval_id) "malformed approval id";;
  present ← window_exists APPROVAL;
  (if (present : bool) then ignoring (close APPROVAL) else mret tt);;
  on_windows (build_window APPROVAL (visible_at ("/approval/" +:+ approval_id)));;
  on_windows (focus_window APPROVAL);;
  hide_popover.

Definition open_manage (section : string) : Shell unit :=
  ui_ensure (bool_decide (section ∈ SECTIONS)) "unknown section";;
  present ← window_exists MANAGE;
  if (present : bool) then
    on_windows (send_window MANAGE (route ("/manage/" +:+ section)));;
    on_windows (show_window MANAGE);;
    on_windows (focus_window MANAGE)
  else
    on_windows (build_window MANAGE (visible_at ("/manage/" +:+ section)));;
    on_windows (focus_window MANAGE);;
    hide_popover.

Definition open_onboarding : Shell unit :=
  present ← window_exists ONBOARDING;
  if (present : bool) then
    on_windows (show_window ONBOARDING);;
    on_windows (focus_window ONBOARDING)
  else
    on_windows (build_window ONBOARDING (visible_at "/onboarding"));;
    on_windows (size_window ONBOARDING);;
    on_windows (focus_window ONBOARDING).
End Windows.

(** ** Settings, presence and the icon *)

Section Services.
Context {W S : Type} `{SettingsFile, WritableFiles, LocalAuthentication}.
Notation Command := (UiTask W S CommandError).

(** [settings::load] and [settings::save] *)
Definition load (app : App W S) : Settings :=
  default default_settings (app_files app !! SETTINGS_JSON ≫= settings_from_slice).

Definition write_file (path : string) (bytes : list byte) : Command unit := fun app =>
  match write_error path (app_files app) with
  | Some message => (Err (plain_error message), app)
  | None => (Ok tt, with_app_file app path bytes)
  end.
Definition get_settings : Command Settings := ui_asks load.
Definition set_settings (settings : Settings) : Command unit :=
  write_file SETTINGS_JSON (settings_to_vec_pretty settings).

(** [presence::verify]: the purpose only goes into the words of the prompt. *)
Definition verify : Command bool := fun app =>
  match presence_outcome (app_prompts app) with
  | PresenceUnavailable => (Err (plain_error
      "This Mac cannot verify user presence, so authority that requires it cannot be granted here."),
      prompted app)
  | PresenceReplied true => (Ok true, prompted app)
  | PresenceReplied false => (Err (plain_error
      "Presence was not confirmed, so nothing was authorized."), prompted app)
  | PresenceTimedOut => (Err (plain_error "Presence verification timed out."), prompted app)
  | PresenceLost => (Err (plain_error "Presence verification did not complete."), prompted app)
  end.

(** [state_label]. [CompletedEvidenceLost] has no arm. *)
Definition state_label (state : UiProtectionState.t) : option string :=
  match state with
  | UiProtectionState.Protected => Some "Protected"
  | UiProtectionState.ApprovalRequired => Some "Approval required"
  | UiProtectionState.SensitiveOperation => Some "Sensitive operation in progress"
  | UiProtectionState.Completed => Some "Completed"
  | UiProtectionState.Blocked => Some "Blocked"
  | UiProtectionState.ProtectionInterrupted => Some "Protection interrupted"
  | UiProtectionState.OutcomeUncertain => Some "Outcome could not be verified"
  | UiProtectionState.Disconnected => Some "secretctl unavailable"
  | UiProtectionState.CompletedEvidenceLost => None
  end.

(** Without an icon there is nothing to change. *)
Definition apply_state (state : UiProtectionState.t) (app : App W S) : App W S :=
  match app_tray app with
  | None => app
  | Some _ => with_tray app (Some state)
  end.
End Services.

(** ** The commands ([commands.rs]) *)

Record Diagnostics : Type := {
  installation_dir : string;
  broker_key_pinned : bool;
  admin_socket_present : bool;
  agent_socket_present : bool;
  executor_socket_present : bool;
  daemon_reachable : bool;
  restart_command : string
}.

(** Where the installation is. *)
Class InstallationPath := { installation_path : string }.

Section Commands.
Context `{Hashes, Signatures, Aead, X25519, Base64, JsonCodec, !JsonReader, Serde, SettingsFile,
  WritableFiles, LocalAuthentication, InstallationPath} {W S : Type} `{AdminPeer W, WindowSystem S}.
Notation Command := (UiTask W S CommandError).

(** [AdminConnection::call] *)
Definition call_daemon (method : string) (params : Json) (app : App W S) :
    result ClientError Json * App W S :=
  let '((r, guard), w) := connection_call (app_session app) method params (app_peer app) in
  (r, with_connection app guard w).
Definition daemon_request (method : string) (params : Json) : Command Json :=
  ui_map_err from_anyhow (call_daemon method params).

Definition query {T : Type} (wire : Wire T) (method : string) (params : Json) : Command T :=
  value ← daemon_request method params;
  ui_try (map_err (fun error => plain_error
    ("daemon sent an unreadable " +:+ method +:+ " response: " +:+ error)) (from_value wire value)).

Definition no_params : Json := JObject [].
Definition approval_params (approval_id : string) : Json :=
  JObject [("approval_id", JString approval_id)].

Definition get_status : Command UiStatus := query WUiStatus "ui.status" no_params.
Definition get_pending_requests : Command (list UiAuthorizationRequest) :=
  query WUiRequests "ui.pending" no_params.
Definition get_pending_request (approval_id : string) : Command UiAuthorizationRequest :=
  query WUiRequest "ui.pending_one" (approval_params approval_id).
Definition get_activity (limit : option Z) : Command (list UiActivityEvent) :=
  query WUiEvents "ui.activity" (JObject [("limit", JNumber (default 50 limit))]).
Definition get_agents : Command (list UiAgent) := query WUiAgents "ui.agents" no_params.
Definition get_credentials : Command (list UiCredential) :=
  query WUiCredentials "ui.credentials" no_params.
Definition get_browser_sessions : Command (list UiBrowserSession) :=
  query WUiSessions "ui.browser_sessions" no_params.
Definition get_grants (include_revoked : option bool) : Command (list UiGrant) :=
  query WUiGrants "grant.list" (JObject [("include_revoked", JBool (default false include_revoked))]).

Definition decode_digest (context_digest : string) : Command (list byte) :=
  ui_try (map_err (fun _ => plain_error
    "The approval could not be matched to the request you were shown.")
    (b64_decode context_digest)).

Definition decide_params (approval_id decision : string) (digest : list byte) (presence : bool) :
    Json :=
  JObject [("approval_id", JString approval_id); ("decision", JString decision);
    ("context_digest", bytes_json digest); ("presence_verified", JBool presence)].

Definition approve_once (approval_id context_digest : string) (requires_presence : bool) :
    Command Json :=
  presence_verified ← (if requires_presence then verify else mret false);
  digest ← decode_digest context_digest;
  daemon_request "approval.decide" (decide_params approval_id "approve" digest presence_verified).

Definition deny (approval_id context_digest : string) : Command Json :=
  digest ← decode_digest context_digest;
  daemon_request "approval.decide" (decide_params approval_id "deny" digest false).

Definition grant_params (approval_id : string) (digest : list byte) (ttl_days : Z)
    (presence : bool) : Json :=
  JObject [("approval_id", JString approval_id); ("context_digest", bytes_json digest);
    ("ttl_days", JNumber ttl_days); ("presence_verified", JBool presence)].

Definition create_grant (approval_id context_digest : string) (ttl_days : Z) : Command Json :=
  presence_verified ← verify;
  digest ← decode_digest context_digest;
  daemon_request "grant.create" (grant_params approval_id digest ttl_days presence_verified).

Definition revoke_grant (selector : string) : Command Json :=
  daemon_request "grant.revoke"
    (JObject [("selector", JString selector); ("reason", JString "revoked by user")]).
Definition disable_agent (agent_id : string) : Command Json :=
  daemon_request "agent.disable" (JObject [("agent_id", JString agent_id)]).

(** A failure of a window comes out as one of the connection. *)
Definition from_window_error (message : string) : CommandError :=
  from_anyhow (ClientFailure message).
Definition open_approval_command (approval_id : string) : Command unit :=
  ui_map_err from_window_error (open_approval approval_id).
Definition open_manage_command (section : string) : Command unit :=
  ui_map_err from_window_error (open_manage section).
Definition close_window_command (label : string) : Command unit :=
  ignoring (on_windows (hide_window label)).

Definition file_present (path : string) (app : App W S) : bool :=
  bool_decide (is_Some (app_files app !! path)).
Definition is_reachable : Command bool := fun app =>
  let '(r, app) := call_daemon "admin.ping" no_params app in (Ok (is_ok r), app).

(** The files are looked at before the daemon is called. *)
Definition get_diagnostics : Command Diagnostics :=
  pinned ← ui_asks (file_present BROKER_KEY_PUB);
  admin ← ui_asks (file_present (socket_path ChannelAdmin));
  agent ← ui_asks (file_present (socket_path ChannelAgent));
  executor ← ui_asks (file_present (socket_path ChannelExecutor));
  reachable ← is_reachable;
  mret {| installation_dir := installation_path; broker_key_pinned := pinned;
    admin_socket_present := admin; agent_socket_present := agent;
    executor_socket_present := executor; daemon_reachable := reachable;
    restart_command := "secretctl start" |}.

Definition get_onboarding_complete : Command bool := ui_asks (file_present ONBOARDED).
Definition set_onboarding_complete : Command unit :=
  write_file ONBOARDED [Byte.x31];;
  present ← ui_map_err from_window_error (window_exists ONBOARDING);
  if (present : bool) then ignoring (close ONBOARDING) else mret tt.

(** What the frontend can invoke. *)
Inductive DeskCommand : Type -> Type :=
| GetStatus : DeskCommand UiStatus
| GetPendingRequests : DeskCommand (list UiAuthorizationRequest)
| GetPendingRequest (approval_id : string) : DeskCommand UiAuthorizationRequest
| GetActivity (limit : option Z) : DeskCommand (list UiActivityEvent)
| GetAgents : DeskCommand (list UiAgent)
| GetCredentials : DeskCommand (list UiCredential)
| GetBrowserSessions : DeskCommand (list UiBrowserSession)
| GetGrants (include_revoked : option bool) : DeskCommand (list UiGrant)
| ApproveOnce (approval_id context_digest : string) (requires_presence : bool) : DeskCommand Json
| DenyRequest (approval_id context_digest : string) : DeskCommand Json
| CreateGrant (approval_id context_digest : string) (ttl_days : Z) : DeskCommand Json
| RevokeGrant (selector : string) : DeskCommand Json
| DisableAgent (agent_id : string) : DeskCommand Json
| OpenApproval (approval_id : string) : DeskCommand unit
| OpenManage (section : string) : DeskCommand unit
| CloseWindow (label : string) : DeskCommand unit
| GetDiagnostics : DeskCommand Diagnostics
| GetOnboardingComplete : DeskCommand bool
| SetOnboardingComplete : DeskCommand unit
| GetSettings : DeskCommand Settings
| SetSettings (settings : Settings) : DeskCommand unit.

Definition invoke {T : Type} (c : DeskCommand T) : Command T :=
  match c in DeskCommand T return UiTask W S CommandError T with
  | GetStatus => get_status
  | GetPendingRequests => get_pending_requests
  | GetPendingRequest approval_id => get_pending_request approval_id
  | GetActivity limit => get_activity limit
  | GetAgents => get_agents
  | GetCredentials => get_credentials
  | GetBrowserSessions => get_browser_sessions
  | GetGrants include_revoked => get_grants include_revoked
  | ApproveOnce approval_id context_digest requires_presence =>
      approve_once approval_id context_digest requires_presence
  | DenyRequest approval_id context_digest => deny approval_id context_digest
  | CreateGrant approval_id context_digest ttl_days =>
      create_grant approval_id context_digest ttl_days
  | RevokeGrant selector => revoke_grant selector
  | DisableAgent agent_id => disable_agent agent_id
  | OpenApproval approval_id => open_approval_command approval_id
  | OpenManage section => open_manage_command section
  | CloseWindow label => close_window_command label
  | GetDiagnostics => get_diagnostics
  | GetOnboardingComplete => get_onboarding_complete
  | SetOnboardingComplete => set_onboarding_complete
  | GetSettings => get_settings
  | SetSettings settings => set_settings settings
  end.
End Commands.

(** ** The loop ([watcher.rs]) *)

Section Watching.
Context `{Hashes, Signatures, Aead, X25519, Base64, JsonCodec, !JsonReader, Serde, UnicodeCase,
  SettingsFile, WritableFiles, LocalAuthentication, InstallationPath} {W S : Type}
  `{AdminPeer W, WindowSystem S}.
Implicit Type app : App W S.

Definition display_origin (origin : string) : string :=
  trim_end_matches ":443" (default origin (split_nth_1 "://" origin)).
Definition lowercase (text : string) : string := from_bytes (encode_text (to_lowercase (chars text))).

Definition REQUEST_WAITING : string := "Authorization request waiting".
Definition announcement (detail : NotificationDetail.t) (request : UiAuthorizationRequest) : string :=
  match detail with
  | NotificationDetail.Detailed =>
      ua_agent_name request +:+ " wants to " +:+ lowercase (ua_action_label request) +:+ " at "
      +:+ display_origin (ua_origin request) +:+ "."
  | _ => "An agent needs permission to perform a sensitive action."
  end.

(** [announced.insert(..)] of every request, with a notification for those that
    were not in it. *)
Fixpoint announce_each (detail : NotificationDetail.t) (pending : list UiAuthorizationRequest) app :
    App W S :=
  match pending with
  | [] => app
  | request :: pending =>
      let seen := announced (app_watcher app) in
      announce_each detail pending
        (if bool_decide (ua_approval_id request ∈ seen) then app
         else notify REQUEST_WAITING (announcement detail request)
                (with_watcher app (set_announced (app_watcher app)
                   ({[ua_approval_id request]} ∪ seen))))
  end.

Definition request_ids (pending : list UiAuthorizationRequest) : gset string :=
  list_to_set (map ua_approval_id pending).

Definition bring_forward (pending : list UiAuthorizationRequest) app : App W S :=
  match pending with
  | request :: _ =>
      if bool_decide (is_Some (window_at APPROVAL (app_windows app))) then app
      else snd (open_approval (ua_approval_id request) app)
  | [] => app
  end.

Definition announce_new_requests (pending : list UiAuthorizationRequest) app : App W S :=
  let detail := notification_detail (load app) in
  if bool_decide (detail = NotificationDetail.Disabled)
  then with_watcher app (set_announced (app_watcher app)
         (request_ids pending ∪ announced (app_watcher app)))
  else bring_forward pending (announce_each detail pending app).

Definition COMPLETED : string * string :=
  ("Authentication completed", "The agent can continue its task.").
Definition INTERRUPTED : string * string :=
  ("Protection interrupted",
   "secretctl could no longer verify browser protection, so credential release was halted.").
Definition UNVERIFIED : string * string :=
  ("Result could not be verified",
   "The operation may have completed, but secretctl lost confirmation from the browser. No further "
   +:+ "credential operation will run until the session is re-established.").

Definition was_active (previous : option UiProtectionState.t) : bool :=
  match previous with
  | Some UiProtectionState.SensitiveOperation | Some UiProtectionState.ApprovalRequired => true
  | _ => false
  end.

Definition announce_outcome (current : UiProtectionState.t) app : App W S :=
  let settings := load app in
  let watcher := app_watcher app in
  let announce note app := notify (fst note) (snd note) app in
  if bool_decide (notification_detail settings = NotificationDetail.Disabled) then app
  else if bool_decide (current = UiProtectionState.Completed)
          && was_active (previous_state watcher) && confirm_completion settings then
    if confirmed_completion watcher then app
    else announce COMPLETED (with_watcher app (set_confirmed watcher true))
  else if bool_decide (current = UiProtectionState.ProtectionInterrupted) then announce INTERRUPTED app
  else if bool_decide (current = UiProtectionState.OutcomeUncertain) then announce UNVERIFIED app
  else if bool_decide (current = UiProtectionState.SensitiveOperation)
  then with_watcher app (set_confirmed watcher false)
  else app.

Definition disconnected_status : UiStatus := {|
  us_protection := UiProtectionState.Disconnected; us_pending_approvals := 0;
  us_active_operation := None; us_browser_sessions_connected := 0; us_agents_enrolled := 0;
  us_agents_active := 0; us_active_grants := 0; us_providers := []; us_policy_fingerprint := "";
  us_audit_chain_intact := false |}.

(** What is done with an answer to [ui.status], and with one to [ui.pending]. *)
Definition see_status (status : option UiStatus) app : App W S :=
  let status := default disconnected_status status in
  let state := us_protection status in
  emit (EmitStatus status)
    (if bool_decide (previous_state (app_watcher app) = Some state) then app
     else
       let app := announce_outcome state (apply_state state app) in
       with_watcher app (set_previous (app_watcher app) state)).

Definition see_pending (pending : list UiAuthorizationRequest) app : App W S :=
  let app := announce_new_requests pending (emit (EmitPending pending) app) in
  with_watcher app (set_announced (app_watcher app)
    (announced (app_watcher app) ∩ request_ids pending)).

(** [.ok().and_then(|value| from_value(value).ok())] *)
Definition readable {T : Type} (wire : Wire T) (r : result ClientError Json) : option T :=
  result_ok r ≫= fun value => result_ok (from_value wire value).

Definition watch_status app : App W S :=
  let '(r, app) := call_daemon "ui.status" no_params app in
  see_status (readable WUiStatus r) app.
Definition watch_pending app : App W S :=
  let '(r, app) := call_daemon "ui.pending" no_params app in
  see_pending (default [] (readable WUiRequests r)) app.

(** Milliseconds to the next turn. *)
Definition IDLE_INTERVAL : Z := 1500.
Definition ACTIVE_INTERVAL : Z := 400.
Definition interval (state : UiProtectionState.t) : Z :=
  match state with
  | UiProtectionState.SensitiveOperation | UiProtectionState.ApprovalRequired
  | UiProtectionState.ProtectionInterrupted => ACTIVE_INTERVAL
  | _ => IDLE_INTERVAL
  end.

(** ** The application ([lib.rs], [tray.rs]) *)

(** The icon starts disconnected; the management windows are reached from its
    menu. *)
Definition build_tray app : App W S := with_tray app (Some UiProtectionState.Disconnected).
Definition MENU : list (string * string) :=
  [("activity", "activity"); ("grants", "grants"); ("settings", "settings")].
Definition menu_chosen (id : string) app : App W S :=
  match List.find (fun entry => bool_decide (fst entry = id)) MENU with
  | Some (_, section) => snd (open_manage section app)
  | None => app
  end.

Definition setup : UiTask W S string unit :=
  (fun app => (Ok tt, build_tray app));;
  build_popover;;
  onboarded ← ui_asks (file_present ONBOARDED);
  if (onboarded : bool) then mret tt else open_onboarding.

(** An application that was just started. *)
Definition new_app (w : W) (s : S) (files : gmap string (list byte)) : App W S := {|
  app_peer := w; app_session := None; app_windows := s; app_tray := None; app_notified := [];
  app_emitted := []; app_files := files; app_prompts := 0;
  app_watcher := {| announced := ∅; previous_state := None; confirmed_completion := false |} |}.

(** What happens to a running application. *)
Inductive DeskEvent : Type :=
| StatusPolled
| PendingPolled
| Invoked {T : Type} (c : DeskCommand T)
| CloseClicked (label : string)
| PopoverBlurred
| IconClicked (tray_rect : option (f64 * f64 * f64))
| MenuChosen (id : string)
| PeerChanged (w : W)
| FileChanged (path : string) (bytes : list byte).

Definition desk_step (e : DeskEvent) app : App W S :=
  match e with
  | StatusPolled => watch_status app
  | PendingPolled => watch_pending app
  | Invoked c => snd (invoke c app)
  | CloseClicked label => snd (close label app)
  | PopoverBlurred => snd (on_windows (hide_window POPOVER) app)
  | IconClicked tray_rect => snd (toggle_popover tray_rect app)
  | MenuChosen id => menu_chosen id app
  | PeerChanged w => with_connection app (app_session app) w
  | FileChanged path bytes => with_app_file app path bytes
  end.

Definition desk_run (events : list DeskEvent) app : App W S :=
  fold_left (fun app e => desk_step e app) events app.
End Watching.
