(* ===== verification/DesktopProps.v ===== *)
(** * DesktopProps: the windows of the desktop application

    The laws of the window system, reasoning about the operations of the
    application, and the approval window, which opens once. *)

From S2P Require Import Prelude.
From S2P Require Import Externals.
From S2P Require Import Domain.
From S2P Require Import Crypto.
From S2P Require Import DomView.
From S2P Require Import OAuth.
From S2P Require Import Protocol.
From S2P Require Import Framing.
From S2P Require Import BrokerState.
From S2P Require Import Admin.
From S2P Require Import Ui.
From S2P Require Import Wire.
From S2P Require Import Server.
From S2P Require Import Installation.
From S2P Require Import AdminClient.
From S2P Require Import CliAdmin.
From S2P Require Import Desktop.

(** ** The window system *)

(** The documented behaviour of the windows that is relied on: an operation on a
    window leaves the others alone, a label is taken while its window is there,
    hiding keeps the window, and a close that is prevented does what the handler
    did. *)
Class WindowSystemLaws (S : Type) `{WindowSystem S} := {
  build_other l l' w s : l <> l' -> window_at l' (snd (build_window l w s)) = window_at l' s;
  build_taken l w s : is_Some (window_at l s) ->
    is_ok (fst (build_window l w s)) = false /\
    window_at l (snd (build_window l w s)) = window_at l s;
  show_other l l' s : l <> l' -> window_at l' (snd (show_window l s)) = window_at l' s;
  send_other l l' h s : l <> l' -> window_at l' (snd (send_window l h s)) = window_at l' s;
  focus_same l l' s : window_at l' (snd (focus_window l s)) = window_at l' s;
  size_same l l' s : window_at l' (snd (size_window l s)) = window_at l' s;
  place_same l l' x y s : window_at l' (snd (place_window l x y s)) = window_at l' s;
  hide_other l l' s : l <> l' -> window_at l' (snd (hide_window l s)) = window_at l' s;
  hide_keeps l s w : window_at l s = Some w ->
    window_at l (snd (hide_window l s)) = Some w \/
    window_at l (snd (hide_window l s))
    = Some {| win_route := win_route w; win_visible := false |};
  close_other h l l' s : l <> l' ->
    window_at l' (snd (close_window h l s)) = window_at l' (snd (h l s));
  close_prevented h l s : is_Some (window_at l s) -> fst (h l s) = true ->
    window_at l (snd (close_window h l s)) = window_at l (snd (h l s))
}.

(** ** What the operations may change *)

Section Steps.
Context {W S : Type} (R : App W S -> App W S -> Prop) `{!PreOrder R}.

(** The operation moves the application along [R], however it ends. *)
Definition steps {E A : Type} (m : UiTask W S E A) : Prop := forall app, R app (snd (m app)).

Lemma ui_steps_ret {E A : Type} (a : A) : steps (E := E) (mret a).
Proof. by intros app. Qed.
Lemma steps_try {E A : Type} (r : result E A) : steps (ui_try r).
Proof. by intros app. Qed.
Lemma steps_asks {E A : Type} (f : App W S -> A) : steps (E := E) (ui_asks f).
Proof. by intros app. Qed.
Lemma steps_ensure {E : Type} b (e : E) : steps (ui_ensure b e).
Proof. destruct b; by intros app. Qed.
Lemma ui_steps_bind {E A B : Type} (m : UiTask W S E A) (f : A -> UiTask W S E B) :
  steps m -> (forall a, steps (f a)) -> steps (m ≫= f).
Proof.
  intros Hm Hf app. unfold mbind, ui_bind. specialize (Hm app).
  destruct (m app) as [[a|e] app1]; [|done]. etransitivity; [exact Hm|apply Hf].
Qed.
Lemma steps_ignoring {E E' A : Type} (m : UiTask W S E' A) :
  steps m -> steps (E := E) (ignoring m).
Proof. intros Hm app. apply Hm. Qed.
Lemma steps_map_err {E E' A : Type} (f : E' -> E) (m : UiTask W S E' A) :
  steps m -> steps (ui_map_err f m).
Proof. intros Hm app. unfold ui_map_err. specialize (Hm app). by destruct (m app). Qed.
Lemma steps_on_windows {A : Type} (f : S -> result string A * S) :
  (forall app, R app (with_windows app (snd (f (app_windows app))))) -> steps (on_windows f).
Proof. intros Hf app. unfold on_windows. specialize (Hf app). by destruct (f (app_windows app)). Qed.
End Steps.

Create HintDb steps.
#[export] Hint Resolve ui_steps_ret steps_try steps_asks steps_ensure : steps.
Ltac steps := repeat first
  [ match goal with |- forall _, _ => intro end
  | solve [auto with steps typeclass_instances]
  | apply ui_steps_bind; [exact _| |]
  | apply steps_ignoring
  | apply steps_map_err
  | match goal with |- steps _ (match ?x with _ => _ end) => destruct x end
  | match goal with |- steps _ (if ?x then _ else _) => destruct x end ].

(** A relation that the connection, the prompts, the files and the window
    operations respect is respected by every command. *)
Section Commands.
Context `{Hashes, Signatures, Aead, X25519, Base64, JsonCodec, !JsonReader, Serde, SettingsFile,
  WritableFiles, LocalAuthentication, InstallationPath} {W S : Type} `{AdminPeer W, WindowSystem S}.
Context (R : App W S -> App W S -> Prop) `{!PreOrder R}.
Hypothesis R_connection : forall app guard w, R app (with_connection app guard w).
Hypothesis R_prompted : forall app, R app (prompted app).
Hypothesis R_file : forall app path bytes, R app (with_app_file app path bytes).

Lemma call_daemon_steps method params app : R app (snd (call_daemon method params app)).
Proof. unfold call_daemon. destruct (connection_call _ _ _ _) as [[r guard] w]. apply R_connection. Qed.

Lemma steps_request method params : steps R (daemon_request method params).
Proof. apply steps_map_err. intros app. apply call_daemon_steps. Qed.
#[local] Hint Resolve steps_request : steps.
Lemma steps_query {T : Type} (wire : Wire T) method params : steps R (query wire method params).
Proof. unfold query. steps. Qed.
Lemma steps_verify : steps R verify.
Proof. intros app. unfold verify. destruct (presence_outcome _) as [|[]| |]; apply R_prompted. Qed.
Lemma steps_write_file path bytes : steps R (write_file path bytes).
Proof. intros app. unfold write_file. destruct (write_error _ _); [done|apply R_file]. Qed.
Lemma steps_is_reachable : steps R is_reachable.
Proof.
  intros app. unfold is_reachable. pose proof (call_daemon_steps "admin.ping" no_params app) as Hc.
  by destruct (call_daemon _ _ _).
Qed.
#[local] Hint Resolve steps_query steps_verify steps_write_file
  steps_is_reachable : steps.

Hypothesis R_approval : forall approval_id, steps R (open_approval approval_id).
Hypothesis R_manage : forall section, steps R (open_manage section).
Hypothesis R_hide : forall label, steps R (on_windows (hide_window label)).
Hypothesis R_close : forall label, steps R (close label).

Lemma steps_invoke {T : Type} (c : DeskCommand T) : steps R (invoke c).
Proof.
  destruct c; cbn [invoke]; unfold get_status, get_pending_requests, get_pending_request,
    get_activity, get_agents, get_credentials, get_browser_sessions, get_grants, approve_once,
    deny, create_grant, revoke_grant, disable_agent, open_approval_command, open_manage_command,
    close_window_command, get_diagnostics, get_onboarding_complete, set_onboarding_complete,
    get_settings, set_settings, decode_digest, window_exists; steps.
Qed.
End Commands.

(** ** The approval window *)

Section Approval.
Context `{Hashes, Signatures, Aead, X25519, Base64, JsonCodec, !JsonReader, Serde, UnicodeCase,
  SettingsFile, WritableFiles, LocalAuthentication, InstallationPath} {W S : Type}
  `{AdminPeer W, WindowSystemLaws S}.
Implicit Type app : App W S.

(** The window stays as it is, or is hidden. *)
Definition at_most_hidden (w w' : Window) : Prop :=
  w' = w \/ w' = {| win_route := win_route w; win_visible := false |}.
Definition approval_kept app app' : Prop :=
  forall w, window_at APPROVAL (app_windows app) = Some w ->
  exists w', window_at APPROVAL (app_windows app') = Some w' /\ at_most_hidden w w'.

#[local] Instance approval_kept_preorder : PreOrder approval_kept.
Proof.
  split.
  - intros app w Hw. exists w. split; [done|by left].
  - intros app1 app2 app3 K1 K2 w Hw. destruct (K1 w Hw) as (w2 & Hw2 & Hs).
    destruct (K2 w2 Hw2) as (w3 & Hw3 & Hs'). exists w3. split; [done|].
    destruct Hs as [->| ->], Hs' as [->| ->]; unfold at_most_hidden; auto.
Qed.

Lemma kept_windows app app' :
  window_at APPROVAL (app_windows app') = window_at APPROVAL (app_windows app) ->
  approval_kept app app'.
Proof. intros E w Hw. exists w. rewrite E. split; [done|by left]. Qed.

Lemma kept_same {A : Type} (f : S -> result string A * S) :
  (forall s, window_at APPROVAL (snd (f s)) = window_at APPROVAL s) ->
  steps approval_kept (on_windows f).
Proof. intros Hf. apply steps_on_windows. intros app. apply kept_windows, Hf. Qed.

Lemma kept_build label w : steps approval_kept (on_windows (build_window label w)).
Proof.
  apply steps_on_windows. intros app w' Hw. destruct (decide (label = APPROVAL)) as [->|Hl].
  - exists w'. cbn. rewrite (proj2 (build_taken _ w _ (ex_intro _ w' Hw))). split; [done|by left].
  - exists w'. cbn. rewrite build_other by done. split; [done|by left].
Qed.

Lemma hide_at_most label s w :
  window_at APPROVAL s = Some w ->
  exists w', window_at APPROVAL (snd (hide_window label s)) = Some w' /\ at_most_hidden w w'.
Proof.
  intros Hw. destruct (decide (label = APPROVAL)) as [->|Hl].
  - unfold at_most_hidden. destruct (hide_keeps _ _ _ Hw) as [-> | ->]; eauto.
  - exists w. rewrite hide_other by done. split; [done|by left].
Qed.

Lemma kept_hide label : steps approval_kept (on_windows (hide_window label)).
Proof. apply steps_on_windows. intros app w Hw. by apply hide_at_most. Qed.

Lemma kept_close label : steps approval_kept (close label).
Proof.
  apply steps_on_windows. intros app w Hw.
  assert (Hh : exists w', window_at APPROVAL (snd (on_close_requested label (app_windows app))) = Some w'
            /\ at_most_hidden w w').
  { unfold on_close_requested. destruct (bool_decide _); [|by apply hide_at_most].
    exists w. split; [done|by left]. }
  destruct Hh as (w' & Hw' & Hs). exists w'. split; [|done]. cbn.
  destruct (decide (label = APPROVAL)) as [->|Hl].
  - by rewrite close_prevented.
  - by rewrite close_other.
Qed.

#[local] Hint Resolve kept_build kept_hide kept_close : steps.
Lemma kept_focus label : steps approval_kept (on_windows (focus_window label)).
Proof. apply kept_same. intros s. apply focus_same. Qed.
Lemma kept_size label : steps approval_kept (on_windows (size_window label)).
Proof. apply kept_same. intros s. apply size_same. Qed.
Lemma kept_place label x y : steps approval_kept (on_windows (place_window label x y)).
Proof. apply kept_same. intros s. apply place_same. Qed.
Lemma kept_show label : label <> APPROVAL -> steps approval_kept (on_windows (show_window label)).
Proof. intros Hl. apply kept_same. intros s. by apply show_other. Qed.
Lemma kept_send label hash :
  label <> APPROVAL -> steps approval_kept (on_windows (send_window label hash)).
Proof. intros Hl. apply kept_same. intros s. by apply send_other. Qed.
#[local] Hint Resolve kept_focus kept_size kept_place : steps.
#[local] Hint Extern 1 (steps approval_kept (on_windows (show_window _))) =>
  apply kept_show; discriminate : steps.
#[local] Hint Extern 1 (steps approval_kept (on_windows (send_window _ _))) =>
  apply kept_send; discriminate : steps.

Lemma kept_open_approval approval_id : steps approval_kept (open_approval approval_id).
Proof. unfold open_approval, hide_popover, window_exists. steps. Qed.
Lemma kept_open_manage section : steps approval_kept (open_manage section).
Proof. unfold open_manage, hide_popover, window_exists. steps. Qed.
Lemma kept_toggle tray_rect : steps approval_kept (toggle_popover tray_rect).
Proof.
  unfold toggle_popover, build_popover, window_exists. steps.
Qed.

(** *** The loop *)

Lemma kept_notify title body app : approval_kept app (notify title body app).
Proof. by apply kept_windows. Qed.
Lemma kept_watcher app watcher : approval_kept app (with_watcher app watcher).
Proof. by apply kept_windows. Qed.
#[local] Hint Resolve kept_notify kept_watcher : steps.

Lemma kept_announce_each detail pending app :
  approval_kept app (announce_each detail pending app).
Proof.
  revert app. induction pending as [|request pending IH]; intros app; [done|]. cbn [announce_each].
  etransitivity; [|apply IH]. destruct (bool_decide _); [done|by apply kept_windows].
Qed.

Lemma kept_bring_forward pending app : approval_kept app (bring_forward pending app).
Proof.
  destruct pending as [|request pending]; [done|]. cbn [bring_forward].
  destruct (bool_decide _); [done|apply kept_open_approval].
Qed.

Lemma kept_see_status status app : approval_kept app (see_status status app).
Proof.
  apply kept_windows. unfold see_status, announce_outcome, apply_state.
  destruct (app_tray app); repeat case_match; reflexivity.
Qed.

Lemma kept_see_pending pending app : approval_kept app (see_pending pending app).
Proof.
  unfold see_pending, announce_new_requests.
  etransitivity; [|apply kept_watcher]. destruct (bool_decide _).
  - by apply kept_windows.
  - etransitivity; [|apply kept_bring_forward]. etransitivity; [|apply kept_announce_each].
    by apply kept_windows.
Qed.

Lemma kept_call_daemon method params app : approval_kept app (snd (call_daemon method params app)).
Proof. apply call_daemon_steps. intros app' guard w. by apply kept_windows. Qed.

Lemma kept_desk_step e app : approval_kept app (desk_step e app).
Proof.
  destruct e as [| |T c|label| |rect|id|w|path bytes]; cbn [desk_step].
  - unfold watch_status. pose proof (kept_call_daemon "ui.status" no_params app) as Hc.
    destruct (call_daemon _ _ _) as [r app1]. etransitivity; [exact Hc|apply kept_see_status].
  - unfold watch_pending. pose proof (kept_call_daemon "ui.pending" no_params app) as Hc.
    destruct (call_daemon _ _ _) as [r app1]. etransitivity; [exact Hc|apply kept_see_pending].
  - apply (steps_invoke approval_kept); intros; try (by apply kept_windows); auto with steps.
    + apply kept_open_approval.
    + apply kept_open_manage.
  - apply kept_close.
  - apply kept_hide.
  - apply kept_toggle.
  - unfold menu_chosen. destruct (List.find _ _) as [[]|]; [apply kept_open_manage|done].
  - by apply kept_windows.
  - by apply kept_windows.
Qed.

Lemma kept_desk_run events app : approval_kept app (desk_run events app).
Proof.
  revert app. induction events as [|e events IH]; intros app; [done|].
  etransitivity; [apply (kept_desk_step e)|apply IH].
Qed.

(** C40: the approval window opens once. After it was built for a request, it is
    there for good: whatever the user, the frontend, the loop and the daemon do, it
    keeps the route of that first request, it is only ever hidden, every later
    attempt to open one fails, and is reported to the frontend as a daemon that
    cannot be reached. The loop does not even try. *)
Theorem approval_window_opens_once events app w :
  window_at APPROVAL (app_windows app) = Some w ->
  let app' := desk_run events app in
  (exists w', window_at APPROVAL (app_windows app') = Some w' /\ win_route w' = win_route w /\
     (win_visible w' = true -> w' = w)) /\
  (forall approval_id, exists e, fst (open_approval_command approval_id app') = Err e /\
     ce_disconnected e = true /\ ce_code e = None) /\
  (forall pending, bring_forward pending app' = app').
Proof.
  intros Hw app'. destruct (kept_desk_run events app w Hw) as (w' & Hw' & Hs).
  fold app' in Hw'. split_and!.
  - exists w'. by destruct Hs as [->| ->].
  - intros approval_id. unfold open_approval_command, ui_map_err.
    enough (Hf : exists e, fst (open_approval approval_id app') = Err e).
    { destruct Hf as [e He]. destruct (open_approval approval_id app') as [r app'']. cbn in He.
      subst r. by eexists. }
    unfold open_approval. destruct (well_formed_id approval_id); [|by eexists].
    cbn [ui_ensure]. unfold mbind, ui_bind. cbn -[on_windows close ignoring].
    rewrite bool_decide_eq_true_2 by (by eexists).
    destruct (kept_close APPROVAL app' w' Hw') as (w2 & Hw2 & _).
    unfold ignoring. destruct (close APPROVAL app') as [r app2]. cbn [snd] in Hw2. cbn beta iota.
    unfold on_windows at 1.
    destruct (build_taken APPROVAL (visible_at ("/approval/" +:+ approval_id)) (app_windows app2))
      as [Hb _]; [by eexists|].
    cbn [snd]. destruct (build_window _ _ _) as [[[]|e] s2]; [done|]. by eexists.
  - intros [|request pending]; [done|]. cbn [bring_forward].
    by rewrite bool_decide_eq_true_2 by (by eexists).
Qed.
End Approval.
