(* ===== verification/DesktopWatch.v ===== *)
(** * DesktopWatch: the loop of the desktop application

    The icon shows the last answer of the daemon, and each request is announced
    once while it is pending. *)

From S2P Require Import Prelude.
From S2P Require Import Externals.
From S2P Require Import Domain.
From S2P Require Import Crypto.
From S2P Require Import DomView.
From S2P Require Import OAuth.
From S2P Require Import Protocol.
From S2P Require Import Framing.
From S2P Require Import BrokerState.
From S2P Require Import Admin.
From S2P Require Import Ui.
From S2P Require Import Wire.
From S2P Require Import Server.
From S2P Require Import Installation.
From S2P Require Import AdminClient.
From S2P Require Import CliAdmin.
From S2P Require Import Desktop.
From S2P Require Import DesktopProps.

(** ** What was emitted so far *)

Definition statuses (log : list Emitted) : list UiStatus :=
  omap (fun e => match e with EmitStatus status => Some status | _ => None end) log.
Definition pendings (log : list Emitted) : list (list UiAuthorizationRequest) :=
  omap (fun e => match e with EmitPending pending => Some pending | _ => None end) log.

(** The state the interface was told last. *)
Definition told (log : list Emitted) : UiProtectionState.t :=
  default UiProtectionState.Disconnected (us_protection <$> list.last (statuses log)).
(** The requests the interface was told last. *)
Definition listed (log : list Emitted) : list string :=
  map ua_approval_id (default [] (list.last (pendings log))).

Section Watching.
Context `{Hashes, Signatures, Aead, X25519, Base64, JsonCodec, !JsonReader, Serde, UnicodeCase,
  SettingsFile, WritableFiles, LocalAuthentication, InstallationPath} {W S : Type}
  `{AdminPeer W, WindowSystem S}.
Implicit Type app : App W S.

(** ** The commands leave the loop alone *)

Definition frame app := (app_tray app, app_notified app, app_emitted app, app_watcher app).
Definition quiet app app' : Prop := frame app' = frame app.
#[local] Instance quiet_preorder : PreOrder quiet.
Proof. split; [by intros app|]. unfold quiet. congruence. Qed.

Lemma quiet_on_windows {A : Type} (f : S -> result string A * S) : steps quiet (on_windows f).
Proof. by apply steps_on_windows. Qed.
#[local] Hint Resolve quiet_on_windows : steps.

Lemma quiet_close label : steps quiet (close label).
Proof. apply quiet_on_windows. Qed.
Lemma quiet_open_approval approval_id : steps quiet (open_approval approval_id).
Proof. unfold open_approval, hide_popover, window_exists, close. steps. Qed.
Lemma quiet_open_manage section : steps quiet (open_manage section).
Proof. unfold open_manage, hide_popover, window_exists. steps. Qed.
Lemma quiet_toggle tray_rect : steps quiet (toggle_popover tray_rect).
Proof. unfold toggle_popover, build_popover, window_exists. steps. Qed.
Lemma quiet_call_daemon method params app : quiet app (snd (call_daemon method params app)).
Proof. by apply call_daemon_steps. Qed.
Lemma quiet_bring_forward pending app : quiet app (bring_forward pending app).
Proof.
  destruct pending as [|request pending]; [done|]. cbn [bring_forward].
  destruct (bool_decide _); [done|apply quiet_open_approval].
Qed.

(** ** The announcements *)

Lemma announce_each_spec detail pending app :
  NoDup (map ua_approval_id pending) ->
  app_notified (announce_each detail pending app)
  = app_notified app ++ map (fun r => (REQUEST_WAITING, announcement detail r))
      (List.filter (fun r => negb (bool_decide (ua_approval_id r ∈ announced (app_watcher app))))
         pending).
Proof.
  revert app. induction pending as [|request pending IH]; intros app Hn; cbn; [by rewrite app_nil_r|].
  apply list.NoDup_cons in Hn as [Hnot Hn]. rewrite IH by done.
  destruct (bool_decide (ua_approval_id request ∈ _)) eqn:E; cbn; [done|].
  rewrite <-app_assoc. cbn. do 3 f_equal. apply List.filter_ext_in. intros r Hr. f_equal.
  apply bool_decide_ext. rewrite elem_of_union, elem_of_singleton.
  split; [|by right]. intros [Hx|Hx]; [|done]. destruct Hnot. rewrite <-Hx.
  by apply list_elem_of_In, in_map.
Qed.

Lemma announce_each_watcher detail pending app :
  let app' := announce_each detail pending app in
  announced (app_watcher app') = request_ids pending ∪ announced (app_watcher app) /\
  previous_state (app_watcher app') = previous_state (app_watcher app) /\
  confirmed_completion (app_watcher app') = confirmed_completion (app_watcher app) /\
  app_tray app' = app_tray app /\ app_emitted app' = app_emitted app.
Proof.
  revert app. induction pending as [|request pending IH]; intros app app'; subst app'; cbn.
  - split_and!; try done. set_solver.
  - destruct (bool_decide _) eqn:E.
    + apply bool_decide_eq_true in E.
      destruct (IH app) as (Ha & -> & -> & -> & ->). split_and!; try done. rewrite Ha.
      unfold request_ids. cbn. set_solver.
    + match goal with |- context [announce_each detail pending ?x] =>
        destruct (IH x) as (Ha & -> & -> & -> & ->) end.
      split_and!; try done. rewrite Ha. unfold request_ids. cbn. set_solver.
Qed.

(** ** The invariant of the loop *)

(** How often the end of an operation was confirmed, and how often the loop saw
    one under way. *)
Definition confirmations app : nat :=
  length (List.filter (fun note => bool_decide (note = COMPLETED)) (app_notified app)).
Definition operations app : nat :=
  length (List.filter (fun status =>
    bool_decide (us_protection status = UiProtectionState.SensitiveOperation))
    (statuses (app_emitted app))).

Record watching app : Prop := {
  wa_previous : previous_state (app_watcher app)
    = us_protection <$> list.last (statuses (app_emitted app));
  wa_tray : app_tray app = Some (told (app_emitted app));
  wa_announced : announced (app_watcher app) = list_to_set (listed (app_emitted app));
  wa_confirmed : (confirmations app + (if confirmed_completion (app_watcher app) then 0 else 1)
    <= 1 + operations app)%nat
}.

Lemma watching_quiet app app' : quiet app app' -> watching app -> watching app'.
Proof.
  unfold quiet, frame. intros [= Ht Hn He Hw] [].
  constructor; unfold confirmations, operations; by rewrite ?Ht, ?Hn, ?He, ?Hw.
Qed.

Lemma statuses_status log status :
  statuses (log ++ [EmitStatus status]) = statuses log ++ [status].
Proof. unfold statuses, pendings. by rewrite omap_app. Qed.
Lemma statuses_pending log pending : statuses (log ++ [EmitPending pending]) = statuses log.
Proof. unfold statuses. rewrite omap_app. apply app_nil_r. Qed.
Lemma pendings_status log status : pendings (log ++ [EmitStatus status]) = pendings log.
Proof. unfold pendings. rewrite omap_app. apply app_nil_r. Qed.
Lemma pendings_pending log pending :
  pendings (log ++ [EmitPending pending]) = pendings log ++ [pending].
Proof. unfold statuses, pendings. by rewrite omap_app. Qed.

Lemma filter_snoc_length {A : Type} (f : A -> bool) l a :
  length (List.filter f (l ++ [a])) = (length (List.filter f l) + (if f a then 1 else 0))%nat.
Proof. rewrite List.filter_app, length_app. cbn. by destruct (f a). Qed.

Lemma confirmations_notify title body app :
  confirmations (notify title body app)
  = (confirmations app + (if bool_decide ((title, body) = COMPLETED) then 1 else 0))%nat.
Proof. apply (filter_snoc_length (fun note => bool_decide (note = COMPLETED))). Qed.

(** What the outcome changes: notifications and the flag. *)
Lemma announce_outcome_spec current app :
  let app' := announce_outcome current app in
  app_tray app' = app_tray app /\ app_emitted app' = app_emitted app /\
  announced (app_watcher app') = announced (app_watcher app) /\
  (confirmations app' + (if confirmed_completion (app_watcher app') then 0 else 1)
   <= confirmations app + (if confirmed_completion (app_watcher app) then 0 else 1)
      + (if bool_decide (current = UiProtectionState.SensitiveOperation) then 1 else 0))%nat.
Proof.
  intros app'. subst app'. unfold announce_outcome.
  destruct (bool_decide (notification_detail _ = _)); [split_and!; try done; lia|].
  destruct (bool_decide (current = UiProtectionState.Completed) && _ && _).
  { destruct (confirmed_completion (app_watcher app)) eqn:Ec;
      [rewrite Ec; split_and!; try done; lia|].
    split_and!; try done. rewrite confirmations_notify.
    rewrite bool_decide_eq_true_2 by done. unfold confirmations. cbn. lia. }
  destruct (bool_decide (current = UiProtectionState.ProtectionInterrupted)).
  { split_and!; try done. rewrite confirmations_notify.
    rewrite bool_decide_eq_false_2 by done. cbn. lia. }
  destruct (bool_decide (current = UiProtectionState.OutcomeUncertain)).
  { split_and!; try done. rewrite confirmations_notify.
    rewrite bool_decide_eq_false_2 by done. cbn. lia. }
  destruct (bool_decide (current = UiProtectionState.SensitiveOperation));
    split_and!; try done; try lia. cbn. unfold confirmations. cbn.
  destruct (confirmed_completion _); lia.
Qed.

Lemma see_status_emitted status app :
  app_emitted (see_status status app)
  = app_emitted app ++ [EmitStatus (default disconnected_status status)].
Proof.
  unfold see_status. set (status' := default disconnected_status status). cbn. f_equal.
  destruct (bool_decide _); [done|]. cbn.
  destruct (announce_outcome_spec (us_protection status') (apply_state (us_protection status') app))
    as (_ & -> & _). unfold apply_state. by destruct (app_tray app).
Qed.

Lemma watching_see_status status app : watching app -> watching (see_status status app).
Proof.
  intros [Hp Ht Ha Hc]. unfold see_status. set (status' := default disconnected_status status).
  set (state := us_protection status'). 
  destruct (bool_decide (previous_state (app_watcher app) = Some state)) eqn:E.
  - apply bool_decide_eq_true in E. constructor; cbn.
    + by rewrite statuses_status, last_snoc.
    + rewrite Ht. unfold told. by rewrite statuses_status, last_snoc, <-Hp, E.
    + rewrite Ha. unfold listed. by rewrite pendings_status.
    + unfold confirmations, operations in *. cbn. rewrite statuses_status, filter_snoc_length. lia.
  - set (app1 := apply_state state app).
    assert (K1 : app_tray app1 = Some state /\ app_emitted app1 = app_emitted app /\
              app_watcher app1 = app_watcher app /\ app_notified app1 = app_notified app).
    { subst app1. unfold apply_state. by rewrite Ht. }
    destruct K1 as (T1 & E1 & W1 & N1).
    destruct (announce_outcome_spec state app1) as (T2 & E2 & A2 & C2).
    constructor; cbn.
    + by rewrite statuses_status, last_snoc.
    + rewrite T2, T1. unfold told. by rewrite statuses_status, last_snoc.
    + rewrite A2, W1, Ha, E2, E1. unfold listed. by rewrite pendings_status.
    + unfold operations in *. cbn. rewrite E2, E1, statuses_status, filter_snoc_length. fold state.
      unfold confirmations in *. cbn. rewrite N1, W1 in C2. lia.
Qed.

Lemma confirmations_announce_each detail pending app :
  confirmations (announce_each detail pending app) = confirmations app.
Proof.
  revert app. induction pending as [|request pending IH]; intros app; cbn; [done|]. rewrite IH.
  destruct (bool_decide _); [done|]. rewrite confirmations_notify.
  rewrite (bool_decide_eq_false_2 ((REQUEST_WAITING, _) = COMPLETED)) by done.
  unfold confirmations. cbn. lia.
Qed.

(** After a poll the loop remembers what it was told, and nothing else changed but
    the notifications. *)
Lemma announce_new_requests_spec pending app :
  let app' := announce_new_requests pending app in
  announced (app_watcher app') = request_ids pending ∪ announced (app_watcher app) /\
  previous_state (app_watcher app') = previous_state (app_watcher app) /\
  confirmed_completion (app_watcher app') = confirmed_completion (app_watcher app) /\
  app_tray app' = app_tray app /\ app_emitted app' = app_emitted app /\
  confirmations app' = confirmations app.
Proof.
  cbv zeta. unfold announce_new_requests. destruct (bool_decide _); [done|].
  set (app1 := announce_each _ pending app).
  destruct (announce_each_watcher (notification_detail (load app)) pending app) as (Ha & Hp & Hc & Ht & He).
  fold app1 in Ha, Hp, Hc, Ht, He.
  assert (Hq := quiet_bring_forward pending app1). unfold quiet, frame in Hq.
  injection Hq as Hqt Hqn Hqe Hqw. rewrite Hqw, Hqt, Hqe. split_and!; try done.
  unfold confirmations at 1. rewrite Hqn. apply confirmations_announce_each.
Qed.

Lemma watching_see_pending pending app : watching app -> watching (see_pending pending app).
Proof.
  intros [Hp Ht Ha Hc]. unfold see_pending.
  destruct (announce_new_requests_spec pending (emit (EmitPending pending) app))
    as (Ha' & Hp' & Hc' & Ht' & He' & Hcf). set (app1 := announce_new_requests _ _) in *.
  cbn in Hp', Hc', Ht', He'.
  constructor; cbn.
  - by rewrite Hp', He', statuses_pending.
  - rewrite Ht', He', Ht. unfold told. by rewrite statuses_pending.
  - rewrite Ha', He'. unfold listed. rewrite pendings_pending, last_snoc. cbn.
    unfold request_ids. set_solver.
  - unfold operations in *. cbn. rewrite He', statuses_pending, Hc'.
    change (confirmations app1 + (if confirmed_completion (app_watcher app) then 0 else 1)
      <= 1 + operations app)%nat. rewrite Hcf. exact Hc.
Qed.

(** The notifications of one poll. *)
Lemma see_pending_notifies pending app :
  watching app -> NoDup (map ua_approval_id pending) ->
  app_notified (see_pending pending app) = app_notified app ++
    let detail := notification_detail (load app) in
    if bool_decide (detail = NotificationDetail.Disabled) then []
    else map (fun r => (REQUEST_WAITING, announcement detail r))
      (List.filter (fun r => negb (bool_decide (ua_approval_id r ∈ listed (app_emitted app))))
         pending).
Proof.
  intros [_ _ Ha _] Hn. unfold see_pending, announce_new_requests. cbn.
  change (load (emit (EmitPending pending) app)) with (load app).
  destruct (bool_decide (notification_detail (load app) = _)); [by rewrite app_nil_r|].
  assert (Hq := quiet_bring_forward pending (announce_each (notification_detail (load app)) pending
    (emit (EmitPending pending) app))). unfold quiet, frame in Hq.
  injection Hq as _ -> _ _. rewrite announce_each_spec by done. cbn. do 2 f_equal.
  apply List.filter_ext. intros r. f_equal. apply bool_decide_ext. rewrite Ha. set_solver.
Qed.

Lemma watching_call method params app : watching app -> watching (snd (call_daemon method params app)).
Proof. apply watching_quiet, quiet_call_daemon. Qed.

Lemma watching_step e app : watching app -> watching (desk_step e app).
Proof.
  intros Hw. destruct e as [| |T c|label| |rect|id|w|path bytes]; cbn [desk_step].
  - unfold watch_status. pose proof (watching_call "ui.status" no_params app Hw) as Hc.
    destruct (call_daemon _ _ _) as [r app1]. by apply watching_see_status.
  - unfold watch_pending. pose proof (watching_call "ui.pending" no_params app Hw) as Hc.
    destruct (call_daemon _ _ _) as [r app1]. by apply watching_see_pending.
  - revert Hw. apply watching_quiet.
    apply (steps_invoke quiet); intros; try done; auto with steps.
    + apply quiet_open_approval.
    + apply quiet_open_manage.
    + apply quiet_close.
  - revert Hw. apply watching_quiet, quiet_close.
  - revert Hw. apply watching_quiet, quiet_on_windows.
  - revert Hw. apply watching_quiet, quiet_toggle.
  - revert Hw. apply watching_quiet. unfold menu_chosen.
    destruct (List.find _ _) as [[]|]; [apply quiet_open_manage|done].
  - by apply (watching_quiet app).
  - by apply (watching_quiet app).
Qed.

Lemma watching_run events app : watching app -> watching (desk_run events app).
Proof.
  revert app. induction events as [|e events IH]; intros app Hw; [done|].
  by apply IH, watching_step.
Qed.

Lemma watching_setup w s files : watching (snd (setup (new_app w s files))).
Proof.
  set (app := with_tray (new_app w s files) (Some UiProtectionState.Disconnected)).
  assert (Hw : watching app) by (constructor; try done; cbn; lia).
  revert Hw. apply watching_quiet.
  apply (ui_steps_bind quiet build_popover); [apply quiet_on_windows|]. intros _.
  unfold open_onboarding, window_exists. steps.
Qed.

(** C39: the icon and the notifications follow the daemon. In an application that
    was set up, whatever has happened since, the icon shows the state of the last
    answer that was passed on to the interface, and what the next turn of the loop
    passes on is the answer it got, or the disconnected state when there was none
    that it can read. Unless notifications are off, the next turn announces exactly
    the pending requests that were not in its last list, each once, in the words of
    the settings. And the end of an operation was confirmed at most once more than
    an operation was seen under way. *)
Theorem interface_follows_the_daemon w s files events :
  let app := desk_run events (snd (setup (new_app w s files))) in
  app_tray app = Some (told (app_emitted app)) /\
  (forall r app1, call_daemon "ui.status" no_params app = (r, app1) ->
     app_emitted (watch_status app)
     = app_emitted app ++ [EmitStatus (default disconnected_status (readable WUiStatus r))] /\
     app_tray (watch_status app)
     = Some (us_protection (default disconnected_status (readable WUiStatus r)))) /\
  (forall r app1, call_daemon "ui.pending" no_params app = (r, app1) ->
     let pending := default [] (readable WUiRequests r) in
     NoDup (map ua_approval_id pending) ->
     app_notified (watch_pending app) = app_notified app ++
       let detail := notification_detail (load app1) in
       if bool_decide (detail = NotificationDetail.Disabled) then []
       else map (fun r => (REQUEST_WAITING, announcement detail r))
         (List.filter (fun r => negb (bool_decide (ua_approval_id r ∈ listed (app_emitted app))))
            pending)) /\
  (confirmations app <= 1 + operations app)%nat.
Proof.
  intros app. assert (Hw : watching app) by apply watching_run, watching_setup.
  pose proof Hw as [_ Ht _ Hc]. split_and!; [done|..|lia].
  - intros r app1 Er. assert (Hq := quiet_call_daemon "ui.status" no_params app).
    assert (Hs := watching_step StatusPolled app Hw). cbn [desk_step] in Hs.
    assert (He : app_emitted (watch_status app)
      = app_emitted app ++ [EmitStatus (default disconnected_status (readable WUiStatus r))]).
    { unfold watch_status. rewrite Er in *. injection Hq as _ _ He _.
      by rewrite see_status_emitted, He. }
    split; [done|]. destruct Hs as [_ -> _ _]. rewrite He. unfold told.
    by rewrite statuses_status, last_snoc.
  - intros r app1 Er pending Hn. assert (Hq := quiet_call_daemon "ui.pending" no_params app).
    assert (Hw1 := watching_call "ui.pending" no_params app Hw).
    unfold watch_pending. rewrite Er in *. cbn [snd] in Hq, Hw1.
    rewrite see_pending_notifies by done. unfold quiet, frame in Hq.
    by injection Hq as _ -> -> _.
Qed.
End Watching.
