(* ===== verification/DesktopDecisions.v ===== *)
(** * DesktopDecisions: what a decision of the user does

    The desktop application in front of the broker of [AdminAgreement.v]: a
    decision is one run of the broker's method, with the presence that was
    confirmed, or nothing. *)

From S2P Require Import Prelude.
From S2P Require Import Externals.
From S2P Require Import Domain.
From S2P Require Import Policy.
From S2P Require Import Crypto.
From S2P Require Import DomView.
From S2P Require Import Capability.
From S2P Require Import Provider.
From S2P Require Import Store.
From S2P Require Import OAuth.
From S2P Require Import Protocol.
From S2P Require Import Framing.
From S2P Require Import BrokerState.
From S2P Require Import Broker.
From S2P Require Import Admin.
From S2P Require Import Pages.
From S2P Require Import Wire.
From S2P Require Import Handshake.
From S2P Require Import Server.
From S2P Require Import Installation.
From S2P Require Import Agreement.
From S2P Require Import AdminClient.
From S2P Require Import CliAdmin.
From S2P Require Import AdminAgreement.
From S2P Require Import Desktop.

Section Decisions.
Context `{ManagedChrome, Chrono, Hashes, Signatures, Aead, X25519, Base64, Cbor, WireCodec,
  UrlParser, JsonCodec, !JsonReader, HashIter, Environment, HttpClient, SqliteText,
  Monotonic, PeerProcess, PolicySerializer, PolicyYaml, Serde} {P : Type}
  `{SecretProvider P, !OtherTasks P}
  `{!SignatureLaws, !Base64Laws, !X25519Laws, !JsonReaderLaws, !AeadLaws}
  `{SettingsFile, WritableFiles, LocalAuthentication, InstallationPath} {S : Type} `{WindowSystem S}.
Variables (socket_uid : Z) (cred : UCred).
#[local] Instance broker_link : AdminPeer (AdminLink P) := broker_peer socket_uid cred.
Notation DesktopApp := (App (AdminLink P) S).
Implicit Type app : DesktopApp.

(** The application has a session that is not about to expire. *)
Definition in_session app (s : AdminSession) : Prop :=
  app_session app = Some s /\ linked (as_client s) (app_peer app) /\
  is_expiring s (instant_now (w_tick (al_world (app_peer app)))) = false.

(** The link after the age of the session was looked at. *)
Definition ticked (l : AdminLink P) : AdminLink P :=
  with_world l (later (al_world l)) (al_connection l).

Definition says_something (response : RpcResponse) : Prop :=
  is_Some (response_result response) \/ is_Some (response_error response).

(** The command is one run of the method: whatever the method answers comes out of
    the command, and the session goes on. *)
Definition runs_once (m : UiTask (AdminLink P) S CommandError Json) app (s : AdminSession)
    (method : string) (params : Json) : Prop := forall response w2,
  served_call (as_client s) (ticked (app_peer app)) method params response w2 ->
  says_something response ->
  exists app' s', m app = (map_err from_anyhow (response_outcome response), app') /\
    al_world (app_peer app') = w2 /\ app_session app' = Some s' /\
    linked (as_client s') (app_peer app').

(** The command fails, and the daemon hears nothing of it. *)
Definition refused (m : UiTask (AdminLink P) S CommandError Json) app : Prop :=
  is_ok (fst (m app)) = false /\ app_peer (snd (m app)) = app_peer app /\
  app_session (snd (m app)) = app_session app.

Lemma request_runs_once method params app s :
  in_session app s -> runs_once (daemon_request method params) app s method params.
Proof.
  intros (Hs & Hl & He) response w2 Hserved Hsays.
  assert (Hl' : linked (as_client s) (ticked (app_peer app))) by exact Hl.
  destruct (call_run socket_uid cred _ _ _ _ _ _ Hl' Hserved) as (c' & l' & Hc & Hw & Hk & _).
  unfold daemon_request, ui_map_err, call_daemon, connection_call, usable_session.
  rewrite Hs. cbn [peer_clock broker_link broker_peer]. rewrite He. unfold session_call.
  change (with_world (app_peer app) (later (al_world (app_peer app))) (al_connection (app_peer app)))
    with (ticked (app_peer app)).
  change (@link_peer) with (@broker_peer) in Hc. unfold broker_link. rewrite Hc.
  set (s' := {| as_client := c'; as_established_at := as_established_at s |}).
  unfold response_outcome, says_something in *. destruct (response_error response) as [e|].
  - exists (with_connection app (Some s') l'), s'. done.
  - destruct (response_result response) as [v|]; [|by destruct Hsays as [[? [=]]|[? [=]]]].
    exists (with_connection app (Some s') l'), s'. done.
Qed.

(** The system confirms the presence of the user when it is asked next. *)
Definition present app : Prop := presence_outcome (app_prompts app) = PresenceReplied true.

Lemma present_decidable app : present app \/ ~ present app.
Proof. unfold present. destruct (presence_outcome _) as [|[]| |]; auto. Qed.
Lemma verify_present app : present app -> verify app = (Ok true, prompted app).
Proof. unfold present, verify. by intros ->. Qed.
Lemma verify_absent app :
  ~ present app -> exists e, verify app = (Err e, prompted app).
Proof.
  unfold present, verify. intros Hp. destruct (presence_outcome _) as [|[]| |]; try done; eauto.
Qed.

(** C5: a decision is one run of the broker's method or nothing. In a session, an
    approval, a denial and a standing grant each run the method of the broker once,
    with the digest of the page the user was shown and with the presence of the user
    that the system confirmed, and the user is told what the broker answered. An
    approval that requires presence and a standing grant without it, and any
    decision whose digest cannot be decoded, fail without a word to the daemon. *)
Theorem decision_is_one_broker_run app s id text :
  in_session app s ->
  match b64_decode text with
  | Ok digest =>
      runs_once (deny id text) app s "approval.decide" (decide_params id "deny" digest false) /\
      runs_once (approve_once id text false) app s "approval.decide"
        (decide_params id "approve" digest false) /\
      (present app ->
         runs_once (approve_once id text true) app s "approval.decide"
           (decide_params id "approve" digest true) /\
         forall ttl, runs_once (create_grant id text ttl) app s "grant.create"
           (grant_params id digest ttl true))
  | Err _ =>
      refused (deny id text) app /\ (forall b, refused (approve_once id text b) app) /\
      (forall ttl, refused (create_grant id text ttl) app)
  end /\
  (~ present app ->
     refused (approve_once id text true) app /\ forall ttl, refused (create_grant id text ttl) app).
Proof.
  intros Hs. assert (Hs' : in_session (prompted app) s) by exact Hs.
  split; [destruct (b64_decode text) as [digest|e] eqn:E|].
  - unfold deny, approve_once, create_grant, decode_digest, mbind, ui_bind. rewrite E.
    split_and!.
    + apply (request_runs_once _ _ app s Hs).
    + apply (request_runs_once _ _ app s Hs).
    + intros Hp. unfold runs_once. rewrite verify_present by done. split.
      * apply (request_runs_once _ _ (prompted app) s Hs').
      * intros ttl. apply (request_runs_once _ _ (prompted app) s Hs').
  - unfold refused, deny, approve_once, create_grant, decode_digest, mbind, ui_bind. rewrite E.
    destruct (present_decidable app) as [Hp|Hp].
    + split_and!; try done; [intros []|intros ttl]; cbv iota; by rewrite ?verify_present.
    + destruct (verify_absent app Hp) as [e' Hv].
      split_and!; try done; [intros []|intros ttl]; cbv iota; by rewrite ?Hv.
  - intros Hp. destruct (verify_absent app Hp) as [e Hv].
    unfold refused, approve_once, create_grant, mbind, ui_bind. by rewrite Hv.
Qed.
End Decisions.
