(* ===== verification/BrokerExample.v ===== *)
(** * BrokerExample: the theorems about the broker at concrete inputs

    A small broker: one credential in memory, one recipe and one policy rule for
    GitHub's login page, one managed session. It serves as the witness that the
    hypotheses of the theorems about the broker can hold, and shows two runs the
    code allows although its comments and state machines do not. *)

From Stdlib Require Import SpecFloat.
From S2P Require Import Prelude.
From S2P Require Import Externals.
From S2P Require Import Concrete.
From S2P Require Import Domain.
From S2P Require Import Policy.
From S2P Require Import Crypto.
From S2P Require Import DomView.
From S2P Require Import Gateway.
From S2P Require Import AuditChain.
From S2P Require Import Capability.
From S2P Require Import Provider.
From S2P Require Import Table.
From S2P Require Import Store.
From S2P Require Import StoreProps.
From S2P Require Import OAuth.
From S2P Require Import Protocol.
From S2P Require Import BrokerState.
From S2P Require Import Broker.
From S2P Require Import Pages.
From S2P Require Import BrokerProps.
From S2P Require Import BrokerMint.
From S2P Require Import BrokerRuns.

Import DomExample.

#[local] Existing Instance example_http.
#[export] Instance example_chrome : ManagedChrome := {|
  Launched := unit;
  launch_chrome _ _ := None;
  launched_instance_id _ := MkId "bi_1";
  launched_cdp_pipe _ := None;
  shutdown_chrome _ := true;
  startup_diagnostics _ _ := [] |}.
#[export] Instance example_sqlite_text : SqliteText := {| sqlite_error_text _ := "error" |}.
#[export] Instance example_floats : JsonFloats := {|
  float_of_text _ := S754_zero false; text_of_float _ := Some "0.5" |}.
(** A clock that reads a second later each time, and sleeps that long. *)
#[export] Instance example_monotonic : Monotonic := {|
  instant_now n := Z.of_nat n * 1000000000;
  sleep_until n d := (n + Z.to_nat (d / 1000000000) + 1)%nat |}.
#[export] Instance example_monotonic_laws : MonotonicLaws.
Proof.
  split; cbn.
  - intros i j Hij. lia.
  - intros i d. lia.
  - intros i d Hd. pose proof (Z.div_mod d 1000000000). pose proof (Z.mod_pos_bound d 1000000000).
    pose proof (Z.div_pos d 1000000000). rewrite !Nat2Z.inj_add, Z2Nat.id by lia. lia.
Qed.

Definition github : CanonicalOrigin := MkOrigin "https" "github.com" 443.
Definition session_id : BrowserSessionId := MkId "bs_1".
Definition agent_id : AgentId := MkId "agent_1".
Definition request_id : RequestId := MkId "req_1".

Definition example_credential : CredentialDescriptor := {|
  cred_credential_id := MkId "cred_1"; cred_name := "github"; cred_kind := "password";
  cred_provider := "memory"; cred_provider_locator := "loc";
  cred_allowed_actions := [AuthenticatePassword]; cred_metadata_json := "{}";
  cred_disabled_at := None |}.

Definition example_recipe : SiteRecipe := {|
  rcp_recipe_id := MkId "rcp_1"; rcp_version := 1; rcp_name := "GitHub";
  rcp_action := AuthenticatePassword;
  rcp_match_rule := {| rm_top_origin := github; rm_path_prefix := Some "/login";
                       rm_frame_origin := None |};
  rcp_fields := [{| rf_role := "username"; rf_selector := "#login"; rf_optional := true;
                    rf_clear_first := true |};
                 {| rf_role := "password"; rf_selector := "#password"; rf_optional := false;
                    rf_clear_first := true |}];
  rcp_submit := None; rcp_success_indicators := None; rcp_oauth := None;
  rcp_content_hash := [Byte.x02]; rcp_enabled := true |}.

(** A policy that asks for the user's presence, or not. *)
Definition example_policy (presence : bool) : PolicyEvaluator := {|
  pe_document := {| doc_version := "1.0"; doc_rules := [{|
    pr_id := MkId "rule_1"; pr_description := None; pr_effect := Allow;
    pr_principals := ["*"]; pr_credentials := ["*"]; pr_actions := [AuthenticatePassword];
    pr_destinations := [{| dr_origin := github; dr_path_prefix := Some "/login" |}];
    pr_conditions := {| rc_browser_assurance := Some "managed";
      rc_require_user_presence := presence; rc_max_uses := 1;
      rc_max_consume_ttl_seconds := 30; rc_max_execution_ttl_seconds := 120 |} |}] |};
  pe_policy_hash := [Byte.x01] |}.

Definition example_session : BrowserSession := {|
  bs_session_id := session_id; bs_instance_id := MkId "bi_1"; bs_extension_key_id := "extkey_1";
  bs_profile_id := "default"; bs_assurance := "managed"; bs_state := BrowserSessionState.Active;
  bs_last_heartbeat_at := env_now 0 |}.

Definition example_page : ExecutorContextPayload := {|
  xc_browser_session_id := session_id; xc_tab_id := 7; xc_frame_id := 0; xc_document_id := "doc";
  xc_navigation_epoch := 1; xc_top_origin := github; xc_frame_origin := github;
  xc_path := "/login"; xc_path_sha256 := ""; xc_tls := true; xc_incognito := false |}.

Definition example_request : ActionRequestParams := {|
  rq_request_id := request_id; rq_action := AuthenticatePassword; rq_identity := "github";
  rq_target := {| to_origin := github; to_path_prefix := None |};
  rq_browser_session_id := session_id; rq_tab_hint := None; rq_reason := "log in";
  rq_wait := false; rq_timeout_ms := 1000; rq_client_context := None |}.

Definition example_database : Store := snd (run_op (OpInsertCredential example_credential) empty_store).
Definition example_provider : MemorySecretProvider :=
  snd (store_secret "loc" (as_bytes "hunter2") memory_new).

Definition example_broker (presence : bool) : World MemorySecretProvider := {|
  w_broker := {|
    broker_key := example_broker_key; key_id := "key_1"; store := example_database;
    provider := example_provider; policy_evaluator := example_policy presence; sessions := ∅;
    page_contexts := ∅; capabilities := ∅; pending_offers := ∅; executions := ∅;
    oauth_executions := ∅; requests := ∅; request_agents := ∅; request_fingerprints := ∅;
    approvals := ∅; recipes := ∅; managed_browsers := ∅; audit_key_version := 1;
    audit_key := {| secret_data := example_audit_key |};
    audit_cursor := {| cu_next_sequence := 1; cu_latest_hash := GENESIS_PREVIOUS_HASH |} |};
  w_tick := 0 |}.

(** The session and the page are known to the broker. *)
Definition ready (presence : bool) : World MemorySecretProvider :=
  run_calls Macos [CallRegisterRecipe example_recipe; CallRegisterSession example_session;
    CallPrepare example_page] (example_broker presence).

Definition answered : outcome RpcError ActionResponseResult * World MemorySecretProvider :=
  handle_action_request Macos agent_id example_request (ready false).
Definition token_of (w : World MemorySecretProvider) : string :=
  default "" (ce_token ∘ snd <$> head (map_to_list (capabilities (w_broker w)))).
Definition consume_params (w : World MemorySecretProvider) : ExecutorConsumeParams := {|
  xs_capability_token := token_of w; xs_session_signature := "";
  xs_current_context := example_page |}.

(** A pending approval, and the page reported again. *)
Definition asked_for : outcome RpcError ActionResponseResult * World MemorySecretProvider :=
  handle_action_request Macos agent_id example_request (ready true).
Definition approval_of (w : World MemorySecretProvider) : ApprovalId * list byte :=
  default (MkId "", []) ((fun '(i, e) => (i, apr_context_digest (pn_approval e)))
    <$> head (map_to_list (approvals (w_broker w)))).
Definition reported : World MemorySecretProvider :=
  run_calls Macos [CallPrepare example_page] (snd asked_for).

(** A run whose outcome is a success, by evaluation. *)
Lemma evaluates {A : Type} (run : outcome RpcError A * World MemorySecretProvider) :
  match fst run with Done _ => true | _ => false end = true ->
  exists a, run = (Done a, snd run).
Proof. destruct run as [[a|e|] w]; [by exists a|done..]. Qed.

(** ** Witnesses *)

Lemma capability_stands_on_authorization_witness :
  exists now a, authorized agent_id example_request now (w_broker (ready false)) a /\
    au_agent_id a = agent_id.
Proof.
  destruct (evaluates (handle_new_action_request Macos agent_id example_request (ready false)))
    as [r Hr]; [vm_compute; reflexivity|].
  destruct (capability_stands_on_authorization Macos _ _ _ _ _ Hr) as (now & a & Ha & _).
  exists now, a. split; [exact Ha | exact (proj1 (proj2 (az_asked _ _ _ _ _ Ha)))].
Defined.

Lemma request_replay_answers_the_same_witness :
  exists r, handle_action_request Macos agent_id example_request (snd answered)
    = (Done r, snd answered).
Proof.
  destruct (evaluates answered) as [r Hr]; [vm_compute; reflexivity|].
  exists r. exact (proj1 (request_replay_answers_the_same Macos _ _ _ _ _ Hr)).
Defined.

Lemma approval_mints_only_as_asked_witness :
  exists i digest r w, decide_approval i true digest "user" true reported = (Done r, w) /\
    approvals (w_broker w) !! i = None.
Proof.
  destruct (approval_of (snd asked_for)) as [i digest] eqn:Ha.
  destruct (evaluates (decide_approval i true digest "user" true reported)) as [r Hr].
  { assert (i = fst (approval_of (snd asked_for))) as -> by (rewrite Ha; reflexivity).
    assert (digest = snd (approval_of (snd asked_for))) as -> by (rewrite Ha; reflexivity).
    vm_compute. reflexivity. }
  exists i, digest, r, (snd (decide_approval i true digest "user" true reported)).
  split; [exact Hr | exact (proj1 (approval_mints_only_as_asked _ _ _ _ _ _ _ _ Hr))].
Defined.

Lemma secret_released_only_when_bound_witness :
  exists r c secret, values_from c secret (xr_fields r) /\
    secret_at (ce_provider_locator (cs_entry c)) (provider (w_broker (snd answered))) = Some secret.
Proof.
  destruct (evaluates (handle_executor_consume (consume_params (snd answered)) (snd answered)))
    as [r Hr]; [vm_compute; reflexivity|].
  destruct (secret_released_only_when_bound _ _ _ _ Hr)
    as (c & b1 & recipe & secret & _ & _ & _ & _ & Hs & _ & Hv & _).
  exists r, c, secret. split; [exact Hv | exact Hs].
Defined.

Definition example_calls : list Call :=
  [CallAction agent_id example_request; CallConsume (consume_params (snd answered));
   CallRestart example_now (example_policy false); CallConsume (consume_params (snd answered));
   CallCheckpoint].

Example the_secret_is_released_once :
  released Macos (token_of (snd answered)) example_calls (ready false) = 1.
Proof. vm_compute. reflexivity. Qed.

Lemma example_calls_ordinary : Forall (fun c => ordinary c = true) example_calls.
Proof. repeat constructor. Qed.

Lemma secret_released_at_most_once_witness :
  released Macos (token_of (snd answered)) example_calls (ready false) <= 1.
Proof.
  refine (proj1 (secret_released_at_most_once Macos _ example_calls (ready false)
    example_calls_ordinary _)).
  apply (bool_decide_unpack _). vm_compute. exact I.
Defined.

Lemma example_log_ok presence : audit_log_ok (w_broker (ready presence)).
Proof.
  exists []. split; [by vm_compute|]. split; [constructor|]. split; [by vm_compute|].
  split; [by vm_compute|]. by vm_compute.
Qed.

Lemma audit_log_always_verifies_witness :
  fst (verify_audit_integrity (run_calls Macos example_calls (ready false))) = Done tt.
Proof.
  refine (proj2 (audit_log_always_verifies Macos example_calls (ready false)
    example_calls_ordinary (example_log_ok false)) _).
  vm_compute. reflexivity.
Defined.

(** ** Two runs that should not be *)

(** A cancelled request can still get its capability. [action.cancel] settles
    the request as cancelled but leaves its approval pending, and the decision
    on that approval does not look at the request: here the agent asks, cancels,
    the page is reported again, the user approves, and the request moves from
    the terminal state Cancelled to CapabilityIssued, with a capability that the
    executor can consume. *)
Theorem cancelled_request_still_gets_capability :
  let w := run_calls Macos [CallCancel agent_id request_id; CallPrepare example_page]
             (snd asked_for) in
  let '(i, digest) := approval_of (snd asked_for) in
  let w' := snd (decide_approval i true digest "user" true w) in
  ar_state <$> requests (w_broker w) !! request_id = Some ActionRequestState.Cancelled /\
  ar_state <$> requests (w_broker w') !! request_id = Some ActionRequestState.CapabilityIssued /\
  is_ok (ActionRequestState.transition_to ActionRequestState.Cancelled
           ActionRequestState.CapabilityIssued) = false /\
  releases (token_of w') (CallConsume (consume_params w')) w' = true.
Proof. vm_compute. by split_and!. Qed.

(** A repeated report of success takes the evidence back: the database refuses
    the second finish of the execution, and the handler then reads the refusal
    as lost evidence and overwrites the terminal state of the request. *)
Definition consumed_run : World MemorySecretProvider :=
  snd (handle_executor_consume (consume_params (snd answered)) (snd answered)).
Definition report : ExecutorResultParams := {|
  xe_execution_id := default (MkId "") (fst <$> head (map_to_list (executions (w_broker consumed_run))));
  xe_status := "completed"; xe_result_code := "SUCCESS" |}.

Theorem repeated_report_loses_evidence :
  let w := run_calls Macos [CallResult report] consumed_run in
  let w' := run_calls Macos [CallResult report] w in
  ar_state <$> requests (w_broker w) !! request_id = Some ActionRequestState.Completed /\
  ar_state <$> requests (w_broker w') !! request_id
    = Some ActionRequestState.CompletedEvidenceLost /\
  store (w_broker w') = store (w_broker w).
Proof. vm_compute. by split_and!. Qed.
