(* ===== verification/PagesExample.v ===== *)
(** * PagesExample: an agent browses, and the witnesses of its theorems

    The broker of [BrokerExample.v] with a managed browser whose Chrome answers
    from a script. *)

From Stdlib Require Import SpecFloat.
From S2P Require Import Prelude.
From S2P Require Import Externals.
From S2P Require Import Concrete.
From S2P Require Import Domain.
From S2P Require Import Policy.
From S2P Require Import Crypto.
From S2P Require Import DomView.
From S2P Require Import DomViewProps.
From S2P Require Import Gateway.
From S2P Require Import GatewayProps.
From S2P Require Import AuditChain.
From S2P Require Import Capability.
From S2P Require Import Provider.
From S2P Require Import Table.
From S2P Require Import Store.
From S2P Require Import OAuth.
From S2P Require Import Protocol.
From S2P Require Import BrokerState.
From S2P Require Import Broker.
From S2P Require Import Pages.
From S2P Require Import BrokerProps.
From S2P Require Import PagesProps.
From S2P Require Import BrokerExample.
Import DomExample.

#[local] Existing Instance example_http.
(** ** A browser with a script *)

Definition answer (id : Z) (result : Json) : list byte :=
  frame_of (JObject [("id", JNumber id); ("result", result)]).
Definition scripted (script : list (list byte)) : ManagedBrowser := {|
  mb_launched := tt;
  mb_cdp_pipe := Some {| pipe_incoming := concat script; pipe_read_error := None;
    pipe_written := []; pipe_room := None; pipe_write_error := "broken pipe"; pipe_next_id := 1 |};
  mb_filter := ∅ |}.
Definition with_browser (script : list (list byte)) (w : World MemorySecretProvider) :
    World MemorySecretProvider := {|
  w_broker := set_managed_browsers (w_broker w) {[MkId "bi_1" := scripted script]};
  w_tick := w_tick w |}.

Definition attached : list byte := answer 1 (JObject [("sessionId", JString "s1")]).
Definition read_params (locator : option SafeLocator) : PageReadTextParams := {|
  pd_session_id := session_id; pd_tab_id := "tab"; pd_locator := locator; pd_max_chars := None |}.

(** ** What reading shows *)

Example document_text :
  fst (handle_page_read_text (read_params None)
    (with_browser [attached; answer 2 (JObject [("root", login_page)])] (ready false)))
  = Done (JObject [("text", JString "Sign in to Example Sign in Forgot password?");
                   ("truncated", JBool false)]).
Proof. vm_compute. reflexivity. Qed.

Definition heading : Json := element "H1" 2 [] [text "Sign in to Example"].
Definition heading_script : list (list byte) :=
  [attached; answer 2 (JObject [("root", JObject [("nodeId", JNumber 1)])]);
   answer 3 (JObject [("nodeIds", JArray [JNumber 2])]); answer 4 (JObject [("node", heading)])].

Example element_text :
  fst (handle_page_read_text (read_params (Some (LocatorCss "h1")))
    (with_browser heading_script (ready false)))
  = Done (JObject [("text", JString "[REDACTED]"); ("truncated", JBool false)]).
Proof. vm_compute. reflexivity. Qed.

(** The password field of the page is described, and nothing more is sent. *)
Example password_field_refused :
  fst (handle_page_type_public {| pt_session_id := session_id; pt_tab_id := "tab";
      pt_locator := LocatorCss "#pw"; pt_text := "guess" |}
    (with_browser [attached; answer 2 (JObject [("root", JObject [("nodeId", JNumber 1)])]);
       answer 3 (JObject [("nodeIds", JArray [JNumber 5])]);
       answer 4 (JObject [("node", element "INPUT" 5 ["type"; "password"] [])])] (ready false)))
  = Fail (locator_failure RProtected).
Proof. vm_compute. reflexivity. Qed.

Definition wait_params : PageWaitForParams := {|
  pw_session_id := session_id; pw_tab_id := "tab"; pw_condition := UrlPrefix "https://x";
  pw_timeout_ms := Some 1 |}.

(** ** Witnesses *)

Lemma element_text_is_never_shown_witness :
  exists n, pp_text (from_node (sanitize_generic_json heading) default_limits) `prefix_of` markers n.
Proof.
  apply (element_text_is_never_shown
    (JObject [("id", JNumber 4); ("result", JObject [("node", heading)])])
    (JObject [("node", sanitize_generic_json heading)])); vm_compute; reflexivity.
Defined.

Lemma no_observation_after_release_witness :
  exists r w', handle_executor_consume (consume_params (snd answered))
      (with_browser [] (snd answered)) = (Done r, w') /\
    fst (run_browser_call (PageReadText (read_params None)) w')
    = Fail (rpc_error RpcErrorCode.OBSERVATION_BLOCKED
        "Observation is blocked while an authentication action is in progress").
Proof.
  destruct (evaluates (handle_executor_consume (consume_params (snd answered))
    (with_browser [] (snd answered)))) as [r Hr]; [vm_compute; reflexivity|].
  destruct (no_observation_after_release _ _ _ _ Hr) as (c & b1 & _ & _).
  eexists _, _. split; [exact Hr|]. vm_compute. reflexivity.
Defined.

Definition example_browsing : list BrowserCall :=
  [BrowserNavigate {| bn_session_id := session_id; bn_tab_id := "tab"; bn_url := "javascript:0" |};
   PageReadText (read_params None)].

Lemma browsing_only_sends_screened_commands_witness :
  let w := with_browser [attached; answer 2 (JObject [("root", login_page)])] (ready false) in
  let w' := fold_left (fun w c => snd (run_browser_call c w)) example_browsing w in
  option_Forall2 (pipe_evolves agent_request)
    (managed_browsers (w_broker w) !! MkId "bi_1") (managed_browsers (w_broker w') !! MkId "bi_1").
Proof.
  exact (proj2 (browsing_only_sends_screened_commands example_browsing
    (with_browser [attached; answer 2 (JObject [("root", login_page)])] (ready false))) (MkId "bi_1")).
Defined.

Lemma wait_ends_witness :
  fst (handle_page_wait_for wait_params (with_browser [] (ready false))) <> Done None.
Proof.
  exact (proj1 (proj2 (wait_ends wait_params (with_browser [] (ready false))))).
Defined.
