(* ===== verification/UiExample.v ===== *)
(** * UiExample: the theorems about the interface at concrete inputs

    The broker of [BrokerExample] with its agent enrolled, asked through the
    desktop interface. Two runs show what the operations of the interface allow
    although their comments say otherwise. *)

From Stdlib Require Import Sorted Permutation.
From S2P Require Import Prelude.
From S2P Require Import Externals.
From S2P Require Import Concrete.
From S2P Require Import Domain.
From S2P Require Import DomView.
From S2P Require Import Policy.
From S2P Require Import Crypto.
From S2P Require Import Gateway.
From S2P Require Import AuditChain.
From S2P Require Import Capability.
From S2P Require Import Provider.
From S2P Require Import Table.
From S2P Require Import Store.
From S2P Require Import StoreProps.
From S2P Require Import OAuth.
From S2P Require Import Protocol.
From S2P Require Import Admin.
From S2P Require Import BrokerState.
From S2P Require Import Broker.
From S2P Require Import Ui.
From S2P Require Import Pages.
From S2P Require Import UiProps.
From S2P Require Import UiSecrets.
From S2P Require Import UiGrants.
From S2P Require Import BrokerRuns.
From S2P Require Import BrokerExample.

Import DomExample.

#[local] Existing Instance example_http.

Definition example_agent : AgentPrincipal := {|
  ag_agent_id := agent_id; ag_role := "agent"; ag_public_key := [Byte.x05];
  ag_display_name := "Claude"; ag_peer_uid := None; ag_executable_path := None;
  ag_executable_hash := None; ag_state := "enrolled"; ag_created_at := env_now 0 |}.

(** The agent is enrolled, has asked, and the page was reported again. *)
Definition enrolled_broker (presence : bool) : World MemorySecretProvider :=
  run_calls Macos [CallRepository (OpInsertAgent example_agent)] (ready presence).
Definition waiting : World MemorySecretProvider :=
  run_calls Macos [CallAction agent_id example_request; CallPrepare example_page]
    (enrolled_broker true).

Definition grant_params (digest : list byte) : GrantCreateParams := {|
  gc_approval_id := fst (approval_of waiting); gc_context_digest := digest;
  gc_ttl_days := 30; gc_presence_verified := true |}.

Definition another_request : ActionRequestParams := {|
  rq_request_id := MkId "req_2"; rq_action := AuthenticatePassword; rq_identity := "github";
  rq_target := {| to_origin := github; to_path_prefix := None |};
  rq_browser_session_id := session_id; rq_tab_hint := None; rq_reason := "again";
  rq_wait := false; rq_timeout_ms := 1000; rq_client_context := None |}.

Definition state_of (r : RequestId) (w : World MemorySecretProvider) : option ActionRequestState.t :=
  ar_state <$> requests (w_broker w) !! r.

Definition heartbeat : ExecutorHeartbeatParams :=
  {| xh_browser_session_id := session_id; xh_active_tab_count := 1; xh_timestamp := "" |}.

(** A rejected approval still becomes a standing grant. The interface asks
    the kernel to decide first, so that no grant is created when the kernel
    rejects the approval; but a rejection is not an error of the kernel, it is a
    response whose state says so, and that state is not looked at. Here the
    digest sent is not the one the user was asked with: the approval is
    invalidated and the request denied, yet the grant is created, and the next
    request of the agent gets its capability without anyone being asked. *)
Theorem rejected_approval_becomes_grant :
  let created := ui_create_grant (grant_params []) waiting in
  let w := snd created in
  let w' := run_calls Macos [CallHeartbeat heartbeat; CallPrepare example_page;
    CallAction agent_id another_request] w in
  state_of request_id waiting = Some ActionRequestState.AwaitingApproval /\
  match fst created with
  | Done r => ar_state (gc_decision r) = ActionRequestState.Denied /\ ug_active (gc_grant r) = true
  | _ => False
  end /\
  state_of request_id w = Some ActionRequestState.Denied /\
  state_of (MkId "req_2") w' = Some ActionRequestState.CapabilityIssued /\
  releases (token_of w') (CallConsume (consume_params w')) w' = true.
Proof. vm_compute. by split_and!. Qed.

(** A disabled agent goes on. Disabling revokes what the agent was issued,
    but its pending approval stays and its enrollment too: the approval given
    afterwards mints a capability the executor can consume, and where the policy
    does not ask for presence the agent is served as before. *)
Theorem disabled_agent_is_still_served :
  let disabled w := ui_disable_agent agent_id w in
  let w := snd (disabled waiting) in
  let '(i, digest) := approval_of waiting in
  let w' := run_calls Macos [CallPrepare example_page; CallDecide i true digest "user" true] w in
  let free := run_calls Macos [CallPrepare example_page; CallAction agent_id example_request]
                (snd (disabled (enrolled_broker false))) in
  fst (disabled waiting) = Done {| gv_revoked := 0 |} /\
  state_of request_id w' = Some ActionRequestState.CapabilityIssued /\
  releases (token_of w') (CallConsume (consume_params w')) w' = true /\
  is_ok (get_enrolled_agent (store (w_broker free)) (id_str agent_id)) = true /\
  state_of request_id free = Some ActionRequestState.CapabilityIssued.
Proof. vm_compute. by split_and!. Qed.

(** ** Witnesses *)

Lemma pending_view_is_faithful_witness :
  exists rs, fst (ui_pending_approvals waiting) = Done rs /\ length rs = 1%nat /\
    Sorted (fun a b => ua_expires_at a <= ua_expires_at b) rs.
Proof.
  destruct (evaluates (ui_pending_approvals waiting)) as [rs Hr]; [vm_compute; reflexivity|].
  exists rs. rewrite Hr. split_and!; [reflexivity| |].
  - assert (Hl : match fst (ui_pending_approvals waiting) with
                 | Done l => length l = 1%nat | _ => False end) by (vm_compute; reflexivity).
    rewrite Hr in Hl. exact Hl.
  - exact (proj1 (proj2 (pending_view_is_faithful _ _ _ Hr))).
Defined.

Lemma created_grant_is_bounded_witness : exists r w',
  ui_create_grant (grant_params (snd (approval_of waiting))) waiting = (Done r, w') /\
  ug_expires_at (gc_grant r) = env_now (w_tick waiting) + days 30.
Proof.
  destruct (evaluates (ui_create_grant (grant_params (snd (approval_of waiting))) waiting))
    as [r Hr]; [vm_compute; reflexivity|].
  exists r, (snd (ui_create_grant (grant_params (snd (approval_of waiting))) waiting)).
  split; [exact Hr|].
  destruct (created_grant_is_bounded _ _ _ _ Hr) as (p & i & _ & _ & _ & _ & _ & Hg & _).
  rewrite Hg. reflexivity.
Defined.

Lemma disabling_revokes_what_is_issued_witness : exists r w' agent,
  ui_disable_agent agent_id waiting = (Done r, w') /\
  get_enrolled_agent (store (w_broker waiting)) (id_str agent_id) = Ok agent /\
  approvals (w_broker w') = approvals (w_broker waiting).
Proof.
  destruct (evaluates (ui_disable_agent agent_id waiting)) as [r Hr]; [vm_compute; reflexivity|].
  destruct (disabling_revokes_what_is_issued _ _ _ _ Hr) as (agent & Ha & _ & _ & _ & Hp & _).
  exists r, (snd (ui_disable_agent agent_id waiting)), agent. split_and!; [exact Hr|exact Ha|exact Hp].
Defined.

Definition other_key : KeyPair := {| signing_key := [Byte.x01] |}.

Lemma interface_hides_secrets_witness :
  fst (ui_status (concealed_world (fun c => c) other_key memory_new waiting))
    = fst (ui_status waiting) /\
  match fst (ui_status waiting) with Done s => us_pending_approvals s = 1 | _ => False end.
Proof.
  split; [|vm_compute; reflexivity].
  exact (proj1 (proj2 (interface_hides_secrets (fun c => c) other_key memory_new waiting))).
Defined.
