(* ===== verification/ServerExample.v ===== *)
(** * ServerExample: the theorems about the sockets at concrete inputs

    The broker of [BrokerExample] with an agent and an executor enrolled, behind
    its sockets: an agent that authenticates and asks, the native messaging host
    as executor, and a daemon that accepts both. *)

From S2P Require Import Prelude.
From S2P Require Import Externals.
From S2P Require Import Concrete.
From S2P Require Import Domain.
From S2P Require Import DomView.
From S2P Require Import Policy.
From S2P Require Import Crypto.
From S2P Require Import Enrollment.
From S2P Require Import AuditChain.
From S2P Require Import Capability.
From S2P Require Import Provider.
From S2P Require Import Table.
From S2P Require Import Store.
From S2P Require Import StoreProps.
From S2P Require Import OAuth.
From S2P Require Import Protocol.
From S2P Require Import Framing.
From S2P Require Import BrokerState.
From S2P Require Import Broker.
From S2P Require Import Admin.
From S2P Require Import Pages.
From S2P Require Import Wire.
From S2P Require Import Handshake.
From S2P Require Import Bridge.
From S2P Require Import BridgeProps.
From S2P Require Import Server.
From S2P Require Import ServerProps.
From S2P Require Import ServerSessions.
From S2P Require Import Agreement.
From S2P Require Import PagesProps.
From S2P Require Import BrokerRuns.
From S2P Require Import Daemon.
From S2P Require Import DaemonRuns.
From S2P Require Import BrokerExample.

Import DomExample.

#[local] Existing Instance example_http.

#[export] Instance example_reader : JsonReader := {|
  json_read bytes := json_parse (from_bytes bytes) |}.
#[export] Instance example_reader_laws : JsonReaderLaws.
Proof.
  split. intros v. unfold json_read, example_reader, to_vec.
  by rewrite from_as_bytes, json_round_trip.
Qed.
#[export] Instance example_peer : PeerProcess := {|
  executable_of _ _ := Some "/usr/bin/agent"; read_file _ _ := Some [Byte.x01];
  path_eqb := String.eqb |}.
#[export] Instance example_yaml : PolicyYaml := {| from_yaml _ := Err "invalid" |}.
#[export] Instance example_serializer : PolicySerializer := {| policy_to_vec _ := [] |}.
(** Of the records that cross these sockets only the parameters of a consumption
    and of a decision are read: those of the example. *)
#[export] Instance example_serde : Serde := {|
  from_value T w v :=
    match w, v with
    | WExecutorConsume, JNull => Ok (consume_params (snd answered))
    | WApprovalDecide, JObject _ => Ok {|
        ad_approval_id := MkId "apr_1"; ad_decision := "deny"; ad_context_digest := [];
        ad_presence_verified := false |}
    | _, _ => Err "invalid type"
    end;
  to_value T w _ := Ok JNull |}.
#[export] Instance example_tasks : OtherTasks MemorySecretProvider := {| other_tasks w := w |}.
#[export] Instance example_tasks_laws : OtherTasksLaws.
Proof. by split. Qed.
#[export] Instance example_cipher : EnvelopeCipher := {|
  aes256_gcm_encrypt key nonce aad m := aead_encrypt (len_prefixed key ++ aad) nonce m;
  aes256_gcm_decrypt key nonce aad c := aead_decrypt (len_prefixed key ++ aad) nonce c |}.
#[export] Instance example_cipher_laws : EnvelopeCipherLaws.
Proof. split. intros key nonce aad m c. apply aead_round_trip. Qed.
#[export] Instance example_variables : ProcessVariables := {| env_var name := Some name |}.
#[export] Instance example_proofs : ProofReader := {| proof_from_value _ := Err "invalid" |}.

(** ** The broker, with two principals that have a key *)

Definition principal_key : KeyPair := {| signing_key := be_bytes 32 5 |}.
Definition principal (name role : string) : AgentPrincipal := {|
  ag_agent_id := MkId name; ag_role := role; ag_public_key := public_key_bytes principal_key;
  ag_display_name := name; ag_peer_uid := Some 501; ag_executable_path := Some "/usr/bin/agent";
  ag_executable_hash := Some (sha256_digest [Byte.x01]);
  ag_state := "enrolled"; ag_created_at := env_now 0 |}.
Definition cred : UCred := {| peer_uid := 501; peer_pid := Some 42 |}.
Definition world : World MemorySecretProvider :=
  run_calls Macos [CallRepository (OpInsertAgent (principal "agent_1" "agent"));
    CallRepository (OpInsertAgent (principal "agent_2" "executor"))] (ready false).
Definition ephemeral : StaticX25519 := {| x_secret := be_bytes 32 9 |}.

(** ** An agent that authenticates *)

Definition agent_hello : SessionHelloParams := {|
  sh_protocol_version := "1.0"; sh_role := "agent"; sh_principal_id := "agent_1";
  sh_client_nonce := "n"; sh_supported_suites := [SUITE] |}.
Definition framed_request (method : string) (params : Json) : list byte :=
  to_vec (request_to_value (bridge_request_of "1" method params)).
Definition turn (c : AgentConnection) (wire : list byte) (w : World MemorySecretProvider) :
    option (list byte * AgentConnection) * World MemorySecretProvider :=
  match agent_message Macos cred c wire w with
  | (Done r, w) => (Some r, w)
  | (_, w) => (None, w)
  end.
Definition connection (o : option (list byte * AgentConnection)) : AgentConnection :=
  default new_agent_connection (snd <$> o).

Definition hello_wire : list byte := framed_request "session.hello" (hello_to_value agent_hello).
Definition greeted := turn new_agent_connection hello_wire world.
Definition auth_wire : list byte :=
  framed_request "session.authenticate" (authenticate_to_value
    match pending_handshake (connection (fst greeted)) with
    | Some (_, started) => authentication principal_key agent_hello (hs_server_nonce started)
        (ephemeral_public (hs_server_ephemeral started)) ephemeral
    | None => {| sa_client_ephemeral_public_key := ""; sa_signature := "" |}
    end).
Definition authenticated := turn (connection (fst greeted)) auth_wire (snd greeted).

Lemma turn_runs c wire w :
  is_some_and (fun _ => true) (fst (turn c wire w)) = true ->
  exists sent, agent_message Macos cred c wire w
    = (Done (sent, connection (fst (turn c wire w))), snd (turn c wire w)).
Proof.
  unfold turn. destruct (agent_message _ _ _ _ _) as [[[sent c']|e|] w']; [|done..]. by exists sent.
Qed.

Lemma agent_authenticated :
  agent_run Macos cred [(world, hello_wire); (snd greeted, auth_wire)]
    (connection (fst authenticated)).
Proof.
  destruct (turn_runs new_agent_connection hello_wire world) as [s1 H1]; [vm_compute; reflexivity|].
  destruct (turn_runs (connection (fst greeted)) auth_wire (snd greeted)) as [s2 H2];
    [vm_compute; reflexivity|].
  exact (run_frame Macos cred [(world, hello_wire)] _ _ _ _ _ _
    (run_frame Macos cred [] _ _ _ _ _ _ (run_new Macos cred) H1) H2).
Qed.

Lemma served_agent_is_vouched_witness : exists channel,
  secure_channel (connection (fst authenticated)) = Some channel /\
  vouched cred [(world, hello_wire); (snd greeted, auth_wire)] (MkId "agent_1") channel.
Proof.
  refine (served_agent_is_vouched Macos cred _ _ (MkId "agent_1") agent_authenticated _).
  vm_compute. reflexivity.
Defined.

(** The agent's end of the channel, and a second attempt to authenticate. *)
Definition agent_end : SecureChannel :=
  match pending_handshake (connection (fst greeted)) with
  | Some (_, started) => new_client
      (diffie_hellman ephemeral (ephemeral_public (hs_server_ephemeral started)))
      (as_bytes (hs_server_nonce started)) AGENT_INFO
  | None => new_client [] [] []
  end.
Definition sealed (channel : SecureChannel) (message : list byte) : list byte :=
  default [] (result_ok (fst (encrypt channel message))).
Definition again_wire : list byte := sealed agent_end auth_wire.

Lemma agent_answers_are_sealed_except_one_witness : exists sent c' w',
  agent_message Macos cred (connection (fst authenticated)) again_wire (snd authenticated)
  = (Done (sent, c'), w') /\
  sent = to_vec (response_to_value (hello_required (RpcString "1"))).
Proof.
  destruct (turn_runs (connection (fst authenticated)) again_wire (snd authenticated))
    as [sent Hs]; [vm_compute; reflexivity|].
  exists sent. do 2 eexists. split; [exact Hs|].
  destruct (agent_answers_are_sealed_except_one Macos cred _ _ (MkId "agent_1") _ _ _ _ _
    agent_authenticated ltac:(vm_compute; reflexivity) Hs)
    as (channel & channel1 & message & request & Hc & Hd & Hr & Hplain & _).
  assert (Hm : from_slice_strict request_from_value auth_wire = Ok request).
  { rewrite <-Hr. f_equal.
    assert (Hx : fst (decrypt channel again_wire) = Ok auth_wire).
    { assert (channel = default agent_end (secure_channel (connection (fst authenticated)))) as ->
        by (rewrite Hc; reflexivity). vm_compute. reflexivity. }
    rewrite Hd in Hx. injection Hx as ->. reflexivity. }
  assert (Hi : match from_slice_strict request_from_value auth_wire with
    | Ok r => request_rpc_id r = RpcString "1" /\ request_method r = "session.authenticate"
    | Err _ => False end) by (vm_compute; split; reflexivity).
  rewrite Hm in Hi. destruct Hi as [Hi Hmethod]. rewrite (Hplain Hmethod), Hi. reflexivity.
Defined.

Lemma unauthenticated_peers_change_nothing_witness :
  w_broker (snd (agent_message Macos cred new_agent_connection again_wire world))
  = w_broker world.
Proof.
  exact (proj1 (unauthenticated_peers_change_nothing Macos cred again_wire world)
    new_agent_connection eq_refl).
Defined.

(** ** The native messaging host as executor *)

Definition enrolled : AgentPrincipal := principal "agent_2" "executor".
Lemma executor_enrolled : enrolled_executor cred "agent_2" principal_key world enrolled.
Proof. split; vm_compute; reflexivity. Qed.

Lemma handshake_agrees_witness : exists sent awaiting w2,
  socket_message (executor_socket cred) AwaitHello (bridge_start (bridge_hello "agent_2" "n")) world
  = (Done (sent, awaiting), w2).
Proof.
  destruct (handshake_agrees cred "agent_2" "n" principal_key ephemeral world world enrolled
    executor_enrolled) as (sent & awaiting & w2 & Hs & _).
  - reflexivity.
  - reflexivity.
  - vm_compute. reflexivity.
  - vm_compute. discriminate.
  - vm_compute. discriminate.
  - exists sent, awaiting, w2. exact Hs.
Defined.

Definition pair_of_ends : SecureChannel * SecureChannel :=
  (new_client (be_bytes 32 1) [] EXECUTOR_INFO, new_server (be_bytes 32 1) [] EXECUTOR_INFO).
Definition unknown_wire : list byte :=
  sealed (fst pair_of_ends) (framed_request "nothing" (JObject [])).
Definition established : SocketConnection AgentPrincipal :=
  Established enrolled (snd pair_of_ends) 0.

Lemma session_frames_are_sealed_in_order_witness : exists sent c' w',
  socket_connection (executor_socket cred) established [unknown_wire] world
  = (Done (sent, c'), w') /\ length sent = 1%nat.
Proof.
  destruct (socket_connection (executor_socket cred) established [unknown_wire] world)
    as [[[sent c']|e|] w'] eqn:Hs.
  - exists sent, c', w'. split; [reflexivity|].
    exact (proj1 (proj1 (session_frames_are_sealed_in_order cred [unknown_wire] world)
      _ _ _ _ _ _ Hs)).
  - assert (Hx : match fst (socket_connection (executor_socket cred) established [unknown_wire] world)
      with Done _ => True | _ => False end) by (vm_compute; exact I). rewrite Hs in Hx. destruct Hx.
  - assert (Hx : match fst (socket_connection (executor_socket cred) established [unknown_wire] world)
      with Done _ => True | _ => False end) by (vm_compute; exact I). rewrite Hs in Hx. destruct Hx.
Defined.

(** The example's clock reads a second later each time. *)
Lemma nothing_is_served_after_the_deadline_witness :
  fst (socket_message (executor_socket cred) (Established enrolled (snd pair_of_ends) (-600000000000))
    unknown_wire world) = Fail (Anyhow "executor rekey required").
Proof.
  rewrite (proj1 (proj2 (nothing_is_served_after_the_deadline Macos cred unknown_wire world))
    enrolled (snd pair_of_ends) (-600000000000)); [reflexivity|].
  vm_compute. discriminate.
Defined.

Definition awaiting_approval : ActionResponseResult := {|
  ar_request_id := request_id; ar_state := ActionRequestState.AwaitingApproval;
  ar_result_code := None; ar_execution_id := None; ar_evidence_ref := None; ar_grant_id := None;
  ar_completed_at := None |}.

Lemma waiting_calls_end_witness : exists r w',
  wait_for_end true 1000 request_id awaiting_approval (snd asked_for) = (Done r, w').
Proof.
  destruct (proj1 (waiting_calls_end 1000 (snd asked_for) ltac:(discriminate)) true request_id
    awaiting_approval) as (r & w' & Hr & _).
  exists r, w'. exact Hr.
Defined.

(** ** The daemon *)

Definition daemon : Daemon MemorySecretProvider := {|
  dm_world := snd answered; dm_next := 2; dm_agents := ∅;
  dm_executors := <[0%nat := (cred, established)]> (<[1%nat := (cred, established)]> ∅);
  dm_admins := ∅ |}.
Definition consume_wire : list byte :=
  sealed (fst pair_of_ends) (framed_request "executor.consume" JNull).
(** The same frame on both connections. *)
Definition events : list DaemonEvent := [
  AgentAccepted cred; ExecutorFrame 0 consume_wire; MaintenanceTick; ExecutorFrame 1 consume_wire;
  Restarted example_now (example_policy false)].

Lemma others_stay (w : World MemorySecretProvider) : evolves w (other_tasks w).
Proof. change (evolves w w). apply evolves_preorder. Qed.

Example the_secret_is_delivered_once :
  delivered Macos (token_of (snd answered)) events daemon = 1.
Proof. vm_compute. reflexivity. Qed.

Lemma daemon_delivers_at_most_once_witness :
  delivered Macos (token_of (snd answered)) events daemon <= 1 /\
  delivered Macos "forged" events daemon = 0.
Proof.
  assert (Hnd : NoDup (map cpr_capability_id (Store.capabilities (store (w_broker (dm_world daemon))))))
    by (apply (bool_decide_unpack _); vm_compute; exact I).
  split; [exact (proj1 (daemon_delivers_at_most_once Macos others_stay _ events daemon Hnd))|].
  apply (proj1 (proj2 (daemon_delivers_at_most_once Macos others_stay "forged" events daemon Hnd))).
  intros (decoded & Hd & _). vm_compute in Hd. discriminate Hd.
Defined.

Lemma daemon_audit_log_verifies_witness :
  exists rows, audit_events (store (w_broker (dm_world (daemon_run Macos events
      {| dm_world := ready false; dm_next := 0; dm_agents := ∅; dm_executors := ∅; dm_admins := ∅ |}))))
    = audit_events (store (w_broker (ready false))) ++ rows.
Proof.
  exact (proj1 (daemon_audit_log_verifies Macos others_stay events
    {| dm_world := ready false; dm_next := 0; dm_agents := ∅; dm_executors := ∅; dm_admins := ∅ |}
    (example_log_ok false))).
Defined.

(** ** The bridge between extension and broker *)

Definition extension_key : KeyPair := {| signing_key := be_bytes 32 8 |}.
Definition bridge : Bridge := {|
  nb_channel := fst pair_of_ends; nb_session_material := be_bytes 32 3;
  nb_executor_session_proof := Some "proof";
  nb_enrollment := {| extension_id := "ext"; enrolled_key := None; pending_pairing_code := None |};
  nb_extension_challenge := None |}.
Definition consume_frame : list byte :=
  framed_request "executor.consume" (JObject [("session_signature", JString "mine")]).

Lemma extension_cannot_choose_its_identity_witness : exists request wire b' proof fields,
  extension_frame [] bridge consume_frame = Ok (ForwardRequest request wire, b') /\
  nb_executor_session_proof bridge = Some proof /\
  request_params request = Some (JObject fields) /\
  json_get "session_signature" (JObject fields) = Some (JString proof).
Proof.
  destruct (extension_frame [] bridge consume_frame) as [[[payload|request wire] b']|e] eqn:Hr.
  - exfalso. assert (Hx : match extension_frame [] bridge consume_frame with
      Ok (ForwardRequest _ _, _) => True | _ => False end) by (vm_compute; exact I).
    rewrite Hr in Hx. exact Hx.
  - destruct (extension_cannot_choose_its_identity _ _ _ _ _ _ Hr)
      as (original & Ho & _ & _ & _ & _ & Hc & _).
    assert (Hm : match from_slice_strict request_from_value consume_frame with
      Ok r => request_method r = "executor.consume" | Err _ => False end)
      by (vm_compute; reflexivity).
    rewrite Ho in Hm. destruct (Hc Hm) as (proof & fields & Hp & Hf & Hg).
    exists request, wire, b', proof, fields. split; [reflexivity|]. split; [exact Hp|].
    split; [exact Hf | exact Hg].
  - exfalso. assert (Hx : match extension_frame [] bridge consume_frame with
      Ok _ => True | _ => False end) by (vm_compute; exact I).
    rewrite Hr in Hx. exact Hx.
Defined.

Definition consume_request_example : RpcRequest :=
  bridge_request_of "1" "executor.consume" (JObject []).
Definition broker_wire : list byte :=
  sealed (snd pair_of_ends) (to_vec (response_to_value (rpc_success (RpcString "1")
    (JObject [("execution_id", JString "exec_1");
      ("fields", JArray [JString "hunter2"]); ("expires", JNumber 1)])))).

Lemma secrets_reach_the_extension_only_sealed_witness : exists payload b' response',
  broker_frame [] bridge consume_request_example broker_wire = Ok (payload, b') /\
  payload = to_vec (response_to_value response').
Proof.
  destruct (broker_frame [] bridge consume_request_example broker_wire)
    as [[payload b']|e] eqn:Hr.
  - destruct (secrets_reach_the_extension_only_sealed _ _ _ _ _ _ Hr)
      as (message & response & response' & _ & _ & Hp & _).
    exists payload, b', response'. split; [reflexivity | exact Hp].
  - exfalso. assert (Hx : match broker_frame [] bridge consume_request_example broker_wire with
      Ok _ => True | _ => False end) by (vm_compute; exact I).
    rewrite Hr in Hx. exact Hx.
Defined.

(** ** The signatures of a handshake *)

Lemma short_slices (l : list (list byte)) :
  forallb (fun s => blen s <? 2 ^ 63) l = true -> Forall slice_ok l.
Proof.
  intros Hl. apply list.Forall_forall. intros s Hs. apply Z.ltb_lt.
  rewrite forallb_forall in Hl. apply Hl. by apply list_elem_of_In.
Qed.

Lemma signatures_are_for_one_session_witness :
  (sh_protocol_version agent_hello = sh_protocol_version agent_hello /\
   sh_role agent_hello = sh_role agent_hello /\
   sh_principal_id agent_hello = sh_principal_id agent_hello /\
   sh_client_nonce agent_hello = sh_client_nonce agent_hello /\
   "s" = "s" /\ [Byte.x01] = [Byte.x01] /\ [Byte.x02] = [Byte.x02]) \/ collision.
Proof.
  refine (proj1 (signatures_are_for_one_session agent_hello "s" [Byte.x01] [Byte.x02]
    (short_slices _ _)) agent_hello "s" [Byte.x01] [Byte.x02] (short_slices _ _) eq_refl);
    vm_compute; reflexivity.
Defined.
