(* ===== verification/CliExample.v ===== *)
(** * CliExample: concrete installations

    Witnesses of the properties of the command line client, and the installations
    on which its commands lose the log, a secret or a key. *)

From S2P Require Import Prelude.
From S2P Require Import Externals.
From S2P Require Import Concrete.
From S2P Require Import Domain.
From S2P Require Import Policy.
From S2P Require Import Crypto.
From S2P Require Import AuditChain.
From S2P Require Import Provider.
From S2P Require Import Table.
From S2P Require Import Store.
From S2P Require Import BrokerState.
From S2P Require Import Server.
From S2P Require Import Installation.
From S2P Require Import ProcessLogic.
From S2P Require Import KeyFacts.
From S2P Require Import Startup.
From S2P Require Import Cli.
From S2P Require Import KeyProps.
From S2P Require Import Rotation.
From S2P Require Import CommandProps.
From S2P Require Import CliErrors.
From S2P Require Import DomView.
From S2P Require Import OAuth.
From S2P Require Import Protocol.
From S2P Require Import Framing.
From S2P Require Import FramingProps.
From S2P Require Import Broker.
From S2P Require Import Admin.
From S2P Require Import Ui.
From S2P Require Import Pages.
From S2P Require Import Wire.
From S2P Require Import Handshake.
From S2P Require Import Bridge.
From S2P Require Import Agreement.
From S2P Require Import Daemon.
From S2P Require Import AdminClient.
From S2P Require Import CliAdmin.
From S2P Require Import AdminAgreement.
From S2P Require Import BrokerExample.
From S2P Require Import ServerExample.

Import DomExample.

#[local] Existing Instance example_http.

(** ** The surroundings *)

#[export] Instance example_file_errors : FileErrors := {|
  missing_file_text := "No such file or directory (os error 2)";
  not_utf8_text := "stream did not contain valid UTF-8" |}.
#[export] Instance example_recipes : RecipeFiles := {|
  dir_order l := l; recipe_from_str _ := Err "invalid" |}.
#[export] Instance example_terminal : Terminal := {|
  typed_line _ := Some "github"; typed_input _ := Some "correct horse";
  typed_secret _ := Some "battery staple"; terminal_error_text := "error" |}.
#[export] Instance example_host : CommandHost := {|
  directory_owner := Some 501; environment_variable _ := None;
  host_file _ _ := None; canonical_path _ path := Some path |}.
#[export] Instance example_printing : Printing := {|
  agents_json _ := EmptyString; credentials_json _ := EmptyString; event_json _ := EmptyString;
  decision_json _ := EmptyString; policy_to_yaml _ := "version"; day_text _ := EmptyString;
  clock_text _ := EmptyString; file_stamp _ := EmptyString; text_to_uppercase s := s;
  invalid_time_text := "error" |}.

Definition label : string := "keychain".
Definition computer : Machine MemorySecretProvider := {|
  m_provider := memory_new; m_database := None; m_files := ∅; m_backups := ∅; m_tick := 0;
  m_writes := None; m_output := [] |}.

(** The machine after a command that was stopped after so many changes. *)
Definition after (budget : option nat) (c : Commands) (m : Machine MemorySecretProvider) :
    Machine MemorySecretProvider := snd (run_command label c (set_m_writes m budget)).
Definition verification (m : Machine MemorySecretProvider) : ending unit :=
  fst (run_command label (Audit AuditVerify) m).

Definition initialized : Machine MemorySecretProvider := after None Init computer.

(** An event, as the broker would record it under the active audit key. *)
Definition recorded (m : Machine MemorySecretProvider) : Machine MemorySecretProvider :=
  let s := database m in
  match active_audit_key_version s, list_audit_events s with
  | Ok (Some (version, locator)), Ok events =>
      match create_audit_event (env_uuid (m_tick m)) (Z.of_nat (length events) + 1)
              (last_hash GENESIS_PREVIOUS_HASH events) version
              (default [] (secrets m locator)) "daemon_start" "broker" None
              {| ac_request_id := None; ac_credential_id := None; ac_capability_id := None;
                 ac_browser_session_id := None; ac_target_origin := None; ac_action := None;
                 ac_decision := None; ac_risk_level := None; ac_error_code := None |}
              (env_now (m_tick m)) with
      | Ok event => set_m_database (set_m_tick m (S (m_tick m)))
                      (Some (snd (insert_audit_event event s)))
      | Err _ => m
      end
  | _, _ => m
  end.
Definition in_use : Machine MemorySecretProvider := recorded initialized.

Lemma random_bytes n : length (env_random n) = 32%nat.
Proof. reflexivity. Qed.


(** A rotation that was stopped after [k] changes, and an event after it. *)
Definition stopped_rotation (k : nat) : Machine MemorySecretProvider :=
  recorded (after (Some k) KeysRotate in_use).

Definition broken_at (n : Z) : ending unit :=
  Failed ("Hash chain verification failed at sequence " +:+ format_unsigned n).

(** Key rotation is not atomic. When it is stopped after the new key is in the
    key store and before the new version of the audit key is registered, the log
    still verifies, but the next rotation, run to its end, signs a checkpoint
    under the name of another key, or registers another key under the name that
    signed one, and the log never verifies again. When it is stopped between
    retiring the old signing key and registering the new one, the same comes of
    the next initialization. *)
Theorem interrupted_rotation_breaks_the_next :
  Forall (fun k => verification (stopped_rotation k) = Finished tt /\
    fst (run_command label KeysRotate (set_m_writes (stopped_rotation k) None)) = Finished tt /\
    verification (after None KeysRotate (stopped_rotation k)) = broken_at 2) [2; 4; 5; 6; 7]%nat /\
  verification (stopped_rotation 3) = Finished tt /\
  fst (run_command label Init (set_m_writes (stopped_rotation 3) None)) = Finished tt /\
  verification (after None Init (stopped_rotation 3)) = broken_at 1.
Proof.
  split; [|by vm_compute]. repeat (apply list.Forall_cons; split; [by vm_compute|]).
  by apply list.Forall_nil.
Qed.

(** ** A backup from before a rotation *)

Definition restored : Machine MemorySecretProvider :=
  recorded (after None (RestoreFrom "backup.db")
    (after None KeysRotate (after None (Backup (Some "backup.db")) in_use))).

Definition named_like_key : Commands :=
  CredentialCommand (CredentialAdd (Some "installation-signing-key") TypePassword
    (Some "https://github.com") "keychain" true).

(** A backup and the name of a credential can each take an installation's key
    away. A database that was backed up before a rotation and is restored after it
    verifies, and so does the next rotation; the log it leaves never does. A
    credential that is added under the name of the installation's signing key
    replaces the key, and the next rotation fails on it. *)
Theorem restored_or_reserved_keys_break_rotation :
  (verification restored = Finished tt /\
   fst (run_command label KeysRotate restored) = Finished tt /\
   verification (after None KeysRotate restored) = broken_at 2) /\
  fst (run_command label named_like_key in_use) = Finished tt /\
  fst (run_command label KeysRotate (after None named_like_key in_use))
  = Failed "Invalid key length: expected 32, got 13".
Proof. by vm_compute. Qed.

(** ** The witnesses of the commands *)

Lemma computer_blank : blank computer.
Proof. repeat split; try done. intros row []%elem_of_nil. Qed.

Lemma memory_exists_agrees locator (p : MemorySecretProvider) b :
  exists_secret locator p = Ok b -> b = bool_decide (is_Some (secret_at locator p)).
Proof. rewrite memory_secret_at. cbn. unfold memory_exists. congruence. Qed.

Lemma initialized_installed : installed label initialized.
Proof.
  apply (installed_init label (set_m_writes computer None) initialized); [apply computer_blank|].
  by vm_compute.
Qed.

Lemma initialized_in_order : in_order initialized.
Proof. exact (installed_in_order random_bytes memory_exists_agrees label _ initialized_installed). Qed.

Lemma rotation_keeps_the_log_witness :
  log_verifies (snd (keys_rotate initialized)) /\
  rotated initialized (snd (keys_rotate initialized)).
Proof.
  assert (Hf : fst (keys_rotate initialized) = Finished tt) by (vm_compute; reflexivity).
  destruct initialized_in_order as [Hk Hl].
  pose proof (rotation_keeps_the_log random_bytes initialized Hk Hl) as Hr.
  destruct (keys_rotate initialized) as [e m']. cbn [fst snd] in *. rewrite Hf in Hr. exact Hr.
Defined.

Definition add_github : Commands :=
  CredentialCommand (CredentialAdd (Some "github") TypePassword (Some "https://github.com")
    "keychain" true).


(** The name is there already: the secret is gone afterwards. *)
Lemma credential_add_decides_witness :
  secrets (snd (credential_add (Some "github") TypePassword (Some "https://github.com") "keychain"
    true (after None add_github initialized))) "github" = None.
Proof.
  assert (Ho : is_ok (origin_parse "https://github.com") = true) by (vm_compute; reflexivity).
  destruct (origin_parse "https://github.com") as [origin|e] eqn:E; [|discriminate].
  assert (Ht : name_taken (after None add_github initialized) "github" = true)
    by (vm_compute; reflexivity).
  pose proof (credential_add_decides (after None add_github initialized) "github" TypePassword
    "https://github.com" origin "keychain" "correct horse" ltac:(discriminate) E
    (fun _ => eq_refl) ltac:(vm_compute; reflexivity) (fun _ _ _ => eq_refl) (fun _ _ => eq_refl))
    as Hr.
  destruct (credential_add _ _ _ _ _ _) as [e m']. rewrite Ht in Hr. exact (proj1 (proj2 Hr)).
Defined.

(** ** A log that was tampered with *)

Definition tampered : Machine MemorySecretProvider :=
  let s := database in_use in
  set_m_database in_use (Some (set_audit_events s (map (fun row => {|
    evr_sequence := evr_sequence row; evr_event_id := evr_event_id row;
    evr_event_type := evr_event_type row; evr_actor_type := "agent";
    evr_actor_id := evr_actor_id row; evr_event_json := evr_event_json row;
    evr_audit_key_version := evr_audit_key_version row;
    evr_previous_hash := evr_previous_hash row; evr_event_hash := evr_event_hash row;
    evr_created_at := evr_created_at row |}) (audit_events s)))).

Lemma broken_log_exits_unclassified_witness :
  verification tampered = broken_at 1 /\ exit_status (verification tampered) = Some 10.
Proof.
  destruct (list_audit_events (database tampered)) as [events|e] eqn:He.
  2: { assert (Hx : is_ok (list_audit_events (database tampered)) = true)
         by (vm_compute; reflexivity). rewrite He in Hx. discriminate Hx. }
  destruct (keys_found (secrets tampered) (versions (database tampered))) as [keys|] eqn:Hk.
  2: { assert (Hx : is_Some (keys_found (secrets tampered) (versions (database tampered))))
         by (apply (bool_decide_unpack _); vm_compute; exact I).
       rewrite Hk in Hx. destruct Hx as [? [=]]. }
  assert (Hx : match list_audit_events (database tampered),
      keys_found (secrets tampered) (versions (database tampered)) with
    | Ok events, Some keys => verify_audit_chain events keys = Err (ChainBroken 1)
    | _, _ => False end) by (vm_compute; reflexivity).
  rewrite He, Hk in Hx.
  exact (broken_log_exits_unclassified label tampered events keys _ He Hk Hx).
Defined.

(** ** After a daemon *)

Lemma maintenance_refused_after_daemon_witness :
  fst (run_command label KeysRotate (snd (daemon_process Macos [AgentAccepted cred] true computer)))
  = Failed "stop secretctld before rotating keys".
Proof.
  destruct (start_broker computer) as [e m1] eqn:Hb.
  assert (He : match fst (start_broker computer) with Finished _ => True | _ => False end)
    by (vm_compute; exact I).
  assert (Hs : fst (bind_sockets (snd (start_broker computer))) = Finished tt)
    by (vm_compute; reflexivity).
  rewrite Hb in He, Hs. destruct e as [b| | |]; [|destruct He..].
  destruct (bind_sockets m1) as [e m2] eqn:Hm. cbn [snd] in Hs. rewrite Hm in Hs.
  cbn [fst] in Hs. rewrite Hs in Hm.
  rewrite (proj1 (maintenance_refused_after_daemon Macos label [AgentAccepted cred] true computer
    b m1 m2 Hb Hm)). reflexivity.
Defined.
(** ** A call of the client *)

Definition link : AdminLink MemorySecretProvider := {|
  al_world := world; al_connection := None;
  al_keys := Ok (signing_key (broker_key (w_broker world)),
                 public_key_bytes (broker_key (w_broker world))) |}.
#[local] Instance link_to_broker : AdminPeer (AdminLink MemorySecretProvider) :=
  broker_peer 501 cred.

Lemma link_reachable : reachable 501 cred (broker_key (w_broker world)) link.
Proof.
  split; try (intros; reflexivity); apply Z.leb_le; vm_compute; reflexivity.
Qed.

(** What a call needs of the client and the link after a connection. *)
Definition frame_ready (key : list byte) (nonce : Z) (message : list byte) : bool :=
  match aead_encrypt key (format_nonce nonce) message with
  | Some wire => blen wire <=? max_payload_bytes for_agent
  | None => false
  end.
Lemma frame_ready_spec key nonce message :
  frame_ready key nonce message = true -> exists wire,
    aead_encrypt key (format_nonce nonce) message = Some wire /\ fits for_agent wire.
Proof.
  unfold frame_ready. destruct (aead_encrypt _ _ _) as [wire|]; [|done].
  intros Hw%Z.leb_le. by exists wire.
Qed.

Definition call_ready (c : AdminClient) (l : AdminLink MemorySecretProvider) (method : string)
    (params : Json) (response : RpcResponse) : bool :=
  (ac_next_id c =? 1) && (ch_tx_nonce (ac_channel c) =? 0) && (ch_rx_nonce (ac_channel c) =? 0)
  && match al_connection l with
     | Some (Established tt _ since) =>
         elapsed_seconds since (instant_now (w_tick (other_tasks (al_world l)))) <? REKEY_SECONDS
     | _ => false
     end
  && frame_ready (ch_tx_key (ac_channel c)) 0 (call_bytes c method params)
  && frame_ready (ch_rx_key (ac_channel c)) 0 (to_vec (response_to_value response)).

Lemma ready_served c l method params response w2 :
  call_ready c l method params response = true ->
  json_depth params <= 31 -> keys_distinct params -> params <> JNull -> readable_response response ->
  served method (RpcString "1") (Some params) (later (other_tasks (al_world l)))
  = (Done response, w2) ->
  served_call c l method params response w2.
Proof.
  unfold call_ready. rewrite !andb_true_iff.
  intros (((((Hi%Z.eqb_eq & Ht%Z.eqb_eq) & Hr%Z.eqb_eq) & Hs) & Hq) & Hp) Hd Hk Hn Hread Hserved.
  split; try done.
  - intros ch since Hc. rewrite Hc in Hs. by apply Z.ltb_lt in Hs.
  - by rewrite Ht, Hr.
  - rewrite Ht. by apply frame_ready_spec.
  - by rewrite Hi.
  - rewrite Hr. by apply frame_ready_spec.
Qed.

Definition pong : RpcResponse := rpc_success (RpcString "1") (JObject [("status", JString "ok")]).
Definition connected : result ClientError AdminClient * AdminLink MemorySecretProvider :=
  connect strict_reader link.

Lemma ping_served c l :
  call_ready c l "admin.ping" (JObject []) pong = true ->
  served_call c l "admin.ping" (JObject []) pong (later (other_tasks (al_world l))).
Proof.
  intros Hr. apply ready_served; try done.
  - by repeat constructor.
  - split; [|by vm_compute]. apply readable_success; [by vm_compute|].
    apply distinct_keys; [by vm_compute|]. by repeat constructor.
Qed.

Lemma admin_call_is_one_method_run_witness : exists c c' l',
  fst connected = Ok c /\
  call c "admin.ping" (JObject []) (snd connected)
  = ((Ok (JObject [("status", JString "ok")]), c'), l') /\
  al_world l' = later (al_world (snd connected)).
Proof.
  destruct (admin_call_is_one_method_run 501 cred _ link link_reachable)
    as ((c & l1 & Hc & Hl) & _ & Hcall).
  assert (Hp : match connected with (Ok c, l) => call_ready c l "admin.ping" (JObject []) pong | _ => false end = true)
    by (vm_compute; reflexivity).
  assert (Hconn : connected = (Ok c, l1)) by exact Hc.
  rewrite Hconn in Hp. rewrite Hconn. cbn [fst snd].
  destruct (Hcall c l1 "admin.ping" (JObject []) pong _ Hl (ping_served c l1 Hp))
    as (c' & l' & Hr & Hw & _).
  exists c, c', l'. split; [reflexivity|]. split; [exact Hr|exact Hw].
Defined.
