(* ===== verification/DesktopExample.v ===== *)
(** * DesktopExample: a concrete desktop application

    A window system that satisfies its laws, the application in front of the
    broker of the other examples, and the theorems about it at concrete inputs. *)

From S2P Require Import Prelude.
From S2P Require Import Externals.
From S2P Require Import Concrete.
From S2P Require Import Domain.
From S2P Require Import Policy.
From S2P Require Import Crypto.
From S2P Require Import DomView.
From S2P Require Import Capability.
From S2P Require Import Provider.
From S2P Require Import Store.
From S2P Require Import OAuth.
From S2P Require Import Protocol.
From S2P Require Import Framing.
From S2P Require Import FramingProps.
From S2P Require Import BrokerState.
From S2P Require Import Broker.
From S2P Require Import Admin.
From S2P Require Import Ui.
From S2P Require Import Pages.
From S2P Require Import Wire.
From S2P Require Import Handshake.
From S2P Require Import Bridge.
From S2P Require Import Server.
From S2P Require Import Agreement.
From S2P Require Import Installation.
From S2P Require Import AdminClient.
From S2P Require Import CliAdmin.
From S2P Require Import AdminAgreement.
From S2P Require Import Desktop.
From S2P Require Import DesktopProps.
From S2P Require Import DesktopWatch.
From S2P Require Import DesktopDecisions.
From S2P Require Import BrokerExample.
From S2P Require Import ServerExample.
From S2P Require Import CliExample.

Import DomExample.

#[local] Existing Instance example_http.

(** ** A window system *)

Notation Windows := (gmap string Window).
Definition absent {A : Type} (s : Windows) : result string A * Windows := (Err "no window", s).
Definition on_window (f : Window -> Window) (label : string) (s : Windows) :
    result string unit * Windows :=
  match s !! label with
  | Some w => (Ok tt, <[label := f w]> s)
  | None => absent s
  end.
Definition shown (visible : bool) (w : Window) : Window := {|
  win_route := win_route w; win_visible := visible |}.

#[export] Instance example_windows : WindowSystem Windows := {|
  window_at label s := s !! label;
  build_window label w s :=
    match s !! label with
    | Some _ => (Err "a window with that label exists", s)
    | None => (Ok tt, <[label := w]> s)
    end;
  show_window := on_window (shown true);
  hide_window := on_window (shown false);
  focus_window := on_window id;
  size_window := on_window id;
  scale_factor _ _ := Ok (f64_of_int 2);
  place_window label _ _ := on_window id label;
  send_window label hash := on_window
    (fun w => {| win_route := hash; win_visible := win_visible w |}) label;
  close_window h label s :=
    let '(prevented, s) := h label s in
    (Ok tt, if prevented : bool then s else delete label s)
|}.

Lemma on_window_other f l l' s : l <> l' -> snd (on_window f l s) !! l' = s !! l'.
Proof. intros Hl. unfold on_window. destruct (s !! l); [|done]. by apply lookup_insert_ne. Qed.
Lemma on_window_id l l' s : snd (on_window id l s) !! l' = s !! l'.
Proof.
  unfold on_window. destruct (s !! l) as [w|] eqn:E; [|done]. cbn. unfold id.
  destruct (decide (l = l')) as [<-|Hl]; [by rewrite lookup_insert_eq|].
  by apply lookup_insert_ne.
Qed.

#[export] Instance example_windows_laws : WindowSystemLaws Windows.
Proof.
  split; cbn.
  - intros l l' w s Hl. destruct (s !! l); [done|]. by apply lookup_insert_ne.
  - intros l w s [w' Hw]. by rewrite Hw.
  - intros. by apply on_window_other.
  - intros. by apply on_window_other.
  - intros. apply on_window_id.
  - intros. apply on_window_id.
  - intros. apply on_window_id.
  - intros. by apply on_window_other.
  - intros l s w Hw. right. unfold on_window. rewrite Hw. apply lookup_insert_eq.
  - intros h l l' s Hl. destruct (h l s) as [[] s']; [done|]. by apply lookup_delete_ne.
  - intros h l s _. by destruct (h l s) as [[] s'].
Qed.

(** ** The other surroundings *)

#[export] Instance example_settings : SettingsFile := {|
  settings_from_slice bytes :=
    match bytes with
    | [] => Some {| notification_detail := NotificationDetail.Disabled; confirm_completion := false |}
    | _ => None
    end;
  settings_to_vec_pretty _ := [Byte.x00] |}.
#[export] Instance example_writable : WritableFiles := {| write_error _ _ := None |}.
(** The user confirms the first prompt and refuses the others. *)
#[export] Instance example_presence : LocalAuthentication := {|
  presence_outcome n := PresenceReplied (n =? 0)%nat |}.
#[export] Instance example_path : InstallationPath := {|
  installation_path := "/home/user/.config/secretctl" |}.
#[local] Instance link_to_broker : AdminPeer (AdminLink MemorySecretProvider) :=
  broker_peer 501 cred.

Definition desktop : App (AdminLink MemorySecretProvider) Windows :=
  snd (setup (new_app link ∅ ∅)).

Example desktop_has_its_windows :
  fst (setup (new_app link ∅ ∅ : App (AdminLink MemorySecretProvider) Windows)) = Ok tt /\
  map fst (map_to_list (app_windows desktop)) = [ONBOARDING; POPOVER].
Proof. by vm_compute. Qed.

(** ** The approval window *)

(** The window is opened for a request, closed by the user, and asked for again. *)
Definition opened_once : App (AdminLink MemorySecretProvider) Windows :=
  snd (invoke (OpenApproval "apr_1") desktop).
Definition events : list (DeskEvent (W := AdminLink MemorySecretProvider)) :=
  [CloseClicked APPROVAL; Invoked (OpenApproval "apr_2"); StatusPolled; PendingPolled].

Lemma approval_window_opens_once_witness :
  window_at APPROVAL (app_windows opened_once) = Some (visible_at "/approval/apr_1") /\
  exists w', window_at APPROVAL (app_windows (desk_run events opened_once)) = Some w' /\
    win_route w' = "index.html#/approval/apr_1".
Proof.
  assert (Hw : window_at APPROVAL (app_windows opened_once)
    = Some (visible_at "/approval/apr_1")) by (vm_compute; reflexivity).
  split; [exact Hw|].
  destruct (approval_window_opens_once events opened_once _ Hw) as ((w' & Ha & Hr & _) & _).
  exists w'. split; [exact Ha|exact Hr].
Defined.

Example the_second_request_is_not_shown :
  window_at APPROVAL (app_windows (desk_run events opened_once))
  = Some {| win_route := "index.html#/approval/apr_1"; win_visible := false |}.
Proof. by vm_compute. Qed.

(** ** The loop *)

Lemma interface_follows_the_daemon_witness :
  app_tray (desk_run events desktop)
  = Some (told (app_emitted (desk_run events desktop))) /\
  app_notified (watch_pending (desk_run events desktop)) = app_notified (desk_run events desktop).
Proof.
  destruct (interface_follows_the_daemon link (∅ : Windows) ∅ events) as (Ht & _ & Hp & _).
  fold desktop in Ht, Hp.
  split; [exact Ht|].
  destruct (call_daemon "ui.pending" no_params (desk_run events desktop)) as [r app1] eqn:E.
  assert (Hr : default [] (readable WUiRequests
      (fst (call_daemon "ui.pending" no_params (desk_run events desktop)))) = [])
    by (vm_compute; reflexivity).
  rewrite E in Hr. cbn [fst] in Hr.
  rewrite (Hp r app1 eq_refl) by (rewrite Hr; constructor). rewrite Hr.
  cbn [map List.filter]. cbv zeta. case_match; apply app_nil_r.
Defined.

(** ** A decision *)

(** The application with a session of the client, over the link it is connected
    by. *)
Definition session_of (c : AdminClient) : AdminSession := {|
  as_client := c; as_established_at := 0 |}.
Definition with_session (c : AdminClient) (l : AdminLink MemorySecretProvider) :
    App (AdminLink MemorySecretProvider) Windows := with_connection desktop (Some (session_of c)) l.

Definition digest : string := b64_encode [Byte.x01].
Definition denial : Json := decide_params "apr_1" "deny" [Byte.x01] false.
Definition denied : outcome AnyhowError RpcResponse * World MemorySecretProvider :=
  served "approval.decide" (RpcString "1") (Some denial)
    (later (other_tasks (later (al_world (snd connected))))).
Definition denial_response : RpcResponse :=
  match fst denied with Done response => response | _ => pong end.

Lemma denied_run :
  served "approval.decide" (RpcString "1") (Some denial)
    (later (other_tasks (later (al_world (snd connected))))) = (Done denial_response, snd denied).
Proof.
  unfold denial_response, denied.
  assert (Hd : match fst (served "approval.decide" (RpcString "1") (Some denial)
    (later (other_tasks (later (al_world (snd connected)))))) with Done _ => True | _ => False end)
    by (vm_compute; exact I).
  destruct (served _ _ _ _) as [[response|e|] w2]; [reflexivity|destruct Hd..].
Qed.

Ltac distinct := split; [apply (bool_decide_unpack _); vm_compute; exact I|].

Lemma denial_served c l :
  call_ready c (ticked l) "approval.decide" denial denial_response = true ->
  al_world l = al_world (snd connected) ->
  served_call c (ticked l) "approval.decide" denial denial_response (snd denied).
Proof.
  intros Hr Hw. apply ready_served.
  - exact Hr.
  - by vm_compute.
  - distinct. cbn. repeat split.
  - discriminate.
  - split; [split; [by vm_compute|]|by vm_compute]. vm_compute. repeat split.
    all: apply (bool_decide_unpack _); vm_compute; exact I.
  - unfold ticked, with_world, al_world at 1. rewrite Hw.
    exact denied_run.
Qed.

(** A denial of an approval that is not there: the refusal of the broker comes out
    with its code. *)
Lemma decision_is_one_broker_run_witness : exists c l app',
  fst (connected) = Ok c /\ l = snd connected /\
  invoke (DenyRequest "apr_1" digest) (with_session c l)
  = (Err {| ce_message := "Unknown approval ID"; ce_code := Some (-32602);
            ce_disconnected := false |}, app') /\
  al_world (app_peer app') = snd denied.
Proof.
  destruct (proj1 (admin_call_is_one_method_run 501 cred _ link link_reachable))
    as (c & l & Hc & Hl).
  assert (Hconn : connected = (Ok c, l)) by exact Hc.
  assert (Hp : match connected with
    | (Ok c, l) => call_ready c (ticked l) "approval.decide" denial denial_response
        && negb (is_expiring (session_of c) (instant_now (w_tick (al_world l))))
    | _ => false end = true) by (vm_compute; reflexivity).
  rewrite Hconn in Hp. apply andb_prop in Hp as [Hready Hage]. apply negb_true_iff in Hage.
  assert (Hs : in_session (with_session c l) (session_of c))
    by (split; [reflexivity|split; [exact Hl|exact Hage]]).
  assert (Hd : b64_decode digest = Ok [Byte.x01]) by (vm_compute; reflexivity).
  pose proof (proj1 (decision_is_one_broker_run 501 cred (with_session c l) (session_of c) "apr_1"
    digest Hs)) as H. rewrite Hd in H. destruct H as (Hdeny & _).
  destruct (Hdeny denial_response (snd denied)) as (app' & s' & Hr & Hw & _).
  - apply denial_served; [exact Hready|]. rewrite Hconn. reflexivity.
  - right. apply (bool_decide_unpack _). vm_compute. exact I.
  - exists c, l, app'. rewrite Hconn. split; [reflexivity|]. split; [reflexivity|].
    split; [|exact Hw]. etransitivity; [exact Hr|]. vm_compute. reflexivity.
Defined.
