(* ===== verification/HostExample.v ===== *)
(** * HostExample: a concrete installation of the native messaging host

    The host is installed on a machine that has the pin of its broker, and the
    theorem about it is applied there. *)

From S2P Require Import Prelude.
From S2P Require Import Externals.
From S2P Require Import Concrete.
From S2P Require Import Domain.
From S2P Require Import Policy.
From S2P Require Import Crypto.
From S2P Require Import DomView.
From S2P Require Import Enrollment.
From S2P Require Import Provider.
From S2P Require Import Store.
From S2P Require Import StoreTypes.
From S2P Require Import OAuth.
From S2P Require Import Protocol.
From S2P Require Import Framing.
From S2P Require Import BrokerState.
From S2P Require Import Broker.
From S2P Require Import Pages.
From S2P Require Import Wire.
From S2P Require Import Server.
From S2P Require Import Agreement.
From S2P Require Import Installation.
From S2P Require Import ProcessLogic.
From S2P Require Import Startup.
From S2P Require Import Cli.
From S2P Require Import HostInstall.
From S2P Require Import HostProps.
From S2P Require Import BrokerExample.
From S2P Require Import ServerExample.
From S2P Require Import CliExample.

Import DomExample.

#[local] Existing Instance example_http.

(** The records of the host, as JSON arrays. *)
Definition bytes_to_json (bytes : list byte) : Json := JString (from_bytes bytes).
Definition config_json (c : HostConfig) : Json :=
  JArray [JString (id_str (hc_principal_id c)); JString (hc_extension_id c);
          JString (hc_key_locator c)].
Definition enrollment_json (e : ExtensionEnrollment) : Json :=
  JArray [JString (extension_id e); JArray (map bytes_to_json (option_list (enrolled_key e)));
          JArray (map JString (option_list (pending_pairing_code e)))].

#[export] Instance example_records : HostRecords := {|
  config_from_slice bytes :=
    match json_read bytes with
    | Ok (JArray [JString p; JString e; JString l]) =>
        Ok {| hc_principal_id := MkId p; hc_extension_id := e; hc_key_locator := l |}
    | _ => Err "invalid"
    end;
  config_to_vec c := to_vec (config_json c);
  enrollment_from_slice bytes :=
    match json_read bytes with
    | Ok (JArray [JString id; JArray keys; JArray codes]) =>
        Ok {| extension_id := id;
              enrolled_key := match keys with [JString k] => Some (as_bytes k) | _ => None end;
              pending_pairing_code := match codes with [JString c] => Some c | _ => None end |}
    | _ => Err "invalid"
    end;
  enrollment_to_vec e := to_vec (enrollment_json e);
  manifest_to_string m := as_bytes (nm_path m) |}.

#[export] Instance example_records_laws : HostRecordsLaws.
Proof.
  split.
  - intros [[p] e l]. cbn [config_from_slice config_to_vec example_records].
    by rewrite json_read_print.
  - intros [id k c]. cbn [enrollment_from_slice enrollment_to_vec example_records].
    rewrite json_read_print. destruct k, c; cbn; by rewrite ?as_from_bytes.
Qed.

#[export] Instance example_executable : OwnExecutable := {| current_exe _ := Some "/usr/bin/agent" |}.
#[local] Instance host_with_files : CommandHost := {|
  directory_owner := Some 501; environment_variable _ := Some "/home/user";
  host_file _ _ := Some [Byte.x01]; canonical_path _ path := Some path |}.

Definition pinned_key : list byte := be_bytes 32 7.
Definition host_computer : Machine MemorySecretProvider :=
  set_m_files computer {[BROKER_KEY_PUB := pinned_key]}.
Definition host_installed : ending unit * Machine MemorySecretProvider :=
  host_install Macos MANAGED_EXTENSION_ID host_computer.

Example host_installation_finishes : fst host_installed = Finished tt.
Proof. by vm_compute. Qed.

(** The world of a broker over the database that the installation left. *)
Definition host_world (m : Machine MemorySecretProvider) : World MemorySecretProvider := {|
  w_broker := set_store (w_broker world) (database m); w_tick := w_tick world |}.

Lemma host_computer_ready : well_typed (database host_computer) /\ readable_config host_computer.
Proof. split; [apply wt_empty|]. intros config (bytes & Hb & _). discriminate Hb. Qed.

Definition other_user : UCred := {| peer_uid := 502; peer_pid := Some 42 |}.

(** The host that was installed starts, and is an executor to its broker; the same
    executable run by another user is not. *)
Lemma installed_host_is_enrolled_witness :
  exists config key enrolled,
    fst (host_start (extension_origin MANAGED_EXTENSION_ID) (snd host_installed))
    = Finished (started_as config key pinned_key) /\
    enrolled_executor cred (id_str (hc_principal_id config)) key (host_world (snd host_installed)) enrolled /\
    forall hello, sh_principal_id hello = id_str (hc_principal_id config) ->
      forall a w', executor_accept other_user hello (host_world (snd host_installed)) <> (Done a, w').
Proof.
  destruct host_computer_ready as [Hwt Hread].
  assert (Hf : host_install Macos MANAGED_EXTENSION_ID host_computer
    = (Finished tt, snd host_installed)).
  { pose proof host_installation_finishes as Hf. unfold host_installed in *.
    destruct (host_install _ _ _) as [e m']. cbn [fst snd] in *. by rewrite Hf. }
  assert (Hpin : m_files host_computer !! BROKER_KEY_PUB = Some pinned_key)
    by (vm_compute; reflexivity).
  assert (Hlen : length pinned_key = 32%nat) by (vm_compute; reflexivity).
  assert (Hown : match directory_owner with Some uid => u32_range uid | None => True end)
    by (vm_compute; split; [discriminate|reflexivity]).
  pose proof (installed_host_is_enrolled Macos random_bytes memory_exists_agrees Hown) as Hthm.
  generalize dependent (snd host_installed). intros m' Hf.
  destruct (Hthm MANAGED_EXTENSION_ID host_computer m' pinned_key Hwt Hread Hpin Hlen Hf)
    as (_ & config & key & path & bytes & (i & j & k & exe & [= <-] & [= <-] & [= <-]) & Hstart &
        _ & Hbroker & _).
  destruct (proj1 (Hbroker (host_world m') cred eq_refl)) as [enrolled Henrolled].
  { split.
    - intros uid [= <-]. reflexivity.
    - exists 42, "/usr/bin/agent", [Byte.x01]. repeat split. }
  exists config, key, enrolled. split; [exact Hstart|]. split; [exact Henrolled|].
  intros hello Hid. apply (proj2 (Hbroker (host_world m') other_user eq_refl) hello Hid).
  intros [Huid _]. specialize (Huid 501 eq_refl). discriminate Huid.
Defined.

(** An installation that is killed while it writes [native-host.json] leaves the
    file empty: the host does not start, and cannot be installed again. *)
Definition killed_installation : ending unit * Machine MemorySecretProvider :=
  host_install Macos MANAGED_EXTENSION_ID (set_m_writes host_computer (Some 3%nat)).

Example killed_installation_is_not_repeated :
  fst killed_installation = Killed /\
  m_files (snd killed_installation) !! NATIVE_HOST_JSON = Some [] /\
  let m' := set_m_writes (snd killed_installation) None in
  fst (host_start (extension_origin MANAGED_EXTENSION_ID) m') = Failed "invalid" /\
  fst (host_install Macos MANAGED_EXTENSION_ID m') = Failed "invalid".
Proof. by vm_compute. Qed.
