(* ===== verification/LauncherExample.v ===== *)
(** * LauncherExample: a concrete launch of Chrome

    A Chrome that answers as it should, one that does not list its extensions,
    and the theorem about launches at them. *)

From S2P Require Import Prelude.
From S2P Require Import Externals.
From S2P Require Import Concrete.
From S2P Require Import Domain.
From S2P Require Import Crypto.
From S2P Require Import DomView.
From S2P Require Import Gateway.
From S2P Require Import Protocol.
From S2P Require Import BrokerState.
From S2P Require Import Broker.
From S2P Require Import Launcher.
From S2P Require Import LauncherProps.
From S2P Require Import BrokerExample.

Definition frame_of (v : Json) : list byte := as_bytes (json_print v) ++ [Byte.x00].
Definition loaded_answer (id : string) : Json :=
  JObject [("id", JNumber 1); ("result", JObject [("id", JString id)])].
Definition listed_answer : Json :=
  JObject [("id", JNumber 2); ("result", JObject [("extensions", JArray [
    JObject [("id", JString MANAGED_EXTENSION_ID); ("version", JString "1.0.0");
             ("enabled", JBool true)]])])].
Definition refused_answer : Json :=
  JObject [("id", JNumber 2); ("error", JObject [("message", JString "not now")])].

(** A system on which every call succeeds, and a Chrome that gives those answers. *)
Definition chrome_that_answers (answers : list Json) : ChromeHost := {|
  temp_dir := "/tmp"; system_error _ := None; resolve_path _ path := Ok path;
  open_binary _ _ := Ok (Ok [Byte.x01]); is_file _ _ := true; path_exists _ _ := true;
  which _ _ := None; map_descriptors _ := None;
  spawn_chrome _ _ := Ok ({|
    pipe_incoming := flat_map frame_of answers; pipe_read_error := None; pipe_written := [];
    pipe_room := None; pipe_write_error := EmptyString; pipe_next_id := 1 |},
    [Some "profile /tmp/p is locked"; None; Some "unread"]);
  kill_error _ := None; json_pretty v := as_bytes (json_print v) |}.

Definition chrome_launcher : BrowserLauncher :=
  with_native_host "/usr/bin/host" (launcher_new "/usr/bin/chrome" "/usr/share/extension").
Definition quiet_world : LaunchWorld := {| lw_files := ∅; lw_children := ∅; lw_tick := 7 |}.

Definition launch_with (answers : list Json) : result GatewayError LaunchedBrowser * LaunchWorld :=
  launch (H0 := chrome_that_answers answers) chrome_launcher (Some "/tmp/p") false quiet_world.
Definition good_answers : list Json := [loaded_answer MANAGED_EXTENSION_ID; listed_answer].

Example launch_finishes :
  (lb_process <$> result_ok (fst (launch_with good_answers))) = Some (Some 23%nat) /\
  (lb_startup_diagnostics <$> result_ok (fst (launch_with good_answers)))
  = Some ["profile [managed-profile] is locked"].
Proof. by vm_compute. Qed.

Example foreign_extension_is_rejected :
  let r := launch_with [loaded_answer "aaaa"; listed_answer] in
  fst r = Err (LaunchFailed "Chrome loaded an extension with an unexpected identity") /\
  lw_children (snd r) = ∅.
Proof. by vm_compute. Qed.

(** The Chrome whose extensions could not be listed is left running. *)
Example unlisted_chrome_is_left :
  let r := launch_with [loaded_answer MANAGED_EXTENSION_ID; refused_answer] in
  fst r = Err (Transport "Chrome rejected Extensions.getExtensions: not now") /\
  map fst (map_to_list (lw_children (snd r))) = [23%nat].
Proof. by vm_compute. Qed.

Lemma launch_admits_the_managed_extension_witness :
  launch_outcome (H0 := chrome_that_answers good_answers) chrome_launcher (Some "/tmp/p") quiet_world
    (launch_with good_answers) /\
  is_ok (fst (launch_with good_answers)) = true.
Proof.
  split; [|vm_compute; reflexivity].
  refine (proj1 (launch_admits_the_managed_extension (H0 := chrome_that_answers good_answers)
    chrome_launcher (Some "/tmp/p") quiet_world _)).
  intros child [c Hc]. discriminate Hc.
Defined.
